(* ===== verification/_CoqProject ===== *)
-Q . S2P
Prelude.v
Regex.v
Base64.v
Extractor.v
Classifier.v
Logo.v
Templates.v
Gmail.v
Reply.v
Pipeline.v
Polling.v
Auth.v
Server.v
Json.v
Shutdown.v
Progress.v
Startup.v
Fields.v
Issue.v
Name.v
