(* ===== verification/Prelude.v ===== *)
(** * Candidate support automation: a verification development

    The program (under [src/]) reads the unread mail of a Gmail support
    account, recognises messages about an assessment that does not start
    and answers them with a fixed reply.  Its parts and how they call each
    other:
    - the orchestrator ([server.js], [main.js], [main-continuous.js]) asks
      [gmailReader.js] for a batch of at most 50 unread messages, then for
      each message calls, in this order, [extractInfo] ([extractor.js]),
      [classifyIssue] ([classifier.js]), on a [YES] verdict
      [generateStartButtonIssueResponse] ([templates.js], which embeds the
      logo of [logoUtils.js]) and [sendReply] ([reply.js]), and finally
      [markAsRead] ([reply.js]); an exception of one message is caught
      and the loop goes on;
    - the extractor turns a Gmail message into a ticket: sender from the
      [From] header, body from the MIME tree (HTML cleaned by regular
      expressions), then candidate e-mail, name and issue from labelled
      fields of the body;
    - the classifier answers [YES] or [NO] in three tiers: a keyword
      guard, then a language-model service, then (when the service throws)
      a regular expression;
    - the dispatcher builds a MIME message and submits it base64url-encoded.

    Files, in dependency order:
    - [Prelude]: the JavaScript string built-ins the sources use ([trim],
      [toLowerCase], [includes], [split], [join], truthiness and [||]),
      the sum-type error monad of the throwing functions with its notation
      [x <-? m ;; k], the hint databases [js] and [js_rw], and the shared
      lemmas on strings.
    - [Regex]: the ECMAScript regular expressions the sources use, as a
      backtracking matcher in continuation-passing style ([mt], [run]),
      [exec], [test], [match], [replace] with and without [g], and
      [split(...)[0]]; a declarative semantics [matches] with soundness and
      completeness of the matcher and the leftmost-match property of [exec].
    - [Base64]: Node's [Buffer] conversions: UTF-8 encoding and decoding
      of code points 0..255 and base64 encoding and (lenient) decoding,
      with the round trip [b64_roundtrip] and [utf8_roundtrip].
    - [Extractor]: [extractInfo] and [decodeBase64] of [extractor.js].
    - [Classifier]: [classifyIssue] of [classifier.js]; the language model
      is the class [ReasoningService] (one method, [complete]), so every
      theorem holds for every service, including one that throws.
    - [Logo]: [loadLogoAsBase64] and [getLogo] of [logoUtils.js]; the file
      system and the environment variables are the record [assets].
    - [Templates]: [generateStartButtonIssueResponse] and
      [getStartButtonIssueSubject] of [templates.js].
    - [Gmail]: the Gmail API as the class [GmailApi] (list, get, send,
      modify) with the laws [GmailApiLaws] the pipeline relies on, and a
      reference implementation [gmail_model] over an explicit [mailbox]
      (messages, unread labels, sent requests) in which each call can be
      made to fail ([faults]).
    - [Reply]: [sendReply] and [markAsRead] of [reply.js].
    - [Pipeline]: [readUnreadMessages] of [gmailReader.js]; the loop body
      [processMessage], the loop [processAll] and the three entry points
      ([processEmails_server], [main_run], [processEmails_continuous]).
    - [Polling]: the timer of [main-continuous.js] and [server.js]
      ([processEmails(); setInterval(processEmails, 10 min)]) in two
      views: [system_step], where a run is one step (under any faults and
      any service) and mail arrives between runs; and the process
      [conc_step], where a run is a sequence of small steps [run_step],
      one per [await] (authorize and list; per message extract and
      classify, send, mark; leave the loop), run by the fuel interpreter
      [run_f], and the runs the timer starts interleave at those steps.
    - [Shutdown]: the [SIGINT] handler of [main-continuous.js], which
      calls [process.exit(0)] at once, and new starts of the program: the
      process [proc_step] is running (a [conc_state]) or exited, and a new
      start runs the top level again on the account the old process left.
    - [Progress]: the runs of [main-continuous.js] against a faultless
      Gmail service, with the unread messages split into those that
      extract ([answerable]) and those whose extraction throws
      ([stuck]).
    - [Auth]: [authorize], [getNewToken] and [storeToken] of
      [gmailAuth.js]: where credentials and token come from, the client
      configuration, refresh and storage of the token, the consent prompt
      and the final rewriting of errors; JSON parsing, the file system,
      the prompt and the OAuth2 library are inputs ([auth_env]).  The
      pipeline takes how [await authorize()] settles (a client, an
      error, or never) as [cfg_auth].
    - [Json]: the token file of [gmailAuth.js]: [storeToken] writes
      [JSON.stringify(token, null, 2)] (modelled after ECMA-262, with the
      quoting of strings and a gap of two spaces) in UTF-8, and the next
      start-up reads it back with [JSON.parse] (a recursive-descent
      parser of the JSON grammar; numbers are integers in [json]).
    - [Server]: the rest of [server.js]: [PORT], the two health routes
      under Express's routing defaults ([app_handle]), the start-up order
      and the server process [server_step], whose steps are those of
      [conc_step] or answered requests.
    - [Startup]: the composition of [Auth] with the runs: [with_auth]
      sets [cfg_auth] from [authorize] of an [auth_env].
    - [Fields]: the backtracking matcher of [Regex] run on the first of
      the [emailPatterns] of [extractor.js] ([re_email_id]) over a body
      holding the field [Candidate Email ID: ] and an address; and the
      composition of extractor, classifier, composer and dispatcher on
      such a form as Gmail delivers it ([processMessage] against the
      faultless [gmail_model]).
    - [Issue]: the issue pattern [re_issue] (lazy capture, look-ahead
      [issue_ahead] for [Thank you] or the end of the body) on a body
      holding [Issue: ] and a description.
    - [Name]: the full-name pattern [re_full_name] (lazy capture,
      look-ahead [name_ahead] for the next field label, [Subject],
      [Issue] or the end) on a body holding [Candidate Full Name: ],
      the name followed by a stop phrase or by a line break.

    State and effects.  Functions that throw return [extract_error + _] or
    [send_error + _] (or [None]); state is passed explicitly: the mailbox
    is threaded through the loop, and the [Date.now()]/[Math.random()]
    values of a MIME boundary are inputs ([clock]).  Strings are Stdlib
    strings of code points 0..255; the sources' data are ASCII or Latin-1.

    What the theorems show, by group:
    - polling: in every state of the process with overlapping runs every
      reply sent has a first line [To:] with the address extracted from a
      message and no CR/LF (an invariant, by rule induction on
      [conc_step]); the small steps of a run lead to its end exactly with
      the account the whole run gives (equivalence), and a run ends
      within 152 steps (termination); the one-step driver is the process
      under schedules without overlap (refinement); without overlap a
      message marked read is never answered again, and a two-run
      schedule shows overlapping runs answering one message twice;
    - interruption: replies stay addressed across [SIGINT] and new starts
      (an invariant of [proc_step]); wherever [SIGINT] cuts a run, the
      account is what the loop over a prefix of its batch gives, plus at
      most the reply of the next message sent and not yet marked (by
      rule induction on the run's steps, with [run_prefix]); a scenario
      with one run at a time shows that window giving a duplicate reply
      after the next start;
    - pipeline: with a faultless service the loop refines the
      specification's per-message contract [spec_handle] seen through the
      abstraction [abs]; a message loses its unread label only after its
      reply was sent or when none was needed; failures are isolated per
      message; an answered message gets exactly one reply, in its thread,
      addressed to the candidate, greeting the cleaned name and embedding
      the logo; the three entry points leave the same account; the
      report's counters are bounded and count the replies really sent;
      [main.js] exits with 1 exactly on a fatal error; a batch whose
      messages all fail extraction blocks every later run; scenarios show
      a send failure leaving a message unread and a duplicate reply after
      a failed [markAsRead];
    - progress: with a faultless service and fewer than 50 stuck
      messages, each run marks at least one answerable message read, so
      as many runs as there are answerable messages leave only the stuck
      ones unread (liveness, by induction on the number of runs with the
      count of answerable messages as measure); with 50 stuck messages
      listed first nothing moves ([blocked_batch_no_progress]);
    - start-up: with [GMAIL_TOKEN] set every run returns within 152
      steps and no token is written; when the consent prompt waits, every
      run the timer starts waits with it and nothing is ever answered;
    - server: from start-up, under any interleaving of runs and requests,
      replies stay addressed and the health routes answer [200] whatever
      the runs do;
    - extractor: [extractInfo] throws exactly on a missing payload or a
      nameless header; the candidate name is never empty; the candidate
      address has no CR/LF; the cleaned HTML contains no tag; the MIME
      body choice, branch by branch; the specification's example;
      the address of a [Candidate Email ID:] field is read back whole,
      domain included, because the greedy quantifiers try their largest
      count first and the first pattern wins ([Fields]); a form Gmail
      delivers base64url-encoded is answered at that address, in its
      thread, and marked read whatever the verdict ([Fields]); the issue
      closed by [Thank you] is read back whole, and an issue line
      followed by any other line is lost, the issue being empty
      ([Issue]); the name is read up to the next stop phrase, found
      without a word boundary, so [Jane Tissue] becomes [Jane T], and a
      name line followed by another field (such as [Phone:]) is lost, the
      name then coming from the [From] header ([Name]); a message without
      [From] whose body has no [@] gets an empty candidate address;
    - classifier: the verdict on every path (no keyword, service
      failure, blank answer); the prompt lists all the patterns, of which
      there are 59 with one duplicate (lemmas kept beside the claims); the fallback expression is a
      substring test that implies the keyword guard;
    - composer: the cleaned name holds no field label, cleaning is
      idempotent, the HTML always embeds the logo, which is never empty;
      the logo comes from the first candidate file that exists;
    - dispatcher: the base64url payload decodes to the message and uses
      the URL-safe alphabet only, and the extractor reads a body so
      encoded back; message building fails exactly on an object body
      without both parts;
    - authorization: with [GMAIL_TOKEN] set [authorize] ends and writes no
      token file; with both variables set it reads no file; the token
      stored is the one the client uses; the caller sees only two fixed
      error messages, which can blame the wrong source; the token file
      reads back as the token stored, and the next start-up returns the
      same client without prompting or writing.

    Bounds and fuel.  There are two fuels.  [JSON_parse] runs its parser
    with twice the length of the text plus one: each nested call
    consumes a character or follows one that did, and on the text of a
    value the fuel needed, [jsize], is at most its length.  The other is
    [run_f], the interpreter of a run's small steps: [run_f_terminates]
    shows that 152 steps suffice once [authorize()] has settled, because the listing returns at
    most 50 messages (the law [list_unread_bounded]) and a run takes one
    step to list, at most three per message (extract and classify, send,
    mark) and one to leave the loop.  Everything else is
    structurally recursive (the matcher on the pattern with a list of
    iteration counts bounded by the input's length, the global replace on
    the input with a skip counter, base64 three characters at a time by
    [string_ind3]).  The one place where the program may not return, the
    consent prompt of [gmailAuth.js] waiting for input, is an outcome of
    its own ([AuthWaits]); a run whose [authorize()] waits stays at its
    start ([AuthPending]: its step changes nothing, [run_f] runs out of
    fuel, [main_run] never exits).  [Startup] proves that outcome
    unreachable with [GMAIL_TOKEN] set, so every run returns there, and
    shows that when it is reached no run ever gets past its start.

    Not modelled: logging; [dotenv.config()] (the environment is an
    input); the [.catch] of [main()] in [main.js], which only applies
    when [main] rejects, while [main] catches every error of its body;
    the consent URL of [getNewToken] ([SCOPES], [generateAuthUrl]),
    which is only printed; numbers of the JSON text with a fraction or an
    exponent and [\u] escapes above [0xFF], which [json] cannot hold;
    interleaving at the [await]s inside [sendReply] and [markAsRead]
    (each makes one Gmail call, which is the step); the bodies of the
    OpenAI and Gmail services and of Express, which are interfaces
    ([ReasoningService], [GmailApi]) or are modelled from their
    documented defaults (routing in [Server]). *)

From Stdlib Require Import Ascii String.
From stdpp Require Import base list strings.
From Stdlib Require Import Lia.

(** ** JavaScript string primitives

    The sources manipulate JavaScript strings through a handful of
    built-in methods ([toLowerCase], [toUpperCase], [trim], [includes],
    [split], [startsWith], [join]) and through the truthiness of strings
    ([a || b]).  Strings are modelled as Stdlib [string], i.e. sequences of
    code points 0..255 (ASCII and Latin-1); the built-ins below follow the
    ECMAScript definitions on that range. *)

(** stdpp makes [String.append] opaque to [simpl]; the models compute with
    it, so it is restored to reduce on a constructor. *)
Arguments String.append : simpl nomatch.

Declare Scope js_scope.
Delimit Scope js_scope with js.

Definition code (c : ascii) : nat := nat_of_ascii c.

(** [String.prototype.toLowerCase] on one code point: A-Z and the Latin-1
    capitals (except the multiplication sign) move down by 32. *)
Definition lower_char (c : ascii) : ascii :=
  let n := code c in
  if ((65 <=? n) && (n <=? 90)) || ((192 <=? n) && (n <=? 222) && negb (n =? 215))
  then ascii_of_nat (n + 32) else c.

Fixpoint to_lower (s : string) : string :=
  match s with
  | EmptyString => EmptyString
  | String c s' => String (lower_char c) (to_lower s')
  end.

(** [String.prototype.toUpperCase]: a-z and the Latin-1 small letters move
    up by 32, and the sharp s becomes the two letters "SS".  The upper-case
    forms of y-diaeresis and micro sign lie outside 0..255 and are kept. *)
Definition upper_char (c : ascii) : string :=
  let n := code c in
  if (97 <=? n) && (n <=? 122) then String (ascii_of_nat (n - 32)) EmptyString
  else if n =? 223 then "SS"%string
  else if (224 <=? n) && (n <=? 254) && negb (n =? 247)
  then String (ascii_of_nat (n - 32)) EmptyString
  else String c EmptyString.

Fixpoint to_upper (s : string) : string :=
  match s with
  | EmptyString => EmptyString
  | String c s' => (upper_char c ++ to_upper s')%string
  end.

(** WhiteSpace and LineTerminator code points of the range 0..255: tab,
    line feed, vertical tab, form feed, carriage return, space and
    no-break space.  This is the set of [\s] and of [trim]. *)
Definition is_space (c : ascii) : bool :=
  let n := code c in
  ((9 <=? n) && (n <=? 13)) || (n =? 32) || (n =? 160).

(** LineTerminator code points of the range (the characters [.] refuses). *)
Definition is_line_term (c : ascii) : bool :=
  let n := code c in (n =? 10) || (n =? 13).

Fixpoint trim_start (s : string) : string :=
  match s with
  | EmptyString => EmptyString
  | String c s' => if is_space c then trim_start s' else s
  end.

Fixpoint trim_end (s : string) : string :=
  match s with
  | EmptyString => EmptyString
  | String c s' =>
      let t := trim_end s' in
      if is_space c && String.eqb t EmptyString then EmptyString else String c t
  end.

(** [String.prototype.trim]. *)
Definition trim (s : string) : string := trim_end (trim_start s).

(** [String.prototype.includes]: [includes needle s] is [s.includes(needle)]. *)
Fixpoint includes (needle s : string) : bool :=
  String.prefix needle s ||
  match s with
  | EmptyString => false
  | String _ s' => includes needle s'
  end.

(** [String.prototype.startsWith]. *)
Definition starts_with (s prefix : string) : bool := String.prefix prefix s.

(** Truthiness of a string and the [||] operator on strings. *)
Definition truthy (s : string) : bool := negb (String.eqb s EmptyString).

Definition js_or (a b : string) : string := if truthy a then a else b.
Notation "a ||ₛ b" := (js_or a b) (at level 50, left associativity) : js_scope.

(** [s.split(c)[0]] for a one-character separator: the text before the
    first occurrence of [c], or the whole string. *)
Fixpoint split_first (c : ascii) (s : string) : string :=
  match s with
  | EmptyString => EmptyString
  | String x s' => if Ascii.eqb x c then EmptyString else String x (split_first c s')
  end.

(** [Array.prototype.join]. *)
Fixpoint join (sep : string) (l : list string) : string :=
  match l with
  | [] => EmptyString
  | [x] => x
  | x :: l' => (x ++ sep ++ join sep l')%string
  end.

(** [String.prototype.replace] of every occurrence of one character by a
    string (the [/c/g] replacements of the sources). *)
Fixpoint replace_char (c : ascii) (r : string) (s : string) : string :=
  match s with
  | EmptyString => EmptyString
  | String x s' =>
      if Ascii.eqb x c then (r ++ replace_char c r s')%string
      else String x (replace_char c r s')
  end.

(** Decimal rendering of a natural number (template literals [${n}]). *)
Fixpoint digits_rev (fuel n : nat) : string :=
  match fuel with
  | O => EmptyString
  | S f =>
      let d := String (ascii_of_nat (48 + n mod 10)) EmptyString in
      if n <? 10 then d else (digits_rev f (n / 10) ++ d)%string
  end.

Definition show_nat (n : nat) : string := digits_rev (S n) n.

(** A one-character string. *)
Definition chr (n : nat) : string := String (ascii_of_nat n) EmptyString.
Definition dq : string := chr 34.      (** the double quote *)
Definition nl : string := chr 10.      (** the line feed [\n] *)
Definition quoted (s : string) : string := (dq ++ s ++ dq)%string.

(** ** Shared automation *)

Create HintDb js discriminated.
Create Rewrite HintDb js_rw.

Ltac bool_to_prop :=
  repeat match goal with
  | H : (_ && _)%bool = true |- _ => apply andb_prop in H as [? ?]
  | H : (_ || _)%bool = false |- _ => apply orb_false_elim in H as [? ?]
  | H : negb _ = true |- _ => apply negb_true_iff in H
  | H : negb _ = false |- _ => apply negb_false_iff in H
  | H : String.eqb _ _ = true |- _ => apply String.eqb_eq in H
  | H : Ascii.eqb _ _ = true |- _ => apply Ascii.eqb_eq in H
  | H : Nat.eqb _ _ = true |- _ => apply Nat.eqb_eq in H
  | H : Nat.leb _ _ = true |- _ => apply Nat.leb_le in H
  | H : Nat.leb _ _ = false |- _ => apply Nat.leb_gt in H
  end.

(** ** Generic lemmas on strings *)

(** A property of all 256 characters, checked by evaluation. *)
Lemma forall_ascii (P : ascii -> bool) :
  forallb (fun n => P (ascii_of_nat n)) (seq 0 256) = true -> forall c, P c = true.
Proof.
  intros H c. rewrite forallb_forall in H. rewrite <- (ascii_nat_embedding c).
  apply H, in_seq. pose proof (nat_ascii_bounded c). lia.
Qed.

Lemma forall_ascii_impl (P Q : ascii -> bool) :
  forallb (fun n => implb (P (ascii_of_nat n)) (Q (ascii_of_nat n))) (seq 0 256) = true ->
  forall c, P c = true -> Q c = true.
Proof. intros H c Hc. pose proof (forall_ascii (fun c => implb (P c) (Q c)) H c) as Hi. cbv beta in Hi. by rewrite Hc in Hi. Qed.

Lemma string_app_nil_r (s : string) : (s ++ EmptyString)%string = s.
Proof. induction s as [|c s IH]; simpl; [done | by rewrite IH]. Qed.

Lemma string_app_assoc (a b c : string) : (a ++ (b ++ c))%string = ((a ++ b) ++ c)%string.
Proof. induction a as [|x a IH]; simpl; [done | by rewrite IH]. Qed.

Lemma string_length_app (a b : string) :
  String.length (a ++ b) = String.length a + String.length b.
Proof. induction a as [|x a IH]; simpl; lia. Qed.

Lemma prefix_app (p s : string) : String.prefix p (p ++ s) = true.
Proof.
  induction p as [|c p IH]; simpl; [by destruct s |].
  destruct (ascii_dec c c); [done | congruence].
Qed.

Lemma includes_eq (needle s : string) :
  includes needle s =
  String.prefix needle s || match s with EmptyString => false | String _ s' => includes needle s' end.
Proof. by destruct s. Qed.

Lemma includes_prefix (needle s : string) :
  String.prefix needle s = true -> includes needle s = true.
Proof. intros H. by rewrite includes_eq, H. Qed.

Lemma includes_app_r (needle a b : string) :
  includes needle b = true -> includes needle (a ++ b) = true.
Proof.
  intros H. induction a as [|c a IH]; [done |].
  rewrite includes_eq. cbn [String.append]. by rewrite IH, orb_true_r.
Qed.

Lemma prefix_app_l (p a b : string) :
  String.prefix p a = true -> String.prefix p (a ++ b) = true.
Proof.
  revert a. induction p as [|c p IH]; intros [|x a] H; simpl in *; try by destruct b.
  destruct (ascii_dec c x); [by apply IH | done].
Qed.

Lemma includes_app_l (needle a b : string) :
  includes needle a = true -> includes needle (a ++ b) = true.
Proof.
  induction a as [|c a IH]; intros H.
  - destruct needle; [by destruct b | done].
  - rewrite includes_eq in H |- *.
    apply orb_true_iff in H as [H | H].
    + by rewrite (prefix_app_l _ _ _ H).
    + cbn [String.append]. by rewrite IH, orb_true_r.
Qed.

Lemma includes_self (s : string) : includes s s = true.
Proof.
  apply includes_prefix. induction s as [|c s IH]; simpl; [done |].
  destruct (ascii_dec c c); [done | congruence].
Qed.

#[export] Hint Resolve includes_app_l includes_app_r includes_self includes_prefix : js.

Lemma truthy_js_or (a b : string) : truthy b = true -> truthy (a ||ₛ b)%js = true.
Proof. unfold js_or. by destruct (truthy a) eqn:?. Qed.

Lemma js_or_truthy_l (a b : string) : truthy a = true -> (a ||ₛ b)%js = a.
Proof. unfold js_or. by intros ->. Qed.

Lemma js_or_falsy_l (a b : string) : truthy a = false -> (a ||ₛ b)%js = b.
Proof. unfold js_or. by intros ->. Qed.

Lemma js_or_idem (a : string) : (a ||ₛ a)%js = a.
Proof. unfold js_or. by destruct (truthy a). Qed.

#[export] Hint Resolve truthy_js_or : js.
#[export] Hint Rewrite js_or_truthy_l js_or_falsy_l using done : js_rw.

Lemma truthy_String (c : ascii) (s : string) : truthy (String c s) = true.
Proof. done. Qed.

#[export] Hint Resolve truthy_String : js.

Lemma existsb_app_true {A} (f : A -> bool) (l1 l2 : list A) :
  existsb f l1 = true -> existsb f (l1 ++ l2) = true.
Proof. rewrite existsb_app. by intros ->. Qed.

(** ** Fallible computations

    A JavaScript function that may throw is modelled as a value of
    [E + A]: [inl e] is the exception, [inr a] the returned value. *)
Definition bind_sum {E A B} (m : E + A) (k : A -> E + B) : E + B :=
  match m with inl e => inl e | inr a => k a end.

Notation "x <-? m ;; k" := (bind_sum m (fun x => k))
  (at level 100, m at next level, right associativity) : js_scope.

Lemma bind_sum_inr {E A B} (a : A) (k : A -> E + B) : bind_sum (inr a) k = k a.
Proof. done. Qed.

Lemma bind_sum_inr_inv {E A B} (m : E + A) (k : A -> E + B) b :
  bind_sum m k = inr b -> exists a, m = inr a /\ k a = inr b.
Proof. destruct m; simpl; [done | eauto]. Qed.

#[export] Hint Rewrite @bind_sum_inr : js_rw.

(** ** Character predicates over a whole string *)

Fixpoint all_chars (P : ascii -> bool) (s : string) : bool :=
  match s with
  | EmptyString => true
  | String c s' => P c && all_chars P s'
  end.

Lemma all_chars_app P a b :
  all_chars P (a ++ b) = all_chars P a && all_chars P b.
Proof. induction a as [|c a IH]; simpl; [done |]. by rewrite IH, andb_assoc. Qed.

Lemma all_chars_trim_start P s : all_chars P s = true -> all_chars P (trim_start s) = true.
Proof.
  induction s as [|c s IH]; simpl; [done |]. intros H.
  destruct (is_space c); [| done]. apply andb_prop in H as [_ H]. auto.
Qed.

Lemma all_chars_trim_end P s : all_chars P s = true -> all_chars P (trim_end s) = true.
Proof.
  induction s as [|c s IH]; simpl; [done |]. intros H. apply andb_prop in H as [Hc H].
  destruct (is_space c && String.eqb (trim_end s) EmptyString); simpl; [done |].
  rewrite Hc. auto.
Qed.

Lemma all_chars_trim P s : all_chars P s = true -> all_chars P (trim s) = true.
Proof. intros H. by apply all_chars_trim_end, all_chars_trim_start. Qed.

Lemma all_chars_js_or P a b :
  all_chars P a = true -> all_chars P b = true -> all_chars P (a ||ₛ b)%js = true.
Proof. unfold js_or. by destruct (truthy a). Qed.

#[export] Hint Resolve all_chars_trim all_chars_js_or : js.

(** A character that cannot end a header line. *)
Definition no_crlf (c : ascii) : bool := negb (is_line_term c).

Lemma is_line_term_cases c : is_line_term c = true -> c = "010"%char \/ c = "013"%char.
Proof.
  unfold is_line_term, code. intros H. apply orb_true_iff in H as [H | H];
    apply Nat.eqb_eq in H; [left | right];
    rewrite <- (ascii_nat_embedding c), H; reflexivity.
Qed.

(** ** [prefix] and [includes] as decompositions *)

Lemma prefix_split (k s : string) : String.prefix k s = true <-> exists v, s = (k ++ v)%string.
Proof.
  revert s. induction k as [|c k IH]; intros s.
  - split; [by exists s | by destruct s].
  - destruct s as [|x s]; simpl.
    + split; [done | by intros [v ?]].
    + destruct (ascii_dec c x) as [<- | Hne].
      * rewrite IH. split; intros [v Hv]; exists v; [by rewrite Hv | injection Hv as Hv; exact Hv].
      * split; [done | intros [v Hv]; injection Hv; congruence].
Qed.

Lemma includes_split (k s : string) :
  includes k s = true <-> exists u v, s = (u ++ k ++ v)%string.
Proof.
  induction s as [|c s IH]; rewrite includes_eq, orb_true_iff, prefix_split.
  - split.
    + intros [[v Hv] | H]; [by exists EmptyString, v | done].
    + intros (u & v & Hv). destruct u; [left; eauto | done].
  - rewrite IH. split.
    + intros [[v Hv] | (u & v & Hv)]; [by exists EmptyString, v | exists (String c u), v; by rewrite Hv].
    + intros ([|x u] & v & Hv); [left; eauto |].
      injection Hv as -> Hv. right. eauto.
Qed.

Lemma includes_trans (a b c : string) :
  includes a b = true -> includes b c = true -> includes a c = true.
Proof.
  rewrite !includes_split. intros (u1 & v1 & ->) (u2 & v2 & ->).
  exists (u2 ++ u1)%string, (v1 ++ v2)%string. by rewrite !string_app_assoc.
Qed.

Lemma includes_join (sep x : string) (l : list string) :
  In x l -> includes x (join sep l) = true.
Proof.
  induction l as [|y l IH]; [done |]. intros [-> | Hin].
  - destruct l; simpl; [apply includes_self |]. apply includes_app_l, includes_self.
  - destruct l as [|z l]; [done |]. cbn [join]. apply includes_app_r, includes_app_r. auto.
Qed.

(** ** [trim] keeps a middle part and is idempotent *)

Lemma trim_start_suffix s : exists a, s = (a ++ trim_start s)%string.
Proof.
  induction s as [|c s IH]; simpl; [by exists EmptyString |].
  destruct (is_space c); [| by exists EmptyString].
  destruct IH as [a Ha]. exists (String c a). simpl. by rewrite <- Ha.
Qed.

Lemma trim_end_prefix s : exists b, s = (trim_end s ++ b)%string.
Proof.
  induction s as [|c s IH]; simpl; [by exists EmptyString |].
  destruct IH as [b Hb].
  destruct (is_space c && String.eqb (trim_end s) EmptyString) eqn:E.
  - exists (String c s). done.
  - exists b. simpl. by rewrite <- Hb.
Qed.

Lemma trim_infix s : exists a b, s = (a ++ trim s ++ b)%string.
Proof.
  destruct (trim_start_suffix s) as [a Ha]. destruct (trim_end_prefix (trim_start s)) as [b Hb].
  exists a, b. unfold trim. by rewrite <- Hb.
Qed.

Lemma trim_start_idem s : trim_start (trim_start s) = trim_start s.
Proof.
  induction s as [|c s IH]; simpl; [done |].
  destruct (is_space c) eqn:E; [done | simpl; by rewrite E].
Qed.

Lemma trim_end_idem s : trim_end (trim_end s) = trim_end s.
Proof.
  induction s as [|c s IH]; simpl; [done |].
  destruct (is_space c && String.eqb (trim_end s) EmptyString) eqn:E; simpl; [done |].
  by rewrite IH, E.
Qed.

Lemma trim_start_end s : trim_start (trim_end s) = trim_end (trim_start s).
Proof.
  induction s as [|c s IH]; simpl; [done |].
  destruct (is_space c) eqn:Ec; simpl.
  - rewrite <- IH. destruct (String.eqb (trim_end s) EmptyString) eqn:Et; simpl.
    + apply String.eqb_eq in Et. by rewrite Et.
    + by rewrite Ec.
  - by rewrite Ec.
Qed.

Lemma trim_idem s : trim (trim s) = trim s.
Proof.
  unfold trim. by rewrite trim_start_end, trim_start_idem, trim_end_idem.
Qed.

(** A string [trim] leaves alone ends with a character that is not
    blank. *)
Lemma trim_end_fixed_last s :
  trim_end s = s -> s <> EmptyString ->
  exists s0 c, s = (s0 ++ String c EmptyString)%string /\ is_space c = false.
Proof.
  induction s as [|c s IH]; [done |]. intros H _. cbn [trim_end] in H.
  destruct (is_space c && String.eqb (trim_end s) EmptyString) eqn:E; [done |].
  injection H as H. destruct s as [|c' s'].
  - exists EmptyString, c. split; [done |]. cbn in E. by rewrite andb_true_r in E.
  - destruct (IH H ltac:(done)) as (s0 & c0 & -> & Hc0). by exists (String c s0), c0.
Qed.

Lemma trim_fixed_last s :
  trim s = s -> s <> EmptyString ->
  exists s0 c, s = (s0 ++ String c EmptyString)%string /\ is_space c = false.
Proof.
  intros H Hne. apply trim_end_fixed_last; [| done].
  destruct (trim_start_suffix s) as [a Ha]. destruct (trim_end_prefix (trim_start s)) as [b Hb].
  unfold trim in H. rewrite H in Hb.
  assert (Hl : String.length a + String.length b = 0).
  { apply (f_equal String.length) in Ha, Hb. rewrite string_length_app in Ha, Hb. lia. }
  destruct b; [| cbn in Hl; lia]. rewrite string_app_nil_r in Hb. by rewrite Hb in H.
Qed.

Lemma all_chars_impl (P Q : ascii -> bool) s :
  (forall c, P c = true -> Q c = true) -> all_chars P s = true -> all_chars Q s = true.
Proof.
  intros HPQ. induction s as [|c s IH]; [done |]. cbn [all_chars].
  intros [Hc Hs]%andb_prop. by rewrite HPQ, IH.
Qed.
