(* ===== verification/Regex.v ===== *)
(** * JavaScript regular expressions: the subset the sources use

    Every regular expression of [src/extractor.js], [src/classifier.js] and
    [src/templates.js] is built from literal characters, character classes,
    quantified character classes (greedy or lazy, [*], [+], [?], [{n,}]),
    concatenation, alternation, one capturing group, a positive lookahead,
    the end anchor [$], a leading [^] and the [i] flag.  This file gives
    those expressions an abstract syntax [re] and the backtracking matcher
    of ECMAScript (continuation-passing, ordered choice, atomic lookahead),
    and proves it sound and complete for a declarative relation
    [matches].  [exec] is [RegExp.prototype.exec] (leftmost match),
    [replace_all] is [String.prototype.replace] with a [/g] pattern and
    [split_head] is [s.split(re)[0]]. *)

From Stdlib Require Import Ascii String.
From stdpp Require Import base list strings.
From Stdlib Require Import Lia.
From S2P Require Import Prelude.

Open Scope string_scope.

(** ** Syntax *)

(** A character class: a membership test and whether it is negated
    ([[^...]]). *)
Record cset := CSet { cs_mem : ascii -> bool; cs_neg : bool }.

Inductive re :=
| Eps                                             (** the empty pattern *)
| Chr (c : ascii)                                 (** a literal character *)
| Cls (k : cset)                                  (** a class, [.], [\s], ... *)
| Cat (r1 r2 : re)                                (** concatenation *)
| Alt (r1 r2 : re)                                (** [r1|r2] *)
| Rep (k : cset) (lo : nat) (hi : option nat) (greedy : bool)
                                                  (** [k{lo,hi}], greedy or lazy *)
| Grp (r : re)                                    (** capturing group *)
| Ahead (r : re)                                  (** [(?=r)] *)
| EOI.                                            (** [$] without the [m] flag *)

(** A regular-expression literal: its body, the [i] flag, and whether it
    starts with [^]. *)
Record regex := Regex { rx : re; rx_icase : bool; rx_anchored : bool }.

(** ** Character classes used by the sources *)

Definition in_range (lo hi : nat) (c : ascii) : bool := ((lo <=? code c) && (code c <=? hi))%nat.

Definition c_dot : cset := CSet is_line_term true.                   (** [.] *)
Definition c_space : cset := CSet is_space false.                    (** [\s] *)
Definition c_any : cset := CSet (fun c => is_space c || negb (is_space c)) false.  (** [[\s\S]] *)
Definition c_not (x : ascii) : cset := CSet (Ascii.eqb x) true.      (** [[^x]] *)
Definition is_word (c : ascii) : bool :=
  in_range 65 90 c || in_range 97 122 c || in_range 48 57 c || Ascii.eqb c "_".
Definition c_word : cset := CSet is_word false.                      (** [\w] *)

Fixpoint lit (s : string) : re :=
  match s with
  | EmptyString => Eps
  | String c s' => Cat (Chr c) (lit s')
  end.

Definition star (k : cset) := Rep k 0 None true.                     (** [k*] *)
Definition plus (k : cset) := Rep k 1 None true.                     (** [k+] *)
Definition plus_lazy (k : cset) := Rep k 1 None false.               (** [k+?] *)
Definition star_lazy (k : cset) := Rep k 0 None false.               (** [k*?] *)
Definition opt (k : cset) := Rep k 0 (Some 1) true.                  (** [k?] *)

(** ** Case folding of the [i] flag

    ECMAScript's Canonicalize (non-unicode mode) maps a character to its
    single upper-case form unless that would take a non-ASCII character to
    ASCII.  On 0..255 this moves a-z and the Latin-1 small letters. *)
Definition canon (c : ascii) : ascii :=
  let n := code c in
  if (((97 <=? n) && (n <=? 122)) || ((224 <=? n) && (n <=? 254) && negb (n =? 247)))%nat
  then ascii_of_nat (n - 32) else c.

Definition char_eq (ic : bool) (a b : ascii) : bool :=
  if ic then Ascii.eqb (canon a) (canon b) else Ascii.eqb a b.

(** A character matches a class when some member of the class has the
    same canonical form (the members equivalent to [c] are [c], its
    small and its capital form). *)
Definition cls_match (ic : bool) (k : cset) (c : ascii) : bool :=
  let found :=
    if ic then cs_mem k c || cs_mem k (canon c) || cs_mem k (lower_char c)
    else cs_mem k c in
  xorb (cs_neg k) found.

(** ** The backtracking matcher *)

Fixpoint stake (n : nat) (s : string) : string :=
  match n, s with
  | S n', String c s' => String c (stake n' s')
  | _, _ => EmptyString
  end.

Fixpoint sdrop (n : nat) (s : string) : string :=
  match n, s with
  | S n', String _ s' => sdrop n' s'
  | _, _ => s
  end.

(** Length of the longest prefix of [s] whose characters are all in [k]. *)
Fixpoint run_len (ic : bool) (k : cset) (s : string) : nat :=
  match s with
  | EmptyString => 0
  | String c s' => if cls_match ic k c then S (run_len ic k s') else 0
  end.

Definition cap_hi (hi : option nat) (n : nat) : nat :=
  match hi with None => n | Some h => Nat.min h n end.

(** The iteration counts a quantifier tries, in order: most first when
    greedy, fewest first when lazy. *)
Definition rep_counts (lo n : nat) (greedy : bool) : list nat :=
  let l := seq lo (S n - lo) in if greedy then rev l else l.

Fixpoint first_some {A B} (f : A -> option B) (l : list A) : option B :=
  match l with
  | [] => None
  | x :: l' => match f x with Some y => Some y | None => first_some f l' end
  end.

(** The state a continuation receives: the remaining input and the
    contents of the capture register. *)
Definition result := option (string * option string).
Definition cont := string -> option string -> result.

Fixpoint mt (ic : bool) (r : re) (s : string) (cap : option string) (k : cont) : result :=
  match r with
  | Eps => k s cap
  | Chr c =>
      match s with
      | String x s' => if char_eq ic c x then k s' cap else None
      | EmptyString => None
      end
  | Cls cl =>
      match s with
      | String x s' => if cls_match ic cl x then k s' cap else None
      | EmptyString => None
      end
  | Cat r1 r2 => mt ic r1 s cap (fun s1 c1 => mt ic r2 s1 c1 k)
  | Alt r1 r2 =>
      match mt ic r1 s cap k with
      | Some v => Some v
      | None => mt ic r2 s cap k
      end
  | Rep cl lo hi g =>
      first_some (fun j => k (sdrop j s) cap) (rep_counts lo (cap_hi hi (run_len ic cl s)) g)
  | Grp r1 =>
      mt ic r1 s cap (fun s1 _ => k s1 (Some (stake (String.length s - String.length s1) s)))
  | Ahead r1 =>
      match mt ic r1 s cap (fun s1 c1 => Some (s1, c1)) with
      | Some (_, c1) => k s c1
      | None => None
      end
  | EOI =>
      match s with
      | EmptyString => k s cap
      | String _ _ => None
      end
  end.

(** Matching at the start of [s]: the remaining input and the capture. *)
Definition run (ic : bool) (r : re) (s : string) : result :=
  mt ic r s None (fun t c => Some (t, c)).

(** ** exec, test, replace, split *)

Record rmatch := RMatch {
  m_index : nat;              (** where the match starts *)
  m_text : string;            (** [m[0]] *)
  m_rest : string;            (** the input after the match *)
  m_cap : option string       (** [m[1]] *)
}.

Fixpoint exec_from (p : regex) (i : nat) (s : string) : option rmatch :=
  match run (rx_icase p) (rx p) s with
  | Some (t, c) => Some (RMatch i (stake (String.length s - String.length t) s) t c)
  | None =>
      if rx_anchored p then None
      else match s with
           | EmptyString => None
           | String _ s' => exec_from p (S i) s'
           end
  end.

(** [RegExp.prototype.exec] / [String.prototype.match] without [g]. *)
Definition exec (p : regex) (s : string) : option rmatch := exec_from p 0 s.

(** [RegExp.prototype.test]. *)
Definition test (p : regex) (s : string) : bool := bool_decide (is_Some (exec p s)).

(** [m[1]] of [s.match(p)], when the match exists. *)
Definition capture (p : regex) (s : string) : option string :=
  match exec p s with Some m => m_cap m | None => None end.

(** [s.replace(p, r)] for a [/g] pattern: scan left to right, replace each
    match and resume after it; an empty match copies one character. *)
Fixpoint replace_go (p : regex) (r : string) (s : string) (skip : nat) : string :=
  match skip with
  | S k =>
      match s with
      | EmptyString => EmptyString
      | String _ s' => replace_go p r s' k
      end
  | O =>
      match run (rx_icase p) (rx p) s with
      | Some (t, _) =>
          match s with
          | EmptyString => r
          | String c s' =>
              match String.length s - String.length t with
              | O => r ++ String c (replace_go p r s' 0)
              | S m => r ++ replace_go p r s' m
              end
          end
      | None =>
          match s with
          | EmptyString => EmptyString
          | String c s' => String c (replace_go p r s' 0)
          end
      end
  end.

Definition replace_all (p : regex) (r : string) (s : string) : string := replace_go p r s 0.

(** [s.split(p)[0]]: the text before the leftmost match (exact for
    patterns that never match the empty string, as all of the sources'). *)
Definition split_head (p : regex) (s : string) : string :=
  match exec p s with
  | Some m => if (m_index m <? String.length s)%nat then stake (m_index m) s else s
  | None => s
  end.

(** ** Declarative semantics *)

Fixpoint all_cls (ic : bool) (k : cset) (s : string) : bool :=
  match s with
  | EmptyString => true
  | String c s' => cls_match ic k c && all_cls ic k s'
  end.

Definition within (hi : option nat) (j : nat) : Prop :=
  match hi with None => True | Some h => j <= h end.

(** [matches ic r s t]: [r] can consume a prefix of [s] and leave [t]. *)
Inductive matches (ic : bool) : re -> string -> string -> Prop :=
| m_eps s : matches ic Eps s s
| m_chr c x s : char_eq ic c x = true -> matches ic (Chr c) (String x s) s
| m_cls k x s : cls_match ic k x = true -> matches ic (Cls k) (String x s) s
| m_cat r1 r2 s u t : matches ic r1 s u -> matches ic r2 u t -> matches ic (Cat r1 r2) s t
| m_alt_l r1 r2 s t : matches ic r1 s t -> matches ic (Alt r1 r2) s t
| m_alt_r r1 r2 s t : matches ic r2 s t -> matches ic (Alt r1 r2) s t
| m_rep k lo hi g s j :
    lo <= j -> within hi j -> j <= String.length s -> all_cls ic k (stake j s) = true ->
    matches ic (Rep k lo hi g) s (sdrop j s)
| m_grp r s t : matches ic r s t -> matches ic (Grp r) s t
| m_ahead r s t : matches ic r s t -> matches ic (Ahead r) s s
| m_eoi : matches ic EOI EmptyString EmptyString.

#[export] Hint Constructors matches : js.

(** ** Lemmas on the matcher's building blocks *)

Lemma first_some_Some {A B} (f : A -> option B) l y :
  first_some f l = Some y -> exists x, In x l /\ f x = Some y.
Proof.
  induction l as [|x l IH]; simpl; [done |].
  destruct (f x) eqn:E; intros H.
  - injection H as <-. eauto.
  - destruct (IH H) as (x' & ? & ?). eauto.
Qed.

Lemma first_some_total {A B} (f : A -> option B) l x :
  In x l -> f x <> None -> first_some f l <> None.
Proof.
  induction l as [|y l IH]; simpl; [done |].
  intros [-> | Hin] Hx; [by destruct (f x) |]. destruct (f y); [done | by apply IH].
Qed.

Lemma rep_counts_In lo n g j : In j (rep_counts lo n g) <-> lo <= j <= n.
Proof.
  unfold rep_counts. destruct g; [rewrite <- in_rev |]; rewrite in_seq; lia.
Qed.

Lemma run_len_spec ic k s j :
  j <= run_len ic k s <-> j <= String.length s /\ all_cls ic k (stake j s) = true.
Proof.
  revert j. induction s as [|c s IH]; intros [|j]; simpl.
  - split; [intros; split; [lia | done] | lia].
  - split; [lia | intros [? _]; lia].
  - split; [intros; split; [lia | done] | lia].
  - destruct (cls_match ic k c); simpl.
    + split; intros H.
      * apply le_S_n, IH in H as [? ?]. split; [lia | done].
      * destruct H as [? ?]. apply le_n_S, IH. split; [lia | done].
    + split; [lia | by intros [_ ?]].
Qed.

Lemma cap_hi_spec hi n j : j <= cap_hi hi n <-> within hi j /\ j <= n.
Proof. destruct hi; simpl; [lia | tauto]. Qed.

Lemma stake_length s n : n <= String.length s -> String.length (stake n s) = n.
Proof. revert n. induction s; intros [|n]; simpl; try lia. intros. rewrite IHs; lia. Qed.

Lemma sdrop_length s n : String.length (sdrop n s) = String.length s - n.
Proof. revert n. induction s; intros [|n]; simpl; auto. Qed.

Lemma stake_sdrop s n : (stake n s ++ sdrop n s)%string = s.
Proof. revert n. induction s as [|c s IH]; intros [|n]; simpl; try done. by rewrite IH. Qed.

(** ** Soundness and completeness of the matcher *)

Lemma mt_sound ic r :
  forall s cap k res, mt ic r s cap k = Some res ->
  exists t c, matches ic r s t /\ k t c = Some res.
Proof.
  induction r as [| c | cl | r1 IH1 r2 IH2 | r1 IH1 r2 IH2 | cl lo hi g | r1 IH | r1 IH |];
    intros s cap k res H; simpl in H.
  - eauto with js.
  - destruct s as [|x s]; [done |]. destruct (char_eq ic c x) eqn:E; [eauto with js | done].
  - destruct s as [|x s]; [done |]. destruct (cls_match ic cl x) eqn:E; [eauto with js | done].
  - destruct (IH1 _ _ _ _ H) as (u & c1 & Hm1 & Hk1).
    destruct (IH2 _ _ _ _ Hk1) as (t & c & Hm2 & Hk). eauto with js.
  - destruct (mt ic r1 s cap k) eqn:E1.
    + injection H as ->. destruct (IH1 _ _ _ _ E1) as (t & c & ? & ?). eauto with js.
    + destruct (IH2 _ _ _ _ H) as (t & c & ? & ?). eauto with js.
  - apply first_some_Some in H as (j & Hin & Hk).
    apply rep_counts_In in Hin as [Hlo Hhi].
    apply cap_hi_spec in Hhi as [Hw Hrun]. apply run_len_spec in Hrun as [Hlen Hall].
    exists (sdrop j s), cap. eauto with js.
  - destruct (IH _ _ _ _ H) as (t & c & ? & ?). eauto with js.
  - destruct (mt ic r1 s cap _) as [[t1 c1]|] eqn:E; [| done].
    destruct (IH _ _ _ _ E) as (t & c & ? & _). eauto with js.
  - destruct s; [eauto with js | done].
Qed.

Lemma mt_complete ic r s t :
  matches ic r s t -> forall cap k, (forall c, k t c <> None) -> mt ic r s cap k <> None.
Proof.
  induction 1 as [s | c x s E | cl x s E | r1 r2 s u t _ IH1 _ IH2 | r1 r2 s t _ IH
                 | r1 r2 s t _ IH | cl lo hi g s j Hlo Hw Hlen Hall | r s t _ IH
                 | r s t _ IH |]; intros cap k Hk; simpl.
  - apply Hk.
  - rewrite E. apply Hk.
  - rewrite E. apply Hk.
  - apply IH1. intros c. by apply IH2.
  - pose proof (IH cap k Hk). by destruct (mt ic r1 s cap k).
  - destruct (mt ic r1 s cap k); [done | by apply IH].
  - apply (first_some_total _ _ j); [| apply Hk].
    apply rep_counts_In. split; [done |].
    apply cap_hi_spec. split; [done |]. by apply run_len_spec.
  - apply IH. intros c. apply Hk.
  - pose proof (IH cap (fun s1 c1 => Some (s1, c1)) ltac:(done)) as Hin.
    destruct (mt ic r s cap _) as [[t1 c1]|]; [apply Hk | done].
  - apply Hk.
Qed.

Lemma run_sound ic r s t c : run ic r s = Some (t, c) -> matches ic r s t.
Proof.
  unfold run. intros H. destruct (mt_sound _ _ _ _ _ _ H) as (t' & c' & Hm & Hk).
  by injection Hk as -> ->.
Qed.

Lemma run_complete ic r s t : matches ic r s t -> run ic r s <> None.
Proof. intros H. unfold run. by apply (mt_complete _ _ _ _ H). Qed.

(** ** exec finds the leftmost match *)

Lemma exec_from_Some p i s m :
  exec_from p i s = Some m ->
  i <= m_index m /\
  run (rx_icase p) (rx p) (sdrop (m_index m - i) s) = Some (m_rest m, m_cap m) /\
  (forall j, j < m_index m - i -> run (rx_icase p) (rx p) (sdrop j s) = None).
Proof.
  revert i. induction s as [|x s IH]; intros i; simpl;
    destruct (run _ _ _) as [[t c]|] eqn:E; intros H.
  - injection H as <-. simpl. rewrite Nat.sub_diag. split; [lia |]. split; [done | lia].
  - by destruct (rx_anchored p).
  - injection H as <-. simpl. rewrite Nat.sub_diag. split; [lia |]. split; [done | lia].
  - destruct (rx_anchored p); [done |].
    destruct (IH _ H) as (Hle & Hrun & Hmin).
    split; [lia |].
    replace (m_index m - i) with (S (m_index m - S i)) by lia. split; [done |].
    intros [|j] Hj; [done |]. apply Hmin. lia.
Qed.

Lemma exec_from_None p i s :
  exec_from p i s = None -> rx_anchored p = false ->
  forall j, j <= String.length s -> run (rx_icase p) (rx p) (sdrop j s) = None.
Proof.
  revert i. induction s as [|x s IH]; intros i; simpl;
    destruct (run _ _ _) as [[t c]|] eqn:E; intros H Han; try done.
  - intros [|j] Hj; [done | lia].
  - rewrite Han in H. intros [|j] Hj; [done |]. apply (IH (S i)); [done | done | lia].
Qed.

(** No position of the input admits a match when [exec] fails. *)
Lemma exec_None_no_match p s :
  exec p s = None -> rx_anchored p = false ->
  forall j t, j <= String.length s -> ~ matches (rx_icase p) (rx p) (sdrop j s) t.
Proof.
  intros H Han j t Hj Hm. apply (run_complete _ _ _ _ Hm).
  by apply (exec_from_None _ _ _ H Han).
Qed.

(** ** Writing patterns *)

(** [r1 r2 ... rn] and [r1|r2|...|rn], in the order written. *)
Fixpoint cats (l : list re) : re :=
  match l with
  | [] => Eps
  | [r] => r
  | r :: l' => Cat r (cats l')
  end.

Fixpoint alts (l : list re) : re :=
  match l with
  | [] => Eps
  | [r] => r
  | r :: l' => Alt r (alts l')
  end.

(** The text of the capture group, [m[1]]. *)
Definition capv (m : rmatch) : string := default EmptyString (m_cap m).

(** [s.replace(p, r)] for a pattern without [g]: the first match only. *)
Definition replace_first (p : regex) (r : string) (s : string) : string :=
  match exec p s with
  | Some m => stake (m_index m) s ++ r ++ m_rest m
  | None => s
  end.

(** ** What a match consumes and captures *)

(** Every character [r] can consume satisfies [P]. *)
Fixpoint consumes_only (ic : bool) (P : ascii -> bool) (r : re) : Prop :=
  match r with
  | Eps | EOI | Ahead _ => True
  | Chr c => forall x, char_eq ic c x = true -> P x = true
  | Cls k | Rep k _ _ _ => forall x, cls_match ic k x = true -> P x = true
  | Cat r1 r2 | Alt r1 r2 => consumes_only ic P r1 /\ consumes_only ic P r2
  | Grp r1 => consumes_only ic P r1
  end.

(** Every capture group of [r] consumes only characters satisfying [P]. *)
Fixpoint captures_only (ic : bool) (P : ascii -> bool) (r : re) : Prop :=
  match r with
  | Eps | EOI | Chr _ | Cls _ | Rep _ _ _ _ => True
  | Cat r1 r2 | Alt r1 r2 => captures_only ic P r1 /\ captures_only ic P r2
  | Grp r1 => consumes_only ic P r1
  | Ahead r1 => captures_only ic P r1
  end.

Lemma all_cls_chars ic k P s :
  (forall x, cls_match ic k x = true -> P x = true) ->
  all_cls ic k s = true -> all_chars P s = true.
Proof.
  intros HP. induction s as [|c s IH]; simpl; [done |].
  intros H. apply andb_prop in H as [H1 H2]. rewrite (HP _ H1). auto.
Qed.

Lemma stake_app_sdrop u t : stake (String.length u) (u ++ t) = u.
Proof. induction u as [|c u IH]; simpl; [done | by rewrite IH]. Qed.

Lemma matches_consumed ic P r s t :
  matches ic r s t -> consumes_only ic P r ->
  exists u, s = (u ++ t)%string /\ all_chars P u = true.
Proof.
  induction 1 as [s | c x s E | cl x s E | r1 r2 s u t _ IH1 _ IH2 | r1 r2 s t _ IH
                 | r1 r2 s t _ IH | cl lo hi g s j Hlo Hw Hlen Hall | r s t _ IH
                 | r s t _ IH |]; simpl; intros HP.
  - by exists EmptyString.
  - exists (String x EmptyString). simpl. by rewrite (HP _ E).
  - exists (String x EmptyString). simpl. by rewrite (HP _ E).
  - destruct HP as [HP1 HP2]. destruct (IH1 HP1) as (u1 & -> & A1).
    destruct (IH2 HP2) as (u2 & -> & A2). exists (u1 ++ u2)%string.
    by rewrite string_app_assoc, all_chars_app, A1, A2.
  - by apply IH, HP.
  - by apply IH, HP.
  - exists (stake j s). rewrite stake_sdrop. split; [done |]. by apply (all_cls_chars ic cl).
  - by apply IH.
  - by exists EmptyString.
  - by exists EmptyString.
Qed.

(** The text a match consumed. *)
Definition consumed (s t : string) : string := stake (String.length s - String.length t) s.

Lemma consumed_app u t : consumed (u ++ t) t = u.
Proof.
  unfold consumed. rewrite string_length_app.
  replace (String.length u + String.length t - String.length t) with (String.length u) by lia.
  apply stake_app_sdrop.
Qed.

Lemma mt_capture ic P r :
  captures_only ic P r ->
  forall s cap k res, mt ic r s cap k = Some res ->
  (forall x, cap = Some x -> all_chars P x = true) ->
  exists t c, k t c = Some res /\ (forall x, c = Some x -> all_chars P x = true).
Proof.
  induction r as [| c | cl | r1 IH1 r2 IH2 | r1 IH1 r2 IH2 | cl lo hi g | r1 IH | r1 IH |];
    simpl; intros HP s cap k res H Hcap.
  - eauto.
  - destruct s as [|x s]; [done |]. destruct (char_eq ic c x); [eauto | done].
  - destruct s as [|x s]; [done |]. destruct (cls_match ic cl x); [eauto | done].
  - destruct HP as [HP1 HP2].
    destruct (IH1 HP1 _ _ _ _ H Hcap) as (u & c1 & Hk1 & Hc1).
    exact (IH2 HP2 _ _ _ _ Hk1 Hc1).
  - destruct HP as [HP1 HP2]. destruct (mt ic r1 s cap k) eqn:E1.
    + injection H as ->. exact (IH1 HP1 _ _ _ _ E1 Hcap).
    + exact (IH2 HP2 _ _ _ _ H Hcap).
  - apply first_some_Some in H as (j & _ & Hk). eauto.
  - destruct (mt_sound _ _ _ _ _ _ H) as (t & c & Hm & Hk).
    exists t, (Some (consumed s t)). split; [done |]. intros x [= <-].
    destruct (matches_consumed _ _ _ _ _ Hm HP) as (u & -> & Hu).
    by rewrite consumed_app.
  - destruct (mt ic r1 s cap _) as [[t1 c1]|] eqn:E; [| done].
    destruct (IH HP _ _ _ _ E Hcap) as (t & c & [= <- <-] & Hc). eauto.
  - destruct s; [eauto | done].
Qed.

Lemma exec_from_run p i s m :
  exec_from p i s = Some m ->
  exists s', run (rx_icase p) (rx p) s' = Some (m_rest m, m_cap m) /\ m_text m = consumed s' (m_rest m).
Proof.
  revert i. induction s as [|x s IH]; intros i H.
  - simpl in H. destruct (run (rx_icase p) (rx p) EmptyString) as [[t c]|] eqn:E.
    + injection H as <-. by exists EmptyString.
    + by destruct (rx_anchored p).
  - simpl in H. destruct (run (rx_icase p) (rx p) (String x s)) as [[t c]|] eqn:E.
    + injection H as <-. by exists (String x s).
    + destruct (rx_anchored p); [done | eauto].
Qed.

(** The capture of a match satisfies [P] when every group of the pattern
    consumes only characters satisfying [P]. *)
Lemma exec_capture_chars p s m P :
  exec p s = Some m -> captures_only (rx_icase p) P (rx p) ->
  all_chars P (capv m) = true.
Proof.
  intros H HP. destruct (exec_from_run _ _ _ _ H) as (s' & Hrun & _).
  unfold run in Hrun.
  destruct (mt_capture _ _ _ HP _ _ _ _ Hrun ltac:(done)) as (t & c & Heq & Hc).
  injection Heq as _ ->.
  unfold capv. destruct (m_cap m) eqn:E; [by apply Hc | done].
Qed.

(** The matched text satisfies [P] when the pattern consumes only such
    characters. *)
Lemma exec_text_chars p s m P :
  exec p s = Some m -> consumes_only (rx_icase p) P (rx p) ->
  all_chars P (m_text m) = true.
Proof.
  intros H HP. destruct (exec_from_run _ _ _ _ H) as (s' & Hrun & ->).
  destruct (matches_consumed _ _ _ _ _ (run_sound _ _ _ _ _ Hrun) HP) as (u & -> & Hu).
  by rewrite consumed_app.
Qed.

(** [replace_all] builds its output from characters of the input and
    copies of the replacement. *)
Lemma replace_go_chars p r P s k :
  all_chars P s = true -> all_chars P r = true -> all_chars P (replace_go p r s k) = true.
Proof.
  revert k. induction s as [|c s IH]; intros k Hs Hr; simpl in Hs.
  - destruct k; simpl; [| done]. by destruct (run _ _ _) as [[t ?]|].
  - apply andb_prop in Hs as [Hc Hs]. destruct k as [|k]; simpl; [| auto].
    destruct (run _ _ _) as [[t ?]|].
    + case_match; rewrite all_chars_app, Hr; cbn [all_chars andb]; rewrite ?Hc; simpl; auto.
    + cbn [all_chars]. rewrite Hc. simpl. auto.
Qed.

Lemma consumes_only_true ic r : consumes_only ic (fun _ => true) r.
Proof. induction r; simpl; auto. Qed.

(** What remains after a match is a suffix of the input. *)
Lemma matches_suffix ic r s t : matches ic r s t -> exists u, s = (u ++ t)%string.
Proof.
  intros H. destruct (matches_consumed ic (fun _ => true) r s t H (consumes_only_true ic r))
    as (u & -> & _). eauto.
Qed.

Lemma sdrop_app u t : sdrop (String.length u) (u ++ t) = t.
Proof. induction u as [|c u IH]; simpl; [done | apply IH]. Qed.

Lemma sdrop_app_add u v i : sdrop (String.length u + i) (u ++ v) = sdrop i v.
Proof. induction u as [| c u IH]; [done | exact IH]. Qed.

(** A pattern that starts with a literal character consumes at least
    that character. *)
Lemma run_chr_progress ic c r s t cap :
  run ic (Cat (Chr c) r) s = Some (t, cap) -> String.length t < String.length s.
Proof.
  intros H. apply run_sound in H. inversion H as [| | | ? ? ? u ? H1 H2 | | | | | |]; subst.
  inversion H1; subst. destruct (matches_suffix _ _ _ _ H2) as [w ->].
  simpl. rewrite string_length_app. lia.
Qed.

(** ** [test], alternations and literals *)

Lemma sdrop_min s j : sdrop (Nat.min j (String.length s)) s = sdrop j s.
Proof.
  revert j. induction s as [|c s IH]; intros [|j]; simpl; try done; apply IH.
Qed.

(** [p.test(s)] holds exactly when [p] matches at some position of [s]. *)
Lemma test_spec p s :
  rx_anchored p = false ->
  test p s = true <-> exists j t, j <= String.length s /\ matches (rx_icase p) (rx p) (sdrop j s) t.
Proof.
  intros Han. unfold test. rewrite bool_decide_eq_true. split.
  - intros [m Hm]. destruct (exec_from_Some _ _ _ _ Hm) as (_ & Hrun & _).
    exists (Nat.min (m_index m - 0) (String.length s)), (m_rest m).
    rewrite sdrop_min. split; [lia |]. by apply run_sound in Hrun.
  - intros (j & t & Hj & Hm). destruct (exec p s) eqn:E; [done |].
    exfalso. exact (exec_None_no_match p s E Han j t Hj Hm).
Qed.

Lemma matches_alts ic l s t :
  l <> [] -> matches ic (alts l) s t <-> Exists (fun r => matches ic r s t) l.
Proof.
  intros Hl. induction l as [|r [|r' l] IH]; [done | |].
  - simpl. split; [by constructor | by inversion 1; [| inversion H1]].
  - cbn [alts]. split.
    + inversion 1; subst; [by constructor |]. right. by apply IH.
    + inversion 1; subst; [by apply m_alt_l |]. apply m_alt_r. by apply IH.
Qed.

(** A literal matches exactly where its characters match one by one. *)
Fixpoint prefix_ci (ic : bool) (k s : string) : bool :=
  match k, s with
  | EmptyString, _ => true
  | String c k', String x s' => char_eq ic c x && prefix_ci ic k' s'
  | String _ _, EmptyString => false
  end.

Lemma matches_lit ic k s : (exists t, matches ic (lit k) s t) <-> prefix_ci ic k s = true.
Proof.
  revert s. induction k as [|c k IH]; intros s; simpl.
  - split; [done | intros _; exists s; constructor].
  - split.
    + intros [t Hm]. inversion Hm as [| | | ? ? ? u ? H1 H2 | | | | | |]; subst.
      inversion H1; subst. apply andb_true_iff. split; [done |]. apply IH. eauto.
    + destruct s as [|x s]; [done |]. intros H. apply andb_prop in H as [Hc H].
      apply IH in H as [t Ht]. exists t. eapply m_cat; [by constructor | exact Ht].
Qed.

Lemma all_chars_sdrop P s j : all_chars P s = true -> all_chars P (sdrop j s) = true.
Proof.
  revert j. induction s as [|c s IH]; intros [|j] H; simpl in *; try done.
  apply andb_prop in H as [_ H]. auto.
Qed.

(** [needs_chr x r]: every match of [r] consumes a character equal to
    [x] (a [Chr x] on every path through [r]). *)
Fixpoint needs_chr (x : ascii) (r : re) : bool :=
  match r with
  | Chr c => Ascii.eqb c x
  | Cat r1 r2 => needs_chr x r1 || needs_chr x r2
  | Alt r1 r2 => needs_chr x r1 && needs_chr x r2
  | Grp r1 => needs_chr x r1
  | _ => false
  end.

Lemma matches_needs ic x r s t :
  needs_chr x r = true -> matches ic r s t ->
  exists i c w, sdrop i s = String c w /\ char_eq ic x c = true.
Proof.
  intros Hn Hm. revert Hn.
  induction Hm as [s | c y s E | cl y s E | r1 r2 s u t H1 IH1 H2 IH2 | r1 r2 s t _ IH
                  | r1 r2 s t _ IH | cl lo hi g s j _ _ _ _ | r s t _ IH | r s t _ _ |];
    cbn [needs_chr]; intros Hn; try discriminate.
  - apply Ascii.eqb_eq in Hn as ->. by exists 0, y, s.
  - apply orb_prop in Hn as [Hn | Hn]; [by apply IH1 |].
    destruct (IH2 Hn) as (i & c & w & Hd & Hc). destruct (matches_suffix _ _ _ _ H1) as [v ->].
    exists (String.length v + i), c, w. by rewrite sdrop_app_add.
  - apply andb_prop in Hn as [Hn _]. by apply IH.
  - apply andb_prop in Hn as [_ Hn]. by apply IH.
  - by apply IH.
Qed.

(** A pattern every match of which consumes an [x] never matches a text
    without one. *)
Lemma exec_needs_none p x s :
  needs_chr x (rx p) = true -> all_chars (fun c => negb (char_eq (rx_icase p) x c)) s = true ->
  exec p s = None.
Proof.
  intros Hn Hs. destruct (exec p s) as [m |] eqn:E; [exfalso | done].
  apply exec_from_Some in E as (_ & Hrun & _). apply run_sound in Hrun.
  destruct (matches_needs _ _ _ _ _ Hn Hrun) as (i & c & w & Hd & Hc).
  pose proof (all_chars_sdrop _ _ i (all_chars_sdrop _ _ (m_index m - 0) Hs)) as H.
  rewrite Hd in H. cbn in H. by rewrite Hc in H.
Qed.

(** ** Matches survive extending the input (patterns without [$] and
    lookahead) *)

Fixpoint ext_closed (r : re) : Prop :=
  match r with
  | EOI | Ahead _ => False
  | Cat r1 r2 | Alt r1 r2 => ext_closed r1 /\ ext_closed r2
  | Grp r1 => ext_closed r1
  | _ => True
  end.

Lemma stake_app_le j s w : j <= String.length s -> stake j (s ++ w) = stake j s.
Proof.
  revert j. induction s as [|c s IH]; intros [|j] Hj; simpl in *; try done; [lia |].
  rewrite IH; [done | lia].
Qed.

Lemma sdrop_app_le j s w : j <= String.length s -> sdrop j (s ++ w) = (sdrop j s ++ w)%string.
Proof.
  revert j. induction s as [|c s IH]; intros [|j] Hj; simpl in *; try done; [lia |].
  apply IH. lia.
Qed.

Lemma matches_ext ic r s t w :
  ext_closed r -> matches ic r s t -> matches ic r (s ++ w) (t ++ w).
Proof.
  intros Hr Hm. revert Hr.
  induction Hm as [s | c x s E | cl x s E | r1 r2 s u t _ IH1 _ IH2 | r1 r2 s t _ IH
                  | r1 r2 s t _ IH | cl lo hi g s j Hlo Hw Hlen Hall | r s t _ IH
                  | r s t _ IH |]; simpl; intros Hr.
  - constructor.
  - by constructor.
  - by constructor.
  - destruct Hr. eapply m_cat; auto.
  - destruct Hr. apply m_alt_l; auto.
  - destruct Hr. apply m_alt_r; auto.
  - rewrite <- sdrop_app_le by done. apply m_rep; try done.
    + rewrite string_length_app. lia.
    + by rewrite stake_app_le.
  - constructor. auto.
  - done.
  - done.
Qed.

(** A pattern without a match anywhere in [a ++ x ++ b] has none in [x]. *)
Lemma exec_None_infix p a x b :
  rx_anchored p = false -> ext_closed (rx p) ->
  exec p (a ++ x ++ b) = None -> exec p x = None.
Proof.
  intros Han Hext H. destruct (exec p x) eqn:E; [exfalso | done].
  assert (Ht : test p x = true) by (unfold test; rewrite E; done).
  apply test_spec in Ht as (j & t & Hj & Hm); [| done].
  apply (exec_None_no_match p (a ++ x ++ b) H Han (String.length a + j) (t ++ b)).
  - rewrite !string_length_app. lia.
  - replace (sdrop (String.length a + j) (a ++ x ++ b)) with (sdrop j x ++ b)%string.
    + by apply matches_ext.
    + rewrite <- sdrop_app_le by done. clear. induction a as [|c a IH]; simpl; [done | apply IH].
Qed.

Lemma sdrop_ge j s : String.length s <= j -> sdrop j s = EmptyString.
Proof. revert j. induction s as [|c s IH]; intros [|j] Hj; simpl in *; try done; [lia | apply IH; lia]. Qed.

Lemma sdrop_stake_app j i n :
  j <= i -> i <= String.length n -> (sdrop j (stake i n) ++ sdrop i n)%string = sdrop j n.
Proof.
  intros Hj Hi. rewrite <- sdrop_app_le by (rewrite stake_length; lia). by rewrite stake_sdrop.
Qed.
