(* ===== verification/Base64.v ===== *)
(** * Node's Buffer: UTF-8 and base64

    [src/extractor.js] decodes message bodies with
    [Buffer.from(data, 'base64').toString('utf-8')] and [src/reply.js]
    encodes the outgoing message with
    [Buffer.from(message).toString('base64')] before turning it into
    base64url.  This file models those library calls on byte strings
    (a byte is an [ascii] read as 0..255):
    - [utf8_encode] / [utf8_decode]: [Buffer.from(s)] and
      [buf.toString('utf-8')] on code points 0..255;
    - [b64_encode]: [buf.toString('base64')], padded standard base64;
    - [b64_decode]: Node's forgiving decoder, which accepts both the
      standard and the URL-safe alphabet, skips characters outside them
      and stops at the first [=].
    The round trips [utf8_decode (utf8_encode s) = s] and
    [b64_decode (b64_encode s) = s] are proved here. *)

From Stdlib Require Import Ascii String.
From stdpp Require Import base list strings.
From Stdlib Require Import Lia.
From S2P Require Import Prelude.

(** ** UTF-8 *)

Definition octet (n : nat) : ascii := ascii_of_nat n.

(** [Buffer.from(s)]: one byte below 128, two bytes above. *)
Fixpoint utf8_encode (s : string) : string :=
  match s with
  | EmptyString => EmptyString
  | String c s' =>
      let n := code c in
      if n <? 128 then String c (utf8_encode s')
      else String (octet (192 + n / 64)) (String (octet (128 + n mod 64)) (utf8_encode s'))
  end.

(** [buf.toString('utf-8')]: one-byte characters, and the two-byte
    sequences whose code point lies in 0..255 (lead bytes C2 and C3).
    Sequences for larger code points cannot be represented by the model's
    characters; their bytes are read one by one. *)
Fixpoint utf8_decode (s : string) : string :=
  match s with
  | EmptyString => EmptyString
  | String a s' =>
      let x := code a in
      if x <? 128 then String a (utf8_decode s')
      else if (x =? 194) || (x =? 195) then
        match s' with
        | String b s'' =>
            let y := code b in
            if (128 <=? y) && (y <? 192)
            then String (octet ((x - 192) * 64 + (y - 128))) (utf8_decode s'')
            else String a (utf8_decode s')
        | EmptyString => String a EmptyString
        end
      else String a (utf8_decode s')
  end.

(** ** base64 *)

Definition b64_char (n : nat) : ascii :=
  if n <? 26 then octet (65 + n)
  else if n <? 52 then octet (97 + (n - 26))
  else if n <? 62 then octet (48 + (n - 52))
  else if n =? 62 then "+"%char else "/"%char.

(** The table [unbase64] of Node: both alphabets. *)
Definition b64_val (c : ascii) : option nat :=
  let n := code c in
  if (65 <=? n) && (n <=? 90) then Some (n - 65)
  else if (97 <=? n) && (n <=? 122) then Some (n - 71)
  else if (48 <=? n) && (n <=? 57) then Some (n + 4)
  else if (n =? 43) || (n =? 45) then Some 62
  else if (n =? 47) || (n =? 95) then Some 63
  else None.

Fixpoint b64_encode (s : string) : string :=
  match s with
  | String a (String b (String c s')) =>
      let x := code a in let y := code b in let z := code c in
      String (b64_char (x / 4)) (String (b64_char ((x mod 4) * 16 + y / 16))
        (String (b64_char ((y mod 16) * 4 + z / 64)) (String (b64_char (z mod 64))
          (b64_encode s'))))
  | String a (String b EmptyString) =>
      let x := code a in let y := code b in
      String (b64_char (x / 4)) (String (b64_char ((x mod 4) * 16 + y / 16))
        (String (b64_char ((y mod 16) * 4)) "="%string))
  | String a EmptyString =>
      let x := code a in
      String (b64_char (x / 4)) (String (b64_char ((x mod 4) * 16)) "=="%string)
  | EmptyString => EmptyString
  end.

(** The sextets Node's decoder reads: legal characters in order, illegal
    ones skipped, decoding stops at the first [=]. *)
Fixpoint sextets (s : string) : list nat :=
  match s with
  | EmptyString => []
  | String c s' =>
      match b64_val c with
      | Some v => v :: sextets s'
      | None => if Ascii.eqb c "=" then [] else sextets s'
      end
  end.

(** Four sextets give three bytes; a final group of two or three gives
    one or two bytes; a lone final sextet gives nothing. *)
Fixpoint decode_sextets (l : list nat) : string :=
  match l with
  | a :: b :: c :: d :: l' =>
      String (octet (a * 4 + b / 16)) (String (octet ((b mod 16) * 16 + c / 4))
        (String (octet ((c mod 4) * 64 + d)) (decode_sextets l')))
  | [a; b; c] => String (octet (a * 4 + b / 16)) (String (octet ((b mod 16) * 16 + c / 4)) EmptyString)
  | [a; b] => String (octet (a * 4 + b / 16)) EmptyString
  | _ => EmptyString
  end.

Definition b64_decode (s : string) : string := decode_sextets (sextets s).

(** ** Round trips *)

(** Induction on a string three characters at a time, the shape of
    [b64_encode]. *)
Lemma string_ind3 (P : string -> Prop) :
  P EmptyString ->
  (forall a, P (String a EmptyString)) ->
  (forall a b, P (String a (String b EmptyString))) ->
  (forall a b c s, P s -> P (String a (String b (String c s)))) ->
  forall s, P s.
Proof.
  intros H0 H1 H2 H3 s.
  remember (String.length s) as n eqn:Hn. revert s Hn.
  induction n as [n IH] using lt_wf_ind. intros s Hn.
  destruct s as [|a [|b [|c s]]]; auto.
  apply H3, (IH (String.length s)); simpl in *; [lia | done].
Qed.

Lemma code_lt_256 (c : ascii) : code c < 256.
Proof. apply nat_ascii_bounded. Qed.

Lemma octet_code (c : ascii) : octet (code c) = c.
Proof. apply ascii_nat_embedding. Qed.

Lemma code_octet (n : nat) : n < 256 -> code (octet n) = n.
Proof. intros H. by apply nat_ascii_embedding. Qed.

Lemma b64_val_char (n : nat) : n < 64 -> b64_val (b64_char n) = Some n.
Proof. intros H. do 64 (destruct n as [|n]; [reflexivity |]). lia. Qed.

#[export] Hint Rewrite b64_val_char using lia : js_rw.

(** Division of a code by a power of two, as the coders use it. *)
Lemma div_mod_bounds (n d : nat) :
  0 < d -> n = d * (n / d) + n mod d /\ n mod d < d.
Proof. intros Hd. split; [apply Nat.div_mod_eq | apply Nat.mod_upper_bound; lia]. Qed.

Lemma utf8_roundtrip (s : string) : utf8_decode (utf8_encode s) = s.
Proof.
  induction s as [|c s IH]; [done |]. cbn [utf8_encode].
  pose proof (code_lt_256 c) as Hc.
  destruct (Nat.ltb_spec (code c) 128) as [Hlt | Hge]; cbn [utf8_decode].
  - destruct (Nat.ltb_spec (code c) 128); [by rewrite IH | lia].
  - destruct (div_mod_bounds (code c) 64 ltac:(lia)) as [Hdm Hm].
    set (q := code c / 64) in *. set (r := code c mod 64) in *.
    assert (q = 2 \/ q = 3) as Hq by lia.
    rewrite !code_octet by lia.
    destruct (Nat.ltb_spec (192 + q) 128); [lia |].
    replace (((192 + q) =? 194) || ((192 + q) =? 195)) with true
      by (symmetry; apply orb_true_iff; rewrite !Nat.eqb_eq; lia).
    destruct (Nat.leb_spec 128 (128 + r)); [| lia].
    destruct (Nat.ltb_spec (128 + r) 192); [| lia]. simpl.
    rewrite IH. f_equal. transitivity (octet (code c)); [f_equal; lia | apply octet_code].
Qed.

Lemma divmod_pack (q r d : nat) : r < d -> (q * d + r) / d = q /\ (q * d + r) mod d = r.
Proof.
  intros H. split; symmetry; [apply (Nat.div_unique _ _ _ r) | apply (Nat.mod_unique _ _ q)]; lia.
Qed.

(** The arithmetic of one group: three bytes give four sextets, from
    which the decoder recovers the three bytes. *)
Lemma b64_group_arith x y z :
  x < 256 -> y < 256 -> z < 256 ->
  x / 4 < 64 /\ (x mod 4) * 16 + y / 16 < 64 /\ (y mod 16) * 4 + z / 64 < 64 /\ z mod 64 < 64 /\
  x / 4 * 4 + ((x mod 4) * 16 + y / 16) / 16 = x /\
  (((x mod 4) * 16 + y / 16) mod 16) * 16 + ((y mod 16) * 4 + z / 64) / 4 = y /\
  (((y mod 16) * 4 + z / 64) mod 4) * 64 + z mod 64 = z.
Proof.
  intros Hx Hy Hz.
  destruct (div_mod_bounds x 4 ltac:(lia)) as [Ex Mx].
  destruct (div_mod_bounds y 16 ltac:(lia)) as [Ey My].
  destruct (div_mod_bounds z 64 ltac:(lia)) as [Ez Mz].
  assert (y / 16 < 16) by (apply Nat.Div0.div_lt_upper_bound; lia).
  assert (z / 64 < 4) by (apply Nat.Div0.div_lt_upper_bound; lia).
  destruct (divmod_pack (x mod 4) (y / 16) 16 ltac:(lia)) as [D1 M1].
  destruct (divmod_pack (y mod 16) (z / 64) 4 ltac:(lia)) as [D2 M2].
  rewrite D1, M1, D2, M2. repeat split; lia.
Qed.

Lemma sextets_char n rest : n < 64 -> sextets (String (b64_char n) rest) = n :: sextets rest.
Proof. intros H. simpl. by rewrite b64_val_char. Qed.

Lemma sextets_pad rest : sextets (String "=" rest) = [].
Proof. reflexivity. Qed.

#[export] Hint Rewrite sextets_char using lia : js_rw.
#[export] Hint Rewrite sextets_pad : js_rw.

(** Node decodes what Node encodes. *)
Lemma b64_roundtrip (s : string) : b64_decode (b64_encode s) = s.
Proof.
  unfold b64_decode. induction s as [| a | a b | a b c s IH] using string_ind3.
  - done.
  - destruct (b64_group_arith (code a) 0 0 (code_lt_256 a) ltac:(lia) ltac:(lia))
      as (B1 & B2 & _ & _ & E1 & _ & _).
    cbn [b64_encode]. rewrite !Nat.Div0.div_0_l, !Nat.add_0_r in *.
    autorewrite with js_rw. cbn [decode_sextets]. f_equal.
    transitivity (octet (code a)); [f_equal; lia | apply octet_code].
  - destruct (b64_group_arith (code a) (code b) 0 (code_lt_256 a) (code_lt_256 b) ltac:(lia))
      as (B1 & B2 & B3 & _ & E1 & E2 & _).
    cbn [b64_encode]. rewrite !Nat.Div0.div_0_l, !Nat.add_0_r in *.
    autorewrite with js_rw. cbn [decode_sextets]. f_equal; [|f_equal];
    [transitivity (octet (code a)) | transitivity (octet (code b))];
    try (f_equal; lia); apply octet_code.
  - destruct (b64_group_arith (code a) (code b) (code c)
                (code_lt_256 a) (code_lt_256 b) (code_lt_256 c))
      as (B1 & B2 & B3 & B4 & E1 & E2 & E3).
    cbn [b64_encode]. autorewrite with js_rw. cbn [decode_sextets].
    rewrite IH. f_equal; [|f_equal; [|f_equal]];
    [transitivity (octet (code a)) | transitivity (octet (code b)) | transitivity (octet (code c))];
    try (f_equal; lia); apply octet_code.
Qed.
