(* ===== verification/Extractor.v ===== *)
(** * InformationExtractor: [src/extractor.js]

    [extractInfo] turns one Gmail message resource into a ticket: sender
    address and display name from the [From] header, the body text (a
    direct body, else a first-level text part, else one level of nested
    parts; HTML is cleaned), and the candidate's e-mail, full name and
    issue from labelled fields of the body, with fall-backs to the header
    values.  Every regular expression of the function is written here as a
    term of [Regex.re] next to its JavaScript literal. *)

From Stdlib Require Import Ascii String.
From stdpp Require Import base list strings.
From Stdlib Require Import Lia.
From S2P Require Import Prelude Regex Base64.

Open Scope string_scope.
Open Scope js_scope.

(** ** The message resource *)

(** A header: [name] and [value] of [payload.headers[i]]; either may be
    missing from the JSON object. *)
Record header := Header { h_name : option string; h_value : option string }.

(** A MIME part: [mimeType], [body.data] (absent when [body] or [data]
    is), and [parts] (absent or an array). *)
Inductive part := Part {
  p_mimeType : string;
  p_data : option string;
  p_parts : option (list part)
}.

Record payload := Payload {
  pl_headers : option (list header);
  pl_data : option string;
  pl_parts : option (list part)
}.

(** [email.id], [email.threadId], [email.payload]. *)
Record message := Message {
  msg_id : string;
  msg_threadId : option string;
  msg_payload : option payload
}.

(** The object [extractInfo] returns. *)
Record ticket := Ticket {
  candidateName : string;
  candidateEmail : string;
  senderEmail : string;
  subject : string;
  body : string;
  issue : string;
  messageId : string;
  threadId : option string
}.

(** The two [TypeError]s [extractInfo] can throw: [email.payload] is
    undefined, or a header scanned by [find] has no [name]. *)
Inductive extract_error := NoPayload | HeaderWithoutName.

(** ** Headers *)

(** [headers.find(h => h.name.toLowerCase() === nm)]: the scan stops at
    the first match and throws on a header without a name before it. *)
Fixpoint find_header (nm : string) (hs : list header) : extract_error + option header :=
  match hs with
  | [] => inr None
  | h :: hs' =>
      match h_name h with
      | None => inl HeaderWithoutName
      | Some n => if String.eqb (to_lower n) nm then inr (Some h) else find_header nm hs'
      end
  end.

(** [headers.find(...)?.value || '']. *)
Definition header_value (nm : string) (hs : list header) : extract_error + string :=
  h <-? find_header nm hs ;;
  inr (match h with Some h => default "" (h_value h) ||ₛ "" | None => "" end).

(** [/<(.+?)>/] *)
Definition re_angle_addr : regex :=
  Regex (cats [Chr "<"; Grp (plus_lazy c_dot); Chr ">"]) false false.

(** [[\w\.-]] *)
Definition c_addr_word : cset :=
  CSet (fun c => is_word c || Ascii.eqb c "." || Ascii.eqb c "-") false.

(** [/([\w\.-]+@[\w\.-]+\.\w+)/] *)
Definition re_bare_addr : regex :=
  Regex (Grp (cats [plus c_addr_word; Chr "@"; plus c_addr_word; Chr "."; plus c_word])) false false.

(** [/^(.+?)\s*</] *)
Definition re_display_name : regex :=
  Regex (cats [Grp (plus_lazy c_dot); star c_space; Chr "<"]) false true.

(** [/['&quot;]/g]: the apostrophe and the double quote. *)
Definition re_quotes : regex :=
  Regex (Cls (CSet (fun c => Ascii.eqb c "'" || String.eqb (String c EmptyString) dq) false)) false false.

(** [emailMatch[1] || emailMatch[0]] of
    [fromHeader.match(/<(.+?)>/) || fromHeader.match(/([\w\.-]+@[\w\.-]+\.\w+)/)]. *)
Definition parse_sender_email (fromHeader : string) : string :=
  match exec re_angle_addr fromHeader with
  | Some m => capv m ||ₛ m_text m
  | None =>
      match exec re_bare_addr fromHeader with
      | Some m => capv m ||ₛ m_text m
      | None => ""
      end
  end.

(** The display name, else the local part of the address, else
    ["Candidate"]. *)
Definition parse_sender_name (fromHeader senderEmail : string) : string :=
  match exec re_display_name fromHeader with
  | Some m => replace_all re_quotes "" (trim (capv m))
  | None => split_first "@" senderEmail ||ₛ "Candidate"
  end.

(** ** Body *)

(** [decodeBase64]: [Buffer.from(data, 'base64').toString('utf-8')]; the
    [catch] is unreachable, Node's decoder never throws on a string. *)
Definition decodeBase64 (data : string) : string := utf8_decode (b64_decode data).

(** [/<script[^>]*>[\s\S]*?<\/script>/gi] *)
Definition re_script : regex :=
  Regex (cats [lit "<script"; star (c_not ">"); Chr ">"; star_lazy c_any; lit "</script>"]) true false.

(** [/<style[^>]*>[\s\S]*?<\/style>/gi] *)
Definition re_style : regex :=
  Regex (cats [lit "<style"; star (c_not ">"); Chr ">"; star_lazy c_any; lit "</style>"]) true false.

(** [/<br\s*\/?>/gi] *)
Definition re_br : regex :=
  Regex (cats [lit "<br"; star c_space; opt (CSet (Ascii.eqb "/") false); Chr ">"]) true false.

(** [/<\/div>/gi] and [/<\/p>/gi] *)
Definition re_div_close : regex := Regex (lit "</div>") true false.
Definition re_p_close : regex := Regex (lit "</p>") true false.

(** [/<[^>]*>/g] *)
Definition re_tag : regex := Regex (cats [Chr "<"; star (c_not ">"); Chr ">"]) false false.

(** [/\s+/g] *)
Definition re_spaces : regex := Regex (plus c_space) false false.

(** The HTML clean-up chain applied to a decoded [text/html] part. *)
Definition cleanHtml (htmlBody : string) : string :=
  let cleanBody := replace_all re_script "" htmlBody in
  let cleanBody := replace_all re_style "" cleanBody in
  let cleanBody := replace_all re_br nl cleanBody in
  let cleanBody := replace_all re_div_close nl cleanBody in
  let cleanBody := replace_all re_p_close nl cleanBody in
  let cleanBody := replace_all re_tag " " cleanBody in
  trim (replace_all re_spaces " " cleanBody).

(** [x.body && x.body.data] *)
Definition has_data (d : option string) : bool :=
  match d with Some s => truthy s | None => false end.

Definition is_part (mime : string) (p : part) : bool :=
  String.eqb (p_mimeType p) mime && has_data (p_data p).

(** The inner loop over [part.parts]: a [text/plain] part with data ends
    it; a [text/html] part with data is taken while [body] is still empty
    and the loop goes on. *)
Fixpoint nested_body (nps : list part) (body : string) : string :=
  match nps with
  | [] => body
  | np :: rest =>
      if is_part "text/plain" np then decodeBase64 (default "" (p_data np))
      else if is_part "text/html" np && negb (truthy body)
      then nested_body rest (cleanHtml (decodeBase64 (default "" (p_data np))))
      else nested_body rest body
  end.

(** The outer loop over [payload.parts]: the first [text/plain] or
    [text/html] part with data ends it; a part with sub-parts runs the
    inner loop and ends the outer one when it produced a body. *)
Fixpoint first_level_body (ps : list part) (body : string) : string :=
  match ps with
  | [] => body
  | p :: rest =>
      if is_part "text/plain" p then decodeBase64 (default "" (p_data p))
      else if is_part "text/html" p then cleanHtml (decodeBase64 (default "" (p_data p)))
      else match p_parts p with
           | Some nps =>
               let b := nested_body nps body in
               if truthy b then b else first_level_body rest b
           | None => first_level_body rest body
           end
  end.

Definition resolveBody (pl : payload) : string :=
  if has_data (pl_data pl) then decodeBase64 (default "" (pl_data pl))
  else match pl_parts pl with
       | Some ps => first_level_body ps ""
       | None => ""
       end.

(** ** Labelled fields of the body *)

(** [[:\s]], [[a-zA-Z0-9._-]], [[a-zA-Z]] *)
Definition c_colon_space : cset := CSet (fun c => Ascii.eqb c ":" || is_space c) false.
Definition c_addr : cset :=
  CSet (fun c => in_range 97 122 c || in_range 65 90 c || in_range 48 57 c ||
                 Ascii.eqb c "." || Ascii.eqb c "_" || Ascii.eqb c "-") false.
Definition c_alpha : cset := CSet (fun c => in_range 97 122 c || in_range 65 90 c) false.

(** [[a-zA-Z0-9._-]+@[a-zA-Z0-9._-]+\.[a-zA-Z]{2,}] *)
Definition re_addr : re :=
  cats [plus c_addr; Chr "@"; plus c_addr; Chr "."; Rep c_alpha 2 None true].

(** [emailPatterns] *)
Definition emailPatterns : list regex := [
  Regex (cats [lit "Candidate"; plus c_space; lit "Email"; plus c_space; lit "ID";
               plus c_colon_space; Grp re_addr]) true false;
  Regex (cats [lit "Candidate"; plus c_space; lit "Email"; plus c_colon_space; Grp re_addr]) true false;
  Regex (cats [lit "Email"; plus c_space; lit "ID"; plus c_colon_space; Grp re_addr]) true false
].

(** [/Candidate\s+Full\s+Name[:\s]+(.+?)(?=\s*(?:Candidate\s+(?:Email\s+ID|Phone|Assessment\s+Key)|Subject|Issue)|$)/i] *)
Definition re_full_name : regex :=
  Regex (cats [lit "Candidate"; plus c_space; lit "Full"; plus c_space; lit "Name";
               plus c_colon_space; Grp (plus_lazy c_dot);
               Ahead (Alt (Cat (star c_space)
                                (alts [cats [lit "Candidate"; plus c_space;
                                             alts [cats [lit "Email"; plus c_space; lit "ID"];
                                                   lit "Phone";
                                                   cats [lit "Assessment"; plus c_space; lit "Key"]]];
                                       lit "Subject"; lit "Issue"]))
                          EOI)]) true false.

(** [/Issue[:\s]+(.+?)(?=\s*(?:Thank\s+you|$))/i] *)
Definition re_issue : regex :=
  Regex (cats [lit "Issue"; plus c_colon_space; Grp (plus_lazy c_dot);
               Ahead (Cat (star c_space) (Alt (cats [lit "Thank"; plus c_space; lit "you"]) EOI))])
        true false.

(** The [for (const pattern of emailPatterns)] loop: the first pattern
    that matches gives [m[1].trim()]. *)
Fixpoint first_capture (ps : list regex) (body : string) : string :=
  match ps with
  | [] => ""
  | p :: ps' =>
      match exec p body with
      | Some m => trim (capv m)
      | None => first_capture ps' body
      end
  end.

(** ** extractInfo *)

Definition extractInfo (email : message) : extract_error + ticket :=
  match msg_payload email with
  | None => inl NoPayload
  | Some pl =>
      let headers := default [] (pl_headers pl) in
      fromHeader <-? header_value "from" headers ;;
      subjectHeader <-? header_value "subject" headers ;;
      let sender := parse_sender_email fromHeader in
      let name := parse_sender_name fromHeader sender in
      let text := trim (resolveBody pl) in
      let candEmail := first_capture emailPatterns text in
      let extractedName :=
        match exec re_full_name text with Some m => trim (capv m) | None => name end in
      let issueDescription :=
        match exec re_issue text with Some m => trim (capv m) | None => "" end in
      inr {| candidateName := extractedName ||ₛ name ||ₛ "Candidate";
             candidateEmail := candEmail ||ₛ sender;
             senderEmail := sender;
             subject := subjectHeader;
             body := text;
             issue := issueDescription;
             messageId := msg_id email;
             threadId := msg_threadId email |}
  end.

(** ** Which messages extractInfo accepts *)

Lemma find_header_named nm hs :
  Forall (fun h => is_Some (h_name h)) hs -> exists o, find_header nm hs = inr o.
Proof.
  induction 1 as [|h hs [n Hn] _ IH]; simpl; [eauto |].
  rewrite Hn. destruct (String.eqb _ _); eauto.
Qed.

Lemma find_header_error nm hs e :
  find_header nm hs = inl e -> e = HeaderWithoutName /\ exists h, In h hs /\ h_name h = None.
Proof.
  induction hs as [|h hs IH]; simpl; [done |].
  destruct (h_name h) eqn:E.
  - destruct (String.eqb _ _); [done |]. intros H. destruct (IH H) as (-> & h' & ? & ?). eauto.
  - intros [= <-]. eauto.
Qed.

Lemma header_value_error nm hs e :
  header_value nm hs = inl e -> e = HeaderWithoutName /\ exists h, In h hs /\ h_name h = None.
Proof.
  unfold header_value. destruct (find_header nm hs) eqn:E; simpl; [| done].
  intros [= ->]. by apply (find_header_error nm).
Qed.

(** The ticket of a message whose headers all carry a name: its body is
    the trimmed body text, its candidate e-mail the first capture of the
    [emailPatterns] (else the sender) and its issue the capture of
    [re_issue] (else empty). *)
Lemma extractInfo_fields (m : message) (pl : payload) :
  msg_payload m = Some pl ->
  Forall (fun h => is_Some (h_name h)) (default [] (pl_headers pl)) ->
  exists t, extractInfo m = inr t /\ body t = trim (resolveBody pl) /\
    candidateEmail t = (first_capture emailPatterns (body t) ||ₛ senderEmail t) /\
    issue t = match exec re_issue (body t) with Some r => trim (capv r) | None => "" end /\
    threadId t = msg_threadId m /\
    exists f, header_value "from" (default [] (pl_headers pl)) = inr f /\ senderEmail t = parse_sender_email f /\
      let nm := parse_sender_name f (parse_sender_email f) in
      candidateName t =
        ((match exec re_full_name (body t) with Some r => trim (capv r) | None => nm end) ||ₛ nm ||ₛ "Candidate").
Proof.
  intros Hp Hh. unfold extractInfo. rewrite Hp.
  destruct (find_header_named "from" _ Hh) as [o1 E1].
  destruct (find_header_named "subject" _ Hh) as [o2 E2].
  unfold header_value. rewrite E1, E2. cbn [bind_sum]. eexists. split; [reflexivity |].
  do 4 (split; [done |]). eexists. split; [reflexivity | split; reflexivity].
Qed.

(** a message with a payload whose headers all carry a name is always
    extracted: [extractInfo] does not throw on it. *)
Theorem extractInfo_succeeds (m : message) (pl : payload) :
  msg_payload m = Some pl ->
  Forall (fun h => is_Some (h_name h)) (default [] (pl_headers pl)) ->
  exists t, extractInfo m = inr t.
Proof. intros Hp Hh. destruct (extractInfo_fields m pl Hp Hh) as (t & E & _). eauto. Qed.


(** ** The reply address cannot break a header line *)

Ltac crlf_free :=
  repeat split;
  let x := fresh "x" in let Hx := fresh "Hx" in let Hc := fresh "Hc" in
  intros x Hx; destruct (no_crlf x) eqn:Hc; try reflexivity;
  unfold no_crlf in Hc; apply negb_false_iff, is_line_term_cases in Hc as [-> | ->];
  vm_compute in Hx; discriminate.

Lemma addr_no_crlf : consumes_only true no_crlf re_addr.
Proof. unfold re_addr. simpl. crlf_free. Qed.

(** Close [all_chars P (capv m)] or [all_chars P (m_text m)] from the
    hypothesis [exec p s = Some m] that produced [m]. *)
Ltac exec_chars :=
  match goal with
  | H : exec _ _ = Some ?m |- all_chars _ (capv ?m) = true =>
      apply (exec_capture_chars _ _ _ _ H)
  | H : exec _ _ = Some ?m |- all_chars _ (m_text ?m) = true =>
      apply (exec_text_chars _ _ _ _ H)
  end.

Lemma first_capture_no_crlf s : all_chars no_crlf (first_capture emailPatterns s) = true.
Proof.
  unfold emailPatterns. cbn [first_capture].
  repeat case_match; try done; apply all_chars_trim; exec_chars; simpl; crlf_free.
Qed.

Lemma parse_sender_email_no_crlf f : all_chars no_crlf (parse_sender_email f) = true.
Proof.
  unfold parse_sender_email.
  repeat case_match; try done; apply all_chars_js_or; exec_chars; simpl; crlf_free.
Qed.

(** The address a reply is sent to never contains a carriage return or
    a line feed: both the body patterns and the [From] patterns only
    capture characters of [.] or of address classes. *)
Lemma extractInfo_email_chars (m : message) (t : ticket) :
  extractInfo m = inr t -> all_chars no_crlf (candidateEmail t) = true.
Proof.
  unfold extractInfo. destruct (msg_payload m) as [pl|]; [| done]. intros H.
  apply bind_sum_inr_inv in H as (f & _ & H). apply bind_sum_inr_inv in H as (sj & _ & H).
  injection H as <-. cbn [candidateEmail].
  apply all_chars_js_or; [apply first_capture_no_crlf | apply parse_sender_email_no_crlf].
Qed.

(** C35: the ticket's candidate name is never empty: the body field, the
    header name and the literal ["Candidate"] are tried in turn. *)
Theorem extractInfo_name_truthy (m : message) (t : ticket) :
  extractInfo m = inr t -> truthy (candidateName t) = true.
Proof.
  unfold extractInfo. destruct (msg_payload m) as [pl|]; [| done]. intros H.
  apply bind_sum_inr_inv in H as (f & _ & H). apply bind_sum_inr_inv in H as (sj & _ & H).
  injection H as <-. cbn [candidateName]. auto with js.
Qed.

(** ** Concrete messages *)

(** The body of the specification's example, as Gmail delivers it
    (base64 of the UTF-8 bytes), with a [From] header naming the sender. *)
Definition spec_body : string :=
  "Candidate Full Name: Jane Doe Candidate Email ID: jane@x.com Issue: start button disable condition Thank you".

Definition spec_message : message := {|
  msg_id := "m1"; msg_threadId := Some "t1";
  msg_payload := Some {|
    pl_headers := Some [Header (Some "From") (Some "Jane Sender <js@x.com>");
                        Header (Some "Subject") (Some "Cannot start test")];
    pl_data := Some (b64_encode (utf8_encode spec_body));
    pl_parts := None |} |}.

(** the specification's extraction example: name, e-mail and issue
    come from the labelled fields of the body. *)
Example extractInfo_spec_example :
  exists t, extractInfo spec_message = inr t /\
    candidateName t = "Jane Doe" /\ candidateEmail t = "jane@x.com" /\
    issue t = "start button disable condition".
Proof. eexists. split; [vm_compute; reflexivity | vm_compute; auto]. Qed.

Lemma extractInfo_succeeds_witness :
  msg_payload spec_message = Some (default (Payload None None None) (msg_payload spec_message)) /\
  exists t, extractInfo spec_message = inr t.
Proof.
  split; [reflexivity |].
  apply (extractInfo_succeeds spec_message (default (Payload None None None) (msg_payload spec_message)));
    [reflexivity | repeat econstructor].
Defined.


Lemma extractInfo_name_truthy_witness :
  exists t, extractInfo spec_message = inr t /\ truthy (candidateName t) = true.
Proof.
  destruct (extractInfo spec_message) as [e|t] eqn:E; [discriminate E |].
  exists t. split; [reflexivity | apply (extractInfo_name_truthy spec_message t E)].
Defined.

(** ** HTML clean-up removes every tag *)

(** [s] has no tag: no [<] is followed, anywhere later, by a [>]. *)
Definition not_gt (c : ascii) : bool := negb (Ascii.eqb c ">").
Definition is_angle (c : ascii) : bool := Ascii.eqb c "<" || Ascii.eqb c ">".

Fixpoint no_tag (s : string) : bool :=
  match s with
  | EmptyString => true
  | String c s' => (negb (Ascii.eqb c "<") || all_chars not_gt s') && no_tag s'
  end.

(** The skeleton of a string: its [<] and [>] characters, in order.
    Whether a string has a tag depends only on its skeleton. *)
Fixpoint skel (s : string) : string :=
  match s with
  | EmptyString => EmptyString
  | String c s' => if is_angle c then String c (skel s') else skel s'
  end.

Lemma not_angle_not_gt c : is_angle c = false -> not_gt c = true.
Proof. unfold is_angle, not_gt. intros H. apply orb_false_elim in H as [_ ->]. done. Qed.

Lemma not_angle_not_lt c : is_angle c = false -> Ascii.eqb c "<" = false.
Proof. unfold is_angle. intros H. by apply orb_false_elim in H as [-> _]. Qed.

Lemma all_not_gt_skel s : all_chars not_gt (skel s) = all_chars not_gt s.
Proof.
  induction s as [|c s IH]; simpl; [done |].
  destruct (is_angle c) eqn:E; simpl; rewrite IH; [done |].
  by rewrite not_angle_not_gt.
Qed.

Lemma no_tag_skel s : no_tag (skel s) = no_tag s.
Proof.
  induction s as [|c s IH]; simpl; [done |].
  destruct (is_angle c) eqn:E; simpl; rewrite IH; [by rewrite all_not_gt_skel |].
  by rewrite not_angle_not_lt.
Qed.

Lemma skel_app a b : skel (a ++ b) = (skel a ++ skel b)%string.
Proof. induction a as [|c a IH]; simpl; [done |]. destruct (is_angle c); by rewrite IH. Qed.

Lemma skel_nil s : all_chars (fun c => negb (is_angle c)) s = true -> skel s = "".
Proof.
  induction s as [|c s IH]; simpl; [done |]. intros H. apply andb_prop in H as [Hc H].
  apply negb_true_iff in Hc. rewrite Hc. auto.
Qed.

Lemma space_not_angle c : is_space c = true -> is_angle c = false.
Proof.
  intros H. destruct (is_angle c) eqn:E; [| done]. unfold is_angle in E.
  apply orb_true_iff in E as [E | E]; apply Ascii.eqb_eq in E; subst c; discriminate H.
Qed.

(** A global replacement whose pattern and replacement contain no angle
    bracket leaves the skeleton unchanged. *)
Lemma skel_replace_go p r s k :
  consumes_only (rx_icase p) (fun c => negb (is_angle c)) (rx p) -> skel r = "" ->
  skel (replace_go p r s k) = skel (sdrop k s).
Proof.
  intros Hp Hr. revert k. induction s as [|c s IH]; intros k.
  - destruct k; simpl; [| done]. by destruct (run _ _ _) as [[t ?]|].
  - destruct k as [|k]; simpl; [| apply IH].
    destruct (run _ _ _) as [[t cap]|] eqn:E.
    + destruct (matches_consumed _ _ _ _ _ (run_sound _ _ _ _ _ E) Hp) as (u & Hu & Hall).
      pose proof (f_equal String.length Hu) as Hlen. rewrite string_length_app in Hlen.
      destruct (S (String.length s) - String.length t) as [|n] eqn:Hn;
        rewrite skel_app, Hr; simpl.
      * rewrite IH. done.
      * rewrite IH. destruct u as [|x u]; simpl in *; [lia |].
        injection Hu as <- ->. rewrite Hlen in Hn.
        replace n with (String.length u) by lia. rewrite sdrop_app.
        rewrite skel_app, (skel_nil u); simpl in Hall; apply andb_prop in Hall as [Hx Hall];
          [| done]. apply negb_true_iff in Hx. by rewrite Hx.
    + simpl. rewrite IH. done.
Qed.

Lemma skel_trim_start s : skel (trim_start s) = skel s.
Proof.
  induction s as [|c s IH]; simpl; [done |].
  destruct (is_space c) eqn:E; [| done]. by rewrite IH, space_not_angle.
Qed.

Lemma skel_trim_end s : skel (trim_end s) = skel s.
Proof.
  induction s as [|c s IH]; simpl; [done |].
  destruct (is_space c && String.eqb (trim_end s) "") eqn:E; simpl; [| by rewrite IH].
  apply andb_prop in E as [Hc Ht]. apply String.eqb_eq in Ht.
  rewrite space_not_angle by done. by rewrite <- IH, Ht.
Qed.

Lemma skel_trim s : skel (trim s) = skel s.
Proof. unfold trim. by rewrite skel_trim_end, skel_trim_start. Qed.

Lemma all_cls_not_gt u : all_cls false (c_not ">") u = all_chars not_gt u.
Proof.
  induction u as [|c u IH]; simpl; [done |]. rewrite IH. unfold not_gt. by rewrite Ascii.eqb_sym.
Qed.

Lemma split_at_gt s :
  all_chars not_gt s = false -> exists u w, s = (u ++ String ">" w)%string /\ all_chars not_gt u = true.
Proof.
  induction s as [|c s IH]; simpl; [done |]. unfold not_gt at 1.
  destruct (Ascii.eqb c ">") eqn:E; simpl.
  - intros _. apply Ascii.eqb_eq in E. subst c. by exists "", s.
  - intros H. destruct (IH H) as (u & w & -> & Hu). exists (String c u), w.
    simpl. unfold not_gt at 1. by rewrite E.
Qed.

(** [/<[^>]*>/] fails on a [<] only when no [>] follows it. *)
Lemma run_tag_None s :
  run false (rx re_tag) (String "<" s) = None -> all_chars not_gt s = true.
Proof.
  intros H. destruct (all_chars not_gt s) eqn:E; [done |].
  destruct (split_at_gt s E) as (u & w & -> & Hu). exfalso.
  assert (Hm : matches false (star (c_not ">")) (u ++ String ">" w) (String ">" w)).
  { rewrite <- (sdrop_app u (String ">" w)) at 2.
    apply m_rep; [lia | done | rewrite string_length_app; lia |].
    by rewrite stake_app_sdrop, all_cls_not_gt. }
  apply (run_complete false (rx re_tag) (String "<" (u ++ String ">" w)) w); [| done].
  eapply m_cat; [by apply m_chr |]. eapply m_cat; [exact Hm | by apply m_chr].
Qed.

Lemma no_tag_replace_tag s k : no_tag (replace_go re_tag " " s k) = true.
Proof.
  revert k. induction s as [|c s IH]; intros k.
  - destruct k; cbn [replace_go]; [| done]. by destruct (run _ _ _) as [[t ?]|].
  - destruct k as [|k]; cbn [replace_go]; [| apply IH].
    destruct (run (rx_icase re_tag) (rx re_tag) (String c s)) as [[t cap]|] eqn:E.
    + pose proof (run_chr_progress false "<"%char _ _ _ _ E) as Hlt. simpl in Hlt |- *.
      destruct (S (String.length s) - String.length t) as [|n] eqn:Hn; [lia |]. apply IH.
    + simpl. rewrite IH, andb_true_r.
      destruct (Ascii.eqb c "<") eqn:Ec; [| done]. apply Ascii.eqb_eq in Ec. subst c.
      apply replace_go_chars; [by apply run_tag_None | done].
Qed.

(** C36: the HTML normalisation leaves no markup: in the cleaned body no
    [<] is followed by a [>], whatever the input. *)
Theorem cleanHtml_no_tag (html : string) : no_tag (cleanHtml html) = true.
Proof.
  unfold cleanHtml. rewrite <- no_tag_skel, skel_trim. unfold replace_all at 1.
  rewrite skel_replace_go;
    [| simpl; intros x Hx; by rewrite space_not_angle | done].
  cbn [sdrop]. rewrite no_tag_skel. apply no_tag_replace_tag.
Qed.

(** ** Which part gives the body *)

Lemma is_part_plain_html p : is_part "text/html" p = true -> is_part "text/plain" p = false.
Proof.
  unfold is_part. intros H. apply andb_prop in H as [H _]. apply String.eqb_eq in H.
  by rewrite H.
Qed.

(** among nested parts, a [text/plain] part with data wins over any
    [text/html] part before it: the HTML candidate is kept only while the
    loop continues, and the plain part overrides it. *)
Theorem nested_body_prefers_plain (hs rest : list part) (np : part) (b : string) :
  Forall (fun p => is_part "text/plain" p = false) hs ->
  is_part "text/plain" np = true ->
  nested_body (hs ++ np :: rest) b = decodeBase64 (default "" (p_data np)).
Proof.
  intros Hhs Hnp. revert b. induction Hhs as [|p hs Hp _ IH]; intros b; simpl.
  - by rewrite Hnp.
  - rewrite Hp. destruct (_ && _); apply IH.
Qed.


Definition html_part (s : string) : part := Part "text/html" (Some (b64_encode s)) None.
Definition plain_part (s : string) : part := Part "text/plain" (Some (b64_encode s)) None.

Lemma nested_body_prefers_plain_witness :
  Forall (fun p => is_part "text/plain" p = false) [html_part "<p>html</p>"] /\
  is_part "text/plain" (plain_part "plain") = true /\
  nested_body ([html_part "<p>html</p>"] ++ plain_part "plain" :: []) "" = "plain".
Proof.
  split; [repeat constructor | split; [reflexivity |]].
  rewrite (nested_body_prefers_plain [html_part "<p>html</p>"] [] (plain_part "plain") "");
    [vm_compute; reflexivity | repeat constructor | reflexivity].
Defined.


(** ** What the specification's invariants do not get *)

(** A single-part message whose body is HTML: the direct [body.data] is
    decoded and never cleaned. *)
Example resolveBody_direct_html_kept :
  resolveBody (Payload None (Some (b64_encode "<p>Hi</p>")) None) = "<p>Hi</p>" /\
  no_tag "<p>Hi</p>" = false.
Proof. split; vm_compute; reflexivity. Qed.

Lemma at_char c : char_eq true "@" c = true -> Ascii.eqb c "@" = true.
Proof. revert c. apply (forall_ascii_impl (char_eq true "@")). by vm_compute. Qed.

(** Each of the [emailPatterns] needs an [@]: on a body without one the
    loop finds nothing. *)
Lemma first_capture_no_at s :
  all_chars (fun c => negb (Ascii.eqb c "@")) s = true -> first_capture emailPatterns s = "".
Proof.
  intros Hs. assert (Ha : all_chars (fun c => negb (char_eq true "@" c)) s = true).
  { revert Hs. apply all_chars_impl. intros c Hc. destruct (char_eq true "@" c) eqn:E; [| done].
    by rewrite at_char in Hc. }
  unfold emailPatterns. cbn [first_capture]. by rewrite !(exec_needs_none _ "@" s).
Qed.

(** C38: a message without a [From] header (or with an empty one) whose
    body holds no [@] is extracted with an empty candidate e-mail: none
    of the [emailPatterns] can match without an [@], and the sender
    address is empty, so the fallback chain ends in [""]. *)
Theorem extractInfo_email_empty (m : message) (pl : payload) :
  msg_payload m = Some pl -> Forall (fun h => is_Some (h_name h)) (default [] (pl_headers pl)) ->
  header_value "from" (default [] (pl_headers pl)) = inr "" ->
  all_chars (fun c => negb (Ascii.eqb c "@")) (trim (resolveBody pl)) = true ->
  exists t, extractInfo m = inr t /\ candidateEmail t = "".
Proof.
  intros Hm Hh Hf Hs. destruct (extractInfo_fields m pl Hm Hh) as (t & E & Ht & He & _ & _ & f & Hf' & Hse & _).
  exists t. split; [done |]. rewrite Hf in Hf'. injection Hf' as <-.
  rewrite He, Hse, Ht, first_capture_no_at by done. reflexivity.
Qed.

Lemma extractInfo_email_empty_witness :
  exists t, extractInfo (Message "m2" None (Some (Payload (Some [])
              (Some (b64_encode "Candidate Full Name: Jane Doe Issue: test not starting")) None)))
            = inr t /\ candidateEmail t = "".
Proof.
  apply (extractInfo_email_empty _ (Payload (Some [])
           (Some (b64_encode "Candidate Full Name: Jane Doe Issue: test not starting")) None)).
  - reflexivity.
  - constructor.
  - reflexivity.
  - vm_compute. reflexivity.
Defined.

