(* ===== verification/Classifier.v ===== *)
(** * IssueClassifier: [src/classifier.js]

    [classifyIssue] decides whether a message describes a "start button /
    test not starting" issue.  Tier 1 is a case-insensitive keyword test on
    [issue + subject + body]; without a match the answer is NO.  Without an
    API key the keyword match is the answer (tier 0).  Otherwise a chat
    completion is requested from the reasoning service (tier 2) and YES is
    answered when its reply contains "YES"; when the call throws, a reduced
    regular expression decides (tier 3).

    The reasoning service is an interface ([ReasoningService]): the
    classifier's theorems hold for every implementation of it, the way the
    specification asks tier 2 to be replaceable by a test double. *)

From Stdlib Require Import Ascii String.
From stdpp Require Import base list strings.
From Stdlib Require Import Lia.
From S2P Require Import Prelude Regex.

Open Scope string_scope.
Open Scope js_scope.

(** ** Configuration tables *)

(** [START_BUTTON_ISSUE_PATTERNS] *)
Definition START_BUTTON_ISSUE_PATTERNS : list string := [
  "Not open"; "test is not starting"; "Link not working properly"; "Assessment exam not start";
  "start bottom is disable"; "Not able to click on Start icon"; "Assesment not starting";
  "not able to access Test"; "Test is not starting"; "Camera and location option not open";
  "can't attend the test"; "permission not granted"; "Site Not Open"; "unable to start the Assessment";
  "camera and the location permission not granted"; "Not connected"; "assessment is not open";
  "START EXAM is not popping"; "test is not start"; "COUDNT START TEST"; "Test will be not start";
  "location is not showing up"; "start is not clickable"; "location allow not showing";
  "test is that not open"; "icon is not working"; "lock icon which you provided, but it's not working";
  "Not stared test"; "test is not getting start"; "not able to click on start assessment";
  "START BUTTON DISABLE CONDITION"; "test did not start"; "start test' it is not working";
  "assessment is not starting"; "Start nahi ho rahi hai"; "Assessment is not able to start";
  "test exam link"; "start test option is not visible"; "start Test option is not enable";
  "unable to Attend the Test"; "Start option not working"; "location visible tab not shown";
  "test not started"; "Not going into text step"; "Not Working"; "no option is showing in for gps location";
  "Session Not starting"; "Session Not Opening"; "Page not open"; "Unable to continue with the test";
  "Test does not starts"; "location access"; "Location is not ticked"; "Not started";
  "can't start the screening test"; "can't start the Test"; "test is not starting";
  "can't start the test because"; "unable to click on the start test"
].

(** [quickKeywords] *)
Definition quickKeywords : list string := [
  "start"; "not starting"; "not start"; "unable to start"; "can't start"; "cannot start";
  "start button"; "start test"; "start exam"; "start assessment"; "start icon"; "start option";
  "button disable"; "button not working"; "not clickable"; "not enable"; "not open";
  "test not"; "assessment not"; "exam not"; "session not"; "page not open"
].

(** ** Tier 1 and tier 3: pure text tests *)

(** [`${issueDescription} ${emailSubject} ${emailBody}`.toLowerCase()] *)
Definition searchText (emailSubject issueDescription emailBody : string) : string :=
  to_lower (issueDescription ++ " " ++ emailSubject ++ " " ++ emailBody).

(** [quickKeywords.some(keyword => searchText.includes(keyword))] *)
Definition hasQuickMatch (text : string) : bool :=
  existsb (fun keyword => includes keyword text) quickKeywords.

(** The alternatives of the tier-3 expression, in order. *)
Definition fallbackTerms : list string :=
  ["start"; "not starting"; "not start"; "unable to start"; "can't start";
   "cannot start"; "button disable"; "not clickable"; "not open"].

(** [/start|not starting|not start|unable to start|can't start|cannot start|button disable|not clickable|not open/i] *)
Definition re_fallback : regex := Regex (alts (map lit fallbackTerms)) true false.

(** ** Tier 2: the reasoning service *)

(** The arguments of [openai.chat.completions.create]; the temperature
    0.1 is kept in tenths. *)
Record chat_request := ChatRequest {
  req_model : string;
  req_system : string;
  req_user : string;
  req_temperature_tenths : nat;
  req_max_tokens : nat
}.

(** What the call gives back: it throws (network, authentication,
    malformed response), or it returns [choices[0]?.message?.content],
    which may be absent. *)
Inductive llm_reply := LlmThrows | LlmReturns (content : option string).

(** The interface of the service: the API key and the request determine
    the reply. *)
Class ReasoningService := { complete : string -> chat_request -> llm_reply }.

(** The environment variables the classifier reads. *)
Record env := Env {
  OPENAI_API_KEY : option string;
  CURSOR_API_KEY : option string;
  GPT_MODEL : option string
}.

(** [process.env.OPENAI_API_KEY || process.env.CURSOR_API_KEY] *)
Definition apiKey (e : env) : string :=
  default "" (OPENAI_API_KEY e) ||ₛ default "" (CURSOR_API_KEY e).

Definition systemPrompt : string :=
  "You are a classifier for technical support emails. Classify whether an email describes a "
  ++ quoted "Start Button" ++ " or " ++ quoted "Test Not Starting"
  ++ " issue. These issues involve problems where candidates cannot begin their assessment because the start button/option is not working, disabled, not clickable, or the test/assessment will not start/open. Reply ONLY with "
  ++ quoted "YES" ++ " if it is a Start Button issue, or " ++ quoted "NO"
  ++ " if it is any other type of issue.".

(** [START_BUTTON_ISSUE_PATTERNS.map((ex, i) => `${i + 1}. "${ex}"`).join('\n')] *)
Definition numberedExamples : string :=
  join nl (imap (fun i ex => show_nat (i + 1) ++ ". " ++ quoted ex) START_BUTTON_ISSUE_PATTERNS).

(** The template literal [prompt]. *)
Definition classificationPrompt (emailSubject issueDescription emailBody : string) : string :=
  join nl [
    "You are classifying candidate support emails. Determine if the issue is a "
      ++ quoted "Start Button/Test Not Starting" ++ " issue.";
    "";
    "ISSUE TO CLASSIFY:";
    "Subject: " ++ quoted emailSubject;
    "Issue: " ++ quoted issueDescription;
    "Body: " ++ quoted (String.substring 0 500 emailBody);
    "";
    "A " ++ quoted "Start Button/Test Not Starting" ++ " issue includes problems where:";
    "- The test/assessment/exam cannot be started";
    "- Start button is disabled, not clickable, or not working";
    "- Start option/icon/button is not visible or not working";
    "- Test/assessment/exam is not opening or starting";
    "- Location/camera/microphone permissions are granted but test still won't start";
    "- User cannot click on start button/icon/option";
    "- Start button is in disabled condition";
    "- Test link is not working or not opening";
    "";
    "EXAMPLES OF START BUTTON ISSUES (these should return YES):";
    numberedExamples;
    "";
    "EXAMPLES OF OTHER ISSUES (these should return NO):";
    "- " ++ quoted "Didn't receive email after completing assessment";
    "- " ++ quoted "Results not received";
    "- " ++ quoted "Certificate not received";
    "- " ++ quoted "Payment issue";
    "- " ++ quoted "Login problem";
    "- " ++ quoted "Forgot password";
    "- " ++ quoted "Account locked";
    "- " ++ quoted "Technical error during test";
    "- " ++ quoted "Questions not loading";
    "- " ++ quoted "Submission failed";
    "";
    "Reply ONLY with " ++ quoted "YES" ++ " if it's a Start Button/Test Not Starting issue, or "
      ++ quoted "NO" ++ " if it's any other issue."
  ].

Definition classificationRequest (e : env) (emailSubject issueDescription emailBody : string)
  : chat_request := {|
  req_model := default "" (GPT_MODEL e) ||ₛ "gpt-4o-mini";
  req_system := systemPrompt;
  req_user := classificationPrompt emailSubject issueDescription emailBody;
  req_temperature_tenths := 1;
  req_max_tokens := 10 |}.

(** [response.choices[0]?.message?.content?.trim().toUpperCase() || 'NO'] *)
Definition normalizeReply (content : option string) : string :=
  match content with
  | Some c => to_upper (trim c) ||ₛ "NO"
  | None => "NO"
  end.

(** ** classifyIssue *)

Inductive verdict := YES | NO.

Section Classify.
Context `{ReasoningService}.

Definition classifyIssue (e : env) (emailSubject issueDescription emailBody : string) : verdict :=
  let text := searchText emailSubject issueDescription emailBody in
  let quick := hasQuickMatch text in
  if negb quick then NO
  else if negb (truthy (apiKey e)) then (if quick then YES else NO)
  else match complete (apiKey e) (classificationRequest e emailSubject issueDescription emailBody) with
       | LlmReturns content => if includes "YES" (normalizeReply content) then YES else NO
       | LlmThrows => if test re_fallback text then YES else NO
       end.
End Classify.

(** ** Tier 3 is a substring test, and it refines tier 1 *)

(** Characters that [toLowerCase] leaves alone: every character of a
    lower-cased text. *)
Definition lower_fixed (c : ascii) : bool := Ascii.eqb (lower_char c) c.

(** The characters the tier-3 alternatives are written with. *)
Definition term_alphabet : string := "abcdefghijklmnopqrstuvwxyz '".
Definition term_char (c : ascii) : bool := existsb (Ascii.eqb c) (list_ascii_of_string term_alphabet).

Lemma lower_char_fixed (z : ascii) : lower_fixed (lower_char z) = true.
Proof. revert z. apply forall_ascii. vm_compute. reflexivity. Qed.

Lemma to_lower_fixed (x : string) : all_chars lower_fixed (to_lower x) = true.
Proof. induction x as [|z x IH]; simpl; [done |]. by rewrite lower_char_fixed, IH. Qed.

(** On a lower-cased character, the case-insensitive comparison with a
    character of the alternatives is plain equality. *)
Lemma char_eq_lower (c y : ascii) :
  term_char c = true -> lower_fixed y = true -> char_eq true c y = Ascii.eqb c y.
Proof.
  intros Hc Hy. apply existsb_exists in Hc as (c' & Hin & Hc'). apply Ascii.eqb_eq in Hc'. subst c'.
  assert (Hchk : forallb (fun c => forallb (fun n => implb (lower_fixed (ascii_of_nat n))
                   (Bool.eqb (char_eq true c (ascii_of_nat n)) (Ascii.eqb c (ascii_of_nat n))))
                   (seq 0 256)) (list_ascii_of_string term_alphabet) = true)
    by (vm_compute; reflexivity).
  rewrite forallb_forall in Hchk. specialize (Hchk c Hin).
  pose proof (forall_ascii (fun y => implb (lower_fixed y) (Bool.eqb (char_eq true c y) (Ascii.eqb c y)))
                Hchk y) as H. cbv beta in H. rewrite Hy in H. by apply Bool.eqb_prop in H.
Qed.

Lemma prefix_ci_lower k s :
  all_chars term_char k = true -> all_chars lower_fixed s = true ->
  prefix_ci true k s = String.prefix k s.
Proof.
  revert s. induction k as [|c k IH]; intros s Hk Hs; [by destruct s |].
  destruct s as [|y s]; [done |]. cbn [prefix_ci String.prefix all_chars] in Hk, Hs |- *.
  apply andb_prop in Hk as [Hc Hk]. apply andb_prop in Hs as [Hy Hs].
  rewrite (char_eq_lower c y Hc Hy), (IH s Hk Hs).
  destruct (ascii_dec c y) as [-> | Hne]; [by rewrite Ascii.eqb_refl |].
  apply Ascii.eqb_neq in Hne. by rewrite Hne.
Qed.

Lemma fallback_terms_chars k : In k fallbackTerms -> all_chars term_char k = true.
Proof.
  assert (H : forallb (all_chars term_char) fallbackTerms = true) by (vm_compute; reflexivity).
  rewrite forallb_forall in H. apply H.
Qed.

(** On the lower-cased search text, the tier-3 regular expression holds
    exactly when one of its alternatives occurs as a substring. *)
Lemma re_fallback_substring (x : string) :
  test re_fallback (to_lower x) = existsb (fun k => includes k (to_lower x)) fallbackTerms.
Proof.
  apply Bool.eq_iff_eq_true. rewrite test_spec by done. rewrite existsb_exists.
  pose proof (to_lower_fixed x) as Hlow. set (lx := to_lower x) in *.
  unfold re_fallback. cbn [rx rx_icase]. split.
  - intros (j & t & Hj & Hm). apply matches_alts in Hm; [| done].
    apply Exists_exists in Hm as (r & Hr & Hm). apply list_elem_of_In, in_map_iff in Hr as (k & <- & Hk).
    exists k. split; [done |].
    assert (Hp : prefix_ci true k (sdrop j lx) = true) by (apply matches_lit; eauto).
    rewrite prefix_ci_lower in Hp; [| by apply fallback_terms_chars | by apply all_chars_sdrop].
    apply prefix_split in Hp as [v Hv]. apply includes_split.
    exists (stake j lx), v. rewrite <- Hv. by rewrite stake_sdrop.
  - intros (k & Hk & Hinc). apply includes_split in Hinc as (u & v & Hlx).
    assert (Hp : prefix_ci true k (sdrop (String.length u) lx) = true).
    { rewrite prefix_ci_lower; [| by apply fallback_terms_chars | by apply all_chars_sdrop].
      rewrite Hlx, sdrop_app. apply prefix_app. }
    apply matches_lit in Hp as [t Ht]. exists (String.length u), t.
    split; [rewrite Hlx, string_length_app; lia |].
    apply matches_alts; [done |]. apply Exists_exists. exists (lit k). split; [by apply list_elem_of_In, in_map | done].
Qed.

Lemma fallback_terms_contain_keyword :
  forallb (fun k => existsb (fun k' => includes k' k) quickKeywords) fallbackTerms = true.
Proof. vm_compute. reflexivity. Qed.

(** Tier 3 never accepts a text that tier 1 rejects: each of its
    alternatives contains one of the quick keywords. *)
Lemma fallback_quick (x : string) :
  test re_fallback (to_lower x) = true -> hasQuickMatch (to_lower x) = true.
Proof.
  rewrite re_fallback_substring, existsb_exists. intros (k & Hk & Hinc).
  pose proof fallback_terms_contain_keyword as H. rewrite forallb_forall in H.
  specialize (H k Hk). apply existsb_exists in H as (k' & Hk' & Hsub).
  unfold hasQuickMatch. apply existsb_exists. exists k'. split; [done |].
  by apply (includes_trans k' k).
Qed.

(** ** The three tiers *)

(** a text without any quick keyword is classified NO whatever the
    reasoning service would answer, so the service's answer plays no part
    (it is not consulted). *)
Theorem classifyIssue_no_keyword (S : ReasoningService) (e : env) (s i b : string) :
  hasQuickMatch (searchText s i b) = false -> classifyIssue e s i b = NO.
Proof. intros H. unfold classifyIssue. cbv zeta. by rewrite H. Qed.

(** C39: when the reasoning service throws, [classifyIssue] still returns,
    and its verdict is the substring test of the tier-3 alternatives on
    the search text (the keyword guard is then implied). *)
Theorem classifyIssue_service_throws (S : ReasoningService) (e : env) (s i b : string) :
  truthy (apiKey e) = true ->
  complete (apiKey e) (classificationRequest e s i b) = LlmThrows ->
  classifyIssue e s i b =
    if existsb (fun k => includes k (searchText s i b)) fallbackTerms then YES else NO.
Proof.
  intros Hk Hc. unfold classifyIssue. cbv zeta. rewrite Hk, Hc. unfold searchText.
  rewrite re_fallback_substring. destruct (existsb _ _) eqn:E.
  - rewrite <- re_fallback_substring in E. by rewrite (fallback_quick _ E).
  - by destruct (hasQuickMatch _).
Qed.

Lemma trim_start_all_space w : all_chars is_space w = true -> trim_start w = "".
Proof.
  induction w as [|c w IH]; simpl; [done |]. intros H. apply andb_prop in H as [-> H]. auto.
Qed.

Lemma trim_all_space w : all_chars is_space w = true -> trim w = "".
Proof. intros H. unfold trim. by rewrite trim_start_all_space. Qed.

(** tier 2 fails closed: an absent, empty or blank reply is NO. *)
Theorem classifyIssue_blank_reply (S : ReasoningService) (e : env) (s i b : string)
    (c : option string) :
  truthy (apiKey e) = true ->
  complete (apiKey e) (classificationRequest e s i b) = LlmReturns c ->
  (c = None \/ exists w, c = Some w /\ all_chars is_space w = true) ->
  classifyIssue e s i b = NO.
Proof.
  intros Hk Hc Hw. unfold classifyIssue. cbv zeta.
  destruct (hasQuickMatch _); [| done]. simpl. rewrite Hk, Hc. simpl.
  destruct Hw as [-> | (w & -> & Hw)]; [done |].
  unfold normalizeReply. by rewrite trim_all_space.
Qed.

(** the prompt sent to the service enumerates every one of the
    [START_BUTTON_ISSUE_PATTERNS], not only the first twenty the comment of
    [examplesText] mentions. *)
Theorem classificationPrompt_lists_patterns (s i b : string) :
  Forall (fun ex => includes (quoted ex) (classificationPrompt s i b) = true)
    START_BUTTON_ISSUE_PATTERNS.
Proof.
  apply Forall_forall. intros ex Hex. apply (includes_trans _ numberedExamples).
  - assert (H : forallb (fun ex => includes (quoted ex) numberedExamples)
                  START_BUTTON_ISSUE_PATTERNS = true) by (vm_compute; reflexivity).
    rewrite forallb_forall in H. apply H. by apply list_elem_of_In.
  - apply includes_join. cbn [In]. repeat (first [left; reflexivity | right]).
Qed.

(** The pattern list has 59 entries, one of them twice; the comment above
    it announces 61. *)
Example START_BUTTON_ISSUE_PATTERNS_size :
  length START_BUTTON_ISSUE_PATTERNS = 59 /\ ~ NoDup START_BUTTON_ISSUE_PATTERNS.
Proof.
  split; [reflexivity |]. intros H.
  unfold START_BUTTON_ISSUE_PATTERNS in H.
  apply NoDup_cons in H as [_ H]. apply NoDup_cons in H as [H _].
  apply H, list_elem_of_In. cbn [In]. repeat (first [left; reflexivity | right]).
Qed.

(** ** Test doubles for the reasoning service *)

Definition service_throws : ReasoningService := {| complete _ _ := LlmThrows |}.
Definition service_says (answer : option string) : ReasoningService :=
  {| complete _ _ := LlmReturns answer |}.

Definition env_no_key : env := Env None None None.
Definition env_key : env := Env (Some "sk-test") None None.

Lemma classifyIssue_no_keyword_witness :
  hasQuickMatch (searchText "Payment issue" "" "") = false /\
  @classifyIssue (service_says (Some "YES")) env_key "Payment issue" "" "" = NO.
Proof.
  split; [reflexivity |].
  apply (classifyIssue_no_keyword (service_says (Some "YES"))). reflexivity.
Defined.

Lemma classifyIssue_service_throws_witness :
  @classifyIssue service_throws env_key "Test not loading" "" "" = NO /\
  @classifyIssue service_throws env_key "Start button disabled" "" "" = YES.
Proof.
  split; (rewrite (classifyIssue_service_throws service_throws); [reflexivity | reflexivity | reflexivity]).
Defined.

Lemma classifyIssue_blank_reply_witness :
  @classifyIssue (service_says (Some "   ")) env_key "Cannot start" "" "" = NO.
Proof.
  apply (classifyIssue_blank_reply (service_says (Some "   ")) env_key _ _ _ (Some "   "));
    [reflexivity | reflexivity | right; exists "   "; split; reflexivity].
Defined.

