(* ===== verification/Logo.v ===== *)
(** * Logo provider: [src/logoUtils.js]

    [getLogo] returns the logo the HTML reply embeds: the base64 string of
    [OTOMEYT_LOGO_BASE64] (as a data URI), else the first logo file found
    next to the module (read and base64-encoded by [loadLogoAsBase64]),
    else [OTOMEYT_LOGO_URL], else a fixed URL.  The file system is an
    association list from paths to contents; a file whose read fails is
    present with no contents, and the read error is caught by the
    function's [try]. *)

From Stdlib Require Import Ascii String.
From stdpp Require Import base list strings.
From Stdlib Require Import Lia.
From S2P Require Import Prelude Base64.

Open Scope string_scope.
Open Scope js_scope.

(** ** Paths and files *)

(** Paths to their contents; [None] when [fs.readFileSync] throws. *)
Definition filesystem := list (string * option string).

Fixpoint fs_lookup (fs : filesystem) (p : string) : option (option string) :=
  match fs with
  | [] => None
  | (q, c) :: fs' => if String.eqb q p then Some c else fs_lookup fs' p
  end.

(** [path.join] of plain components. *)
Definition path_join (parts : list string) : string := join "/" parts.

(** The text after the last occurrence of [c], if any. *)
Fixpoint suffix_after_last (c : ascii) (s : string) : option string :=
  match s with
  | EmptyString => None
  | String x s' =>
      match suffix_after_last c s' with
      | Some r => Some r
      | None => if Ascii.eqb x c then Some s' else None
      end
  end.

(** [path.extname]: from the last [.] of the last component, unless that
    dot is the component's first character. *)
Definition extname (p : string) : string :=
  let base := default p (suffix_after_last "/" p) in
  match base with
  | EmptyString => EmptyString
  | String _ rest =>
      match suffix_after_last "." rest with
      | Some e => "." ++ e
      | None => ""
      end
  end.

(** The MIME type chosen from the lower-cased extension. *)
Definition mimeType_of (ext : string) : string :=
  if String.eqb ext ".jpg" || String.eqb ext ".jpeg" then "image/jpeg"
  else if String.eqb ext ".gif" then "image/gif"
  else if String.eqb ext ".svg" then "image/svg+xml"
  else "image/png".

(** The loop over [possiblePaths]: the first existing file is read and
    returned as a data URI; a read error ends the function with [''],
    as does the absence of every file. *)
Fixpoint load_first (fs : filesystem) (paths : list string) : string :=
  match paths with
  | [] => ""
  | p :: ps =>
      match fs_lookup fs p with
      | Some (Some bytes) =>
          "data:" ++ mimeType_of (to_lower (extname p)) ++ ";base64," ++ b64_encode bytes
      | Some None => ""
      | None => load_first fs ps
      end
  end.

(** [loadLogoAsBase64(logoPath)]: the candidate paths, without the falsy
    ones ([filter(Boolean)]). *)
Definition loadLogoAsBase64 (dirname : string) (fs : filesystem) (logoPath : option string) : string :=
  let possiblePaths :=
    filter (fun p => truthy p = true)
      (default "" logoPath ::
       [path_join [dirname; "logo.png"]; path_join [dirname; "logo.jpg"];
        path_join [dirname; "assets"; "logo.png"]; path_join [dirname; "assets"; "logo.jpg"]]) in
  load_first fs possiblePaths.

(** The environment variables and the module's directory. *)
Record assets := Assets {
  OTOMEYT_LOGO_BASE64 : option string;
  OTOMEYT_LOGO_URL : option string;
  asset_dirname : string;
  asset_fs : filesystem
}.

Definition getLogo (a : assets) : string :=
  let b := default "" (OTOMEYT_LOGO_BASE64 a) in
  if truthy b then
    (if starts_with b "data:" then b else "data:image/png;base64," ++ b)
  else
    let base64Logo := loadLogoAsBase64 (asset_dirname a) (asset_fs a) None in
    if truthy base64Logo then base64Logo
    else default "" (OTOMEYT_LOGO_URL a) ||ₛ "https://www.otomeyt.ai/logo.png".

(** ** Properties *)

(** [getLogo] never returns the empty string: every branch ends in a
    non-empty value, the last one a fixed URL. *)
Theorem getLogo_truthy (a : assets) : truthy (getLogo a) = true.
Proof.
  unfold getLogo. cbv zeta.
  destruct (truthy (default "" (OTOMEYT_LOGO_BASE64 a))) eqn:E.
  - destruct (starts_with _ _); [done | reflexivity].
  - destruct (truthy (loadLogoAsBase64 _ _ _)) eqn:E2; [done |].
    apply truthy_js_or. reflexivity.
Qed.

(** A logo file is returned as a data URI whose payload decodes back to
    the file's bytes. *)
Lemma load_first_spec fs paths :
  load_first fs paths = "" \/
  exists p bytes, In p paths /\ fs_lookup fs p = Some (Some bytes) /\
    load_first fs paths = "data:" ++ mimeType_of (to_lower (extname p)) ++ ";base64," ++ b64_encode bytes.
Proof.
  induction paths as [|p ps IH]; simpl; [by left |].
  destruct (fs_lookup fs p) as [[bytes|]|] eqn:E; [right; exists p, bytes; auto | by left |].
  destruct IH as [-> | (q & bytes & Hin & Hq & ->)]; [by left | right; exists q, bytes; auto].
Qed.

(** The logo read from a file is a data URI of the file's bytes:
    decoding its base64 payload gives the file back. *)
Theorem loadLogoAsBase64_roundtrip (dirname : string) (fs : filesystem) (logoPath : option string) :
  loadLogoAsBase64 dirname fs logoPath = "" \/
  exists p bytes mime, fs_lookup fs p = Some (Some bytes) /\
    loadLogoAsBase64 dirname fs logoPath = "data:" ++ mime ++ ";base64," ++ b64_encode bytes /\
    b64_decode (b64_encode bytes) = bytes.
Proof.
  unfold loadLogoAsBase64. cbv zeta.
  match goal with |- context [load_first fs ?l] =>
    destruct (load_first_spec fs l) as [H | (p & bytes & _ & Hp & H)]; [by left | right]
  end. exists p, bytes, (mimeType_of (to_lower (extname p))).
  split; [done | split; [done | apply b64_roundtrip]].
Qed.

(** the logo comes from the first candidate path that exists: the
    paths before it are skipped, and when that file cannot be read the
    result is empty (the loop does not go on to the later paths). *)
Theorem load_first_first_existing fs ps1 p c ps2 :
  (forall q, In q ps1 -> fs_lookup fs q = None) -> fs_lookup fs p = Some c ->
  load_first fs (ps1 ++ p :: ps2) =
    match c with
    | Some bytes => "data:" ++ mimeType_of (to_lower (extname p)) ++ ";base64," ++ b64_encode bytes
    | None => ""
    end.
Proof.
  intros Hskip Hp. induction ps1 as [|q ps1 IH]; simpl.
  - rewrite Hp. by destruct c.
  - rewrite (Hskip q) by (left; done). apply IH. intros q' Hq'. apply Hskip. by right.
Qed.

Lemma load_first_first_existing_witness :
  load_first [("/app/logo.jpg", Some "abc"); ("/app/logo.png", None)]
    (["/custom/logo.svg"] ++ "/app/logo.jpg" :: ["/app/logo.png"]) =
    "data:" ++ mimeType_of (to_lower (extname "/app/logo.jpg")) ++ ";base64," ++ b64_encode "abc".
Proof.
  apply (load_first_first_existing _ _ _ (Some "abc")); [| reflexivity].
  intros q [<- | []]. reflexivity.
Defined.

