(* ===== verification/Templates.v ===== *)
(** * ResponseComposer: [src/templates.js]

    [generateStartButtonIssueResponse] cleans the candidate name (it keeps
    the text before the first blank followed by a field label) and fills
    one fixed reply in two forms, plain text and HTML; the HTML form
    embeds the logo of [Logo.getLogo].  The templates are written line by
    line as in the source ([nl] is a line feed, [quoted] adds double
    quotes). *)

From Stdlib Require Import Ascii String.
From stdpp Require Import base list strings.
From Stdlib Require Import Lia.
From S2P Require Import Prelude Regex Base64 Logo.

Open Scope string_scope.
Open Scope js_scope.

(** [/\s+(?:Candidate|Email|Phone|Assessment|Subject|Issue)/i] *)
Definition re_name_leak : regex :=
  Regex (Cat (plus c_space)
             (alts (map lit ["Candidate"; "Email"; "Phone"; "Assessment"; "Subject"; "Issue"])))
        true false.

(** [candidateName.split(/.../i)[0].trim()] *)
Definition cleanName (candidateName : string) : string :=
  trim (split_head re_name_leak candidateName).

Definition startButtonPlainText (name : string) : string :=
  join nl [
    "Hi " ++ name ++ ",";
    "";
    "Please ensure you enabled the camera and microphone permissions for the Google Chrome browser to be able to click on the Start button.";
    "";
    "If you encounter any issues, kindly enable all necessary permissions and reload the page.";
    "";
    "If the issue persists, try the following steps:";
    "- Take the test in incognito mode, or";
    "- Switch to a different device.";
    "";
    "Regards,";
    "Otomeyt Support Team";
    "www.otomeyt.ai"
  ].

(** [${logo ? `<div ...>...</div>` : ''}] *)
Definition logoBlock (logo : string) : string :=
  if truthy logo then
    join nl [
      "<div style=" ++ quoted "margin-top: 20px;" ++ ">";
      "    <img src=" ++ quoted logo ++ " alt=" ++ quoted "Otomeyt AI" ++ " style="
        ++ quoted "max-width: 200px; height: auto;" ++ " />";
      "  </div>"
    ]
  else "".

Definition startButtonHtml (name logo : string) : string :=
  join nl [
    "";
    "<!DOCTYPE html>";
    "<html>";
    "<head>";
    "  <meta charset=" ++ quoted "UTF-8" ++ ">";
    "</head>";
    "<body style=" ++ quoted "font-family: Arial, sans-serif; line-height: 1.6; color: #333;" ++ ">";
    "  <p>Hi " ++ name ++ ",</p>";
    "  ";
    "  <p>Please ensure you enabled the camera and microphone permissions for the Google Chrome browser to be able to click on the Start button.</p>";
    "  ";
    "  <p>If you encounter any issues, kindly enable all necessary permissions and reload the page.</p>";
    "  ";
    "  <p>If the issue persists, try the following steps:</p>";
    "  <ul>";
    "    <li>Take the test in incognito mode, or</li>";
    "    <li>Switch to a different device.</li>";
    "  </ul>";
    "  ";
    "  <p>Regards,<br>";
    "  Otomeyt Support Team<br>";
    "  <a href=" ++ quoted "https://www.otomeyt.ai" ++ " style=" ++ quoted "color: #0066cc;"
      ++ ">www.otomeyt.ai</a></p>";
    "  ";
    "  " ++ logoBlock logo;
    "</body>";
    "</html>"
  ].

(** The object [{ plainText, html }]. *)
Record reply_body := ReplyBody { plainText : string; html : string }.

Definition generateStartButtonIssueResponse (a : assets) (candidateName : string) : reply_body :=
  let name := cleanName candidateName in
  let logo := getLogo a in
  {| plainText := startButtonPlainText name; html := startButtonHtml name logo |}.

Definition getStartButtonIssueSubject : string := "Regarding Your Assessment Start Issue".

(** ** Name cleaning *)

Lemma name_leak_shape : rx_anchored re_name_leak = false /\ ext_closed (rx re_name_leak).
Proof. split; [reflexivity | simpl; tauto]. Qed.

Lemma name_leak_not_empty t : ~ matches true (rx re_name_leak) "" t.
Proof. intros H. apply (run_complete _ _ _ _ H). reflexivity. Qed.

(** The text [split] keeps contains no match of the separator. *)
Lemma split_head_no_leak n : exec re_name_leak (split_head re_name_leak n) = None.
Proof.
  unfold split_head. destruct (exec re_name_leak n) as [m|] eqn:E; [| done].
  destruct (exec_from_Some _ _ _ _ E) as (_ & Hrun & Hmin). rewrite Nat.sub_0_r in *.
  destruct (Nat.ltb_spec (m_index m) (String.length n)) as [Hlt | Hge].
  - destruct (exec re_name_leak (stake (m_index m) n)) as [m'|] eqn:E'; [exfalso | done].
    assert (Ht : test re_name_leak (stake (m_index m) n) = true) by (unfold test; by rewrite E').
    apply test_spec in Ht as (j & t & Hj & Hm); [| done].
    rewrite stake_length in Hj by lia.
    destruct (Nat.eq_dec j (m_index m)) as [-> | Hne].
    + rewrite sdrop_ge in Hm by (rewrite stake_length; lia).
      by apply name_leak_not_empty in Hm.
    + apply (matches_ext _ _ _ _ (sdrop (m_index m) n)) in Hm; [| apply name_leak_shape].
      rewrite sdrop_stake_app in Hm by lia.
      apply (run_complete _ _ _ _ Hm). apply Hmin. lia.
  - exfalso. rewrite sdrop_ge in Hrun by lia. discriminate Hrun.
Qed.

(** The cleaned name has no match of the separator. *)
Lemma cleanName_exec_none (n : string) : exec re_name_leak (cleanName n) = None.
Proof.
  unfold cleanName. destruct (trim_infix (split_head re_name_leak n)) as (a & b & Hab).
  pose proof (split_head_no_leak n) as H. rewrite Hab in H.
  by apply exec_None_infix in H; [| reflexivity | apply name_leak_shape].
Qed.

(** C40: after cleaning, no blank followed by a field label ([Candidate],
    [Email], [Phone], [Assessment], [Subject], [Issue], in any case) is
    left in the name. *)
Theorem cleanName_no_leak (n : string) : test re_name_leak (cleanName n) = false.
Proof. unfold test. by rewrite cleanName_exec_none. Qed.

(** cleaning a cleaned name changes nothing. *)
Theorem cleanName_idempotent (n : string) : cleanName (cleanName n) = cleanName n.
Proof.
  change (cleanName (cleanName n)) with (trim (split_head re_name_leak (cleanName n))).
  unfold split_head. rewrite cleanName_exec_none. apply trim_idem.
Qed.

(** the specification's example: a name that swallowed the next field
    is greeted by its name part only. *)
Example generateStartButtonIssueResponse_spec_example :
  cleanName "Jane Doe Candidate Email ID: x@y.com" = "Jane Doe" /\
  String.prefix "Hi Jane Doe,"
    (plainText (generateStartButtonIssueResponse (Assets None None "/app" [])
                  "Jane Doe Candidate Email ID: x@y.com")) = true.
Proof. split; vm_compute; reflexivity. Qed.

(** ** The logo block *)

Lemma includes_mid (a k b : string) : includes k (a ++ k ++ b) = true.
Proof. apply includes_split. eauto. Qed.

(** A truthy logo appears in the HTML form as the source of an image. *)
Lemma startButtonHtml_logo (name logo : string) :
  truthy logo = true -> includes ("<img src=" ++ quoted logo) (startButtonHtml name logo) = true.
Proof.
  intros Hl. unfold startButtonHtml.
  apply (includes_trans _ ("  " ++ logoBlock logo)).
  - unfold logoBlock. rewrite Hl. apply includes_app_r.
    eapply includes_trans; [| apply includes_join; cbn [In]; right; left; reflexivity].
    change ("    <img src=" ++ ?x)%string with ("    " ++ ("<img src=" ++ x))%string.
    rewrite (string_app_assoc "<img src="). apply includes_mid.
  - apply includes_join. cbn [In]. repeat (first [left; reflexivity | right]).
Qed.

(** The plain form opens by greeting the name. *)
Lemma startButtonPlainText_greets (name : string) :
  includes ("Hi " ++ name ++ ",") (startButtonPlainText name) = true.
Proof. unfold startButtonPlainText. apply includes_join. by left. Qed.

(** the HTML reply always embeds the logo image: [getLogo] is never
    empty, so the [: ''] branch of the template is never taken. *)
Theorem generateStartButtonIssueResponse_logo (a : assets) (n : string) :
  includes ("<img src=" ++ quoted (getLogo a)) (html (generateStartButtonIssueResponse a n)) = true.
Proof. apply startButtonHtml_logo, getLogo_truthy. Qed.
