(* ===== verification/Gmail.v ===== *)
(** * The Gmail account: the external collaborator of the pipeline

    [src/gmailReader.js] and [src/reply.js] reach the mailbox through four
    calls of the Gmail API: [users.messages.list] (unread, at most 50),
    [users.messages.get] (full format), [users.messages.send] and
    [users.messages.modify] (remove the [UNREAD] label).  This file states
    what the pipeline relies on as an interface, the class [GmailApi] with
    the laws [GmailApiLaws], and gives a reference implementation over an
    explicit mailbox in which each call can be made to fail ([faults]),
    so that failure scenarios can be run.  The interface is modelled from
    the specification's list of external interfaces (its section 6): the
    service itself is not part of the sources. *)

From Stdlib Require Import Ascii String.
From stdpp Require Import base list strings gmap.
From Stdlib Require Import Lia.
From S2P Require Import Prelude Extractor.

Open Scope string_scope.

(** A request [users.messages.send] accepted: the base64url message and
    the thread it joins. *)
Record sent_request := SentRequest { sr_raw : string; sr_threadId : option string }.

(** The account: its messages in the order [messages.list] returns them,
    the ids that carry the [UNREAD] label, and what was sent from it. *)
Record mailbox := Mailbox {
  mb_messages : list message;
  mb_unread : gset string;
  mb_sent : list sent_request
}.

Class GmailApi := {
  (** [messages.list({q: 'is:unread', maxResults: 50})]; [None] when it throws *)
  api_list_unread : mailbox -> option (list string);
  (** [messages.get({id, format: 'full'})]; [None] when it throws *)
  api_get : mailbox -> string -> option message;
  (** [messages.send({requestBody: {raw, threadId}})]: the new state and the
      id of the sent message, [None] when it throws *)
  api_send : mailbox -> string -> option string -> option (mailbox * string);
  (** [messages.modify({id, requestBody: {removeLabelIds: ['UNREAD']}})] *)
  api_mark_read : mailbox -> string -> option mailbox
}.

(** What the pipeline assumes of the service. *)
Class GmailApiLaws (api : GmailApi) : Prop := {
  list_unread_bounded mb ids :
    api_list_unread mb = Some ids -> length ids <= 50 /\ Forall (fun i => i ∈ mb_unread mb) ids;
  get_message mb i m :
    api_get mb i = Some m -> In m (mb_messages mb) /\ msg_id m = i;
  send_effect mb raw th mb' sid :
    api_send mb raw th = Some (mb', sid) ->
    mb' = {| mb_messages := mb_messages mb; mb_unread := mb_unread mb;
             mb_sent := mb_sent mb ++ [SentRequest raw th] |};
  mark_read_effect mb i mb' :
    api_mark_read mb i = Some mb' ->
    mb' = {| mb_messages := mb_messages mb; mb_unread := mb_unread mb ∖ {[i]};
             mb_sent := mb_sent mb |}
}.

(** ** A reference implementation with fault injection *)

Record faults := Faults {
  list_fails : bool;
  get_fails : string -> bool;
  send_fails : string -> bool;
  mark_fails : string -> bool
}.

Definition no_faults : faults := Faults false (fun _ => false) (fun _ => false) (fun _ => false).

Definition unread_ids (mb : mailbox) : list string :=
  map msg_id (filter (fun m => msg_id m ∈ mb_unread mb) (mb_messages mb)).

Fixpoint find_message (ms : list message) (i : string) : option message :=
  match ms with
  | [] => None
  | m :: ms' => if String.eqb (msg_id m) i then Some m else find_message ms' i
  end.

Definition gmail_model (f : faults) : GmailApi := {|
  api_list_unread mb := if list_fails f then None else Some (take 50 (unread_ids mb));
  api_get mb i := if get_fails f i then None else find_message (mb_messages mb) i;
  api_send mb raw th :=
    if send_fails f raw then None
    else Some ({| mb_messages := mb_messages mb; mb_unread := mb_unread mb;
                  mb_sent := mb_sent mb ++ [SentRequest raw th] |},
               "sent-" ++ show_nat (length (mb_sent mb)));
  api_mark_read mb i :=
    if mark_fails f i then None
    else Some {| mb_messages := mb_messages mb; mb_unread := mb_unread mb ∖ {[i]};
                 mb_sent := mb_sent mb |}
|}.

Lemma unread_ids_unread mb : Forall (fun i => i ∈ mb_unread mb) (unread_ids mb).
Proof.
  unfold unread_ids. apply Forall_forall. intros i Hi.
  apply (list_elem_of_fmap msg_id) in Hi as (m & -> & Hm). by apply list_elem_of_filter in Hm as [? _].
Qed.

Lemma find_message_Some ms i m :
  find_message ms i = Some m -> In m ms /\ msg_id m = i.
Proof.
  induction ms as [|m' ms IH]; simpl; [done |].
  destruct (String.eqb_spec (msg_id m') i) as [<- |]; [intros [= <-]; auto |].
  intros (? & ?)%IH. auto.
Qed.

#[export] Instance gmail_model_laws (f : faults) : GmailApiLaws (gmail_model f).
Proof.
  split; simpl.
  - intros mb ids. destruct (list_fails f); [done |]. intros [= <-].
    split; [rewrite length_take; lia |].
    apply Forall_take, unread_ids_unread.
  - intros mb i m. destruct (get_fails f i); [done |]. apply find_message_Some.
  - intros mb raw th mb' sid. destruct (send_fails f raw); [done |]. by intros [= <- _].
  - intros mb i mb'. destruct (mark_fails f i); [done |]. by intros [= <-].
Qed.
