(* ===== verification/Reply.v ===== *)
(** * ReplyDispatcher: [src/reply.js]

    [sendReply] builds the MIME message (the [To], [Subject] and optional
    [Cc] headers, then either a [multipart/alternative] body with a plain
    and an HTML part or a plain body), encodes it as UTF-8 and then as
    base64url ([Buffer.toString('base64')], [+] to [-], [/] to [_],
    trailing [=] removed) and submits it with [users.messages.send];
    [markAsRead] removes the [UNREAD] label.  Both rethrow the service's
    errors, which are values of [send_error] or [None] here.  [Date.now()]
    and [Math.random()], from which the MIME boundary is made, are inputs
    ([clock]). *)

From Stdlib Require Import Ascii String.
From stdpp Require Import base list strings gmap.
From Stdlib Require Import Lia.
From S2P Require Import Prelude Regex Base64 Extractor Gmail.

Open Scope string_scope.

(** The [body] argument: a string, or an object with [plainText] and [html]. *)
Inductive mail_body := TextBody (s : string) | RichBody (plainText html : string).

(** The [cc] argument: [null], a string, or an array of strings. *)
Inductive cc_arg := NoCc | CcString (s : string) | CcArray (l : list string).

(** [if (cc) { ... }]: a string is tested for truthiness, an array
    (even empty) is an object and always truthy. *)
Definition cc_headers (cc : cc_arg) : list string :=
  match cc with
  | NoCc => []
  | CcString s => if truthy s then ["Cc: " ++ s] else []
  | CcArray l => ["Cc: " ++ join ", " l]
  end.

(** [Date.now()] and the digits of [Math.random().toString(36)] after [0.]. *)
Record clock := Clock { now_ms : nat; random36 : string }.

(** [`----=_Part_${Date.now()}_${Math.random().toString(36).substr(2, 9)}`] *)
Definition make_boundary (clk : clock) : string :=
  "----=_Part_" ++ show_nat (now_ms clk) ++ "_" ++ stake 9 (random36 clk).

Inductive send_error :=
  | BodyTypeError   (** [plainTextBody.trim is not a function] *)
  | SendRejected.   (** [users.messages.send] threw *)

(** The message text, lines 17-69.  An object body that lacks a truthy
    [plainText] or [html] is not [isHtmlEmail]; it then reaches
    [plainTextBody.trim()], which throws. *)
Definition buildMessage (to subject : string) (body : mail_body) (cc : cc_arg) (clk : clock)
    : send_error + string :=
  let headers := app ["To: " ++ to; "Subject: " ++ subject] (cc_headers cc) in
  match body with
  | RichBody p h =>
      if truthy p && truthy h then
        let boundary := make_boundary clk in
        inr (join nl (app headers ["MIME-Version: 1.0";
                                  "Content-Type: multipart/alternative; boundary=" ++ quoted boundary;
                                  ""])
             ++ nl ++
             join nl ["--" ++ boundary; "Content-Type: text/plain; charset=utf-8";
                      "Content-Transfer-Encoding: 7bit"; ""; p; "";
                      "--" ++ boundary; "Content-Type: text/html; charset=utf-8";
                      "Content-Transfer-Encoding: 7bit"; ""; h; "";
                      "--" ++ boundary ++ "--"])
      else inl BodyTypeError
  | TextBody s =>
      inr (join nl (app headers ["Content-Type: text/plain; charset=utf-8"; ""]) ++ nl ++ (trim s ++ nl))
  end.

(** [/\+/g], [/\//g] and [/=+$/] *)
Definition re_plus : regex := Regex (Chr "+") false false.
Definition re_slash : regex := Regex (Chr "/") false false.
Definition re_trailing_eq : regex := Regex (Cat (plus (CSet (Ascii.eqb "=") false)) EOI) false false.

(** Lines 76-80. *)
Definition base64url (message : string) : string :=
  replace_first re_trailing_eq ""
    (replace_all re_slash "_" (replace_all re_plus "-" (b64_encode (utf8_encode message)))).

(** [if (threadId) messageParams.requestBody.threadId = threadId] *)
Definition thread_param (threadId : option string) : option string :=
  match threadId with Some t => if truthy t then Some t else None | None => None end.

Section Dispatch.
Context `{api : GmailApi}.

(** [sendReply(auth, to, subject, body, threadId, cc)]: the mailbox after
    the send and the new message's id. *)
Definition sendReply (mb : mailbox) (clk : clock) (to subject : string) (body : mail_body)
    (threadId : option string) (cc : cc_arg) : send_error + (mailbox * string) :=
  message <-? buildMessage to subject body cc clk ;;
  match api_send mb (base64url message) (thread_param threadId) with
  | Some r => inr r
  | None => inl SendRejected
  end.

(** [markAsRead(auth, messageId)]; [None] when [modify] throws. *)
Definition markAsRead (mb : mailbox) (messageId : string) : option mailbox :=
  api_mark_read mb messageId.

End Dispatch.

(** ** base64url *)

Definition is_b64_char (c : ascii) : bool :=
  in_range 65 90 c || in_range 97 122 c || in_range 48 57 c || Ascii.eqb c "+" || Ascii.eqb c "/".
Definition is_url_char (c : ascii) : bool :=
  in_range 65 90 c || in_range 97 122 c || in_range 48 57 c || Ascii.eqb c "-" || Ascii.eqb c "_".
Definition is_pad (c : ascii) : bool := Ascii.eqb c "=".

Lemma b64_char_alpha n : n < 64 -> is_b64_char (b64_char n) = true.
Proof. intros Hn. do 64 (destruct n as [|n]; [reflexivity |]). lia. Qed.

#[export] Hint Rewrite b64_char_alpha using lia : js_rw.

(** The standard encoder's output: alphabet characters, then padding. *)
Lemma b64_encode_shape s :
  exists core pad, b64_encode s = core ++ pad /\
    all_chars is_b64_char core = true /\ all_chars is_pad pad = true.
Proof.
  induction s as [| a | a b | a b c s IH] using string_ind3.
  - by exists "", "".
  - destruct (b64_group_arith (code a) 0 0 (code_lt_256 a) ltac:(lia) ltac:(lia)) as (B1 & B2 & _).
    rewrite Nat.Div0.div_0_l, Nat.add_0_r in B2.
    eexists (String _ (String _ "")), "==". split; [reflexivity |].
    cbn [all_chars]. autorewrite with js_rw. done.
  - destruct (b64_group_arith (code a) (code b) 0 (code_lt_256 a) (code_lt_256 b) ltac:(lia))
      as (B1 & B2 & B3 & _). rewrite Nat.Div0.div_0_l, Nat.add_0_r in B3.
    eexists (String _ (String _ (String _ ""))), "=". split; [reflexivity |].
    cbn [all_chars]. autorewrite with js_rw. done.
  - destruct (b64_group_arith (code a) (code b) (code c)
                (code_lt_256 a) (code_lt_256 b) (code_lt_256 c)) as (B1 & B2 & B3 & B4 & _).
    destruct IH as (core & pad & E & Hc & Hp).
    eexists (String _ (String _ (String _ (String _ core)))), pad.
    cbn [b64_encode]. rewrite E. split; [reflexivity |].
    cbn [all_chars]. autorewrite with js_rw. by rewrite Hc.
Qed.

(** The [/c/g] replacement of the regex engine is the character
    substitution [replace_char]. *)
Lemma replace_all_chr c r s : replace_all (Regex (Chr c) false false) r s = replace_char c r s.
Proof.
  unfold replace_all. induction s as [|x s IH]; [reflexivity |].
  cbn [replace_go rx rx_icase run mt char_eq replace_char]. rewrite (Ascii.eqb_sym x c).
  destruct (Ascii.eqb c x); [| by rewrite IH].
  replace (String.length (String x s) - String.length s) with 1 by (simpl; lia).
  by rewrite IH.
Qed.

Lemma replace_char_app c r a b :
  replace_char c r (a ++ b) = replace_char c r a ++ replace_char c r b.
Proof.
  induction a as [|x a IH]; [done |]. cbn [replace_char String.append].
  destruct (Ascii.eqb x c); rewrite IH; [apply string_app_assoc | done].
Qed.

(** A substitution that does not touch [P]-characters leaves a [P]-string
    unchanged. *)
Lemma replace_char_id c r s :
  all_chars (fun x => negb (Ascii.eqb x c)) s = true -> replace_char c r s = s.
Proof.
  induction s as [|x s IH]; [done |]. cbn [all_chars replace_char].
  intros [Hx Hs]%andb_prop. apply negb_true_iff in Hx. by rewrite Hx, IH.
Qed.

Lemma all_chars_replace_char (P Q : ascii -> bool) c r s :
  (forall x, P x = true -> Ascii.eqb x c = false -> Q x = true) ->
  all_chars Q r = true -> all_chars P s = true -> all_chars Q (replace_char c r s) = true.
Proof.
  intros HPQ Hr. induction s as [|x s IH]; [done |]. cbn [all_chars replace_char].
  intros [Hx Hs]%andb_prop. destruct (Ascii.eqb x c) eqn:E.
  - rewrite all_chars_app, Hr. auto.
  - cbn [all_chars]. rewrite (HPQ x Hx E). auto.
Qed.

Lemma stake_all w : stake (String.length w) w = w.
Proof. induction w as [|c w IH]; simpl; [done | by rewrite IH]. Qed.

(** [/=+$/] on a run of [=]: the whole run, up to the end. *)
Lemma run_trailing_eq v :
  all_chars is_pad v = true ->
  run false (rx re_trailing_eq) v = match v with EmptyString => None | _ => Some (EmptyString, None) end.
Proof.
  intros Hv. assert (Hl : run_len false (CSet (Ascii.eqb "=") false) v = String.length v).
  { clear -Hv. induction v as [|x v IH]; [done |]. cbn [all_chars] in Hv.
    apply andb_prop in Hv as [Hx Hv]. cbn [run_len]. unfold cls_match. cbn [cs_mem cs_neg].
    unfold is_pad in Hx. rewrite Ascii.eqb_sym, Hx. simpl. by rewrite IH. }
  unfold run. cbn [rx re_trailing_eq mt plus]. rewrite Hl.
  destruct v as [|x v']; [reflexivity |].
  unfold rep_counts, cap_hi. cbn [String.length].
  replace (S (S (String.length v')) - 1) with (S (String.length v')) by lia.
  rewrite seq_S, rev_app_distr. cbn [rev app first_some].
  replace (1 + String.length v') with (String.length (String x v')) by reflexivity.
  rewrite sdrop_ge by lia. reflexivity.
Qed.

Lemma exec_from_trailing_eq u v i :
  all_chars (fun c => negb (is_pad c)) u = true -> all_chars is_pad v = true ->
  exec_from re_trailing_eq i (u ++ v) =
    match v with EmptyString => None | _ => Some (RMatch (i + String.length u) v EmptyString None) end.
Proof.
  intros Hu Hv. revert i. induction u as [|x u IH]; intros i.
  - cbn [String.append]. destruct v as [|y v'] eqn:Ev; cbn [exec_from];
      rewrite run_trailing_eq by (subst; done); [reflexivity |].
    cbn [String.length]. rewrite Nat.sub_0_r, Nat.add_0_r.
    exact (f_equal (fun t => Some (RMatch i t "" None)) (stake_all (String y v'))).
  - cbn [all_chars] in Hu. apply andb_prop in Hu as [Hx Hu].
    assert (E : Ascii.eqb "=" x = false) by (rewrite Ascii.eqb_sym; by apply negb_true_iff).
    cbn [String.append exec_from]. unfold run. cbn [rx re_trailing_eq rx_icase mt plus run_len].
    unfold cls_match. cbn [cs_mem cs_neg]. rewrite E. cbn. rewrite IH by done.
    destruct v; [done |]. cbn [String.length]. by rewrite Nat.add_succ_r.
Qed.

(** [.replace(/=+$/, '')] removes exactly the padding. *)
Lemma strip_padding u v :
  all_chars (fun c => negb (is_pad c)) u = true -> all_chars is_pad v = true ->
  replace_first re_trailing_eq "" (u ++ v) = u.
Proof.
  intros Hu Hv. unfold replace_first, exec. rewrite exec_from_trailing_eq by done.
  destruct v; simpl; [apply string_app_nil_r |]. rewrite stake_app_sdrop. apply string_app_nil_r.
Qed.

Lemma sextets_replace_plus s : sextets (replace_char "+" "-" s) = sextets s.
Proof.
  induction s as [|x s IH]; [done |]. cbn [replace_char].
  destruct (Ascii.eqb x "+") eqn:E; [apply Ascii.eqb_eq in E as -> | ]; simpl; by rewrite IH.
Qed.

Lemma sextets_replace_slash s : sextets (replace_char "/" "_" s) = sextets s.
Proof.
  induction s as [|x s IH]; [done |]. cbn [replace_char].
  destruct (Ascii.eqb x "/") eqn:E; [apply Ascii.eqb_eq in E as -> | ]; simpl; by rewrite IH.
Qed.

Lemma sextets_app u v :
  all_chars (fun c => negb (is_pad c)) u = true -> sextets (u ++ v) = app (sextets u) (sextets v).
Proof.
  induction u as [|x u IH]; [done |]. cbn [all_chars]. intros [Hx Hu]%andb_prop.
  unfold is_pad in Hx. apply negb_true_iff in Hx.
  cbn [String.append sextets]. rewrite Hx, IH by done. by destruct (b64_val x).
Qed.

Lemma sextets_pads v : all_chars is_pad v = true -> sextets v = [].
Proof.
  destruct v as [|x v]; [done |]. cbn [all_chars]. intros [Hx _]%andb_prop.
  apply Ascii.eqb_eq in Hx as ->. reflexivity.
Qed.

Lemma b64_char_not_pad x : is_b64_char x = true -> negb (is_pad x) = true.
Proof.
  unfold is_pad. destruct (Ascii.eqb x "=") eqn:E; [| done].
  apply Ascii.eqb_eq in E as ->. discriminate.
Qed.

(** The encoder's output with [+] and [/] substituted: no padding, and the
    same sextets as the standard encoding. *)
Lemma base64url_core m :
  exists core pad,
    b64_encode (utf8_encode m) = core ++ pad /\
    all_chars is_b64_char core = true /\ all_chars is_pad pad = true /\
    base64url m = replace_char "/" "_" (replace_char "+" "-" core).
Proof.
  destruct (b64_encode_shape (utf8_encode m)) as (core & pad & E & Hc & Hp).
  exists core, pad. do 3 (split; [done |]).
  unfold base64url, re_plus, re_slash. rewrite E, !replace_all_chr, !replace_char_app.
  rewrite (replace_char_id "+" _ pad), (replace_char_id "/" _ pad)
    by (apply (all_chars_impl is_pad); [intros x Hx%Ascii.eqb_eq; by subst | done]).
  apply strip_padding; [| done].
  apply (all_chars_replace_char (fun c => negb (is_pad c))); [done | done |].
  apply (all_chars_replace_char is_b64_char); [| done | done].
  intros x Hx _. by apply b64_char_not_pad.
Qed.

(** The base64url payload decodes, with the extractor's [decodeBase64],
    to the message text. *)
Lemma base64url_roundtrip (message : string) : decodeBase64 (base64url message) = message.
Proof.
  destruct (base64url_core message) as (core & pad & E & Hc & Hp & ->).
  unfold decodeBase64, b64_decode. rewrite sextets_replace_slash, sextets_replace_plus.
  assert (Hs : sextets core = sextets (core ++ pad)).
  { rewrite sextets_app, (sextets_pads pad), app_nil_r; [done | done |].
    apply (all_chars_impl is_b64_char); [apply b64_char_not_pad | done]. }
  rewrite Hs, <- E. fold (b64_decode (b64_encode (utf8_encode message))).
  by rewrite b64_roundtrip, utf8_roundtrip.
Qed.

(** C23: the submitted payload uses the URL-safe alphabet only: letters,
    digits, [-] and [_], with neither [+], [/] nor padding. *)
Theorem base64url_alphabet (message : string) : all_chars is_url_char (base64url message) = true.
Proof.
  destruct (base64url_core message) as (core & pad & _ & Hc & _ & ->).
  apply (all_chars_replace_char (fun c => is_url_char c || Ascii.eqb c "/")); [| done |].
  - intros x Hx Hn. by rewrite Hn, orb_false_r in Hx.
  - apply (all_chars_replace_char is_b64_char); [| done | done].
    intros x Hx Hp. unfold is_b64_char, is_url_char in *. rewrite Hp, orb_false_r in Hx.
    destruct (in_range 65 90 x), (in_range 97 122 x), (in_range 48 57 x); simpl in *; auto.
    rewrite Hx. apply orb_true_r.
Qed.

(** A single-part body that is the base64url encoding of a non-empty
    text resolves to that text. *)
Lemma resolveBody_base64url pl s : pl_data pl = Some (base64url s) -> s <> "" -> resolveBody pl = s.
Proof.
  intros Hd Hs.
  assert (Ht : truthy (base64url s) = true).
  { destruct (base64url s) eqn:E; [| done]. exfalso. apply Hs.
    rewrite <- (base64url_roundtrip s), E. reflexivity. }
  unfold resolveBody. rewrite Hd. cbn [has_data]. rewrite Ht. cbn [default]. apply base64url_roundtrip.
Qed.

(** C25: the extractor reads the URL-safe encoding Gmail delivers bodies
    in: a single-part message whose [body.data] is the base64url encoding
    of a non-empty text, with named headers, is extracted with that text,
    trimmed, as its body. *)
Theorem extractInfo_reads_base64url (pl : payload) (i : string) (th : option string) (s : string) :
  Forall (fun h => is_Some (h_name h)) (default [] (pl_headers pl)) ->
  pl_data pl = Some (base64url s) -> s <> "" ->
  exists t, extractInfo (Message i th (Some pl)) = inr t /\ body t = trim s.
Proof.
  intros Hh Hd Hs. destruct (extractInfo_fields (Message i th (Some pl)) pl eq_refl Hh) as (t & E & Hb & _).
  exists t. split; [done |]. by rewrite Hb, (resolveBody_base64url pl s).
Qed.

Lemma extractInfo_reads_base64url_witness :
  exists t, extractInfo (Message "m9" None (Some (Payload None (Some (base64url " Hello ")) None)))
              = inr t /\ body t = trim " Hello ".
Proof.
  apply (extractInfo_reads_base64url (Payload None (Some (base64url " Hello ")) None)).
  - constructor.
  - reflexivity.
  - discriminate.
Defined.

(** ** The message text *)

Lemma join_headers a b l : l <> [] -> join nl (app [a; b] l) = a ++ nl ++ b ++ nl ++ join nl l.
Proof. destruct l; [done | reflexivity]. Qed.

(** C24: [buildMessage] fails exactly on an object body whose [plainText]
    or [html] is falsy (the [trim] of an object throws); every other body
    gives a message. *)
Theorem buildMessage_error to subject body cc clk :
  (exists e, buildMessage to subject body cc clk = inl e) <->
  exists p h, body = RichBody p h /\ truthy p && truthy h = false.
Proof.
  destruct body as [s | p h]; simpl.
  - split; [intros [e He]; discriminate He | intros (p & h & [=] & _)].
  - destruct (truthy p && truthy h) eqn:E; split.
    + intros [e He]; discriminate He.
    + intros (p' & h' & [= <- <-] & E'). congruence.
    + intros _. eauto.
    + intros _. eauto.
Qed.

(** The message opens with the [To] and the [Subject] line, in this
    order, each ended by a line feed. *)
Lemma buildMessage_headers to subject body cc clk msg :
  buildMessage to subject body cc clk = inr msg ->
  exists rest, msg = "To: " ++ to ++ nl ++ "Subject: " ++ subject ++ nl ++ rest.
Proof.
  destruct body as [s | p h]; unfold buildMessage; cbv beta iota zeta;
    [| destruct (truthy p && truthy h); [| done]];
    rewrite <- app_assoc, join_headers by (destruct (cc_headers cc); discriminate);
    rewrite <- !string_app_assoc; intros E; injection E as E; subst msg; eauto.
Qed.

(** A multipart message carries both parts verbatim. *)
Lemma buildMessage_parts to subject p h cc clk msg :
  buildMessage to subject (RichBody p h) cc clk = inr msg ->
  includes p msg = true /\ includes h msg = true.
Proof.
  unfold buildMessage. cbv beta iota zeta. destruct (truthy p && truthy h); [| done].
  intros E. apply (f_equal (fun x => match x with inr y => y | inl _ => msg end)) in E.
  cbv beta iota in E. subst msg.
  split; apply includes_app_r, includes_app_r, includes_join; cbn [In]; tauto.
Qed.

Lemma split_first_app c a b :
  all_chars (fun x => negb (Ascii.eqb x c)) a = true -> split_first c (a ++ String c b) = a.
Proof.
  induction a as [|x a IH]; simpl; [by rewrite Ascii.eqb_refl |].
  intros [Hx Ha]%andb_prop. apply negb_true_iff in Hx. by rewrite Hx, IH.
Qed.

Lemma no_crlf_not_lf x : no_crlf x = true -> negb (Ascii.eqb x "010") = true.
Proof.
  unfold no_crlf, is_line_term. destruct (Ascii.eqb x "010") eqn:E; [| done].
  apply Ascii.eqb_eq in E as ->. discriminate.
Qed.

(** A recipient without CR or LF yields a first line that is exactly the
    [To] header. *)
Lemma buildMessage_first_line to subject body cc clk msg :
  all_chars no_crlf to = true -> buildMessage to subject body cc clk = inr msg ->
  split_first "010" msg = "To: " ++ to.
Proof.
  intros Hto (rest & ->)%buildMessage_headers.
  rewrite string_app_assoc. apply split_first_app.
  rewrite all_chars_app. apply andb_true_intro. split; [reflexivity |].
  apply (all_chars_impl no_crlf); [apply no_crlf_not_lf | done].
Qed.

Section Sending.
Context `{api : GmailApi} `{!GmailApiLaws api}.

(** A successful [sendReply] submits exactly one request, whose raw
    payload decodes to the message [buildMessage] made and which joins the
    thread when [threadId] is truthy; the unread labels are untouched. *)
Lemma sendReply_effect mb clk to subject body th cc mb' sid :
  sendReply mb clk to subject body th cc = inr (mb', sid) ->
  exists msg, buildMessage to subject body cc clk = inr msg /\
    mb_sent mb' = app (mb_sent mb) [SentRequest (base64url msg) (thread_param th)] /\
    decodeBase64 (base64url msg) = msg /\
    mb_messages mb' = mb_messages mb /\ mb_unread mb' = mb_unread mb.
Proof.
  unfold sendReply. destruct (buildMessage to subject body cc clk) as [e | msg]; [done |].
  rewrite bind_sum_inr. destruct (api_send mb _ _) as [[mb1 sid1] |] eqn:E; [| done].
  intros [= -> ->]. apply send_effect in E as ->.
  exists msg. by rewrite base64url_roundtrip.
Qed.

End Sending.
