(* ===== verification/Pipeline.v ===== *)
(** * Orchestrator: [src/gmailReader.js], [src/server.js], [src/main.js],
      [src/main-continuous.js]

    [readUnreadMessages] lists the unread messages (at most 50) and fetches
    each one, dropping those whose fetch fails.  The three entry points
    run the same loop over the batch: extract, classify, on [YES] compose
    and send the reply, then mark the message read; any exception of one
    message is caught and the loop moves on.  [processMessage] is that loop
    body, [processAll] the loop, and [processEmails_server],
    [main_run] and [processEmails_continuous] the three functions around
    it, which differ only in their counters and in what they do with a
    fatal error.  The timer that re-invokes them is modelled in
    [Polling.v]. *)

From Stdlib Require Import Ascii String.
From stdpp Require Import base list strings gmap.
From Stdlib Require Import Lia.
From S2P Require Import Prelude Regex Base64 Extractor Classifier Logo Templates Gmail Reply.

Open Scope string_scope.

(** How [await authorize()] settles: with a client, by throwing, or
    never (the consent prompt of [getNewToken] waits for a code that is
    not typed). *)
Inductive auth_status := AuthOk | AuthThrows | AuthPending.

#[export] Instance auth_status_eq_dec : EqDecision auth_status.
Proof. solve_decision. Defined.

(** What a run reads besides the mailbox: the classifier's environment,
    the logo's, how [authorize()] settles, and the clock each
    [sendReply] call sees (by message id). *)
Record config := Config {
  cfg_env : env;
  cfg_assets : assets;
  cfg_auth : auth_status;
  cfg_clock : string -> clock
}.

Definition cfg_auth_ok (cfg : config) : bool :=
  match cfg_auth cfg with AuthOk => true | _ => false end.

(** How the loop body ends for one message. *)
Inductive msg_outcome :=
  | ExtractFailed (e : extract_error)   (** [extractInfo] threw *)
  | ReplyFailed (e : send_error)        (** [sendReply] threw *)
  | MarkFailed (replied : bool)         (** [markAsRead] threw *)
  | Handled (replied : bool).           (** marked read; [replied] on [YES] *)

Definition support_cc : list string := ["candidatesupport@otomeyt.ai"; "hello@otomeyt.ai"].

Section Orchestrator.
Context `{api : GmailApi} `{svc : ReasoningService} (cfg : config).

(** [readUnreadMessages(auth)]: [None] when [messages.list] throws;
    [response.data.messages || []], then the fetched messages without the
    [null]s of failed fetches, in the listed order ([Promise.all]). *)
Definition readUnreadMessages (mb : mailbox) : option (list message) :=
  match api_list_unread mb with
  | None => None
  | Some ids => Some (omap (api_get mb) ids)
  end.

(** The reply step of a [YES] message: compose and send. *)
Definition replyTo (mb : mailbox) (m : message) (extracted : ticket) : send_error + (mailbox * string) :=
  let replyBody := generateStartButtonIssueResponse (cfg_assets cfg) (candidateName extracted) in
  let replySubject := getStartButtonIssueSubject in
  sendReply mb (cfg_clock cfg (msg_id m)) (candidateEmail extracted) replySubject
    (RichBody (plainText replyBody) (html replyBody)) (threadId extracted) (CcArray support_cc).

(** The body of [for (const message of unreadMessages) { try { ... } catch ... }]. *)
Definition processMessage (mb : mailbox) (m : message) : mailbox * msg_outcome :=
  match extractInfo m with
  | inl e => (mb, ExtractFailed e)
  | inr extracted =>
      let classification :=
        classifyIssue (cfg_env cfg) (subject extracted) (issue extracted) (body extracted) in
      let sent :=
        match classification with
        | YES => match replyTo mb m extracted with
                 | inl e => inl e
                 | inr (mb1, _) => inr (mb1, true)
                 end
        | NO => inr (mb, false)
        end in
      match sent with
      | inl e => (mb, ReplyFailed e)
      | inr (mb1, replied) =>
          match markAsRead mb1 (msg_id m) with
          | Some mb2 => (mb2, Handled replied)
          | None => (mb1, MarkFailed replied)
          end
      end
  end.

(** The loop: each message in turn, against the mailbox the previous one
    left; the outcome of each message by id. *)
Fixpoint processAll (mb : mailbox) (ms : list message) : mailbox * list (string * msg_outcome) :=
  match ms with
  | [] => (mb, [])
  | m :: ms' =>
      let '(mb1, o) := processMessage mb m in
      let '(mb2, os) := processAll mb1 ms' in
      (mb2, (msg_id m, o) :: os)
  end.

Definition is_processed (o : msg_outcome) : bool :=
  match o with Handled _ => true | _ => false end.

Definition is_replied (o : msg_outcome) : bool :=
  match o with Handled true | MarkFailed true => true | _ => false end.

(** [{ processed, replied, error }]: [processed++] after [markAsRead],
    [replied++] after [sendReply]. *)
Record report := Report { processed : nat; replied : nat; failed : bool }.

Definition count (p : msg_outcome -> bool) (os : list (string * msg_outcome)) : nat :=
  length (filter (fun x => p x.2 = true) os).

(** [processEmails] of [server.js]: the account and the report it
    returns, [None] when it never returns. *)
Definition processEmails_server (mb : mailbox) : mailbox * option report :=
  match cfg_auth cfg with
  | AuthPending => (mb, None)
  | AuthThrows => (mb, Some (Report 0 0 true))
  | AuthOk =>
      match readUnreadMessages mb with
      | None => (mb, Some (Report 0 0 true))
      | Some [] => (mb, Some (Report 0 0 false))
      | Some ms =>
          let '(mb', os) := processAll mb ms in
          (mb', Some (Report (count is_processed os) (count is_replied os) false))
      end
  end.

(** [main] of [main.js]: the exit status, [1] on a fatal error, [None]
    when the process never exits. *)
Definition main_run (mb : mailbox) : mailbox * option nat :=
  match cfg_auth cfg with
  | AuthPending => (mb, None)
  | AuthThrows => (mb, Some 1)
  | AuthOk =>
      match readUnreadMessages mb with
      | None => (mb, Some 1)
      | Some [] => (mb, Some 0)
      | Some ms => ((processAll mb ms).1, Some 0)
      end
  end.

(** [processEmails] of [main-continuous.js]: errors are only logged; a
    run whose [authorize()] never settles never touches the account. *)
Definition processEmails_continuous (mb : mailbox) : mailbox :=
  if negb (cfg_auth_ok cfg) then mb else
  match readUnreadMessages mb with
  | None => mb
  | Some [] => mb
  | Some ms => (processAll mb ms).1
  end.

End Orchestrator.
(** ** The loop body, case by case *)

Section Body.
Context `{api : GmailApi} `{!GmailApiLaws api} `{svc : ReasoningService} (cfg : config).

Definition classify_ticket (t : ticket) : verdict :=
  classifyIssue (cfg_env cfg) (subject t) (issue t) (body t).

(** The classify-and-reply part of the body: the mailbox after it and
    whether a reply went out. *)
Definition reply_step (mb : mailbox) (m : message) (t : ticket) (replied : bool) (mb1 : mailbox) : Prop :=
  (classify_ticket t = NO /\ replied = false /\ mb1 = mb) \/
  (classify_ticket t = YES /\ replied = true /\ exists sid, replyTo cfg mb m t = inr (mb1, sid)).

Inductive process_spec (mb : mailbox) (m : message) : mailbox -> msg_outcome -> Prop :=
  | PSExtract e :
      extractInfo m = inl e -> process_spec mb m mb (ExtractFailed e)
  | PSReplyFail t e :
      extractInfo m = inr t -> classify_ticket t = YES -> replyTo cfg mb m t = inl e ->
      process_spec mb m mb (ReplyFailed e)
  | PSMarked t r mb1 mb2 :
      extractInfo m = inr t -> reply_step mb m t r mb1 -> markAsRead mb1 (msg_id m) = Some mb2 ->
      process_spec mb m mb2 (Handled r)
  | PSMarkFail t r mb1 :
      extractInfo m = inr t -> reply_step mb m t r mb1 -> markAsRead mb1 (msg_id m) = None ->
      process_spec mb m mb1 (MarkFailed r).

Lemma processMessage_spec mb m :
  process_spec mb m (processMessage cfg mb m).1 (processMessage cfg mb m).2.
Proof.
  unfold processMessage. destruct (extractInfo m) as [e | t] eqn:Ex; [by constructor |].
  fold (classify_ticket t). destruct (classify_ticket t) eqn:Ec.
  - destruct (replyTo cfg mb m t) as [e | [mb1 sid]] eqn:Er; [by eapply PSReplyFail |].
    destruct (markAsRead mb1 (msg_id m)) eqn:Em;
      [eapply PSMarked | eapply PSMarkFail]; eauto; right; eauto.
  - destruct (markAsRead mb (msg_id m)) eqn:Em;
      [eapply PSMarked | eapply PSMarkFail]; eauto; left; eauto.
Qed.

Lemma processMessage_inv mb m mb' o :
  processMessage cfg mb m = (mb', o) -> process_spec mb m mb' o.
Proof. intros E. pose proof (processMessage_spec mb m) as H. by rewrite E in H. Qed.

(** The reply [replyTo] sends for a message. *)
Definition reply_message (m : message) (t : ticket) : send_error + string :=
  let replyBody := generateStartButtonIssueResponse (cfg_assets cfg) (candidateName t) in
  buildMessage (candidateEmail t) getStartButtonIssueSubject
    (RichBody (plainText replyBody) (html replyBody)) (CcArray support_cc) (cfg_clock cfg (msg_id m)).

Lemma replyTo_effect mb m t mb1 sid :
  replyTo cfg mb m t = inr (mb1, sid) ->
  exists msg, reply_message m t = inr msg /\
    mb_sent mb1 = app (mb_sent mb) [SentRequest (base64url msg) (thread_param (threadId t))] /\
    decodeBase64 (base64url msg) = msg /\
    mb_messages mb1 = mb_messages mb /\ mb_unread mb1 = mb_unread mb.
Proof. apply sendReply_effect. Qed.

Lemma markAsRead_effect mb i mb' :
  markAsRead mb i = Some mb' ->
  mb_messages mb' = mb_messages mb /\ mb_unread mb' = mb_unread mb ∖ {[i]} /\ mb_sent mb' = mb_sent mb.
Proof. unfold markAsRead. by intros ->%mark_read_effect. Qed.

(** What the classify-and-reply part does to the mailbox. *)
Lemma reply_step_effect mb m t r mb1 :
  reply_step mb m t r mb1 ->
  mb_messages mb1 = mb_messages mb /\ mb_unread mb1 = mb_unread mb /\
  ((classify_ticket t = NO /\ r = false /\ mb_sent mb1 = mb_sent mb) \/
   (classify_ticket t = YES /\ r = true /\ exists msg, reply_message m t = inr msg /\
      mb_sent mb1 = app (mb_sent mb) [SentRequest (base64url msg) (thread_param (threadId t))])).
Proof.
  intros [(Hc & -> & ->) | (Hc & -> & sid & (msg & Hmsg & Hs & _ & Hms & Hu)%replyTo_effect)];
    [by split; [| split; [| left]] |].
  split; [done | split; [done | right; eauto]].
Qed.

End Body.

(** ** One message *)

Section OneMessage.
Context `{api : GmailApi} `{!GmailApiLaws api} `{svc : ReasoningService} (cfg : config).

(** C3: a message loses its [UNREAD] label only when the whole sequence
    before [markAsRead] succeeded: its extraction succeeded, and either it
    was classified [NO] and nothing was sent, or it was classified [YES]
    and exactly its reply was sent. *)
Theorem processMessage_marks_only_after_reply mb m mb' o :
  processMessage cfg mb m = (mb', o) ->
  msg_id m ∈ mb_unread mb -> msg_id m ∉ mb_unread mb' ->
  exists t, extractInfo m = inr t /\
    ((classify_ticket cfg t = NO /\ o = Handled false /\ mb_sent mb' = mb_sent mb) \/
     (classify_ticket cfg t = YES /\ o = Handled true /\ exists msg, reply_message cfg m t = inr msg /\
        mb_sent mb' = app (mb_sent mb) [SentRequest (base64url msg) (thread_param (threadId t))])).
Proof.
  intros Hp%processMessage_inv Hin Hout.
  inversion Hp as [e Ex | t e Ex Hc Hr | t r mb1 mb2 Ex Hs Hm | t r mb1 Ex Hs Hm]; subst;
    try contradiction.
  - apply markAsRead_effect in Hm as (_ & _ & Hsent).
    apply reply_step_effect in Hs as (_ & _ & H). exists t.
    split; [done |]. rewrite Hsent.
    destruct H as [(? & -> & ?) | (? & -> & ?)]; [left | right]; auto.
  - apply reply_step_effect in Hs as (_ & Hu & _). by rewrite Hu in Hout.
Qed.

(** A message whose extraction throws is left as it is: the mailbox is
    unchanged, so the message stays unread for the next run. *)
Lemma processMessage_extract_unchanged mb m e :
  extractInfo m = inl e -> processMessage cfg mb m = (mb, ExtractFailed e).
Proof. intros Ex. unfold processMessage. by rewrite Ex. Qed.

(** C15: when [sendReply] throws, [markAsRead] is not reached: the mailbox
    is unchanged and the message stays unread.  The specification asks
    for [markRead] to be attempted even when the send failed. *)
Theorem processMessage_send_failure mb m t e :
  extractInfo m = inr t -> classify_ticket cfg t = YES -> replyTo cfg mb m t = inl e ->
  processMessage cfg mb m = (mb, ReplyFailed e).
Proof.
  intros Ex Hc Hr. unfold processMessage. rewrite Ex. fold (classify_ticket cfg t).
  by rewrite Hc, Hr.
Qed.

End OneMessage.

(** ** The service without faults *)

Section NoFaults.
Context `{svc : ReasoningService} (cfg : config).

Lemma reply_message_ok m t : exists msg, reply_message cfg m t = inr msg.
Proof. unfold reply_message, buildMessage. cbv zeta. eexists. reflexivity. Qed.

Lemma replyTo_no_faults mb m t :
  exists mb1 sid, replyTo (api := gmail_model no_faults) cfg mb m t = inr (mb1, sid).
Proof.
  destruct (reply_message_ok m t) as [msg Hmsg]. unfold replyTo, sendReply.
  unfold reply_message in Hmsg. rewrite Hmsg, bind_sum_inr. simpl. eauto.
Qed.

(** The reply text, read back from the submitted payload, opens with the
    candidate's address on a line of its own. *)
Lemma reply_first_line m t msg :
  extractInfo m = inr t -> reply_message cfg m t = inr msg ->
  split_first "010" (decodeBase64 (base64url msg)) = "To: " ++ candidateEmail t.
Proof.
  intros Ex Hmsg. rewrite base64url_roundtrip.
  eapply buildMessage_first_line; [| exact Hmsg]. by apply extractInfo_email_chars in Ex.
Qed.

(** With a service that does not fail, every message whose extraction
    succeeds is marked read, after exactly one reply when it is
    classified [YES] (a reply whose first line is [To:] and the
    candidate's address) and after none when it is classified [NO]. *)
Lemma processMessage_no_faults mb m t mb' o :
  extractInfo m = inr t ->
  processMessage (api := gmail_model no_faults) cfg mb m = (mb', o) ->
  mb_unread mb' = mb_unread mb ∖ {[msg_id m]} /\
  ((classify_ticket cfg t = NO /\ o = Handled false /\ mb_sent mb' = mb_sent mb) \/
   (classify_ticket cfg t = YES /\ o = Handled true /\
    exists msg, reply_message cfg m t = inr msg /\
      mb_sent mb' = app (mb_sent mb) [SentRequest (base64url msg) (thread_param (threadId t))] /\
      split_first "010" (decodeBase64 (base64url msg)) = "To: " ++ candidateEmail t)).
Proof.
  intros Ex Hp%processMessage_inv.
  inversion Hp as [e Ex' | t' e Ex' Hc Hr | t' r mb1 mb2 Ex' Hs Hm | t' r mb1 Ex' Hs Hm]; subst;
    rewrite Ex in Ex'; try discriminate Ex'; injection Ex' as <-.
  - destruct (replyTo_no_faults mb' m t) as (mb1 & sid & Hr'). congruence.
  - apply markAsRead_effect in Hm as (_ & Hu2 & Hs2).
    apply reply_step_effect in Hs as (_ & Hu1 & [(Hc & -> & Hs1) | (Hc & -> & msg & Hmsg & Hs1)]);
      rewrite Hu2, Hu1; (split; [done |]); [left | right]; [by rewrite Hs2 |].
    do 2 (split; [done |]). exists msg. rewrite Hs2.
    split; [done | split; [done | by eapply reply_first_line]].
  - discriminate Hm.
Qed.

End NoFaults.

(** ** The loop *)

Section Loop.
Context `{api : GmailApi} `{!GmailApiLaws api} `{svc : ReasoningService} (cfg : config).

(** The request a message's reply is submitted as. *)
Definition reply_of (m : message) (r : sent_request) : Prop :=
  exists t msg, extractInfo m = inr t /\ reply_message cfg m t = inr msg /\
    r = SentRequest (base64url msg) (thread_param (threadId t)).

Lemma processMessage_effect mb m mb' o :
  processMessage cfg mb m = (mb', o) ->
  mb_messages mb' = mb_messages mb /\ mb_unread mb' ⊆ mb_unread mb /\
  exists new, mb_sent mb' = app (mb_sent mb) new /\
    length new = (if is_replied o then 1 else 0) /\ Forall (reply_of m) new.
Proof.
  intros Hp%processMessage_inv.
  inversion Hp as [e Ex | t e Ex Hc Hr | t r mb1 mb2 Ex Hs Hm | t r mb1 Ex Hs Hm]; subst;
    try (split; [done | split; [done | exists []; by rewrite app_nil_r]]);
    [apply markAsRead_effect in Hm as (Hm2 & Hu2 & Hs2) |];
    apply reply_step_effect in Hs as (Hm1 & Hu1 & [(Hc & -> & Hs1) | (Hc & -> & msg & Hmsg & Hs1)]).
  - rewrite Hm2, Hm1, Hu2, Hu1. split; [done | split; [by apply subseteq_difference_l |]].
    exists []. by rewrite Hs2, Hs1, app_nil_r.
  - rewrite Hm2, Hm1, Hu2, Hu1. split; [done | split; [by apply subseteq_difference_l |]].
    eexists. rewrite Hs2, Hs1. split; [done | split; [done |]]. repeat constructor.
    unfold reply_of; eauto.
  - rewrite Hm1, Hu1. split; [done | split; [done |]]. exists []. by rewrite Hs1, app_nil_r.
  - rewrite Hm1, Hu1. split; [done | split; [done |]].
    eexists. rewrite Hs1. split; [done | split; [done |]]. repeat constructor.
    unfold reply_of; eauto.
Qed.

Lemma processAll_app mb l1 l2 :
  processAll cfg mb (l1 ++ l2) =
    let '(mb1, os1) := processAll cfg mb l1 in
    let '(mb2, os2) := processAll cfg mb1 l2 in (mb2, app os1 os2).
Proof.
  revert mb. induction l1 as [|m l1 IH]; intros mb; simpl.
  - by destruct (processAll cfg mb l2).
  - destruct (processMessage cfg mb m) as [mb1 o]. rewrite IH.
    destruct (processAll cfg mb1 l1) as [mb2 os1]. by destruct (processAll cfg mb2 l2).
Qed.

Lemma count_cons p i o os :
  count p ((i, o) :: os) = (if p o then 1 else 0) + count p os.
Proof. unfold count. rewrite filter_cons. simpl. case_decide; destruct (p o); simpl; congruence. Qed.

Lemma count_le p os : count p os <= length os.
Proof. unfold count. apply length_filter. Qed.

(** What the loop does to the mailbox: the messages are kept, labels are
    only removed, and each request sent is the reply of one of the
    batch's messages, as many as the outcomes count. *)
Lemma processAll_effect mb ms :
  let '(mb', os) := processAll cfg mb ms in
  mb_messages mb' = mb_messages mb /\ mb_unread mb' ⊆ mb_unread mb /\
  exists new, mb_sent mb' = app (mb_sent mb) new /\ length new = count is_replied os /\
    Forall (fun r => exists m, In m ms /\ reply_of m r) new.
Proof.
  revert mb. induction ms as [|m ms IH]; intros mb; simpl.
  - split; [done | split; [done |]]. exists []. by rewrite app_nil_r.
  - destruct (processMessage cfg mb m) as [mb1 o] eqn:E.
    apply processMessage_effect in E as (Hm1 & Hu1 & new1 & Hs1 & Hl1 & Hf1).
    specialize (IH mb1). destruct (processAll cfg mb1 ms) as [mb2 os].
    destruct IH as (Hm2 & Hu2 & new2 & Hs2 & Hl2 & Hf2).
    split; [congruence | split; [set_solver |]].
    exists (app new1 new2). rewrite Hs2, Hs1, app_assoc, count_cons, length_app, Hl1, Hl2.
    split; [done | split; [done |]]. apply Forall_app. split.
    + eapply Forall_impl; [exact Hf1 |]. intros r Hr. exists m. split; [left |]; done.
    + eapply Forall_impl; [exact Hf2 |]. intros r (m' & Hin & Hr). exists m'. split; [right |]; done.
Qed.

(** The batch: messages of the mailbox, unread when listed, at most 50. *)
Lemma readUnreadMessages_spec mb ms :
  readUnreadMessages mb = Some ms ->
  length ms <= 50 /\ Forall (fun m => In m (mb_messages mb) /\ msg_id m ∈ mb_unread mb) ms.
Proof.
  unfold readUnreadMessages. destruct (api_list_unread mb) as [ids |] eqn:E; [| done].
  intros [= <-]. apply list_unread_bounded in E as [Hl Hf]. split.
  - transitivity (length ids); [| done]. clear. induction ids as [|i ids IH]; [simpl; lia |].
    change (i :: ids) with (app [i] ids). rewrite omap_app, !length_app.
    cbn [omap list_omap]. destruct (api_get mb i); simpl; lia.
  - apply Forall_forall. intros m (i & Hi & Hg)%list_elem_of_omap.
    apply get_message in Hg as [Hin <-]. split; [done |].
    by eapply Forall_forall in Hf; [| exact Hi].
Qed.

End Loop.

Section Batch.
Context `{api : GmailApi} `{!GmailApiLaws api} `{svc : ReasoningService} (cfg : config).

(** C14: isolation of a failing message: when the extraction of a message
    throws, the messages before it and after it are processed exactly as
    in a batch without it, and it is reported as an extraction failure. *)
Theorem processAll_isolation mb l1 m l2 e :
  extractInfo m = inl e ->
  processAll cfg mb (l1 ++ m :: l2) =
    let '(mb1, os1) := processAll cfg mb l1 in
    let '(mb2, os2) := processAll cfg mb1 l2 in
    (mb2, app os1 ((msg_id m, ExtractFailed e) :: os2)).
Proof.
  intros Ex. rewrite processAll_app. destruct (processAll cfg mb l1) as [mb1 os1].
  cbn [processAll]. rewrite (processMessage_extract_unchanged cfg mb1 m e Ex).
  by destruct (processAll cfg mb1 l2).
Qed.

(** the loop never stops early: every message of the batch gets
    exactly one outcome, in the batch's order. *)
Theorem processAll_outcomes mb ms : map fst (processAll cfg mb ms).2 = map msg_id ms.
Proof.
  revert mb. induction ms as [|m ms IH]; intros mb; [done |]. cbn [processAll].
  destruct (processMessage cfg mb m) as [mb1 o]. specialize (IH mb1).
  destruct (processAll cfg mb1 ms) as [mb2 os]. simpl in *. by rewrite IH.
Qed.

Lemma processAll_length mb ms : length (processAll cfg mb ms).2 = length ms.
Proof.
  revert mb. induction ms as [|m ms IH]; intros mb; [done |]. cbn [processAll].
  destruct (processMessage cfg mb m) as [mb1 o]. specialize (IH mb1).
  destruct (processAll cfg mb1 ms) as [mb2 os]. simpl in *. by rewrite IH.
Qed.

(** What a run does, whichever entry point makes it: the messages are
    kept, labels are only removed, and every request sent is the reply to
    a message that was unread when the run started. *)
Definition run_effect (mb mb' : mailbox) (nreplies : nat) : Prop :=
  mb_messages mb' = mb_messages mb /\ mb_unread mb' ⊆ mb_unread mb /\
  exists new, mb_sent mb' = app (mb_sent mb) new /\ length new = nreplies /\
    Forall (fun r => exists m, In m (mb_messages mb) /\ msg_id m ∈ mb_unread mb /\ reply_of cfg m r) new.

Lemma run_effect_refl mb : run_effect mb mb 0.
Proof. split; [done | split; [done |]]. exists []. by rewrite app_nil_r. Qed.

Lemma processAll_run_effect mb ms :
  readUnreadMessages mb = Some ms ->
  run_effect mb (processAll cfg mb ms).1 (count is_replied (processAll cfg mb ms).2).
Proof.
  intros (_ & Hms)%readUnreadMessages_spec. pose proof (processAll_effect cfg mb ms) as H.
  destruct (processAll cfg mb ms) as [mb' os]. destruct H as (Hm & Hu & new & Hs & Hl & Hf).
  split; [done | split; [done |]]. exists new. do 2 (split; [done |]).
  eapply Forall_impl; [exact Hf |]. intros r (m & Hin & Hr).
  eapply Forall_forall in Hms as [Hm1 Hm2]; [| by apply list_elem_of_In]. eauto.
Qed.

(** C20: the report of [server.js]: [processed] is at most the batch bound
    50, and [replied] is the number of replies the run sent, each the
    reply to a message that was unread when the run started. *)
Theorem processEmails_server_report mb mb' r :
  processEmails_server cfg mb = (mb', Some r) ->
  processed r <= 50 /\ run_effect mb mb' (replied r).
Proof.
  unfold processEmails_server. destruct (cfg_auth cfg); [| intros [= <- <-]; split; [simpl; lia | apply run_effect_refl] | done].
  destruct (readUnreadMessages mb) as [[|m ms] |] eqn:E;
    try (intros [= <- <-]; split; [simpl; lia | apply run_effect_refl]).
  pose proof (processAll_run_effect _ _ E) as Hr.
  apply readUnreadMessages_spec in E as [Hl _].
  destruct (processAll cfg mb (m :: ms)) as [mb2 os] eqn:Ep. intros [= <- <-]. cbn [processed replied].
  split; [| done]. pose proof (processAll_length mb (m :: ms)) as Ho. rewrite Ep in Ho.
  pose proof (count_le is_processed os). simpl in Hl, Ho. lia.
Qed.

(** C21: [main.js] exits with status 1 exactly when [authorize] or the
    listing of unread messages fails, and then it has changed nothing;
    failures of single messages never change the exit status. *)
Theorem main_run_exit mb :
  ((main_run cfg mb).2 = Some 1 <->
     cfg_auth cfg = AuthThrows \/ (cfg_auth cfg = AuthOk /\ readUnreadMessages mb = None)) /\
  ((main_run cfg mb).2 = None <-> cfg_auth cfg = AuthPending) /\
  ((main_run cfg mb).2 <> Some 0 -> (main_run cfg mb).1 = mb).
Proof.
  unfold main_run. destruct (cfg_auth cfg); cbn [fst snd].
  - destruct (readUnreadMessages mb) as [[|m ms] |]; cbn [fst snd]; split_and!; try done;
      intuition congruence.
  - split_and!; intuition congruence.
  - split_and!; intuition congruence.
Qed.


Lemma continuous_run_effect mb :
  exists n, run_effect mb (processEmails_continuous cfg mb) n.
Proof.
  unfold processEmails_continuous. destruct (cfg_auth_ok cfg); cbn [negb];
    [| eexists; apply run_effect_refl].
  destruct (readUnreadMessages mb) as [[|m ms] |] eqn:E; try (eexists; apply run_effect_refl).
  eexists. by apply processAll_run_effect.
Qed.

Lemma processAll_all_fail mb ms :
  Forall (fun m => exists e, extractInfo m = inl e) ms -> (processAll cfg mb ms).1 = mb.
Proof.
  induction 1 as [| m ms [e Ex] _ IH]; [done |]. cbn [processAll].
  rewrite (processMessage_extract_unchanged _ _ _ _ Ex).
  destruct (processAll cfg mb ms) as [mb' os]. by cbn in *.
Qed.

(** C16: no progress behind a blocked batch: when every message the
    listing returns fails extraction, a run changes nothing, so the
    listing returns the same batch again and no run ever answers or marks
    anything: every message beyond the batch bound waits forever. *)
Theorem blocked_batch_no_progress mb ms n :
  readUnreadMessages mb = Some ms -> Forall (fun m => exists e, extractInfo m = inl e) ms ->
  Nat.iter n (processEmails_continuous cfg) mb = mb.
Proof.
  intros E Hf. assert (H1 : processEmails_continuous cfg mb = mb).
  { unfold processEmails_continuous. destruct (cfg_auth_ok cfg); [| done]. cbn [negb]. rewrite E.
    destruct ms; [done |]. by apply processAll_all_fail. }
  induction n as [| n IH]; [done |]. by rewrite Nat.iter_succ, IH.
Qed.

End Batch.

(** ** What a reply says *)

Section Content.
Context `{api : GmailApi} `{!GmailApiLaws api} `{svc : ReasoningService} (cfg : config).

Lemma reply_of_content m r :
  reply_of cfg m r ->
  exists t, extractInfo m = inr t /\ sr_threadId r = thread_param (threadId t) /\
    split_first "010" (decodeBase64 (sr_raw r)) = "To: " ++ candidateEmail t /\
    includes ("Hi " ++ cleanName (candidateName t) ++ ",") (decodeBase64 (sr_raw r)) = true /\
    includes ("<img src=" ++ quoted (getLogo (cfg_assets cfg))) (decodeBase64 (sr_raw r)) = true.
Proof.
  intros (t & msg & Ex & Hmsg & ->). exists t. cbn [sr_raw sr_threadId].
  split; [done | split; [done | split; [by eapply reply_first_line |]]].
  rewrite base64url_roundtrip. unfold reply_message in Hmsg.
  apply buildMessage_parts in Hmsg as [Hp Hh]. split.
  - eapply includes_trans; [apply startButtonPlainText_greets | exact Hp].
  - eapply includes_trans; [apply startButtonHtml_logo, getLogo_truthy | exact Hh].
Qed.

(** C12: when a message is answered, exactly one request is sent for it; it
    joins the message's thread, and its text, decoded, opens with the
    [To] line of the candidate address, greets the candidate by the
    cleaned name and embeds the logo. *)
Theorem processMessage_reply_content mb m mb' o :
  processMessage cfg mb m = (mb', o) -> is_replied o = true ->
  exists t r, extractInfo m = inr t /\ mb_sent mb' = app (mb_sent mb) [r] /\
    sr_threadId r = thread_param (threadId t) /\
    split_first "010" (decodeBase64 (sr_raw r)) = "To: " ++ candidateEmail t /\
    includes ("Hi " ++ cleanName (candidateName t) ++ ",") (decodeBase64 (sr_raw r)) = true /\
    includes ("<img src=" ++ quoted (getLogo (cfg_assets cfg))) (decodeBase64 (sr_raw r)) = true.
Proof.
  intros (_ & _ & new & Hs & Hl & Hf)%processMessage_effect Ho. rewrite Ho in Hl.
  destruct new as [| r [| ? ?]]; try discriminate Hl.
  apply Forall_inv, reply_of_content in Hf as (t & Ex & H). exists t, r. auto.
Qed.

End Content.
(** The specification's view of the account: the unread messages and the
    replies, as texts with their thread. *)
Record abs_mailbox := AbsMailbox { a_unread : gset string; a_replies : list (option string * string) }.

Definition abs (mb : mailbox) : abs_mailbox :=
  AbsMailbox (mb_unread mb) (map (fun r => (sr_threadId r, decodeBase64 (sr_raw r))) (mb_sent mb)).

Section Refinement.
Context `{svc : ReasoningService} (cfg : config).

(** The contract for one message: left unread when extraction fails;
    otherwise answered when classified [YES], then marked read. *)
Definition spec_handle (a : abs_mailbox) (m : message) : abs_mailbox :=
  match extractInfo m with
  | inl _ => a
  | inr t =>
      let replies :=
        match classify_ticket cfg t, reply_message cfg m t with
        | YES, inr msg => app (a_replies a) [(thread_param (threadId t), msg)]
        | _, _ => a_replies a
        end in
      AbsMailbox (a_unread a ∖ {[msg_id m]}) replies
  end.

Lemma processMessage_refines mb m :
  abs (processMessage (api := gmail_model no_faults) cfg mb m).1 = spec_handle (abs mb) m.
Proof.
  unfold spec_handle. destruct (extractInfo m) as [e | t] eqn:Ex.
  - by rewrite (processMessage_extract_unchanged (api := gmail_model no_faults) cfg mb m e Ex).
  - destruct (processMessage (api := gmail_model no_faults) cfg mb m) as [mb' o] eqn:E.
    apply (processMessage_no_faults cfg mb m t mb' o Ex) in E
      as (Hu & [(Hc & _ & Hs) | (Hc & _ & msg & Hmsg & Hs & _)]);
      unfold abs; cbn [fst a_unread a_replies]; rewrite Hu, Hc, ?Hmsg, Hs; [done |].
    rewrite map_app. cbn [map sr_threadId sr_raw]. by rewrite base64url_roundtrip.
Qed.

(** C2: refinement: with a service that does not fail, the loop over a
    batch (MIME building, base64url, the Gmail calls) has, seen through
    [abs], exactly the effect of the specification's contract applied to
    the messages in order. *)
Theorem processAll_refines mb ms :
  abs (processAll (api := gmail_model no_faults) cfg mb ms).1 = fold_left spec_handle ms (abs mb).
Proof.
  revert mb. induction ms as [|m ms IH]; intros mb; [done |]. cbn [processAll fold_left].
  rewrite <- processMessage_refines.
  destruct (processMessage (api := gmail_model no_faults) cfg mb m) as [mb1 o].
  specialize (IH mb1). destruct (processAll (api := gmail_model no_faults) cfg mb1 ms). exact IH.
Qed.

End Refinement.

(** ** Scenarios *)

Definition demo_cfg : config :=
  Config env_key (Assets None None "/app" []) AuthOk (fun _ => Clock 1700 "k3j9x0a1b").

Definition demo_mailbox : mailbox := Mailbox [spec_message] {["m1"]} [].

Definition yes_service : ReasoningService := service_says (Some "YES").

(** A message without payload: its extraction throws. *)
Definition broken_message : message := Message "m2" (Some "t2") None.

Definition spec_message3 : message := Message "m3" (Some "t3") (msg_payload spec_message).

Definition mark_fails_once : faults := Faults false (fun _ => false) (fun _ => false) (fun _ => true).
Definition send_fails_always : faults := Faults false (fun _ => false) (fun _ => true) (fun _ => false).

(** the specification's batch of three messages whose second one
    throws during extraction: the first and the third are answered and
    marked read, the second is left unread. *)
Example spec_batch_isolation :
  let mb := Mailbox [spec_message; broken_message; spec_message3] {["m1"; "m2"; "m3"]} [] in
  let mb' := processEmails_continuous (api := gmail_model no_faults) (svc := yes_service) demo_cfg mb in
  bool_decide ("m2" ∈ mb_unread mb') = true /\ bool_decide ("m1" ∈ mb_unread mb') = false /\
  bool_decide ("m3" ∈ mb_unread mb') = false /\ length (mb_sent mb') = 2.
Proof. vm_compute. auto. Qed.

(** no deduplication across runs: when [markAsRead] fails after a
    successful send, the message stays unread and the next run answers it
    a second time, with the same request. *)
Example duplicate_reply_after_mark_failure :
  let mb1 := processEmails_continuous (api := gmail_model mark_fails_once) (svc := yes_service) demo_cfg demo_mailbox in
  let mb2 := processEmails_continuous (api := gmail_model no_faults) (svc := yes_service) demo_cfg mb1 in
  bool_decide ("m1" ∈ mb_unread mb1) = true /\ bool_decide ("m1" ∈ mb_unread mb2) = false /\
  length (mb_sent mb2) = 2 /\ head (mb_sent mb2) = last (mb_sent mb2).
Proof. vm_compute. auto. Qed.

Lemma processMessage_marks_only_after_reply_witness :
  let r := processMessage (api := gmail_model no_faults) (svc := yes_service) demo_cfg demo_mailbox spec_message in
  exists t, extractInfo spec_message = inr t /\
    ((classify_ticket (svc := yes_service) demo_cfg t = NO /\ r.2 = Handled false /\ mb_sent r.1 = mb_sent demo_mailbox) \/
     (classify_ticket (svc := yes_service) demo_cfg t = YES /\ r.2 = Handled true /\
      exists msg, reply_message demo_cfg spec_message t = inr msg /\
        mb_sent r.1 = app (mb_sent demo_mailbox) [SentRequest (base64url msg) (thread_param (threadId t))])).
Proof.
  intros r. apply (processMessage_marks_only_after_reply (api := gmail_model no_faults) (svc := yes_service) demo_cfg demo_mailbox spec_message r.1 r.2).
  - apply surjective_pairing.
  - apply (proj1 (bool_decide_eq_true _)). vm_compute. reflexivity.
  - apply (proj1 (bool_decide_eq_false _)). vm_compute. reflexivity.
Defined.

Lemma processMessage_send_failure_witness :
  exists t e, extractInfo spec_message = inr t /\
    processMessage (api := gmail_model send_fails_always) (svc := yes_service) demo_cfg demo_mailbox spec_message
      = (demo_mailbox, ReplyFailed e).
Proof.
  destruct (extractInfo spec_message) as [e0 | t] eqn:Ex; [discriminate Ex |].
  exists t, SendRejected. split; [reflexivity |].
  apply (processMessage_send_failure (api := gmail_model send_fails_always) (svc := yes_service) demo_cfg demo_mailbox spec_message t).
  - exact Ex.
  - rewrite <- (f_equal (fun x => match x with inr t' => classify_ticket (svc := yes_service) demo_cfg t' | inl _ => NO end) Ex).
    vm_compute. reflexivity.
  - rewrite <- (f_equal (fun x => match x with inr t' => replyTo (api := gmail_model send_fails_always) demo_cfg demo_mailbox spec_message t' | inl _ => inl BodyTypeError end) Ex).
    vm_compute. reflexivity.
Defined.

Lemma processAll_isolation_witness :
  processAll (api := gmail_model no_faults) (svc := yes_service) demo_cfg demo_mailbox
      ([spec_message] ++ broken_message :: [spec_message3]) =
    let '(mb1, os1) := processAll (api := gmail_model no_faults) (svc := yes_service) demo_cfg demo_mailbox [spec_message] in
    let '(mb2, os2) := processAll (api := gmail_model no_faults) (svc := yes_service) demo_cfg mb1 [spec_message3] in
    (mb2, app os1 ((msg_id broken_message, ExtractFailed NoPayload) :: os2)).
Proof. apply processAll_isolation. reflexivity. Defined.

Lemma processMessage_reply_content_witness :
  let r := processMessage (api := gmail_model no_faults) (svc := yes_service) demo_cfg demo_mailbox spec_message in
  is_replied r.2 = true /\
  exists t q, extractInfo spec_message = inr t /\ mb_sent r.1 = app (mb_sent demo_mailbox) [q] /\
    sr_threadId q = thread_param (threadId t) /\
    split_first "010" (decodeBase64 (sr_raw q)) = "To: " ++ candidateEmail t /\
    includes ("Hi " ++ cleanName (candidateName t) ++ ",") (decodeBase64 (sr_raw q)) = true /\
    includes ("<img src=" ++ quoted (getLogo (cfg_assets demo_cfg))) (decodeBase64 (sr_raw q)) = true.
Proof.
  intros r. assert (Ho : is_replied r.2 = true) by (vm_compute; reflexivity). split; [exact Ho |].
  apply (processMessage_reply_content (api := gmail_model no_faults) (svc := yes_service) demo_cfg
           demo_mailbox spec_message r.1 r.2); [apply surjective_pairing | exact Ho].
Defined.

Lemma processEmails_server_report_witness :
  let r := processEmails_server (api := gmail_model no_faults) (svc := yes_service) demo_cfg demo_mailbox in
  processed (default (Report 0 0 true) r.2) <= 50 /\
  run_effect demo_cfg demo_mailbox r.1 (replied (default (Report 0 0 true) r.2)).
Proof.
  intros r. apply (processEmails_server_report (api := gmail_model no_faults) (svc := yes_service) demo_cfg demo_mailbox r.1).
  vm_compute. reflexivity.
Defined.

(** Fifty messages without payload, then a message the specification
    answers. *)
Definition broken_n (n : nat) : message := Message ("b" ++ show_nat n) None None.

Definition starved_mailbox : mailbox :=
  let ms := app (map broken_n (seq 0 50)) [spec_message] in
  Mailbox ms (list_to_set (map msg_id ms)) [].

Lemma blocked_batch_no_progress_witness :
  Nat.iter 3 (processEmails_continuous (api := gmail_model no_faults) (svc := yes_service) demo_cfg)
    starved_mailbox = starved_mailbox.
Proof.
  apply (blocked_batch_no_progress (api := gmail_model no_faults) demo_cfg starved_mailbox
           (map broken_n (seq 0 50))).
  - vm_compute. reflexivity.
  - apply Forall_forall. intros m Hm. apply list_elem_of_fmap in Hm as (k & -> & _).
    by eexists.
Defined.
