(* ===== verification/Polling.v ===== *)
(** * Polling driver: [src/main-continuous.js] and the timer of [src/server.js]

    [processEmails(); setInterval(processEmails, INTERVAL_MINUTES * 60 * 1000)]
    starts one run at start-up and one more every ten minutes, without
    waiting for the previous run to end.  Two views of it:
    - [system_step] takes every run as one step ([processEmails_continuous]
      of [Pipeline.v]); it is the driver when runs do not overlap;
    - a run is also a sequence of small steps [run_step], one per [await]
      of [processEmails]: the start (authorize and list), then for each
      message of the batch the extraction with the classification, the
      sending of the reply and the marking, and the end.  [run_f] runs
      those steps with fuel, and [conc_step] interleaves the small steps
      of several runs in flight, as the event loop does when a run lasts
      longer than the interval. *)

From Stdlib Require Import Ascii String.
From stdpp Require Import base list strings gmap relations.
From Stdlib Require Import Lia.
From S2P Require Import Prelude Base64 Extractor Classifier Gmail Reply Pipeline.

Open Scope string_scope.

(** A new message in the account. *)
Definition arrive (mb : mailbox) (m : message) : mailbox :=
  {| mb_messages := app (mb_messages mb) [m];
     mb_unread := {[msg_id m]} ∪ mb_unread mb;
     mb_sent := mb_sent mb |}.

(** ** Runs as one step

    [setInterval(processEmails, 10 min)]: each run sees the service as it
    is at that time (its faults, the model's answers), and mail arrives
    between runs. *)
Inductive system_step (cfg : config) : mailbox -> mailbox -> Prop :=
  | StepRun (f : faults) (svc : ReasoningService) mb :
      system_step cfg mb (processEmails_continuous (api := gmail_model f) (svc := svc) cfg mb)
  | StepArrive mb (m : message) :
      msg_id m ∉ map msg_id (mb_messages mb) ->
      system_step cfg mb (arrive mb m).

Inductive reachable (cfg : config) (mb0 : mailbox) : mailbox -> Prop :=
  | reach_init : reachable cfg mb0 mb0
  | reach_step mb mb' : reachable cfg mb0 mb -> system_step cfg mb mb' -> reachable cfg mb0 mb'.

(** ** Runs as small steps *)

(** Where a run of [processEmails] is: before [await authorize()]; at
    the head of [for (const message of unreadMessages)] with the messages
    still to do; before [await sendReply(...)] of a message classified
    [YES] (with its ticket); before [await markAsRead(...)]; or
    returned. *)
Inductive run_state :=
  | RunStart
  | RunLoop (pending : list message)
  | RunSend (m : message) (t : ticket) (pending : list message)
  | RunMark (m : message) (pending : list message)
  | RunDone.

(** The messages a run has still to finish, the current one first. *)
Definition run_pending (rs : run_state) : list message :=
  match rs with
  | RunLoop ms => ms
  | RunSend m _ ms | RunMark m ms => m :: ms
  | _ => []
  end.

Section Run.
Context `{api : GmailApi} `{svc : ReasoningService} (cfg : config).

(** One step of a run; [None] once it has returned.  The start step is
    lines 22-30 (an error of [authorize] or of the listing goes to the
    outer [catch], an empty batch returns; while [authorize()] has not
    settled the run stays where it is).  A loop step extracts the
    next message and awaits its classification (lines 40-46; an
    extraction error goes to the [catch] and the loop continues); a send
    step awaits [sendReply] (lines 55-62; an error skips [markAsRead]);
    a mark step awaits [markAsRead] (line 69).  The last step leaves the
    loop. *)
Definition run_step (mb : mailbox) (rs : run_state) : option (mailbox * run_state) :=
  match rs with
  | RunStart =>
      match cfg_auth cfg with
      | AuthPending => Some (mb, RunStart)
      | AuthThrows => Some (mb, RunDone)
      | AuthOk =>
          match readUnreadMessages mb with
          | None => Some (mb, RunDone)
          | Some [] => Some (mb, RunDone)
          | Some ms => Some (mb, RunLoop ms)
          end
      end
  | RunLoop [] => Some (mb, RunDone)
  | RunLoop (m :: ms) =>
      match extractInfo m with
      | inl _ => Some (mb, RunLoop ms)
      | inr t =>
          match classifyIssue (cfg_env cfg) (subject t) (issue t) (body t) with
          | YES => Some (mb, RunSend m t ms)
          | NO => Some (mb, RunMark m ms)
          end
      end
  | RunSend m t ms =>
      match replyTo cfg mb m t with
      | inl _ => Some (mb, RunLoop ms)
      | inr (mb1, _) => Some (mb1, RunMark m ms)
      end
  | RunMark m ms =>
      match markAsRead mb (msg_id m) with
      | Some mb2 => Some (mb2, RunLoop ms)
      | None => Some (mb, RunLoop ms)
      end
  | RunDone => None
  end.

(** At most [fuel] steps; [None] when the fuel runs out first. *)
Fixpoint run_f (fuel : nat) (mb : mailbox) (rs : run_state) : option mailbox :=
  match run_step mb rs with
  | None => Some mb
  | Some (mb', rs') => match fuel with O => None | S f => run_f f mb' rs' end
  end.

(** One step as a relation, and any number of steps of one run. *)
Definition run_rel : relation (mailbox * run_state) := fun x y => run_step x.1 x.2 = Some y.

Definition run_star (mb : mailbox) (rs : run_state) (mb' : mailbox) (rs' : run_state) : Prop :=
  rtc run_rel (mb, rs) (mb', rs').

End Run.

(** ** Overlapping runs

    The state of the process: the account and every run started so far
    (a returned run stays as [RunDone]).  The timer starts a run, any run
    in flight makes a step against the account as it is now (with the
    service's faults and answers of that moment), or mail arrives.  A
    run's batch is the snapshot its listing returned. *)
Record conc_state := Conc { c_mb : mailbox; c_runs : list run_state }.

Inductive conc_step (cfg : config) : conc_state -> conc_state -> Prop :=
  | CFire s : conc_step cfg s (Conc (c_mb s) (app (c_runs s) [RunStart]))
  | CAdvance (f : faults) (svc : ReasoningService) s i rs mb' rs' :
      c_runs s !! i = Some rs ->
      run_step (api := gmail_model f) (svc := svc) cfg (c_mb s) rs = Some (mb', rs') ->
      conc_step cfg s (Conc mb' (<[i := rs']> (c_runs s)))
  | CArrive s m :
      msg_id m ∉ map msg_id (mb_messages (c_mb s)) ->
      conc_step cfg s (Conc (arrive (c_mb s) m) (c_runs s)).

(** A schedule, as the event loop may produce it. *)
Inductive conc_event :=
  | EvFire
  | EvAdvance (f : faults) (svc : ReasoningService) (i : nat)
  | EvArrive (m : message).

Definition conc_exec (cfg : config) (s : conc_state) (e : conc_event) : option conc_state :=
  match e with
  | EvFire => Some (Conc (c_mb s) (app (c_runs s) [RunStart]))
  | EvAdvance f svc i =>
      rs ← c_runs s !! i;
      '(mb', rs') ← run_step (api := gmail_model f) (svc := svc) cfg (c_mb s) rs;
      Some (Conc mb' (<[i := rs']> (c_runs s)))
  | EvArrive m =>
      if bool_decide (msg_id m ∈ map msg_id (mb_messages (c_mb s))) then None
      else Some (Conc (arrive (c_mb s) m) (c_runs s))
  end.

Fixpoint conc_run (cfg : config) (s : conc_state) (es : list conc_event) : option conc_state :=
  match es with
  | [] => Some s
  | e :: es' => s' ← conc_exec cfg s e; conc_run cfg s' es'
  end.

(** ** A run in small steps is the run of [Pipeline.v] *)

Section RunProps.
Context `{api : GmailApi} `{svc : ReasoningService} (cfg : config).

Ltac run_step_by H := eapply nsteps_l; [unfold run_rel; cbn [run_step fst snd]; rewrite ?H; reflexivity |].

(** One message takes one to three steps and does what [processMessage]
    does. *)
Lemma run_message_steps mb m ms :
  exists n, 1 <= n <= 3 /\
    nsteps (run_rel cfg) n (mb, RunLoop (m :: ms)) ((processMessage cfg mb m).1, RunLoop ms).
Proof.
  unfold processMessage. destruct (extractInfo m) as [e | t] eqn:Ex.
  - exists 1. split; [lia |]. run_step_by Ex. apply nsteps_O.
  - cbv zeta. destruct (classifyIssue (cfg_env cfg) (subject t) (issue t) (body t)) eqn:Hc.
    + destruct (replyTo cfg mb m t) as [e | [mb1 sid]] eqn:Hr.
      * exists 2. split; [lia |]. eapply nsteps_l; [unfold run_rel; cbn [run_step fst snd]; rewrite Ex, Hc; reflexivity |].
        run_step_by Hr. apply nsteps_O.
      * destruct (markAsRead mb1 (msg_id m)) as [mb2 |] eqn:Hm; exists 3; (split; [lia |]);
          (eapply nsteps_l; [unfold run_rel; cbn [run_step fst snd]; rewrite Ex, Hc; reflexivity |]);
          run_step_by Hr; run_step_by Hm; apply nsteps_O.
    + destruct (markAsRead mb (msg_id m)) as [mb2 |] eqn:Hm; exists 2; (split; [lia |]);
        (eapply nsteps_l; [unfold run_rel; cbn [run_step fst snd]; rewrite Ex, Hc; reflexivity |]);
        run_step_by Hm; apply nsteps_O.
Qed.

Lemma run_loop_steps mb ms :
  exists n, n <= 3 * length ms + 1 /\ nsteps (run_rel cfg) n (mb, RunLoop ms) ((processAll cfg mb ms).1, RunDone).
Proof.
  revert mb. induction ms as [| m ms IH]; intros mb.
  - exists 1. split; [simpl; lia |]. eapply nsteps_l; [reflexivity | apply nsteps_O].
  - destruct (run_message_steps mb m ms) as (n1 & Hn1 & H1).
    destruct (IH (processMessage cfg mb m).1) as (n2 & Hn2 & H2).
    exists (n1 + n2). split; [simpl; lia |]. cbn [processAll]. revert H1 H2.
    destruct (processMessage cfg mb m) as [mb1 o]. cbn [fst].
    destruct (processAll cfg mb1 ms) as [mb2 os]. intros H1 H2. by eapply nsteps_trans.
Qed.

(** The length of the batch a run lists; [0] when the listing fails. *)
Definition batch_length (mb : mailbox) : nat :=
  match readUnreadMessages mb with Some ms => length ms | None => 0 end.

Lemma run_start_steps mb :
  cfg_auth cfg <> AuthPending ->
  exists n, n <= 3 * batch_length mb + 2 /\
    nsteps (run_rel cfg) n (mb, RunStart) (processEmails_continuous cfg mb, RunDone).
Proof.
  intros Hp. unfold processEmails_continuous, batch_length, cfg_auth_ok.
  destruct (cfg_auth cfg) eqn:Ha; cbn [negb]; [| | done].
  - destruct (readUnreadMessages mb) as [[| m ms] |] eqn:E;
      [exists 1 | | exists 1]; try (split; [simpl; lia |];
        eapply nsteps_l; [unfold run_rel; cbn [run_step fst snd]; rewrite Ha, E; reflexivity | apply nsteps_O]).
    destruct (run_loop_steps mb (m :: ms)) as (n & Hn & H). exists (S n). split; [lia |].
    eapply nsteps_l; [unfold run_rel; cbn [run_step fst snd]; rewrite Ha, E; reflexivity | exact H].
  - exists 1. split; [lia |].
    eapply nsteps_l; [unfold run_rel; cbn [run_step fst snd]; rewrite Ha; reflexivity | apply nsteps_O].
Qed.

Lemma run_star_start mb :
  cfg_auth cfg <> AuthPending -> run_star cfg mb RunStart (processEmails_continuous cfg mb) RunDone.
Proof. intros Hp. destruct (run_start_steps mb Hp) as (n & _ & H). by eapply rtc_nsteps_2. Qed.

(** While [authorize()] has not settled, a run stays at its start. *)
Lemma run_pending_stays mb x :
  cfg_auth cfg = AuthPending -> rtc (run_rel cfg) (mb, RunStart) x -> x = (mb, RunStart).
Proof.
  intros Hp H. remember (mb, RunStart) as y eqn:Hy. revert Hy.
  induction H as [| a b c Hab _ IH]; intros ->; [done |].
  unfold run_rel in Hab. cbn [run_step fst snd] in Hab. rewrite Hp in Hab. injection Hab as <-. by apply IH.
Qed.

Lemma run_f_pending fuel mb : cfg_auth cfg = AuthPending -> run_f cfg fuel mb RunStart = None.
Proof.
  intros Hp. induction fuel as [| fuel IH]; cbn [run_f run_step]; rewrite Hp; [done | exact IH].
Qed.

(** A run that has returned makes no more step, and [run_step] is a
    function: two step sequences that both reach the end agree. *)
Lemma run_star_done_unique x mb1 mb2 :
  rtc (run_rel cfg) x (mb1, RunDone) -> rtc (run_rel cfg) x (mb2, RunDone) -> mb1 = mb2.
Proof.
  intros H1. remember (mb1, RunDone) as z eqn:Hz. revert Hz.
  induction H1 as [x | x y z Hxy _ IH]; intros -> H2.
  - apply rtc_inv in H2 as [[= ->] | (y & Hy & _)]; [done | discriminate Hy].
  - apply rtc_inv in H2 as [-> | (y' & Hy' & H2)]; [discriminate Hxy |].
    unfold run_rel in Hxy, Hy'. rewrite Hxy in Hy'. injection Hy' as <-. by apply IH.
Qed.

Lemma run_f_nsteps n mb rs mb' fuel :
  nsteps (run_rel cfg) n (mb, rs) (mb', RunDone) -> n <= fuel -> run_f cfg fuel mb rs = Some mb'.
Proof.
  revert mb rs fuel. induction n as [| n IH]; intros mb rs fuel H Hf.
  - inversion H; subst. by destruct fuel.
  - inversion H as [| ? ? [mb1 rs1] ? Hs Hn]; subst. destruct fuel as [| fuel]; [lia |].
    unfold run_rel in Hs. cbn [fst snd] in Hs. cbn [run_f]. rewrite Hs. apply IH; [exact Hn | lia].
Qed.


End RunProps.

Section RunBound.
Context `{api : GmailApi} `{!GmailApiLaws api} `{svc : ReasoningService} (cfg : config).

Lemma run_f_settled mb fuel :
  cfg_auth cfg <> AuthPending -> 152 <= fuel -> run_f cfg fuel mb RunStart = Some (processEmails_continuous cfg mb).
Proof.
  intros Hp Hf. destruct (run_start_steps cfg mb Hp) as (n & Hn & H). apply (run_f_nsteps cfg n); [exact H |].
  enough (batch_length mb <= 50) by lia. unfold batch_length.
  destruct (readUnreadMessages mb) as [ms |] eqn:E; [| lia]. by apply readUnreadMessages_spec in E as [? _].
Qed.

(** C6: termination of a run: once [authorize()] settles, [152] steps
    from its start are enough for a run to return (one to list at most
    [50] messages, at most three per message, one to leave the loop),
    whatever the account, and with more fuel it returns the same account,
    the one [processEmails_continuous] gives. *)
Theorem run_f_terminates mb fuel :
  cfg_auth cfg <> AuthPending -> 152 <= fuel -> run_f cfg fuel mb RunStart = Some (processEmails_continuous cfg mb).
Proof. apply run_f_settled. Qed.

End RunBound.
(** ** Replies go to the candidate, under any interleaving *)

(** A request is addressed when its decoded text opens with a [To] line
    holding, and only holding, the candidate address extracted from a
    message of the mailbox. *)
Definition addressed (mb : mailbox) (r : sent_request) : Prop :=
  exists m t, In m (mb_messages mb) /\ extractInfo m = inr t /\
    split_first "010" (decodeBase64 (sr_raw r)) = "To: " ++ candidateEmail t /\
    all_chars no_crlf (candidateEmail t) = true.

Lemma addressed_mono mb mb' r :
  (forall m, In m (mb_messages mb) -> In m (mb_messages mb')) -> addressed mb r -> addressed mb' r.
Proof. intros Hin (m & t & Hm & H). exists m, t. auto. Qed.

Lemma reply_of_addressed cfg mb m r :
  In m (mb_messages mb) -> reply_of cfg m r -> addressed mb r.
Proof.
  intros Hin (t & msg & Ex & Hmsg & ->). exists m, t. cbn [sr_raw].
  split; [done | split; [done | split]]; [by eapply reply_first_line |].
  by eapply extractInfo_email_chars.
Qed.

Lemma arrive_mono mb m m' : In m' (mb_messages mb) -> In m' (mb_messages (arrive mb m)).
Proof. intros H. apply in_or_app. by left. Qed.

(** What a run keeps of its current message: a run about to send holds
    the ticket extracted from it. *)
Definition run_ok (rs : run_state) : Prop :=
  match rs with RunSend m t _ => extractInfo m = inr t | _ => True end.

Section StepEffect.
Context `{api : GmailApi} `{!GmailApiLaws api} `{svc : ReasoningService} (cfg : config).

Ltac no_effect :=
  split; [done | split; [cbn [run_pending]; first [done | by constructor] |
                         split; [cbn [run_ok]; done | exists []; by rewrite app_nil_r]]].

(** A step of a run keeps the messages of the account, keeps the pending
    messages among them, and sends only replies to messages of the
    account. *)
Lemma run_step_effect mb rs mb' rs' :
  run_step cfg mb rs = Some (mb', rs') -> Forall (fun m => In m (mb_messages mb)) (run_pending rs) -> run_ok rs ->
  mb_messages mb' = mb_messages mb /\ Forall (fun m => In m (mb_messages mb)) (run_pending rs') /\ run_ok rs' /\
  exists new, mb_sent mb' = app (mb_sent mb) new /\
    Forall (fun r => exists m, In m (mb_messages mb) /\ reply_of cfg m r) new.
Proof.
  destruct rs as [| [| m ms] | m t ms | m ms |]; cbn [run_step run_pending run_ok]; [| | | | | discriminate].
  - destruct (cfg_auth cfg); [| intros [= <- <-] _ _; no_effect | intros [= <- <-] _ _; no_effect].
    destruct (readUnreadMessages mb) as [[| m ms] |] eqn:E; intros [= <- <-] _ _; try no_effect.
    apply readUnreadMessages_spec in E as [_ Hf]. split; [done | split; [| split; [done |]]].
    + eapply Forall_impl; [exact Hf |]. by intros ? [? _].
    + exists []. by rewrite app_nil_r.
  - intros [= <- <-] _ _. no_effect.
  - intros H Hp _. inversion Hp as [| ? ? Hm Hms]; subst.
    destruct (extractInfo m) as [e | t] eqn:Ex; [injection H as <- <-; no_effect |].
    destruct (classifyIssue _ _ _ _); injection H as <- <-; cbn [run_pending run_ok]; no_effect.
  - intros H Hp Ht. inversion Hp as [| ? ? Hm Hms]; subst.
    destruct (replyTo cfg mb m t) as [e | [mb1 sid]] eqn:Hr; injection H as <- <-; [no_effect |].
    apply replyTo_effect in Hr as (msg & Hmsg & Hs & _ & Hm1 & _).
    rewrite Hm1. split; [done | split; [done | split; [done |]]].
    eexists. split; [exact Hs |]. repeat constructor. exists m. split; [done |].
    exists t, msg. auto.
  - intros H Hp _. destruct (markAsRead mb (msg_id m)) as [mb2 |] eqn:Hm; injection H as <- <-.
    + apply markAsRead_effect in Hm as (Hm1 & _ & Hs). rewrite Hm1, Hs.
      inversion Hp; subst. split; [done | split; [done | split; [done |]]]. exists []. by rewrite app_nil_r.
    + inversion Hp; subst. no_effect.
Qed.

End StepEffect.

(** What holds in every state of the process: every reply sent is
    addressed, every message a run still has to finish is a message of
    the account, and a run about to send holds its message's ticket. *)
Definition conc_inv (s : conc_state) : Prop :=
  Forall (addressed (c_mb s)) (mb_sent (c_mb s)) /\
  Forall (fun rs => Forall (fun m => In m (mb_messages (c_mb s))) (run_pending rs) /\ run_ok rs) (c_runs s).

Lemma conc_step_inv cfg s s' : conc_step cfg s s' -> conc_inv s -> conc_inv s'.
Proof.
  intros [s0 | f svc s0 i rs mb' rs' Hl Hs | s0 m Hfresh] [Ha Hr]; unfold conc_inv; cbn [c_mb c_runs].
  - split; [done |]. apply Forall_app. split; [done | repeat constructor].
  - destruct (Forall_lookup_1 _ _ _ _ Hr Hl) as [Hp Hok].
    destruct (run_step_effect (api := gmail_model f) cfg _ _ _ _ Hs Hp Hok) as (Hm & Hp' & Hok' & new & Hsent & Hf).
    split.
    + rewrite Hsent. apply Forall_app. split.
      * eapply Forall_impl; [exact Ha |]. intros r. apply addressed_mono. by rewrite Hm.
      * eapply Forall_impl; [exact Hf |]. intros r (m & Hin & Hr').
        eapply reply_of_addressed; [| exact Hr']. by rewrite Hm.
    + rewrite Hm. apply Forall_insert; [exact Hr | by split].
  - split.
    + eapply Forall_impl; [exact Ha |]. intros r. apply addressed_mono, arrive_mono.
    + eapply Forall_impl; [exact Hr |]. intros rs [Hp Hok]. split; [| done].
      eapply Forall_impl; [exact Hp |]. intros m'. apply arrive_mono.
Qed.

Lemma conc_rtc_inv cfg s s' : rtc (conc_step cfg) s s' -> conc_inv s -> conc_inv s'.
Proof. induction 1; eauto using conc_step_inv. Qed.

(** in every state the process reaches from an account whose sent
    replies are addressed, with any number of runs started by the timer
    and their steps interleaved in any order, whatever the service's
    faults and the model's answers at each step and whatever mail
    arrives, every reply ever sent opens with a single [To] line that
    holds exactly the candidate address extracted from a message of the
    account, an address with no CR or LF. *)
Theorem conc_replies_addressed cfg mb0 s :
  Forall (addressed mb0) (mb_sent mb0) -> rtc (conc_step cfg) (Conc mb0 []) s ->
  Forall (addressed (c_mb s)) (mb_sent (c_mb s)).
Proof.
  intros H0 Hr. enough (Hi : conc_inv s) by apply Hi.
  eapply conc_rtc_inv; [exact Hr |]. split; [done | constructor].
Qed.

(** ** The one-step driver is the overlapping one without overlap *)

Lemma insert_last {A} (l : list A) (x y : A) : <[length l := y]> (app l [x]) = app l [y].
Proof. pose proof (insert_app_r l [x] 0 y) as H. by rewrite Nat.add_0_r in H. Qed.

Lemma run_star_conc cfg f svc runs x y :
  rtc (run_rel (api := gmail_model f) (svc := svc) cfg) x y ->
  rtc (conc_step cfg) (Conc x.1 (app runs [x.2])) (Conc y.1 (app runs [y.2])).
Proof.
  induction 1 as [| [mb rs] [mb1 rs1] z Hs _ IH]; [apply rtc_refl |].
  eapply rtc_l; [| exact IH].
  pose proof (CAdvance cfg f svc (Conc mb (app runs [rs])) (length runs) rs mb1 rs1
                (list_lookup_middle runs [] rs _ eq_refl) Hs) as H.
  cbn [c_runs] in H. by rewrite insert_last in H.
Qed.


(** C11: when runs do not overlap, a message once marked read is never
    answered again: no step of the one-step driver makes it unread, and
    every reply a step sends is the reply to a message that was unread,
    hence to another message.  With overlapping runs this fails (C6). *)
Theorem system_step_read_final cfg mb mb' m :
  system_step cfg mb mb' -> In m (mb_messages mb) -> msg_id m ∉ mb_unread mb ->
  msg_id m ∉ mb_unread mb' /\
  exists new, mb_sent mb' = app (mb_sent mb) new /\
    Forall (fun r => exists m', In m' (mb_messages mb) /\ msg_id m' <> msg_id m /\ reply_of cfg m' r) new.
Proof.
  intros [f svc mb1 | mb1 m0 Hfresh] Hin Hread.
  - destruct (continuous_run_effect (api := gmail_model f) cfg mb1) as (n & _ & Hu & new & Hs & _ & Hf).
    split; [set_solver |]. exists new. split; [done |].
    eapply Forall_impl; [exact Hf |]. intros r (m' & Hm' & Hu' & Hr).
    exists m'. split; [done | split; [| done]]. intros Heq. rewrite Heq in Hu'. contradiction.
  - assert (Hne : msg_id m0 <> msg_id m).
    { intros Heq. apply Hfresh. rewrite Heq. by apply list_elem_of_In, in_map. }
    split; [cbn [mb_unread]; set_solver |]. exists []. by rewrite app_nil_r.
Qed.

(** ** Schedules *)

Lemma conc_exec_step cfg s e s' : conc_exec cfg s e = Some s' -> conc_step cfg s s'.
Proof.
  destruct e as [| f svc i | m]; cbn [conc_exec].
  - intros [= <-]. apply CFire.
  - destruct (c_runs s !! i) as [rs |] eqn:Hl; [cbn | discriminate].
    destruct (run_step cfg (c_mb s) rs) as [[mb' rs'] |] eqn:Hs; [cbn | discriminate].
    intros [= <-]. by eapply CAdvance.
  - case_bool_decide as Hm; [discriminate |]. intros [= <-]. by apply CArrive.
Qed.

Lemma conc_run_reachable cfg s es s' : conc_run cfg s es = Some s' -> rtc (conc_step cfg) s s'.
Proof.
  revert s. induction es as [| e es IH]; intros s; cbn [conc_run]; [intros [= <-]; apply rtc_refl |].
  destruct (conc_exec cfg s e) as [s1 |] eqn:E; [cbn | discriminate].
  intros H. eapply rtc_l; [by eapply conc_exec_step | by apply IH].
Qed.

(** The timer fires while the first run is in flight: both runs list the
    same unread message, then their steps alternate: classify, classify,
    send, send, mark, mark. *)
Definition overlap_schedule : list conc_event :=
  let a := EvAdvance no_faults yes_service 0 in
  let b := EvAdvance no_faults yes_service 1 in
  [EvFire; a; EvFire; b; a; b; a; b; a; b].

Definition overlap_final : conc_state :=
  default (Conc demo_mailbox []) (conc_run demo_cfg (Conc demo_mailbox []) overlap_schedule).


Lemma conc_replies_addressed_witness :
  Forall (addressed (c_mb overlap_final)) (mb_sent (c_mb overlap_final)).
Proof.
  apply (conc_replies_addressed demo_cfg demo_mailbox overlap_final).
  - constructor.
  - apply (conc_run_reachable _ _ overlap_schedule). vm_compute. reflexivity.
Defined.

Definition empty_account : mailbox := Mailbox [] ∅ [].

Definition after_arrival : mailbox := arrive empty_account spec_message.


Lemma system_step_read_final_witness :
  let mb := Mailbox [spec_message] ∅ [] in
  let mb' := processEmails_continuous (api := gmail_model no_faults) (svc := yes_service) demo_cfg mb in
  msg_id spec_message ∉ mb_unread mb' /\
  exists new, mb_sent mb' = app (mb_sent mb) new /\
    Forall (fun r => exists m', In m' (mb_messages mb) /\ msg_id m' <> msg_id spec_message /\
                                reply_of demo_cfg m' r) new.
Proof.
  intros mb mb'. apply (system_step_read_final demo_cfg mb mb' spec_message).
  - apply StepRun.
  - left. reflexivity.
  - apply (proj1 (bool_decide_eq_false _)). vm_compute. reflexivity.
Defined.

Lemma run_f_terminates_witness :
  run_f (api := gmail_model no_faults) (svc := yes_service) demo_cfg 152 demo_mailbox RunStart =
  Some (processEmails_continuous (api := gmail_model no_faults) (svc := yes_service) demo_cfg demo_mailbox).
Proof. apply run_f_terminates; [discriminate | lia]. Defined.
