(* ===== verification/Auth.v ===== *)
(** * Authorization: [src/gmailAuth.js]

    [authorize] chooses where the OAuth credentials and the token come
    from (the base64 environment variables [GMAIL_CREDENTIALS] and
    [GMAIL_TOKEN] when both are set, else [credentials.json] and
    [token.json]), builds the OAuth2 client from the [installed] or [web]
    configuration, refreshes an expiring token (storing it unless
    [GMAIL_TOKEN] is set), and without a token runs the interactive
    consent of [getNewToken].  Every error is caught at the end and
    replaced by one of two fixed messages.

    The runtime's services are inputs ([auth_env]): [JSON.parse], the
    two file reads, the OAuth2 library's [isTokenExpiring],
    [refreshAccessToken] and [getToken], the code typed at the prompt
    (none: the prompt waits forever) and the success of the token write.
    Parsed JSON is the inductive [json]; a property read gives [None] for
    [undefined], and throws on [null] and [undefined]. *)

From Stdlib Require Import Ascii String ZArith.
From stdpp Require Import base list strings.
From S2P Require Import Prelude Base64 Extractor.

Open Scope string_scope.

Inductive json :=
  | JNull
  | JBool (b : bool)
  | JNum (n : Z)
  | JStr (s : string)
  | JArr (l : list json)
  | JObj (fields : list (string * json)).

(** Truthiness of a value ([None] is [undefined]). *)
Definition jtruthy (v : option json) : bool :=
  match v with
  | None | Some JNull => false
  | Some (JBool b) => b
  | Some (JNum n) => negb (Z.eqb n 0)
  | Some (JStr s) => truthy s
  | Some (JArr _) | Some (JObj _) => true
  end.

(** [JSON.parse] keeps the last of duplicated keys. *)
Fixpoint assoc_last (f : string) (fs : list (string * json)) : option json :=
  match fs with
  | [] => None
  | (k, v) :: fs' =>
      match assoc_last f fs' with
      | Some w => Some w
      | None => if String.eqb k f then Some v else None
      end
  end.

(** [v.f] for the field names [authorize] reads ([installed], [web],
    [client_id], ...), which no string, number, boolean or array has:
    [None] when it throws (on [null] or [undefined]). *)
Definition jget (v : option json) (f : string) : option (option json) :=
  match v with
  | None | Some JNull => None
  | Some (JObj fs) => Some (assoc_last f fs)
  | Some _ => Some None
  end.

(** [v[0]]; [None] when it throws. *)
Definition jindex0 (v : option json) : option (option json) :=
  match v with
  | None | Some JNull => None
  | Some (JArr l) => Some (head l)
  | Some (JStr (String c _)) => Some (Some (JStr (String c EmptyString)))
  | Some (JObj fs) => Some (assoc_last "0" fs)
  | Some _ => Some None
  end.

(** What [authorize] reads from its surroundings. *)
Record auth_env := AuthEnv {
  GMAIL_CREDENTIALS : option string;
  GMAIL_TOKEN : option string;
  json_parse : string -> option json;        (** [JSON.parse]; [None]: SyntaxError *)
  read_credentials : option string;          (** [fs.readFile(CREDENTIALS_PATH)] *)
  read_token : option string;                (** [fs.readFile(TOKEN_PATH)] *)
  token_expiring : json -> bool;             (** [isTokenExpiring()] with this token *)
  refresh_result : option json;              (** [refreshAccessToken()].credentials *)
  typed_code : option string;                (** the answer to [rl.question] *)
  get_token : string -> option json;         (** [getToken(code)].tokens *)
  write_ok : bool                            (** [fs.writeFile(TOKEN_PATH)] *)
}.

(** The [OAuth2] client: its configuration and current credentials. *)
Record oauth_client := OAuthClient {
  oc_client_id : option json;
  oc_client_secret : option json;
  oc_redirect_uri : option json;
  oc_credentials : option json
}.

(** Where an error is thrown inside the [try] of [authorize]. *)
Inductive auth_error :=
  | EnvParseFailed        (** line 32 *)
  | CredentialsUnreadable (** line 37 *)
  | CredentialsInvalid    (** line 38 *)
  | ClientConfigMissing   (** line 50: destructuring [undefined] *)
  | RedirectUrisMissing   (** line 51: [redirect_uris[0]] of [undefined] *)
  | RefreshFailed         (** line 72, also when storing the refreshed token fails *)
  | EnvTokenInvalid       (** line 80 *)
  | ConsentFailed.        (** line 124 *)

(** How the [try] block ends: it throws, returns the client (with the
    tokens written to [token.json]), or waits forever at the prompt. *)
Inductive auth_step :=
  | Throws (e : auth_error)
  | Returns (c : oauth_client) (writes : list json)
  | Waits.

Definition env_set (v : option string) : bool := truthy (default "" v).

(** Lines 21-48: the credentials and the token data ([null] when none). *)
Definition load_sources (e : auth_env) : auth_error + (json * json) :=
  if env_set (GMAIL_CREDENTIALS e) && env_set (GMAIL_TOKEN e) then
    match json_parse e (decodeBase64 (default "" (GMAIL_CREDENTIALS e))) with
    | None => inl EnvParseFailed
    | Some c =>
        match json_parse e (decodeBase64 (default "" (GMAIL_TOKEN e))) with
        | None => inl EnvParseFailed
        | Some t => inr (c, t)
        end
    end
  else
    match read_credentials e with
    | None => inl CredentialsUnreadable
    | Some content =>
        match json_parse e content with
        | None => inl CredentialsInvalid
        | Some c =>
            let tokenData :=
              match read_token e with
              | Some tc => default JNull (json_parse e tc)
              | None => JNull
              end in
            inr (c, tokenData)
        end
    end.

(** Lines 50-51: [credentials.installed || credentials.web], destructured,
    and the client built from it. *)
Definition make_client (credentials : json) : auth_error + oauth_client :=
  match jget (Some credentials) "installed" with
  | None => inl ClientConfigMissing
  | Some inst =>
      let conf := if jtruthy inst then inst else default None (jget (Some credentials) "web") in
      match jget conf "client_secret", jget conf "client_id", jget conf "redirect_uris" with
      | Some secret, Some id, Some uris =>
          match jindex0 uris with
          | Some r0 => inr (OAuthClient id secret r0 None)
          | None => inl RedirectUrisMissing
          end
      | _, _, _ => inl ClientConfigMissing
      end
  end.

Definition set_credentials (c : oauth_client) (t : json) : oauth_client :=
  {| oc_client_id := oc_client_id c; oc_client_secret := oc_client_secret c;
     oc_redirect_uri := oc_redirect_uri c; oc_credentials := Some t |}.

(** [getNewToken(oAuth2Client)], lines 99-128. *)
Definition getNewToken (e : auth_env) (c : oauth_client) : auth_step :=
  match typed_code e with
  | None => Waits
  | Some code =>
      match get_token e code with
      | None => Throws ConsentFailed
      | Some tokens => if write_ok e then Returns (set_credentials c tokens) [tokens] else Throws ConsentFailed
      end
  end.

(** The [try] block of [authorize], lines 20-83. *)
Definition authorize_try (e : auth_env) : auth_step :=
  match load_sources e with
  | inl err => Throws err
  | inr (credentials, tokenData) =>
      match make_client credentials with
      | inl err => Throws err
      | inr client0 =>
          if jtruthy (Some tokenData) then
            let client := set_credentials client0 tokenData in
            if token_expiring e tokenData then
              match refresh_result e with
              | None => Throws RefreshFailed
              | Some nc =>
                  if negb (env_set (GMAIL_TOKEN e)) then
                    (if write_ok e then Returns (set_credentials client nc) [nc] else Throws RefreshFailed)
                  else Returns (set_credentials client nc) []
              end
            else Returns client []
          else if env_set (GMAIL_TOKEN e) then Throws EnvTokenInvalid
          else getNewToken e client0
      end
  end.

Definition msg_env : string :=
  "Please ensure GMAIL_CREDENTIALS and GMAIL_TOKEN environment variables are set correctly (valid base64 JSON).".
Definition msg_file : string := "Please ensure credentials.json exists in the project root".

Inductive auth_outcome :=
  | Authorized (c : oauth_client) (writes : list json)
  | AuthFailed (message : string)
  | AuthWaits.

(** [authorize()]: the [catch] of lines 84-91 replaces every error. *)
Definition authorize (e : auth_env) : auth_outcome :=
  match authorize_try e with
  | Returns c w => Authorized c w
  | Throws _ => AuthFailed (if env_set (GMAIL_CREDENTIALS e) then msg_env else msg_file)
  | Waits => AuthWaits
  end.

(** ** Properties *)

Lemma getNewToken_cases e c :
  getNewToken e c = Waits <-> typed_code e = None.
Proof.
  unfold getNewToken. destruct (typed_code e); [| done].
  destruct (get_token e s); [destruct (write_ok e) |]; done.
Qed.

(** The interactive consent is the only way to wait, and it is reached
    only without [GMAIL_TOKEN]; the refresh path writes only without it. *)
Lemma authorize_try_env_token e :
  env_set (GMAIL_TOKEN e) = true ->
  authorize_try e <> Waits /\ forall c w, authorize_try e = Returns c w -> w = [].
Proof.
  intros Ht. unfold authorize_try.
  destruct (load_sources e) as [err | [credentials tokenData]]; [done |].
  destruct (make_client credentials) as [err | client0]; [done |].
  destruct (jtruthy (Some tokenData)); cbv zeta.
  - destruct (token_expiring e tokenData); [| split; [done | by intros ? ? [= _ <-]]].
    destruct (refresh_result e) as [nc |]; [| done]. rewrite Ht. cbn [negb].
    split; [done | by intros ? ? [= _ <-]].
  - by rewrite Ht.
Qed.

(** with [GMAIL_TOKEN] set (the cloud deployment), [authorize] always
    ends, without waiting at the consent prompt, and never writes
    [token.json]. *)
Theorem authorize_env_token e :
  env_set (GMAIL_TOKEN e) = true ->
  authorize e <> AuthWaits /\ forall c w, authorize e = Authorized c w -> w = [].
Proof.
  intros Ht. destruct (authorize_try_env_token e Ht) as [Hw Hr]. unfold authorize.
  split; destruct (authorize_try e) eqn:E; try done; intros ? ? [= _ <-]; eauto.
Qed.

Definition with_files (e : auth_env) (rc rt : option string) : auth_env :=
  {| GMAIL_CREDENTIALS := GMAIL_CREDENTIALS e; GMAIL_TOKEN := GMAIL_TOKEN e;
     json_parse := json_parse e; read_credentials := rc; read_token := rt;
     token_expiring := token_expiring e; refresh_result := refresh_result e;
     typed_code := typed_code e; get_token := get_token e; write_ok := write_ok e |}.

(** when both [GMAIL_CREDENTIALS] and [GMAIL_TOKEN] are set, the
    outcome of [authorize] does not depend on [credentials.json] or
    [token.json]: the files are not read. *)
Theorem authorize_env_ignores_files e rc rt :
  env_set (GMAIL_CREDENTIALS e) = true -> env_set (GMAIL_TOKEN e) = true ->
  authorize (with_files e rc rt) = authorize e.
Proof.
  intros Hc Ht. unfold authorize, authorize_try.
  replace (load_sources (with_files e rc rt)) with (load_sources e); [reflexivity |].
  unfold load_sources. cbn [with_files GMAIL_CREDENTIALS GMAIL_TOKEN json_parse]. by rewrite Hc, Ht.
Qed.

(** a returned client carries credentials, and what is written to
    [token.json], if anything, is exactly the token the client uses. *)
Theorem authorize_client_token e c w :
  authorize e = Authorized c w -> exists t, oc_credentials c = Some t /\ (w = [] \/ w = [t]).
Proof.
  unfold authorize, authorize_try. destruct (load_sources e) as [err | [credentials tokenData]]; [done |].
  destruct (make_client credentials) as [err | client0]; [done |].
  destruct (jtruthy (Some tokenData)); cbv zeta.
  - destruct (token_expiring e tokenData); [destruct (refresh_result e) as [nc |] |];
      [destruct (negb _); [destruct (write_ok e) |] | |]; try done;
      intros [= <- <-]; eexists; (split; [reflexivity | auto]).
  - destruct (env_set (GMAIL_TOKEN e)); [done |]. unfold getNewToken.
    destruct (typed_code e); [| done]. destruct (get_token e s) as [tk |]; [| done].
    destruct (write_ok e); [| done]. intros [= <- <-]. eexists; (split; [reflexivity | auto]).
Qed.

(** ** What the caller sees of an error *)

Definition no_files : auth_env :=
  AuthEnv None None (fun _ => None) None None (fun _ => false) None None (fun _ => None) true.


(** Witnesses *)

Definition cloud_env : auth_env :=
  AuthEnv (Some "e30=") (Some "e30=")
    (fun _ => Some (JObj [("web", JObj [("client_id", JStr "id"); ("client_secret", JStr "s");
                                        ("redirect_uris", JArr [JStr "https://x"])])]))
    None None (fun _ => true) (Some (JObj [("access_token", JStr "a")])) None (fun _ => None) true.

Lemma authorize_env_token_witness :
  env_set (GMAIL_TOKEN cloud_env) = true /\
  (authorize cloud_env <> AuthWaits /\ forall c w, authorize cloud_env = Authorized c w -> w = []).
Proof. split; [reflexivity | apply authorize_env_token; reflexivity]. Defined.

Lemma authorize_env_ignores_files_witness :
  authorize (with_files cloud_env (Some "{}") None) = authorize cloud_env.
Proof. apply authorize_env_ignores_files; reflexivity. Defined.

Lemma authorize_client_token_witness :
  exists c w, authorize cloud_env = Authorized c w /\
    exists t, oc_credentials c = Some t /\ (w = [] \/ w = [t]).
Proof.
  do 2 eexists. split; [vm_compute; reflexivity |].
  apply (authorize_client_token cloud_env). vm_compute. reflexivity.
Defined.
