(* ===== verification/Server.v ===== *)
(** * HTTP side and start-up of [src/server.js]

    [server.js] is the polling driver of [Polling.v] plus an Express
    application with two health routes.  Its top level does three things
    in order: it starts a run ([processEmails()]), arms the ten-minute
    timer and makes the application listen on [PORT].  A request is
    answered by the first registered route whose method and path match;
    the handlers read only the clock and the process uptime, never the
    account or the runs. *)

From Stdlib Require Import Ascii String ZArith.
From stdpp Require Import base list strings relations.
From S2P Require Import Prelude Gmail Pipeline Polling Auth.

Open Scope string_scope.

(** [const PORT = process.env.PORT || 3000]: the variable's text when it
    is set and not empty, the number otherwise. *)
Inductive port := PortEnv (s : string) | PortNum (n : Z).

Definition PORT (env_port : option string) : port :=
  match env_port with
  | Some s => if truthy s then PortEnv s else PortNum 3000
  | None => PortNum 3000
  end.

Definition INTERVAL_MINUTES : Z := 10.

(** The delay passed to [setInterval], in milliseconds. *)
Definition interval_ms : Z := (INTERVAL_MINUTES * 60 * 1000)%Z.

(** What the handlers read: [new Date().toISOString()] and
    [process.uptime()]. *)
Record server_env := ServerEnv { iso_now : string; uptime_secs : json }.

Inductive http_method := GET | HEAD | POST | OtherMethod (name : string).

Inductive http_body := JsonBody (v : json) | TextBody (s : string).

Record http_response := Response { res_status : Z; res_body : http_body }.

(** [app.get('/', ...)]: [res.json] answers [200] with the object. *)
Definition health_root (e : server_env) : http_response :=
  Response 200 (JsonBody (JObj [("status", JStr "ok");
                                ("service", JStr "Candidate Support Automation");
                                ("timestamp", JStr (iso_now e));
                                ("uptime", uptime_secs e)])).

(** [app.get('/health', ...)]: [res.status(200).send('OK')]. *)
Definition health_alt (e : server_env) : http_response := Response 200 (TextBody "OK").

(** The routes in registration order. *)
Definition routes : list (string * (server_env -> http_response)) :=
  [("/", health_root); ("/health", health_alt)].

(** Express 4 path matching with the application's defaults: the query
    string is not part of the path, letters compare without case
    ([caseSensitive] off) and one trailing slash is optional ([strict]
    off). *)
Definition req_path (url : string) : string := split_first "?" url.

Definition strip_slash (p : string) : string :=
  if String.eqb (substring (String.length p - 1) 1 p) "/"
  then substring 0 (String.length p - 1) p else p.

Definition route_matches (route url : string) : bool :=
  String.eqb (strip_slash (to_lower (req_path url))) (strip_slash route).

(** The application: [app.get] routes answer [GET] and [HEAD]; [None]
    when no route matches and the request falls through to Express's
    final handler (a [404]). *)
Definition app_handle (e : server_env) (meth : http_method) (url : string) : option http_response :=
  match meth with
  | GET | HEAD =>
      match List.find (fun r => route_matches r.1 url) routes with
      | Some (_, h) => Some (h e)
      | None => None
      end
  | _ => None
  end.

(** The top level, in order. *)
Inductive startup_action := RunNow | RepeatEvery (ms : Z) | Listen (p : port).

Definition server_startup (env_port : option string) : list startup_action :=
  [RunNow; RepeatEvery interval_ms; Listen (PORT env_port)].

(** The process once the top level has run: the first run in flight, the
    timer armed, the application listening; and what it has answered. *)
Record server_state := ServerState {
  srv_proc : conc_state;
  srv_port : port;
  srv_answers : list (http_method * string * option http_response)
}.

Definition server_boot (env_port : option string) (mb : mailbox) : server_state :=
  ServerState (Conc mb [RunStart]) (PORT env_port) [].

(** After start-up the process makes a step of the polling driver (a
    timer tick, a step of a run, mail arriving) or answers a request. *)
Inductive server_step (cfg : config) : server_state -> server_state -> Prop :=
  | SrvPoll s p' :
      conc_step cfg (srv_proc s) p' ->
      server_step cfg s (ServerState p' (srv_port s) (srv_answers s))
  | SrvRequest s (e : server_env) meth url :
      server_step cfg s (ServerState (srv_proc s) (srv_port s)
                           (app (srv_answers s) [(meth, url, app_handle e meth url)])).

(** ** Properties *)

(** Requests are stuttering steps of the polling driver. *)
Lemma server_rtc_proc cfg s s' :
  rtc (server_step cfg) s s' -> rtc (conc_step cfg) (srv_proc s) (srv_proc s').
Proof.
  induction 1 as [| s1 s2 s3 [s0 p' Hp | s0 e meth url] _ IH]; [apply rtc_refl | |]; cbn [srv_proc] in IH.
  - eapply rtc_l; [exact Hp | exact IH].
  - exact IH.
Qed.

(** The start-up is a timer tick of the polling driver. *)
Lemma server_boot_proc cfg p mb : rtc (conc_step cfg) (Conc mb []) (srv_proc (server_boot p mb)).
Proof. apply rtc_once, (CFire cfg (Conc mb [])). Qed.

(** A path that matches [/health] does not match [/]: the first route
    never shadows the second. *)
Lemma health_route_answer e meth url :
  (meth = GET \/ meth = HEAD) -> route_matches "/health" url = true ->
  app_handle e meth url = Some (health_alt e).
Proof.
  unfold route_matches. intros Hm Hh.
  apply String.eqb_eq in Hh.
  assert (Hr : route_matches "/" url = false).
  { unfold route_matches. rewrite Hh. reflexivity. }
  destruct Hm as [-> | ->]; cbn [app_handle routes List.find fst];
    rewrite Hr; unfold route_matches; rewrite Hh; reflexivity.
Qed.

Lemma server_step_answers cfg s s' :
  server_step cfg s s' ->
  exists new, srv_answers s' = app (srv_answers s) new /\
    Forall (fun a => exists e, a.2 = app_handle e a.1.1 a.1.2) new.
Proof.
  intros [s0 p' _ | s0 e meth url]; cbn [srv_answers].
  - exists []. by rewrite app_nil_r.
  - eexists. split; [reflexivity |]. repeat constructor. by exists e.
Qed.

(** What every answer to a [GET] on a health route is. *)
Definition health_answer (a : http_method * string * option http_response) : Prop :=
  a.1.1 = GET ->
  (route_matches "/health" a.1.2 = true -> a.2 = Some (Response 200 (TextBody "OK"))) /\
  (route_matches "/" a.1.2 = true -> exists e, a.2 = Some (health_root e)).

Lemma health_answer_handle e url : health_answer (GET, url, app_handle e GET url).
Proof.
  intros _. cbn [fst snd]. split; [intros Hh; by rewrite (health_route_answer e GET url (or_introl eq_refl) Hh) |].
  intros Hr. exists e. cbn [app_handle routes List.find fst]. by rewrite Hr.
Qed.

Lemma server_rtc_answers cfg s s' :
  rtc (server_step cfg) s s' -> Forall health_answer (srv_answers s) -> Forall health_answer (srv_answers s').
Proof.
  induction 1 as [| s1 s2 s3 Hs _ IH]; [done |]. intros H1. apply IH.
  destruct (server_step_answers _ _ _ Hs) as (new & -> & Hn). apply Forall_app. split; [done |].
  eapply Forall_impl; [exact Hn |]. intros [[meth url] r] [e He]. cbn in He. subst r.
  destruct meth; [apply health_answer_handle | ..]; unfold health_answer; cbn; intros Hg; discriminate Hg.
Qed.

(** C22: the server, from its start-up, whatever the runs do (any faults,
    any interleaving of overlapping runs, any mail) and whatever requests
    arrive: every reply it has sent is addressed to the candidate of a
    message of the account, and every [GET] on [/health] (in any letter
    case, with a trailing slash or a query) has been answered [200 OK],
    every [GET] on [/] with status [ok]: the health routes report the
    process as up even when every run fails. *)
Theorem server_reachable_safe cfg p mb s :
  Forall (addressed mb) (mb_sent mb) -> rtc (server_step cfg) (server_boot p mb) s ->
  Forall (addressed (c_mb (srv_proc s))) (mb_sent (c_mb (srv_proc s))) /\
  Forall health_answer (srv_answers s).
Proof.
  intros H0 Hr. split.
  - enough (Hi : conc_inv (srv_proc s)) by apply Hi.
    apply (conc_rtc_inv cfg (Conc mb [])); [| split; [exact H0 | constructor]].
    eapply rtc_trans; [apply (server_boot_proc cfg p) | exact (server_rtc_proc _ _ _ Hr)].
  - eapply server_rtc_answers; [exact Hr | constructor].
Qed.

(** The account never authorizes: every run fails at its start. *)
Definition no_auth_cfg : config := Config (cfg_env demo_cfg) (cfg_assets demo_cfg) AuthThrows (cfg_clock demo_cfg).

Definition probe_env : server_env := ServerEnv "2026-01-01T00:00:00.000Z" (JNum 5).

Lemma server_reachable_safe_witness :
  let s := ServerState (Conc demo_mailbox [RunDone]) (PortNum 3000)
             [(GET, "/HEALTH/?probe=1", Some (Response 200 (TextBody "OK")))] in
  Forall (addressed (c_mb (srv_proc s))) (mb_sent (c_mb (srv_proc s))) /\ Forall health_answer (srv_answers s).
Proof.
  intros s. apply (server_reachable_safe no_auth_cfg None demo_mailbox s).
  - constructor.
  - eapply rtc_l.
    + apply (SrvPoll no_auth_cfg (server_boot None demo_mailbox) (Conc demo_mailbox [RunDone])).
      apply (CAdvance no_auth_cfg no_faults yes_service (Conc demo_mailbox [RunStart]) 0 RunStart);
        reflexivity.
    + eapply rtc_l; [apply (SrvRequest no_auth_cfg _ probe_env GET "/HEALTH/?probe=1") |].
      vm_compute. apply rtc_refl.
Defined.
