(* ===== verification/Json.v ===== *)
(** * The token file of [src/gmailAuth.js]

    [storeToken(token)] writes [JSON.stringify(token, null, 2)] to
    [TOKEN_PATH]; the next [authorize()] without the environment
    variables reads that file back with [fs.readFile(TOKEN_PATH, 'utf8')]
    and [JSON.parse].  This file holds the two JSON built-ins on the
    values of [Auth.json] (numbers are integers there): the serializer
    with a gap of two spaces (ECMA-262 [SerializeJSONProperty],
    [QuoteJSONString], [SerializeJSONArray] and [SerializeJSONObject]) and
    a recursive-descent parser of the JSON grammar, run with enough fuel
    for any input.  Its theorems are the round trip of the token through
    the file and what the next start-up does with it. *)

From Stdlib Require Import Ascii String ZArith Decimal DecimalString DecimalZ DecimalPos.
From stdpp Require Import base list strings.
From Stdlib Require Import Lia.
From S2P Require Import Prelude Base64 Extractor Auth.

Open Scope string_scope.

(** ** [JSON.stringify(value, null, 2)] *)

Definition hex_digit (n : nat) : ascii :=
  ascii_of_nat (if Nat.ltb n 10 then 48 + n else 87 + n).

(** [\] followed by one character. *)
Definition bs_escape (c : ascii) : string := String "092" (String c EmptyString).

(** One code unit of [QuoteJSONString]: the seven short escapes, the
    other control characters as [\u00XX] in lowercase hexadecimal, every
    other character as itself. *)
Definition esc_char (c : ascii) : string :=
  let n := nat_of_ascii c in
  if Nat.eqb n 8 then bs_escape "b"
  else if Nat.eqb n 9 then bs_escape "t"
  else if Nat.eqb n 10 then bs_escape "n"
  else if Nat.eqb n 12 then bs_escape "f"
  else if Nat.eqb n 13 then bs_escape "r"
  else if Nat.eqb n 34 then bs_escape "034"
  else if Nat.eqb n 92 then bs_escape "092"
  else if Nat.ltb n 32 then
    String "092" (String "u" (String "0" (String "0"
      (String (hex_digit (n / 16)) (String (hex_digit (n mod 16)) EmptyString)))))
  else String c EmptyString.

Fixpoint escape_json (s : string) : string :=
  match s with
  | EmptyString => EmptyString
  | String c s' => esc_char c ++ escape_json s'
  end.

Definition quote_json (s : string) : string := String "034" (escape_json s ++ String "034" EmptyString).

(** [Number::toString] of an integer. *)
Definition num_text (n : Z) : string := NilEmpty.string_of_int (Z.to_int n).

(** [SerializeJSONProperty] with the current indentation [ind] and the
    gap of two spaces. *)
Fixpoint stringify_at (ind : string) (v : json) : string :=
  match v with
  | JNull => "null"
  | JBool true => "true"
  | JBool false => "false"
  | JNum n => num_text n
  | JStr s => quote_json s
  | JArr [] => "[]"
  | JArr l =>
      let ind' := ind ++ "  " in
      "[" ++ nl ++ ind' ++ join ("," ++ nl ++ ind') (map (stringify_at ind') l) ++ nl ++ ind ++ "]"
  | JObj [] => "{}"
  | JObj fs =>
      let ind' := ind ++ "  " in
      "{" ++ nl ++ ind' ++
        join ("," ++ nl ++ ind') (map (fun kv => quote_json kv.1 ++ ": " ++ stringify_at ind' kv.2) fs) ++
        nl ++ ind ++ "}"
  end.

Definition JSON_stringify_2 (v : json) : string := stringify_at "" v.

(** ** [JSON.parse] *)

Definition is_ws (c : ascii) : bool :=
  let n := nat_of_ascii c in (Nat.eqb n 32) || (Nat.eqb n 9) || (Nat.eqb n 10) || (Nat.eqb n 13).

Fixpoint skip_ws (s : string) : string :=
  match s with
  | String c s' => if is_ws c then skip_ws s' else s
  | EmptyString => EmptyString
  end.

Definition hex_val (c : ascii) : option nat :=
  let n := nat_of_ascii c in
  if (Nat.leb 48 n) && (Nat.leb n 57) then Some (n - 48)
  else if (Nat.leb 97 n) && (Nat.leb n 102) then Some (n - 87)
  else if (Nat.leb 65 n) && (Nat.leb n 70) then Some (n - 55)
  else None.

Definition hex4 (a b c d : ascii) : option nat :=
  match hex_val a, hex_val b, hex_val c, hex_val d with
  | Some x, Some y, Some z, Some w => Some (((x * 16 + y) * 16 + z) * 16 + w)
  | _, _, _, _ => None
  end.

(** The short escapes after [\]. *)
Definition unescape (e : ascii) : option ascii :=
  let k := nat_of_ascii e in
  if (Nat.eqb k 34) || (Nat.eqb k 92) || (Nat.eqb k 47) then Some e
  else if Nat.eqb k 98 then Some "008"%char
  else if Nat.eqb k 102 then Some "012"%char
  else if Nat.eqb k 110 then Some "010"%char
  else if Nat.eqb k 114 then Some "013"%char
  else if Nat.eqb k 116 then Some "009"%char
  else None.

(** The characters of a string literal after its opening quote, up to
    and without the closing one.  A [\u] escape above [0xFF] has no
    character in this model and is refused. *)
Fixpoint p_string (s : string) : option (string * string) :=
  match s with
  | EmptyString => None
  | String c r =>
      let n := nat_of_ascii c in
      if Nat.eqb n 34 then Some (EmptyString, r)
      else if Nat.eqb n 92 then
        match r with
        | String e r' =>
            if Nat.eqb (nat_of_ascii e) 117 then
              match r' with
              | String h1 (String h2 (String h3 (String h4 r''))) =>
                  match hex4 h1 h2 h3 h4 with
                  | Some v =>
                      if Nat.ltb v 256 then
                        match p_string r'' with
                        | Some (t, rest) => Some (String (ascii_of_nat v) t, rest)
                        | None => None
                        end
                      else None
                  | None => None
                  end
              | _ => None
              end
            else
              match unescape e with
              | Some ch =>
                  match p_string r' with
                  | Some (t, rest) => Some (String ch t, rest)
                  | None => None
                  end
              | None => None
              end
        | EmptyString => None
        end
      else if Nat.ltb n 32 then None
      else
        match p_string r with
        | Some (t, rest) => Some (String c t, rest)
        | None => None
        end
  end.

Definition is_digit (c : ascii) : bool := (Nat.leb 48 (nat_of_ascii c)) && (Nat.leb (nat_of_ascii c) 57).

Fixpoint take_digits (s : string) : string * string :=
  match s with
  | String c r =>
      if is_digit c then let '(d, rest) := take_digits r in (String c d, rest) else (EmptyString, s)
  | EmptyString => (EmptyString, EmptyString)
  end.

(** A fraction or an exponent follows: a number this model has no value for. *)
Definition frac_or_exp (s : string) : bool :=
  match s with
  | String c _ => (Nat.eqb (nat_of_ascii c) 46) || (Nat.eqb (nat_of_ascii c) 101) || (Nat.eqb (nat_of_ascii c) 69)
  | EmptyString => false
  end.

(** An optional minus, then [0] or a non-zero digit and more digits; a
    leading zero before more digits is a syntax error. *)
Definition p_number (s : string) : option (json * string) :=
  let '(neg, s1) := match s with String "-" r => (true, r) | _ => (false, s) end in
  let '(ds, rest) := take_digits s1 in
  match ds with
  | EmptyString => None
  | String "0" (String _ _) => None
  | _ =>
      match NilEmpty.uint_of_string ds with
      | Some u =>
          if frac_or_exp rest then None
          else Some (JNum (Z.of_int (if neg then Neg u else Pos u)), rest)
      | None => None
      end
  end.

(** One unfolding of the parser of values, of the elements of an array
    and of the members of an object, the nested parsers as parameters. *)
Definition p_dispatch (pi : string -> option (list json * string))
    (pm : string -> option (list (string * json) * string)) (s : string) : option (json * string) :=
  match s with
  | String "n" (String "u" (String "l" (String "l" r))) => Some (JNull, r)
  | String "t" (String "r" (String "u" (String "e" r))) => Some (JBool true, r)
  | String "f" (String "a" (String "l" (String "s" (String "e" r)))) => Some (JBool false, r)
  | String "034" r =>
      match p_string r with
      | Some (t, r') => Some (JStr t, r')
      | None => None
      end
  | String "[" r =>
      match skip_ws r with
      | String "]" r' => Some (JArr [], r')
      | _ => match pi r with Some (l, r') => Some (JArr l, r') | None => None end
      end
  | String "{" r =>
      match skip_ws r with
      | String "}" r' => Some (JObj [], r')
      | _ => match pm r with Some (fs, r') => Some (JObj fs, r') | None => None end
      end
  | s' => p_number s'
  end.

Definition items_step (pv : string -> option (json * string)) (pi : string -> option (list json * string))
    (s : string) : option (list json * string) :=
  match pv s with
  | Some (v, r) =>
      match skip_ws r with
      | String "," r' => match pi r' with Some (vs, r'') => Some (v :: vs, r'') | None => None end
      | String "]" r' => Some ([v], r')
      | _ => None
      end
  | None => None
  end.

Definition members_step (pv : string -> option (json * string))
    (pm : string -> option (list (string * json) * string)) (s : string) :
    option (list (string * json) * string) :=
  match skip_ws s with
  | String "034" r =>
      match p_string r with
      | Some (k, r1) =>
          match skip_ws r1 with
          | String ":" r2 =>
              match pv r2 with
              | Some (v, r3) =>
                  match skip_ws r3 with
                  | String "," r4 => match pm r4 with Some (fs, r5) => Some ((k, v) :: fs, r5) | None => None end
                  | String "}" r4 => Some ([(k, v)], r4)
                  | _ => None
                  end
              | None => None
              end
          | _ => None
          end
      | None => None
      end
  | _ => None
  end.

Fixpoint p_value (fuel : nat) (s : string) : option (json * string) :=
  match fuel with
  | O => None
  | S f => p_dispatch (p_items f) (p_members f) (skip_ws s)
  end
with p_items (fuel : nat) (s : string) : option (list json * string) :=
  match fuel with
  | O => None
  | S f => items_step (p_value f) (p_items f) s
  end
with p_members (fuel : nat) (s : string) : option (list (string * json) * string) :=
  match fuel with
  | O => None
  | S f => members_step (p_value f) (p_members f) s
  end.

(** [JSON.parse(text)]: a value and nothing but white space after it.
    Every nested call consumes a character or follows one that did, so
    twice the length plus one is fuel enough for any text. *)
Definition JSON_parse (s : string) : option json :=
  match p_value (2 * String.length s + 1) s with
  | Some (v, r) => if String.eqb (skip_ws r) EmptyString then Some v else None
  | None => None
  end.

(** ** Strings *)

(** Each character comes back from its escape: a check of the 256
    characters, one by one. *)
Lemma p_string_esc_char c r :
  p_string (esc_char c ++ r) =
  match p_string r with Some (t, rest) => Some (String c t, rest) | None => None end.
Proof. destruct c as [[] [] [] [] [] [] [] []]; reflexivity. Qed.

Lemma p_string_escape s rest : p_string (escape_json s ++ String "034" rest) = Some (s, rest).
Proof.
  induction s as [| c s IH]; [reflexivity |].
  cbn [escape_json]. rewrite <- string_app_assoc, p_string_esc_char, IH. reflexivity.
Qed.

(** ** Numbers *)

(** Where a number ends: no digit, no fraction and no exponent follows. *)
Definition num_stop (rest : string) : bool :=
  match rest with
  | String c _ => negb (is_digit c) && negb (frac_or_exp rest)
  | EmptyString => true
  end.

Lemma take_digits_stop rest : num_stop rest = true -> take_digits rest = (EmptyString, rest).
Proof. destruct rest as [| c r]; [done |]. cbn. by destruct (is_digit c). Qed.

Lemma take_digits_uint d rest :
  num_stop rest = true -> take_digits (NilEmpty.string_of_uint d ++ rest) = (NilEmpty.string_of_uint d, rest).
Proof.
  intros Hs. induction d; cbn [NilEmpty.string_of_uint String.append take_digits];
    [by apply take_digits_stop | ..]; cbn; by rewrite IHd.
Qed.

Lemma nzhead_not_D0 d x : nzhead d <> D0 x.
Proof. induction d; cbn; congruence. Qed.

(** The decimal digits of a positive number do not start with a zero. *)
Lemma pos_to_uint_not_D0 p x : Pos.to_uint p <> D0 x.
Proof.
  pose proof (DecimalN.Unsigned.to_of (Pos.to_uint p)) as H.
  unfold N.of_uint in H. rewrite DecimalPos.Unsigned.of_to in H. cbn [N.to_uint] in H.
  intros E. rewrite E in H. unfold unorm in H. cbn [nzhead] in H.
  destruct (nzhead x) eqn:Hz; try discriminate H.
  - injection H as ->. by apply (DecimalPos.Unsigned.to_uint_nonzero p).
  - by apply nzhead_not_D0 in Hz.
Qed.

Lemma num_stop_frac rest : num_stop rest = true -> frac_or_exp rest = false.
Proof. destruct rest as [| c r]; [done |]. unfold num_stop. by destruct (is_digit c), (frac_or_exp (String c r)). Qed.

Lemma take_digits_cons_uint c d rest :
  is_digit c = true -> num_stop rest = true ->
  take_digits (String c (NilEmpty.string_of_uint d ++ rest)) = (String c (NilEmpty.string_of_uint d), rest).
Proof. intros Hc Hs. cbn [take_digits]. rewrite Hc, take_digits_uint by done. reflexivity. Qed.

Lemma take_digits_cons_stop c rest :
  is_digit c = true -> num_stop rest = true -> take_digits (String c rest) = (String c EmptyString, rest).
Proof. intros Hc Hs. cbn [take_digits]. rewrite Hc, take_digits_stop by done. reflexivity. Qed.

Lemma p_number_digits (neg : bool) d rest :
  d <> Nil -> (forall x, d = D0 x -> x = Nil) -> num_stop rest = true ->
  p_number ((if neg then "-" else "") ++ NilEmpty.string_of_uint d ++ rest) =
  Some (JNum (Z.of_int (if neg then Neg d else Pos d)), rest).
Proof.
  intros Hn Hz Hs. pose proof (num_stop_frac _ Hs) as Hf.
  destruct d as [| d | d | d | d | d | d | d | d | d | d]; [done | ..];
    [specialize (Hz d eq_refl); subst d | ..];
    destruct neg; unfold p_number; cbn [String.append NilEmpty.string_of_uint];
    rewrite ?take_digits_cons_uint, ?take_digits_cons_stop by (reflexivity || done);
    cbn [NilEmpty.uint_of_string]; rewrite ?NilEmpty.usu; cbn; rewrite Hf; reflexivity.
Qed.

(** [JSON.parse] reads back the text of every integer. *)
Lemma p_number_num_text n rest : num_stop rest = true -> p_number (num_text n ++ rest) = Some (JNum n, rest).
Proof.
  intros Hs. unfold num_text. rewrite <- (DecimalZ.of_to n) at 2.
  destruct n as [| p | p]; cbn [Z.to_int NilEmpty.string_of_int].
  - apply (p_number_digits false); [done | by intros x [= <-] | done].
  - apply (p_number_digits false); [apply DecimalPos.Unsigned.to_uint_nonnil | | done].
    intros x E. by apply pos_to_uint_not_D0 in E.
  - apply (p_number_digits true); [apply DecimalPos.Unsigned.to_uint_nonnil | | done].
    intros x E. by apply pos_to_uint_not_D0 in E.
Qed.

(** ** Values *)

(** The fuel a value needs: one per value and per element or member. *)
Fixpoint jsize (v : json) : nat :=
  match v with
  | JArr l => 1 + sum_list_with (fun x => 1 + jsize x) l
  | JObj fs => 1 + sum_list_with (fun kv => 1 + jsize kv.2) fs
  | _ => 1
  end.

Section JsonInd.
Variable P : json -> Prop.
Hypothesis HNull : P JNull.
Hypothesis HBool : forall b, P (JBool b).
Hypothesis HNum : forall n, P (JNum n).
Hypothesis HStr : forall s, P (JStr s).
Hypothesis HArr : forall l, Forall P l -> P (JArr l).
Hypothesis HObj : forall fs, Forall (fun kv => P kv.2) fs -> P (JObj fs).

(** Induction on values with the hypothesis on every element and member. *)
Fixpoint json_ind' (v : json) : P v :=
  match v with
  | JNull => HNull
  | JBool b => HBool b
  | JNum n => HNum n
  | JStr s => HStr s
  | JArr l =>
      HArr l ((fix go (l : list json) : Forall P l :=
                 match l with
                 | [] => List.Forall_nil P
                 | x :: l' => @List.Forall_cons _ P x l' (json_ind' x) (go l')
                 end) l)
  | JObj fs =>
      HObj fs ((fix go (fs : list (string * json)) : Forall (fun kv => P kv.2) fs :=
                  match fs with
                  | [] => List.Forall_nil _
                  | kv :: fs' => @List.Forall_cons _ (fun kv => P kv.2) kv fs' (json_ind' kv.2) (go fs')
                  end) fs)
  end.
End JsonInd.

Lemma skip_ws_app w s : all_chars is_ws w = true -> skip_ws (w ++ s) = skip_ws s.
Proof.
  induction w as [| c w IH]; [done |]. cbn [all_chars String.append skip_ws].
  intros [-> Hw]%andb_prop. by apply IH.
Qed.

Lemma skip_ws_start c s : is_ws c = false -> skip_ws (String c s) = String c s.
Proof. intros H. cbn [skip_ws]. by rewrite H. Qed.

Lemma p_value_ws fuel w s : all_chars is_ws w = true -> p_value fuel (w ++ s) = p_value fuel s.
Proof. intros H. destruct fuel; [done |]. cbn [p_value]. by rewrite skip_ws_app. Qed.

Lemma all_ws_nl s : all_chars is_ws s = true -> all_chars is_ws (nl ++ s) = true.
Proof. done. Qed.

Lemma all_ws_indent ind : all_chars is_ws ind = true -> all_chars is_ws (ind ++ "  ") = true.
Proof. intros H. by rewrite all_chars_app, H. Qed.

(** Every serialized value starts with a character that is not white
    space and closes nothing. *)
Lemma stringify_head ind v :
  exists c t, stringify_at ind v = String c t /\ is_ws c = false /\
    c <> "]"%char /\ c <> "}"%char /\ c <> ","%char.
Proof.
  destruct v as [| [] | [| p | p] | s | [| x l] | [| kv fs]];
    try (eexists _, _; split; [reflexivity | split; [reflexivity | repeat split; discriminate]]).
  - cbn [stringify_at num_text Z.to_int NilEmpty.string_of_int].
    pose proof (DecimalPos.Unsigned.to_uint_nonnil p) as Hn.
    destruct (Pos.to_uint p); [done | ..].
    all: eexists _, _; split; [reflexivity | split; [reflexivity | repeat split; discriminate]].
Qed.

(** What the parser does with the text of a value, whatever follows it. *)
Definition reads_back (v : json) : Prop :=
  forall ind fuel rest, all_chars is_ws ind = true -> jsize v <= fuel -> num_stop rest = true ->
  p_value fuel (stringify_at ind v ++ rest) = Some (v, rest).

Lemma p_items_ok ind' C rest l fuel :
  Forall reads_back l -> l <> [] -> all_chars is_ws ind' = true ->
  sum_list_with (fun x => 1 + jsize x) l <= fuel ->
  skip_ws C = String "]" rest -> num_stop C = true ->
  p_items fuel (nl ++ ind' ++ join ("," ++ nl ++ ind') (map (stringify_at ind') l) ++ C) = Some (l, rest).
Proof.
  revert fuel. induction l as [| x l IH]; [done |]. intros fuel Hf _ Hi Hs HC HCs.
  inversion Hf as [| ? ? Hx Hl]; subst. destruct fuel as [| g]; [simpl in Hs; lia |]. cbn [p_items]. unfold items_step.
  rewrite (p_value_ws _ nl), (p_value_ws _ ind') by done.
  destruct l as [| y l']; cbn [map join].
  - rewrite Hx by (done || (simpl in Hs; lia)). by rewrite HC.
  - rewrite <- !string_app_assoc. cbn [String.append].
    rewrite Hx by (done || (simpl in Hs; lia)). rewrite skip_ws_start by done.
    simpl in Hs. rewrite IH by (done || (simpl; lia)). reflexivity.
Qed.

Lemma quote_json_app k s : quote_json k ++ s = String "034" (escape_json k ++ String "034" s).
Proof. unfold quote_json. cbn [String.append]. by rewrite <- string_app_assoc. Qed.

Lemma p_members_ws fuel w s : all_chars is_ws w = true -> p_members fuel (w ++ s) = p_members fuel s.
Proof. intros H. destruct fuel; [done |]. cbn [p_members]. unfold members_step. by rewrite skip_ws_app. Qed.

Lemma string_cons_app c x y : String c x ++ y = String c (x ++ y).
Proof. reflexivity. Qed.

Lemma join_map_cons2 {A} sep (f : A -> string) x y l :
  join sep (map f (x :: y :: l)) = f x ++ sep ++ join sep (map f (y :: l)).
Proof. reflexivity. Qed.

(** One member: its key, the colon and its value are read back. *)
Lemma p_member_step ind' g k v Z :
  reads_back v -> all_chars is_ws ind' = true -> jsize v <= g -> num_stop Z = true ->
  p_members (S g) (quote_json k ++ ": " ++ stringify_at ind' v ++ Z) =
  match skip_ws Z with
  | String "," r4 =>
      match p_members g r4 with
      | Some (fs, r5) => Some ((k, v) :: fs, r5)
      | None => None
      end
  | String "}" r4 => Some ([(k, v)], r4)
  | _ => None
  end.
Proof.
  intros Hv Hi Hs HZ. cbn [p_members]. unfold members_step. rewrite quote_json_app, skip_ws_start by reflexivity.
  rewrite p_string_escape. cbn [String.append]. rewrite skip_ws_start by reflexivity.
  change (String " " (stringify_at ind' v ++ Z)) with (" " ++ stringify_at ind' v ++ Z).
  rewrite (p_value_ws _ " "), Hv by done. reflexivity.
Qed.

Lemma p_members_ok ind' C rest fs fuel :
  Forall (fun kv => reads_back kv.2) fs -> fs <> [] -> all_chars is_ws ind' = true ->
  sum_list_with (fun kv => 1 + jsize kv.2) fs <= fuel ->
  skip_ws C = String "}" rest -> num_stop C = true ->
  p_members fuel (nl ++ ind' ++
    join (String "," (nl ++ ind')) (map (fun kv => quote_json kv.1 ++ ": " ++ stringify_at ind' kv.2) fs) ++ C) =
  Some (fs, rest).
Proof.
  revert fuel. induction fs as [| [k v] fs IH]; [done |]. intros fuel Hf _ Hi Hs HC HCs.
  inversion Hf as [| ? ? Hx Hl]; subst. cbn [snd] in Hx.
  destruct fuel as [| g]; [simpl in Hs; lia |]. simpl in Hs.
  rewrite (p_members_ws _ nl), (p_members_ws _ ind') by done.
  destruct fs as [| kv' fs'].
  - cbn [map join fst snd]. rewrite <- !string_app_assoc, (p_member_step ind') by (done || lia).
    by rewrite HC.
  - rewrite join_map_cons2. cbn [fst snd]. rewrite <- !string_app_assoc, (p_member_step ind') by (done || lia).
    rewrite string_cons_app, skip_ws_start by done. rewrite IH by (done || (simpl in *; lia)). reflexivity.
Qed.

(** How [p_value] dispatches on the first character, for the cases the
    serializer produces. *)
Definition first_char (s : string) : option ascii :=
  match s with String c _ => Some c | EmptyString => None end.

Lemma p_value_open_arr g r :
  first_char (skip_ws r) <> Some "]"%char ->
  p_value (S g) (String "[" r) = match p_items g r with Some (l, r') => Some (JArr l, r') | None => None end.
Proof.
  intros H. cbn [p_value]. rewrite skip_ws_start by reflexivity. cbn [p_dispatch].
  destruct (skip_ws r) as [| c r']; [reflexivity |].
  destruct c as [[] [] [] [] [] [] [] []]; try reflexivity. by destruct H.
Qed.

Lemma p_value_open_obj g r :
  first_char (skip_ws r) <> Some "}"%char ->
  p_value (S g) (String "{" r) = match p_members g r with Some (fs, r') => Some (JObj fs, r') | None => None end.
Proof.
  intros H. cbn [p_value]. rewrite skip_ws_start by reflexivity. cbn [p_dispatch].
  destruct (skip_ws r) as [| c r']; [reflexivity |].
  destruct c as [[] [] [] [] [] [] [] []]; try reflexivity. by destruct H.
Qed.

Lemma p_value_number g c t :
  (is_digit c || Ascii.eqb c "-") = true -> p_value (S g) (String c t) = p_number (String c t).
Proof. intros H. destruct c as [[] [] [] [] [] [] [] []]; try discriminate H; reflexivity. Qed.

Lemma num_text_head n : exists c t, num_text n = String c t /\ (is_digit c || Ascii.eqb c "-") = true.
Proof.
  destruct n as [| p | p]; [by eexists _, _ |..]; cbn [num_text Z.to_int NilEmpty.string_of_int];
    [| by eexists _, _].
  pose proof (DecimalPos.Unsigned.to_uint_nonnil p) as Hn.
  destruct (Pos.to_uint p); [done | ..]; by eexists _, _.
Qed.

Lemma join_map_head {A} sep (f : A -> string) x l : exists t, join sep (map f (x :: l)) = f x ++ t.
Proof.
  destruct l as [| y l]; [exists EmptyString; by rewrite string_app_nil_r |].
  eexists. apply join_map_cons2.
Qed.

Lemma first_char_stringify ind v l rest :
  first_char (skip_ws (join ("," ++ nl ++ ind) (map (stringify_at ind) (v :: l)) ++ rest)) <> Some "]"%char.
Proof.
  destruct (join_map_head ("," ++ nl ++ ind) (stringify_at ind) v l) as [t ->].
  destruct (stringify_head ind v) as (c & t' & -> & Hw & Hc & _). cbn [String.append].
  rewrite skip_ws_start by done. cbn. congruence.
Qed.

Lemma first_char_members ind kv fs rest :
  first_char (skip_ws (join ("," ++ nl ++ ind)
    (map (fun kv => quote_json kv.1 ++ ": " ++ stringify_at ind kv.2) (kv :: fs)) ++ rest)) <> Some "}"%char.
Proof.
  destruct (join_map_head ("," ++ nl ++ ind) (fun kv => quote_json kv.1 ++ ": " ++ stringify_at ind kv.2) kv fs)
    as [t ->].
  rewrite <- !string_app_assoc, quote_json_app, skip_ws_start by reflexivity. cbn. congruence.
Qed.

(** The closing line of a non-empty array or object. *)
Lemma skip_ws_close ind c rest :
  all_chars is_ws ind = true -> is_ws c = false ->
  skip_ws (nl ++ ind ++ String c rest) = String c rest.
Proof. intros Hi Hc. rewrite (skip_ws_app nl), (skip_ws_app ind), skip_ws_start by done. reflexivity. Qed.

Lemma num_stop_nl s : num_stop (nl ++ s) = true.
Proof. reflexivity. Qed.

(** Every value is read back from its serialization, at any indentation
    and whatever follows where a number could not continue. *)
Lemma p_value_stringify v : reads_back v.
Proof.
  induction v as [| b | n | s | l IH | fs IH] using json_ind'; intros ind [| g] rest Hi Hs Hr;
    try (cbn [jsize] in Hs; lia).
  - cbn [stringify_at String.append p_value]. rewrite skip_ws_start by reflexivity. reflexivity.
  - destruct b; cbn [stringify_at String.append p_value]; rewrite skip_ws_start by reflexivity; reflexivity.
  - destruct (num_text_head n) as (c & t & Ht & Hc). cbn [stringify_at].
    rewrite Ht. cbn [String.append]. rewrite p_value_number by done.
    change (String c (t ++ rest)) with (String c t ++ rest). rewrite <- Ht. by apply p_number_num_text.
  - cbn [stringify_at p_value]. rewrite quote_json_app, skip_ws_start by reflexivity.
    cbn [p_dispatch]. by rewrite p_string_escape.
  - destruct l as [| x l'].
    + cbn [stringify_at String.append p_value]. rewrite !skip_ws_start by reflexivity. reflexivity.
    + cbn [stringify_at]. set (ind' := ind ++ "  "). rewrite <- !string_app_assoc.
      change ("[" ++ ?X) with (String "[" X). rewrite p_value_open_arr.
      * rewrite (p_items_ok ind' _ rest); [reflexivity | done | done | by apply all_ws_indent | simpl in *; lia | | done].
        by apply skip_ws_close.
      * rewrite (skip_ws_app nl), (skip_ws_app ind') by (done || by apply all_ws_indent).
        apply first_char_stringify.
  - destruct fs as [| kv fs'].
    + cbn [stringify_at String.append p_value]. rewrite !skip_ws_start by reflexivity. reflexivity.
    + cbn [stringify_at]. set (ind' := ind ++ "  "). rewrite <- !string_app_assoc.
      change ("{" ++ ?X) with (String "{" X). rewrite p_value_open_obj.
      * change ("," ++ nl ++ ind') with (String "," (nl ++ ind')).
        rewrite (p_members_ok ind' _ rest); [reflexivity | done | done | by apply all_ws_indent | simpl in *; lia | | done].
        by apply skip_ws_close.
      * rewrite (skip_ws_app nl), (skip_ws_app ind') by (done || by apply all_ws_indent).
        apply first_char_members.
Qed.

(** ** Fuel *)

Lemma join_map_length {A} sep (f : A -> string) (g : A -> nat) l :
  1 <= String.length sep -> Forall (fun x => g x <= String.length (f x)) l ->
  sum_list_with (fun x => 1 + g x) l <= String.length (join sep (map f l)) + 1.
Proof.
  intros Hsep. induction 1 as [| x l Hx Hl IH]; [simpl; lia |].
  destruct l as [| y l]; [simpl; lia |].
  rewrite join_map_cons2, !string_length_app. simpl in IH |- *. lia.
Qed.

(** A value never needs more fuel than its text has characters. *)
Lemma jsize_le_length v : forall ind, jsize v <= String.length (stringify_at ind v).
Proof.
  induction v as [| b | n | s | l IH | fs IH] using json_ind'; intros ind;
    [simpl; lia | destruct b; simpl; lia | | simpl; lia | |].
  - destruct (num_text_head n) as (c & t & Ht & _). cbn [stringify_at jsize]. rewrite Ht. simpl. lia.
  - destruct l as [| x l]; [simpl; lia |]. cbn [stringify_at jsize]. rewrite !string_length_app.
    pose proof (join_map_length ("," ++ nl ++ (ind ++ "  ")) (stringify_at (ind ++ "  ")) jsize (x :: l)
                  ltac:(simpl; lia) ltac:(eapply Forall_impl; [exact IH | intros v Hv; apply Hv])).
    simpl in *. lia.
  - destruct fs as [| kv fs]; [simpl; lia |]. cbn [stringify_at jsize]. rewrite !string_length_app.
    pose proof (join_map_length ("," ++ nl ++ (ind ++ "  "))
                  (fun kv => quote_json kv.1 ++ ": " ++ stringify_at (ind ++ "  ") kv.2)
                  (fun kv => jsize kv.2) (kv :: fs) ltac:(simpl; lia)) as H.
    assert (Hf : Forall (fun kv => jsize kv.2 <=
                   String.length (quote_json kv.1 ++ ": " ++ stringify_at (ind ++ "  ") kv.2)) (kv :: fs)).
    { eapply Forall_impl; [exact IH |]. intros [k v] Hv. cbn [fst snd] in *.
      rewrite !string_length_app. specialize (Hv (ind ++ "  ")). simpl. lia. }
    specialize (H Hf). simpl in *. lia.
Qed.

(** ** The token file *)

(** [storeToken(token)], lines 134-142: the bytes written to
    [TOKEN_PATH] ([fs.writeFile] encodes the text in UTF-8), or [None]
    when the write fails and the error is rethrown. *)
Definition storeToken (write_ok : bool) (token : json) : option string :=
  if write_ok then Some (utf8_encode (JSON_stringify_2 token)) else None.

(** The next start-up: the same surroundings, [token.json] holding the
    bytes written (read back with [fs.readFile(TOKEN_PATH, 'utf8')]), and
    the token's expiry as it is then. *)
Definition restart_env (e : auth_env) (bytes : string) (expiring : json -> bool) : auth_env :=
  {| GMAIL_CREDENTIALS := GMAIL_CREDENTIALS e; GMAIL_TOKEN := GMAIL_TOKEN e;
     json_parse := json_parse e; read_credentials := read_credentials e;
     read_token := Some (utf8_decode bytes); token_expiring := expiring;
     refresh_result := refresh_result e; typed_code := typed_code e;
     get_token := get_token e; write_ok := write_ok e |}.

(** [JSON.parse] reads back every value [JSON.stringify(value, null, 2)]
    writes, at the fuel [JSON_parse] gives itself. *)
Lemma JSON_parse_stringify v : JSON_parse (JSON_stringify_2 v) = Some v.
Proof.
  unfold JSON_parse, JSON_stringify_2. pose proof (jsize_le_length v "") as Hl.
  rewrite <- (string_app_nil_r (stringify_at "" v)) at 2.
  rewrite p_value_stringify by (done || lia). reflexivity.
Qed.


Lemma set_credentials_twice c t1 t2 : set_credentials (set_credentials c t1) t2 = set_credentials c t2.
Proof. reflexivity. Qed.

(** A start-up that wrote a token went through the files, built its
    client from [credentials.json] and handed it the token it wrote. *)
Lemma authorize_wrote_token e c t :
  authorize e = Authorized c [t] ->
  env_set (GMAIL_TOKEN e) = false /\ write_ok e = true /\
  exists content credentials client0 td,
    read_credentials e = Some content /\ json_parse e content = Some credentials /\
    load_sources e = inr (credentials, td) /\
    make_client credentials = inr client0 /\ c = set_credentials client0 t.
Proof.
  unfold authorize, authorize_try. destruct (load_sources e) as [err | [credentials td]] eqn:Hl; [done |].
  destruct (make_client credentials) as [err | client0] eqn:Hm; [done |].
  assert (Hfile : env_set (GMAIL_TOKEN e) = false ->
    exists content, read_credentials e = Some content /\ json_parse e content = Some credentials).
  { intros Ht. revert Hl. unfold load_sources. rewrite Ht, andb_false_r.
    destruct (read_credentials e) as [content |]; [| done].
    destruct (json_parse e content) as [c' |] eqn:Ep; [| done]. intros H. injection H as H1 _. subst. eauto. }
  destruct (jtruthy (Some td)); cbv zeta.
  - destruct (token_expiring e td); [| done]. destruct (refresh_result e) as [nc |]; [| done].
    destruct (env_set (GMAIL_TOKEN e)) eqn:Ht; cbn [negb]; [done |].
    destruct (write_ok e) eqn:Hw; [| done]. intros [= <- <-].
    destruct (Hfile eq_refl) as (content & Hr & Hp).
    do 2 (split; [done |]). by exists content, credentials, client0, td.
  - destruct (env_set (GMAIL_TOKEN e)) eqn:Ht; [done |]. unfold getNewToken.
    destruct (typed_code e); [| done]. destruct (get_token e s) as [tk |]; [| done].
    destruct (write_ok e) eqn:Hw; [| done]. intros [= <- <-].
    destruct (Hfile eq_refl) as (content & Hr & Hp).
    do 2 (split; [done |]). by exists content, credentials, client0, td.
Qed.

(** C28: a token survives a restart: when a start-up of the local setup
    ([JSON.parse] the real one) returns a client and stores its token
    [t], the next start-up, with [token.json] holding the bytes
    [storeToken] wrote and [t] not yet expiring, returns the same client,
    without the consent prompt and without writing anything. *)
Theorem authorize_restart e c t bytes expiring :
  json_parse e = JSON_parse -> jtruthy (Some t) = true ->
  authorize e = Authorized c [t] -> storeToken (write_ok e) t = Some bytes -> expiring t = false ->
  authorize (restart_env e bytes expiring) = Authorized c [].
Proof.
  intros Hj Ht Ha Hs Hx.
  destruct (authorize_wrote_token _ _ _ Ha) as (Hgt & Hw & content & credentials & client0 & td & Hr & Hp & _ & Hm & ->).
  unfold storeToken in Hs. rewrite Hw in Hs. injection Hs as <-.
  unfold authorize, authorize_try, load_sources. cbn [restart_env GMAIL_CREDENTIALS GMAIL_TOKEN json_parse
    read_credentials read_token token_expiring].
  rewrite Hgt, andb_false_r, Hr, Hp, Hj, utf8_roundtrip, JSON_parse_stringify. cbn [default from_option id].
  rewrite Hm, Ht, Hx. reflexivity.
Qed.

(** Lengths: every parser consumes what it reads. *)
Lemma skip_ws_length s : String.length (skip_ws s) <= String.length s.
Proof. induction s as [| c s IH]; [done |]. cbn [skip_ws]. destruct (is_ws c); simpl; lia. Qed.

Lemma skip_ws_cons_length s c r : skip_ws s = String c r -> String.length r < String.length s.
Proof. intros H. pose proof (skip_ws_length s) as Hl. rewrite H in Hl. simpl in Hl. lia. Qed.

(** ** The fuel of [JSON_parse] is never what stops it *)

Lemma take_digits_app s : (take_digits s).1 ++ (take_digits s).2 = s.
Proof.
  induction s as [| c s IH]; [done |]. cbn [take_digits].
  destruct (is_digit c); [| done]. destruct (take_digits s) as [d r]. cbn in *. by rewrite IH.
Qed.

Lemma p_number_length s v r : p_number s = Some (v, r) -> String.length r < String.length s.
Proof.
  unfold p_number. intros H.
  assert (Hs1 : forall neg s1, (neg, s1) = match s with String "-" r => (true, r) | _ => (false, s) end ->
            String.length s1 <= String.length s).
  { intros neg s1 E. destruct s as [| c t]; [by injection E as _ <- |].
    destruct c as [[] [] [] [] [] [] [] []]; injection E as _ <-; simpl; lia. }
  destruct (match s with String "-" r => (true, r) | _ => (false, s) end) as [neg s1] eqn:E.
  specialize (Hs1 neg s1 eq_refl). pose proof (take_digits_app s1) as Ht.
  destruct (take_digits s1) as [ds rest]. cbn in Ht. subst s1.
  rewrite string_length_app in Hs1.
  destruct ds as [| c ds]; [done |]. simpl in Hs1.
  repeat case_match; simplify_eq; lia.
Qed.

Lemma p_string_length s t r : p_string s = Some (t, r) -> String.length r < String.length s.
Proof.
  remember (String.length s) as n eqn:Hn. revert s t r Hn.
  induction n as [n IH] using lt_wf_ind. intros s t r -> H.
  destruct s as [| c s]; [done |]. cbn [p_string] in H.
  repeat case_match; simplify_eq/=; try lia;
    match goal with
    | Hp : p_string ?x = Some _ |- _ => apply (IH (String.length x)) in Hp; [simpl in *; lia | simpl in *; lia | done]
    end.
Qed.

Ltac shorter Hpi Hpm :=
  repeat match goal with
  | H : p_string _ = Some _ |- _ => apply p_string_length in H
  | H : p_number _ = Some _ |- _ => apply p_number_length in H
  | H : skip_ws _ = String _ _ |- _ => apply skip_ws_cons_length in H
  | H : _ = Some _ |- _ => first [apply Hpi in H | apply Hpm in H]
  end; simpl in *; lia.

Section Shorter.
Context (pv : string -> option (json * string)) (pi : string -> option (list json * string))
        (pm : string -> option (list (string * json) * string)).
Hypothesis Hpv : forall x v r, pv x = Some (v, r) -> String.length r < String.length x.
Hypothesis Hpi : forall x l r, pi x = Some (l, r) -> String.length r < String.length x.
Hypothesis Hpm : forall x l r, pm x = Some (l, r) -> String.length r < String.length x.

Lemma p_dispatch_length s v r : p_dispatch pi pm s = Some (v, r) -> String.length r < String.length s.
Proof. unfold p_dispatch. intros H. repeat case_match; simplify_eq; shorter Hpi Hpm. Qed.

Lemma items_step_length s l r : items_step pv pi s = Some (l, r) -> String.length r < String.length s.
Proof. unfold items_step. intros H. repeat case_match; simplify_eq; shorter Hpv Hpi. Qed.

Lemma members_step_length s fs r : members_step pv pm s = Some (fs, r) -> String.length r < String.length s.
Proof. unfold members_step. intros H. repeat case_match; simplify_eq; shorter Hpv Hpm. Qed.

End Shorter.

Lemma p_lengths f :
  (forall s v r, p_value f s = Some (v, r) -> String.length r < String.length s) /\
  (forall s l r, p_items f s = Some (l, r) -> String.length r < String.length s) /\
  (forall s fs r, p_members f s = Some (fs, r) -> String.length r < String.length s).
Proof.
  induction f as [| f (IHv & IHi & IHm)]; [done |]. split; [| split]; intros s x r H; cbn in H.
  - apply (p_dispatch_length _ _ IHi IHm) in H. pose proof (skip_ws_length s). lia.
  - by apply (items_step_length _ _ IHv IHi) in H.
  - by apply (members_step_length _ _ IHv IHm) in H.
Qed.

(** The steps give the same answer when their nested parsers agree on
    the shorter texts they are given. *)
Section Agree.
Context (pv1 pv2 : string -> option (json * string)) (pi1 pi2 : string -> option (list json * string))
        (pm1 pm2 : string -> option (list (string * json) * string)).

Lemma p_dispatch_agree s :
  (forall x, String.length x < String.length s -> pi1 x = pi2 x) ->
  (forall x, String.length x < String.length s -> pm1 x = pm2 x) ->
  p_dispatch pi1 pm1 s = p_dispatch pi2 pm2 s.
Proof.
  intros Hi Hm. destruct s as [| c t]; [reflexivity |].
  destruct c as [[] [] [] [] [] [] [] []]; cbn [p_dispatch];
    rewrite ?(Hi t), ?(Hm t) by (simpl; lia); reflexivity.
Qed.

Lemma items_step_agree s :
  (forall x v r, pv1 x = Some (v, r) -> String.length r < String.length x) ->
  pv1 s = pv2 s -> (forall x, String.length x < String.length s -> pi1 x = pi2 x) ->
  items_step pv1 pi1 s = items_step pv2 pi2 s.
Proof.
  intros Hl Hv Hi. unfold items_step. rewrite <- Hv.
  destruct (pv1 s) as [[v r] |] eqn:E; [| reflexivity]. apply Hl in E.
  pose proof (skip_ws_length r) as Hr.
  destruct (skip_ws r) as [| c t]; [reflexivity |]. simpl in Hr.
  destruct c as [[] [] [] [] [] [] [] []]; rewrite ?(Hi t) by lia; reflexivity.
Qed.

Lemma members_step_agree s :
  (forall x v r, pv1 x = Some (v, r) -> String.length r < String.length x) ->
  (forall x, String.length x < String.length s -> pv1 x = pv2 x) ->
  (forall x, String.length x < String.length s -> pm1 x = pm2 x) ->
  members_step pv1 pm1 s = members_step pv2 pm2 s.
Proof.
  intros Hl Hv Hm. unfold members_step. pose proof (skip_ws_length s) as H0.
  destruct (skip_ws s) as [| c0 t0] eqn:E0; [reflexivity |]. simpl in H0.
  destruct (Ascii.eqb c0 "034") eqn:Ec; [apply Ascii.eqb_eq in Ec; subst c0 |].
  - destruct (p_string t0) as [[k r1] |] eqn:E1; [| reflexivity]. apply p_string_length in E1.
    pose proof (skip_ws_length r1) as H1.
    destruct (skip_ws r1) as [| c1 t1]; [reflexivity |]. simpl in H1.
    destruct (Ascii.eqb c1 ":") eqn:Ec1; [apply Ascii.eqb_eq in Ec1; subst c1 |].
    + rewrite <- (Hv t1) by lia. destruct (pv1 t1) as [[v r3] |] eqn:E3; [| reflexivity].
      apply Hl in E3. pose proof (skip_ws_length r3) as H3.
      destruct (skip_ws r3) as [| c3 t3]; [reflexivity |]. simpl in H3.
      destruct c3 as [[] [] [] [] [] [] [] []]; rewrite ?(Hm t3) by lia; reflexivity.
    + apply Ascii.eqb_neq in Ec1. destruct c1 as [[] [] [] [] [] [] [] []]; try reflexivity. by destruct Ec1.
  - apply Ascii.eqb_neq in Ec. destruct c0 as [[] [] [] [] [] [] [] []]; try reflexivity. by destruct Ec.
Qed.

End Agree.

Lemma p_fuel_step f :
  (forall s, 2 * String.length s + 1 <= f -> p_value (S f) s = p_value f s) /\
  (forall s, 2 * String.length s + 2 <= f -> p_items (S f) s = p_items f s) /\
  (forall s, 2 * String.length s + 2 <= f -> p_members (S f) s = p_members f s).
Proof.
  induction f as [| f (IHv & IHi & IHm)]; [split; [| split]; intros; lia |].
  split; [| split]; intros s Hs; cbn [p_value p_items p_members].
  - pose proof (skip_ws_length s).
    apply p_dispatch_agree; intros x Hx; [apply IHi | apply IHm]; lia.
  - apply items_step_agree; [apply (p_lengths (S f)) | apply IHv; lia | intros x Hx; apply IHi; lia].
  - apply members_step_agree; [apply (p_lengths (S f)) | intros x Hx; apply IHv; lia |
                               intros x Hx; apply IHm; lia].
Qed.

(** termination of [JSON.parse]: from twice the length of the text
    plus one on, more fuel never changes what the parser answers, so
    [JSON_parse], which runs it with exactly that fuel, fails only where
    the text is not JSON (or holds what [json] cannot represent), never
    for want of fuel. *)
Theorem JSON_parse_fuel s f :
  2 * String.length s + 1 <= f -> p_value f s = p_value (2 * String.length s + 1) s.
Proof.
  induction 1 as [| f Hf IH]; [reflexivity |]. rewrite <- IH. apply (p_fuel_step f). lia.
Qed.

(** ** Scenarios *)

Definition token_example : json :=
  JObj [("access_token", JStr "ya29.a0AfH6"); ("refresh_token", JStr (String "034" "1//0g"));
        ("scope", JStr "https://www.googleapis.com/auth/gmail.modify");
        ("token_type", JStr "Bearer"); ("expiry_date", JNum 1700000000000%Z)].

Definition credentials_example : json :=
  JObj [("installed", JObj [("client_id", JStr "id.apps.googleusercontent.com"); ("client_secret", JStr "s");
                            ("redirect_uris", JArr [JStr "urn:ietf:wg:oauth:2.0:oob"])])].

(** A first local start-up: [credentials.json] present, no [token.json],
    the consent code typed at the prompt. *)
Definition first_start : auth_env :=
  AuthEnv None None JSON_parse (Some (JSON_stringify_2 credentials_example)) None
    (fun _ => false) None (Some "4/0Adeu5") (fun _ => Some token_example) true.


Lemma authorize_restart_witness :
  let c := OAuthClient (Some (JStr "id.apps.googleusercontent.com")) (Some (JStr "s"))
             (Some (JStr "urn:ietf:wg:oauth:2.0:oob")) (Some token_example) in
  authorize first_start = Authorized c [token_example] /\
  authorize (restart_env first_start (utf8_encode (JSON_stringify_2 token_example)) (fun _ => false)) =
  Authorized c [].
Proof.
  intros c. assert (Ha : authorize first_start = Authorized c [token_example]) by (vm_compute; reflexivity).
  split; [exact Ha |]. apply (authorize_restart first_start c token_example); [reflexivity | reflexivity | exact Ha | reflexivity | reflexivity].
Defined.

Lemma JSON_parse_fuel_witness :
  let s := JSON_stringify_2 token_example in
  p_value (3 * String.length s) s = p_value (2 * String.length s + 1) s.
Proof. intros s. apply JSON_parse_fuel. vm_compute. lia. Defined.
