(* ===== verification/Shutdown.v ===== *)
(** * Interruption and restart of [src/main-continuous.js]

    [process.on('SIGINT', () => { ...; process.exit(0); })] ends the
    process at once: the runs in flight are abandoned at the [await]
    where they are, and the timer dies with the process.  Started again,
    the top level (lines 84-90) makes a fresh run against the account as
    the interrupted process left it.  This file holds that life cycle as a
    step relation over the process of [Polling.v], what an interrupted
    run leaves in the account (the processing of a prefix of its batch,
    plus at most the reply of the next message, sent and not yet
    marked), and the duplicate reply that follows when the interruption
    falls in that window. *)

From Stdlib Require Import Ascii String ZArith.
From stdpp Require Import base list strings gmap relations.
From Stdlib Require Import Lia.
From S2P Require Import Prelude Extractor Classifier Gmail Reply Pipeline Polling.

Open Scope string_scope.

(** The top level once it has run ([processEmails()], then
    [setInterval]): one run in flight, at its start. *)
Definition continuous_boot (mb : mailbox) : conc_state := Conc mb [RunStart].

(** The process: running, or ended by [process.exit] with its status. *)
Inductive proc_state :=
  | Running (s : conc_state)
  | Exited (mb : mailbox) (status : Z).

Definition proc_mb (p : proc_state) : mailbox :=
  match p with Running s => c_mb s | Exited mb _ => mb end.

(** The handler of [SIGINT]: [process.exit(0)], nothing awaited. *)
Definition on_sigint (s : conc_state) : proc_state := Exited (c_mb s) 0.

(** A step of the running process; the interruption; mail arriving while
    the process is down; a new start of the program. *)
Inductive proc_step (cfg : config) : proc_state -> proc_state -> Prop :=
  | PStep s s' : conc_step cfg s s' -> proc_step cfg (Running s) (Running s')
  | PSigint s : proc_step cfg (Running s) (on_sigint s)
  | PArrive mb st m :
      msg_id m ∉ map msg_id (mb_messages mb) -> proc_step cfg (Exited mb st) (Exited (arrive mb m) st)
  | PRestart mb st : proc_step cfg (Exited mb st) (Running (continuous_boot mb)).

Inductive proc_event :=
  | PEv (e : conc_event)
  | PEvSigint
  | PEvRestart.

Definition proc_exec (cfg : config) (p : proc_state) (e : proc_event) : option proc_state :=
  match p, e with
  | Running s, PEv e' => s' ← conc_exec cfg s e'; Some (Running s')
  | Running s, PEvSigint => Some (on_sigint s)
  | Exited mb _, PEvRestart => Some (Running (continuous_boot mb))
  | _, _ => None
  end.

Fixpoint proc_run (cfg : config) (p : proc_state) (es : list proc_event) : option proc_state :=
  match es with
  | [] => Some p
  | e :: es' => p' ← proc_exec cfg p e; proc_run cfg p' es'
  end.

(** ** What an interrupted run leaves *)

Section Interrupted.
Context `{api : GmailApi} `{svc : ReasoningService} (cfg : config).

Definition classification (t : ticket) : verdict :=
  classifyIssue (cfg_env cfg) (subject t) (issue t) (body t).

(** Where a run started on [mb0] is, and the account [mb] there: inside
    the loop, its batch is a processed prefix [pre] followed by the
    messages still pending, and the account is what the loop over [pre]
    gives, except after a successful send, where the reply of the current
    message has been sent on top of it. *)
Definition run_prefix (mb0 mb : mailbox) (rs : run_state) : Prop :=
  match rs with
  | RunStart => mb = mb0
  | RunDone => mb = processEmails_continuous cfg mb0
  | _ =>
      exists pre, cfg_auth_ok cfg = true /\ readUnreadMessages mb0 = Some (app pre (run_pending rs)) /\
      let mbp := (processAll cfg mb0 pre).1 in
      match rs with
      | RunSend m t _ => mb = mbp /\ extractInfo m = inr t /\ classification t = YES
      | RunMark m _ =>
          exists t, extractInfo m = inr t /\
            ((classification t = NO /\ mb = mbp) \/
             (classification t = YES /\ exists sid, replyTo cfg mbp m t = inr (mb, sid)))
      | _ => mb = mbp
      end
  end.

Lemma processAll_snoc_fst mb pre m :
  (processAll cfg mb (app pre [m])).1 = (processMessage cfg (processAll cfg mb pre).1 m).1.
Proof.
  rewrite processAll_app. destruct (processAll cfg mb pre) as [mb1 os1]. cbn [processAll].
  cbn [fst]. destruct (processMessage cfg mb1 m); reflexivity.
Qed.

Lemma app_snoc_cons {A} (pre : list A) m ms : app pre (m :: ms) = app (app pre [m]) ms.
Proof. by rewrite <- app_assoc. Qed.

Ltac next_prefix pre m :=
  exists (app pre [m]); rewrite <- app_snoc_cons; split; [done | split; [done |]];
  rewrite processAll_snoc_fst; unfold processMessage.

Lemma run_prefix_step mb0 mb rs mb' rs' :
  run_step cfg mb rs = Some (mb', rs') -> run_prefix mb0 mb rs -> run_prefix mb0 mb' rs'.
Proof.
  destruct rs as [| [| m ms] | m t ms | m ms |]; cbn [run_step]; [| | | | | discriminate].
  - intros H Hm. cbn [run_prefix] in Hm. subst mb.
    destruct (cfg_auth cfg) eqn:Ha; [| | by injection H as <- <-];
      [destruct (readUnreadMessages mb0) as [[| m ms] |] eqn:E |];
      injection H as <- <-; cbn [run_prefix]; unfold processEmails_continuous, cfg_auth_ok;
      rewrite ?Ha, ?E; try done.
    by exists [].
  - intros [= <- <-] (pre & Ha & E & ->). cbn [run_prefix].
    unfold processEmails_continuous. rewrite Ha. cbn [negb]. rewrite app_nil_r in E. rewrite E.
    by destruct pre.
  - intros H (pre & Ha & E & ->). cbn [run_pending] in E.
    destruct (extractInfo m) as [e | t] eqn:Ex.
    + injection H as <- <-. next_prefix pre m. by rewrite Ex.
    + destruct (classifyIssue _ _ _ _) eqn:Hc; injection H as <- <-; exists pre;
        (split; [done | split; [exact E |]]); cbn zeta.
      * by split; [| split].
      * exists t. split; [done |]. by left.
  - intros H (pre & Ha & E & -> & Ex & Hc). cbn [run_pending] in E.
    destruct (replyTo cfg (processAll cfg mb0 pre).1 m t) as [e | [mb1 sid]] eqn:Hr; injection H as <- <-.
    + next_prefix pre m. rewrite Ex. unfold classification in Hc. by rewrite Hc, Hr.
    + exists pre. split; [done | split; [exact E |]]. exists t. split; [done |]. right. eauto.
  - intros H (pre & Ha & E & t & Ex & Hcase). cbn [run_pending] in E.
    destruct (markAsRead mb (msg_id m)) as [mb2 |] eqn:Hm; injection H as <- <-;
      next_prefix pre m; rewrite Ex; unfold classification in Hcase;
      (destruct Hcase as [[Hc ->] | [Hc [sid Hr]]]; rewrite Hc; [| rewrite Hr]); by rewrite Hm.
Qed.

Lemma run_star_prefix mb0 mb rs :
  run_star cfg mb0 RunStart mb rs -> run_prefix mb0 mb rs.
Proof.
  unfold run_star. intros H.
  refine (rtc_ind_r (fun z => run_prefix mb0 z.1 z.2) (mb0, RunStart) eq_refl _ (mb, rs) H).
  intros [mb1 rs1] [mb2 rs2] _ Hs IH. by eapply run_prefix_step.
Qed.

(** A fixed number of steps of one run, for concrete schedules. *)
Fixpoint run_n (n : nat) (x : mailbox * run_state) : option (mailbox * run_state) :=
  match n with
  | O => Some x
  | S n' => y ← run_step cfg x.1 x.2; run_n n' y
  end.

Lemma run_n_star n x y : run_n n x = Some y -> rtc (run_rel cfg) x y.
Proof.
  revert x. induction n as [| n IH]; intros x; cbn [run_n]; [intros [= <-]; apply rtc_refl |].
  destruct (run_step cfg x.1 x.2) as [z |] eqn:Hs; [cbn | discriminate].
  intros H. eapply rtc_l; [exact Hs | by apply IH].
Qed.

(** C4: what an interruption leaves of a run: wherever [process.exit(0)]
    cuts a run of [processEmails] started on the account [mb0], with any
    Gmail service and any answers of the model, the account is untouched,
    or it is exactly what the loop over a prefix [pre] of the run's batch
    gives, or that followed by the sending of the reply to the next
    message [m] of the batch, classified [YES], whose [markAsRead] has not
    happened: the only trace an interruption adds to a prefix of the batch
    is one reply whose message stays unread. *)
Theorem interrupted_run_account mb0 mb rs :
  run_star cfg mb0 RunStart mb rs ->
  mb = mb0 \/
  exists pre rest, readUnreadMessages mb0 = Some (app pre rest) /\
    (mb = (processAll cfg mb0 pre).1 \/
     exists m rest' t sid, rest = m :: rest' /\ rs = RunMark m rest' /\ extractInfo m = inr t /\
       classification t = YES /\ replyTo cfg (processAll cfg mb0 pre).1 m t = inr (mb, sid)).
Proof.
  intros H. pose proof (run_star_prefix mb0 mb rs H) as Hp.
  destruct rs as [| ms | m t ms | m ms |]; cbn [run_prefix] in Hp.
  - by left.
  - right. destruct Hp as (pre & _ & E & ->). exists pre, ms. auto.
  - right. destruct Hp as (pre & _ & E & -> & _). exists pre, (m :: ms). auto.
  - right. destruct Hp as (pre & _ & E & t & Ex & [[_ ->] | [Hc [sid Hr]]]); exists pre, (m :: ms);
      split; [done | | done |]; [by left |]. right. exists m, ms, t, sid. auto.
  - unfold processEmails_continuous in Hp. destruct (cfg_auth_ok cfg); cbn [negb] in Hp; [| by left].
    destruct (readUnreadMessages mb0) as [[| m ms] |] eqn:E; try by left.
    right. exists (m :: ms), []. rewrite app_nil_r. auto.
Qed.

End Interrupted.

(** ** Interruption and restart of the process *)

Lemma proc_exec_step cfg p e p' : proc_exec cfg p e = Some p' -> proc_step cfg p p'.
Proof.
  destruct p as [s | mb st], e as [e | |]; cbn [proc_exec]; try discriminate.
  - destruct (conc_exec cfg s e) as [s1 |] eqn:E; [cbn | discriminate].
    intros [= <-]. by apply PStep, (conc_exec_step cfg s e).
  - intros [= <-]. apply PSigint.
  - intros [= <-]. apply PRestart.
Qed.

Lemma proc_run_reachable cfg p es p' : proc_run cfg p es = Some p' -> rtc (proc_step cfg) p p'.
Proof.
  revert p. induction es as [| e es IH]; intros p; cbn [proc_run]; [intros [= <-]; apply rtc_refl |].
  destruct (proc_exec cfg p e) as [p1 |] eqn:E; [cbn | discriminate].
  intros H. eapply rtc_l; [by eapply proc_exec_step | by apply IH].
Qed.

(** The invariant of [Polling.v] while running; the replies addressed once
    exited. *)
Definition proc_inv (p : proc_state) : Prop :=
  match p with
  | Running s => conc_inv s
  | Exited mb _ => Forall (addressed mb) (mb_sent mb)
  end.

Lemma boot_inv mb : Forall (addressed mb) (mb_sent mb) -> conc_inv (continuous_boot mb).
Proof. intros H. split; [done | repeat constructor]. Qed.

Lemma proc_step_inv cfg p p' : proc_step cfg p p' -> proc_inv p -> proc_inv p'.
Proof.
  intros [s s' Hs | s | mb st m Hfresh | mb st]; cbn [proc_inv on_sigint].
  - by apply (conc_step_inv cfg).
  - by intros [? _].
  - intros H. eapply Forall_impl; [exact H |]. intros r. apply addressed_mono, arrive_mono.
  - apply boot_inv.
Qed.

Lemma proc_rtc_inv cfg p p' : rtc (proc_step cfg) p p' -> proc_inv p -> proc_inv p'.
Proof. induction 1; eauto using proc_step_inv. Qed.

(** C1: replies stay addressed across interruptions and restarts: from
    the start of [main-continuous.js] on an account whose sent replies are
    addressed, through any interleaving of overlapping runs, any
    [SIGINT] at any [await], mail arriving while the process is down and
    any number of new starts, every reply ever sent opens with a single
    [To] line holding exactly the candidate address extracted from a
    message of the account. *)
Theorem proc_replies_addressed cfg mb0 p :
  Forall (addressed mb0) (mb_sent mb0) -> rtc (proc_step cfg) (Running (continuous_boot mb0)) p ->
  Forall (addressed (proc_mb p)) (mb_sent (proc_mb p)).
Proof.
  intros H0 Hr. pose proof (proc_rtc_inv cfg _ p Hr (boot_inv mb0 H0)) as Hi.
  destruct p as [s |]; [apply Hi | exact Hi].
Qed.

(** ** The window between send and mark *)

Definition advance0 : proc_event := PEv (EvAdvance no_faults yes_service 0).

(** The first run lists the unread message, classifies it, sends its
    reply; [SIGINT] arrives before [markAsRead]. *)
Definition to_window : list proc_event := [advance0; advance0; advance0].

Definition in_window : proc_state :=
  default (Exited demo_mailbox 1) (proc_run demo_cfg (Running (continuous_boot demo_mailbox)) to_window).

Definition window_mb : mailbox := proc_mb in_window.

(** The program started again runs to the end: list, classify, send,
    mark, leave the loop. *)
Definition after_restart : proc_state :=
  default (Exited demo_mailbox 1)
    (proc_run demo_cfg (Running (continuous_boot window_mb)) [advance0; advance0; advance0; advance0; advance0]).


Lemma interrupted_run_account_witness :
  let api := gmail_model no_faults in
  let mb := (default (demo_mailbox, RunDone)
               (run_n (api := api) (svc := yes_service) demo_cfg 3 (demo_mailbox, RunStart))).1 in
  mb = demo_mailbox \/
  exists pre rest, readUnreadMessages (api := api) demo_mailbox = Some (app pre rest) /\
    (mb = (processAll (api := api) (svc := yes_service) demo_cfg demo_mailbox pre).1 \/
     exists m rest' t sid, rest = m :: rest' /\ RunMark spec_message [] = RunMark m rest' /\
       extractInfo m = inr t /\ classification (svc := yes_service) demo_cfg t = YES /\
       replyTo (api := api) demo_cfg (processAll (api := api) (svc := yes_service) demo_cfg demo_mailbox pre).1 m t =
         inr (mb, sid)).
Proof.
  intros api mb. apply (interrupted_run_account (api := api) (svc := yes_service) demo_cfg demo_mailbox mb
                          (RunMark spec_message [])).
  apply (run_n_star (api := api) (svc := yes_service) demo_cfg 3). vm_compute. reflexivity.
Defined.

Lemma proc_replies_addressed_witness :
  Forall (addressed (proc_mb after_restart)) (mb_sent (proc_mb after_restart)).
Proof.
  apply (proc_replies_addressed demo_cfg demo_mailbox after_restart); [constructor |].
  eapply rtc_trans; [apply (proc_run_reachable _ _ (app to_window [PEvSigint; PEvRestart])); vm_compute; reflexivity |].
  apply (proc_run_reachable _ _ [advance0; advance0; advance0; advance0; advance0]). vm_compute. reflexivity.
Defined.
