(* ===== verification/Progress.v ===== *)
(** * Progress of the polling driver

    [readUnreadMessages] lists at most 50 unread messages, in the order of
    the account; a message whose extraction throws stays unread and is
    listed again by every run ([Pipeline.blocked_batch_no_progress]).
    This file holds the other half: with a faultless Gmail service and
    fewer than 50 such messages, every run that has an extractable unread
    message in the account answers or dismisses at least one, so the runs
    of [processEmails] drain the account of extractable unread messages,
    one run per message at most, and leave the others unread. *)

From Stdlib Require Import String.
From stdpp Require Import base list strings gmap.
From Stdlib Require Import Lia.
From S2P Require Import Prelude Extractor Classifier Gmail Reply Pipeline.

Open Scope string_scope.

(** ** Unread messages by what extraction does with them *)

Definition extractable (m : message) : bool :=
  match extractInfo m with inr _ => true | inl _ => false end.

Definition unread_msgs (mb : mailbox) : list message :=
  filter (fun m => msg_id m ∈ mb_unread mb) (mb_messages mb).

(** The unread messages a run can answer or dismiss. *)
Definition answerable (mb : mailbox) : list message :=
  filter (fun m => extractable m = true) (unread_msgs mb).

(** The unread messages whose extraction throws. *)
Definition stuck (mb : mailbox) : list message :=
  filter (fun m => extractable m = false) (unread_msgs mb).

Lemma find_message_nodup ms m :
  NoDup (map msg_id ms) -> In m ms -> find_message ms (msg_id m) = Some m.
Proof.
  induction ms as [| m' ms IH]; [done |]. cbn [map find_message]. intros Hnd Hin.
  apply NoDup_cons in Hnd as [Hn Hnd].
  destruct (String.eqb_spec (msg_id m') (msg_id m)) as [Heq | Hne].
  - destruct Hin as [-> | Hin]; [done |]. exfalso. apply Hn. rewrite Heq.
    by apply list_elem_of_In, in_map.
  - destruct Hin as [-> | Hin]; [done |]. by apply IH.
Qed.

Lemma omap_find_message ms l :
  NoDup (map msg_id ms) -> Forall (fun m => In m ms) l -> omap (find_message ms) (map msg_id l) = l.
Proof.
  intros Hnd. induction 1 as [| m l Hin _ IH]; [done |].
  change (map msg_id (m :: l)) with (app [msg_id m] (map msg_id l)). rewrite omap_app. cbn [omap list_omap].
  by rewrite find_message_nodup, IH.
Qed.

Lemma unread_msgs_in mb : Forall (fun m => In m (mb_messages mb)) (unread_msgs mb).
Proof.
  apply Forall_forall. intros m Hm. unfold unread_msgs in Hm.
  apply list_elem_of_filter in Hm. by apply list_elem_of_In, Hm.
Qed.

Lemma filter_ext_in {A} (P Q : A -> Prop) `{!forall x, Decision (P x)} `{!forall x, Decision (Q x)} (l : list A) :
  (forall x, x ∈ l -> P x <-> Q x) -> filter P l = filter Q l.
Proof.
  induction l as [| x l IH]; intros Hext; [done |]. rewrite !filter_cons.
  rewrite IH by (intros y Hy; apply Hext; by right).
  assert (Hx : P x <-> Q x) by (apply Hext; left).
  destruct (decide (P x)), (decide (Q x)); try done; exfalso; tauto.
Qed.

(** Fewer than [n] elements of [l] satisfy [P] and one does not: then
    one of the first [n] does not. *)
Lemma take_exists_not {A} (P : A -> Prop) `{!forall x, Decision (P x)} (l : list A) n x :
  length (filter P l) < n -> x ∈ l -> ~ P x -> exists y, y ∈ take n l /\ ~ P y.
Proof.
  revert n. induction l as [| z l IH]; intros n Hl Hx HP; [by apply not_elem_of_nil in Hx |].
  destruct n as [| n]; [lia |]. rewrite filter_cons in Hl. cbn [take].
  destruct (decide (P z)) as [Hz | Hz]; [| exists z; split; [left | done]].
  apply elem_of_cons in Hx as [-> | Hx]; [done |]. cbn [length] in Hl.
  destruct (IH n) as (y & Hy & Hny); [lia | done | done |]. exists y. split; [by right | done].
Qed.

Lemma unread_msgs_filter (P : message -> Prop) `{!forall x, Decision (P x)} mb :
  filter P (unread_msgs mb) = filter (fun m => P m /\ msg_id m ∈ mb_unread mb) (mb_messages mb).
Proof. apply list_filter_filter. Qed.

Section NoFaults.
Context `{svc : ReasoningService} (cfg : config).
Local Abbreviation gm := (gmail_model no_faults).

(** With a faultless service the batch is the first 50 unread messages
    of the account. *)
Lemma readUnread_no_faults mb :
  NoDup (map msg_id (mb_messages mb)) ->
  readUnreadMessages (api := gm) mb = Some (take 50 (unread_msgs mb)).
Proof.
  intros Hnd. unfold readUnreadMessages. cbn [api_list_unread gmail_model list_fails no_faults].
  f_equal. unfold unread_ids. rewrite <- fmap_take. apply omap_find_message; [done |].
  apply Forall_take, unread_msgs_in.
Qed.

(** The ids a loop over [ms] marks read: those of its extractable
    messages. *)
Definition marked (ms : list message) : gset string :=
  list_to_set (map msg_id (filter (fun m => extractable m = true) ms)).

Lemma processAll_no_faults mb ms :
  mb_messages (processAll (api := gm) cfg mb ms).1 = mb_messages mb /\
  mb_unread (processAll (api := gm) cfg mb ms).1 = mb_unread mb ∖ marked ms.
Proof.
  revert mb. induction ms as [| m ms IH]; intros mb; cbn [processAll].
  - split; [done |]. unfold marked. cbn. set_solver.
  - destruct (processMessage (api := gm) cfg mb m) as [mb1 o] eqn:E.
    pose proof (processMessage_effect (api := gm) cfg mb m mb1 o E) as [Hm1 _].
    specialize (IH mb1). destruct (processAll (api := gm) cfg mb1 ms) as [mb2 os]. cbn [fst] in *.
    destruct IH as [Hm2 Hu2]. split; [congruence |]. rewrite Hu2. unfold marked. rewrite filter_cons.
    destruct (extractInfo m) as [e | t] eqn:Ex.
    + assert (Hx : extractable m = false) by (unfold extractable; by rewrite Ex).
      rewrite (processMessage_extract_unchanged (api := gm) cfg mb m e Ex) in E. injection E as <- _.
      rewrite decide_False; [done | by rewrite Hx].
    + assert (Hx : extractable m = true) by (unfold extractable; by rewrite Ex).
      apply (processMessage_no_faults cfg mb m t mb1 o Ex) in E as [Hu1 _].
      rewrite decide_True; [| done]. cbn [map list_to_set]. rewrite Hu1. set_solver.
Qed.

(** One run of [processEmails] of [main-continuous.js] with a faultless
    service: the first 50 unread messages are listed and the extractable
    ones among them are marked read. *)
Lemma run_no_faults mb :
  cfg_auth_ok cfg = true -> NoDup (map msg_id (mb_messages mb)) ->
  mb_messages (processEmails_continuous (api := gm) cfg mb) = mb_messages mb /\
  mb_unread (processEmails_continuous (api := gm) cfg mb) = mb_unread mb ∖ marked (take 50 (unread_msgs mb)).
Proof.
  intros Ha Hnd. unfold processEmails_continuous. rewrite Ha, readUnread_no_faults by done. cbn [negb].
  destruct (take 50 (unread_msgs mb)) as [| m ms] eqn:E; [unfold marked; cbn; split; [done | set_solver] |].
  apply processAll_no_faults.
Qed.

End NoFaults.

Lemma nodup_same_id ms m m' :
  NoDup (map msg_id ms) -> In m ms -> In m' ms -> msg_id m = msg_id m' -> m = m'.
Proof.
  intros Hnd Hm Hm' Heq. pose proof (find_message_nodup ms m Hnd Hm) as H1.
  rewrite Heq, (find_message_nodup ms m' Hnd Hm') in H1. congruence.
Qed.

Lemma marked_elem ms i : i ∈ marked ms <-> exists m, m ∈ ms /\ extractable m = true /\ msg_id m = i.
Proof.
  unfold marked. rewrite elem_of_list_to_set, list_elem_of_fmap. split.
  - intros (m & -> & Hm%list_elem_of_filter). exists m. naive_solver.
  - intros (m & Hm & Hx & <-). exists m. split; [done |]. by apply list_elem_of_filter.
Qed.


Lemma take_elem {A} n (l : list A) x : x ∈ take n l -> x ∈ l.
Proof. intros (i & Hi & _)%elem_of_take. by eapply list_elem_of_lookup_2. Qed.

(** ** Runs drain the account *)

Section Drain.
Context `{svc : ReasoningService} (cfg : config).
Hypothesis Hauth : cfg_auth_ok cfg = true.
Local Abbreviation run := (processEmails_continuous (api := gmail_model no_faults) cfg).

(** A run keeps the answerable messages it did not list. *)
Lemma answerable_run mb :
  NoDup (map msg_id (mb_messages mb)) ->
  answerable (run mb) = filter (fun m => msg_id m ∉ marked (take 50 (unread_msgs mb))) (answerable mb).
Proof.
  intros Hnd. destruct (run_no_faults cfg mb Hauth Hnd) as [Hm Hu].
  unfold answerable, unread_msgs. rewrite Hm, Hu, !list_filter_filter.
  apply filter_ext_in. intros m _. set_solver.
Qed.

(** A run leaves every stuck message unread. *)
Lemma stuck_run mb : NoDup (map msg_id (mb_messages mb)) -> stuck (run mb) = stuck mb.
Proof.
  intros Hnd. destruct (run_no_faults cfg mb Hauth Hnd) as [Hm Hu].
  unfold stuck, unread_msgs. rewrite Hm, Hu, !list_filter_filter.
  apply filter_ext_in. intros m Hin. rewrite elem_of_difference, marked_elem.
  split; [tauto |]. intros [Hx Hu']. do 2 (split; [done |]). intros (m' & Hm' & Hx' & Hid).
  apply take_elem in Hm'. unfold unread_msgs in Hm'. apply list_elem_of_filter in Hm' as [_ Hm'].
  apply list_elem_of_In in Hm', Hin. rewrite (nodup_same_id _ m' m Hnd Hm' Hin Hid) in Hx'. congruence.
Qed.

(** With fewer than 50 stuck messages, a run with an answerable message
    in the account answers or dismisses at least one. *)
Lemma run_progress mb :
  NoDup (map msg_id (mb_messages mb)) -> length (stuck mb) < 50 -> answerable mb <> [] ->
  length (answerable (run mb)) < length (answerable mb).
Proof.
  intros Hnd Hs Hne. rewrite answerable_run by done.
  destruct (answerable mb) as [| x l] eqn:Ea; [done |].
  assert (Hx : x ∈ answerable mb) by (rewrite Ea; left).
  unfold answerable in Hx. apply list_elem_of_filter in Hx as [Hxe Hxu].
  destruct (take_exists_not (fun m => extractable m = false) (unread_msgs mb) 50 x) as (y & Hy & Hye);
    [exact Hs | exact Hxu | congruence |].
  rewrite <- Ea. apply (length_filter_lt _ _ y).
  - unfold answerable. apply list_elem_of_filter. split; [by destruct (extractable y) | by eapply take_elem].
  - intros Hn. apply Hn, marked_elem. exists y. split; [done |]. split; [by destruct (extractable y) | done].
Qed.

(** C17: the runs of [processEmails] drain the account: with a faultless
    Gmail service, messages with distinct ids and fewer than 50 unread
    messages whose extraction throws, after as many runs as there are
    unread messages that extract, whatever the model answers, every such
    message has been answered or dismissed and marked read, and exactly
    the messages whose extraction throws are still unread.  With 50 of
    them listed first no run makes progress
    ([Pipeline.blocked_batch_no_progress]). *)
Theorem polling_drains k mb :
  NoDup (map msg_id (mb_messages mb)) -> length (stuck mb) < 50 -> length (answerable mb) <= k ->
  answerable (Nat.iter k run mb) = [] /\ stuck (Nat.iter k run mb) = stuck mb.
Proof.
  revert mb. induction k as [| k IH]; intros mb Hnd Hs Hk.
  - change (Nat.iter 0 run mb) with mb. split; [| done]. destruct (answerable mb); [done | cbn in Hk; lia].
  - rewrite Nat.iter_succ_r.
    assert (Hnd' : NoDup (map msg_id (mb_messages (run mb)))) by (by rewrite (proj1 (run_no_faults cfg mb Hauth Hnd))).
    assert (Hs' : stuck (run mb) = stuck mb) by (by apply stuck_run).
    assert (Hk' : length (answerable (run mb)) <= k).
    { destruct (answerable mb) as [| x l] eqn:E.
      - rewrite answerable_run, E by done. cbn. lia.
      - assert (Hne : answerable mb <> []) by (by rewrite E).
        pose proof (run_progress mb Hnd Hs Hne) as Hp. rewrite E in Hp. cbn in Hk, Hp. lia. }
    destruct (IH (run mb) Hnd' ltac:(by rewrite Hs') Hk') as [H1 H2]. split; [done | congruence].
Qed.

End Drain.

(** Three unread messages, the second of which does not extract. *)
Definition drain_mailbox : mailbox :=
  Mailbox [spec_message; broken_message; spec_message3] {["m1"; "m2"; "m3"]} [].

Lemma polling_drains_witness :
  let run := processEmails_continuous (api := gmail_model no_faults) (svc := yes_service) demo_cfg in
  answerable (Nat.iter 2 run drain_mailbox) = [] /\ stuck (Nat.iter 2 run drain_mailbox) = stuck drain_mailbox.
Proof.
  intros run. apply (polling_drains (svc := yes_service) demo_cfg eq_refl 2 drain_mailbox).
  - apply (proj1 (bool_decide_eq_true _)). vm_compute. reflexivity.
  - vm_compute. lia.
  - vm_compute. lia.
Defined.
