(* ===== verification/Startup.v ===== *)
(** * [authorize()] inside the runs

    Every run of [processEmails] (in [server.js], [main.js] and
    [main-continuous.js]) starts with [await authorize()].  [Pipeline.v]
    and [Polling.v] take how that promise settles as the field [cfg_auth]
    of the configuration; this file computes it from the model of
    [gmailAuth.js] in [Auth.v] and composes the two: in the cloud setup
    ([GMAIL_TOKEN] set) every run returns, and in a local setup that
    needs the consent code, every run started by the timer waits at the
    prompt and the account is never touched. *)

From Stdlib Require Import String.
From stdpp Require Import base list strings gmap relations.
From Stdlib Require Import Lia.
From S2P Require Import Prelude Extractor Classifier Gmail Pipeline Polling Auth Json.

Open Scope string_scope.

(** How the promise of [authorize()] settles. *)
Definition auth_status_of (o : auth_outcome) : auth_status :=
  match o with
  | Authorized _ _ => AuthOk
  | AuthFailed _ => AuthThrows
  | AuthWaits => AuthPending
  end.

(** The configuration of the runs when [authorize()] reads [e]. *)
Definition with_auth (cfg : config) (e : auth_env) : config :=
  Config (cfg_env cfg) (cfg_assets cfg) (auth_status_of (authorize e)) (cfg_clock cfg).

Lemma authorize_settles e : env_set (GMAIL_TOKEN e) = true -> authorize e <> AuthWaits.
Proof.
  intros Ht. destruct (authorize_try_env_token e Ht) as [Hw _]. unfold authorize.
  by destruct (authorize_try e).
Qed.

Lemma authorize_writes_nothing e c w :
  env_set (GMAIL_TOKEN e) = true -> authorize e = Authorized c w -> w = [].
Proof.
  intros Ht. destruct (authorize_try_env_token e Ht) as [_ Hr]. unfold authorize.
  destruct (authorize_try e) eqn:E; try discriminate. intros [= <- <-]. by eapply Hr.
Qed.

Section Cloud.
Context `{api : GmailApi} `{!GmailApiLaws api} `{svc : ReasoningService}.

(** C7: the cloud deployment always makes progress: with [GMAIL_TOKEN]
    set, [authorize()] never waits at the consent prompt and writes no
    [token.json], so every run of [processEmails] that calls it returns
    within [152] steps, with the account [processEmails_continuous]
    gives. *)
Theorem cloud_runs_terminate (cfg : config) (e : auth_env) mb fuel :
  env_set (GMAIL_TOKEN e) = true -> 152 <= fuel ->
  (forall c w, authorize e = Authorized c w -> w = []) /\
  run_f (with_auth cfg e) fuel mb RunStart = Some (processEmails_continuous (with_auth cfg e) mb).
Proof.
  intros Ht Hf. split; [intros c w; by apply authorize_writes_nothing |].
  apply run_f_settled; [| exact Hf]. cbn [with_auth cfg_auth].
  pose proof (authorize_settles e Ht). by destruct (authorize e).
Qed.

End Cloud.

(** ** Waiting at the consent prompt *)

(** Without [GMAIL_TOKEN], with a client configuration but no
    [token.json], [authorize()] asks for the consent code, and waits while
    none is typed. *)
Lemma authorize_waits e credentials client0 :
  env_set (GMAIL_TOKEN e) = false -> load_sources e = inr (credentials, JNull) ->
  make_client credentials = inr client0 -> typed_code e = None -> authorize e = AuthWaits.
Proof.
  intros Ht Hl Hm Hc. unfold authorize, authorize_try. rewrite Hl, Hm. cbn [jtruthy].
  rewrite Ht. unfold getNewToken. by rewrite Hc.
Qed.

(** While [authorize()] waits, the runs stay at their start, nothing is
    sent and nothing is marked; mail may arrive. *)
Definition waiting_inv (mb0 : mailbox) (s : conc_state) : Prop :=
  Forall (eq RunStart) (c_runs s) /\ mb_sent (c_mb s) = mb_sent mb0 /\ mb_unread mb0 ⊆ mb_unread (c_mb s).

Lemma waiting_step cfg mb0 s s' :
  cfg_auth cfg = AuthPending -> conc_step cfg s s' -> waiting_inv mb0 s -> waiting_inv mb0 s'.
Proof.
  intros Hp [s0 | f svc s0 i rs mb' rs' Hl Hs | s0 m Hfresh] (Hr & Hsent & Hu); unfold waiting_inv; cbn [c_mb c_runs].
  - split; [| done]. apply Forall_app. split; [done | repeat constructor].
  - pose proof (Forall_lookup_1 _ _ _ _ Hr Hl) as <-. cbn [run_step] in Hs. rewrite Hp in Hs.
    injection Hs as <- <-. split; [| done]. apply Forall_insert; [exact Hr | reflexivity].
  - split; [done | split; [done |]]. cbn [arrive mb_unread mb_sent]. set_solver.
Qed.

(** C18: a local start that needs the consent code blocks every run: when
    [authorize()] waits at the prompt, in every state the process reaches
    (the timer starting a run every ten minutes, each asking for the code
    again, mail arriving) every run is still at [await authorize()],
    no reply has been sent and no message has been marked read. *)
Theorem consent_wait_blocks_runs (cfg : config) (e : auth_env) mb0 s :
  authorize e = AuthWaits -> rtc (conc_step (with_auth cfg e)) (Conc mb0 []) s ->
  Forall (eq RunStart) (c_runs s) /\ mb_sent (c_mb s) = mb_sent mb0 /\ mb_unread mb0 ⊆ mb_unread (c_mb s).
Proof.
  intros Hw Hr. enough (H : waiting_inv mb0 s) by exact H.
  assert (Hp : cfg_auth (with_auth cfg e) = AuthPending) by (cbn; by rewrite Hw).
  refine (rtc_ind_r (waiting_inv mb0) (Conc mb0 []) _ _ s Hr); [split; [constructor | done] |].
  intros s1 s2 _ Hs IH. by eapply waiting_step.
Qed.

(** ** Scenarios *)

(** The first local start of [Json.v], before the code is typed. *)
Definition waiting_start : auth_env :=
  AuthEnv None None JSON_parse (Some (JSON_stringify_2 credentials_example)) None
    (fun _ => false) None None (fun _ => Some token_example) true.

(** Three timer ticks, each run making a step, a message arriving. *)
Definition waiting_schedule : list conc_event :=
  let adv i := EvAdvance no_faults yes_service i in
  [EvFire; adv 0; EvFire; adv 1; EvArrive spec_message3; EvFire; adv 0; adv 2].

Definition waiting_final : conc_state :=
  default (Conc demo_mailbox [])
    (conc_run (with_auth demo_cfg waiting_start) (Conc demo_mailbox []) waiting_schedule).

Lemma consent_wait_blocks_runs_witness :
  Forall (eq RunStart) (c_runs waiting_final) /\ mb_sent (c_mb waiting_final) = mb_sent demo_mailbox /\
  mb_unread demo_mailbox ⊆ mb_unread (c_mb waiting_final).
Proof.
  apply (consent_wait_blocks_runs demo_cfg waiting_start demo_mailbox waiting_final).
  - vm_compute. reflexivity.
  - apply (conc_run_reachable _ _ waiting_schedule). vm_compute. reflexivity.
Defined.

Lemma cloud_runs_terminate_witness :
  (forall c w, authorize cloud_env = Authorized c w -> w = []) /\
  run_f (api := gmail_model no_faults) (svc := yes_service) (with_auth demo_cfg cloud_env) 152 demo_mailbox RunStart =
  Some (processEmails_continuous (api := gmail_model no_faults) (svc := yes_service) (with_auth demo_cfg cloud_env) demo_mailbox).
Proof. apply (cloud_runs_terminate (api := gmail_model no_faults)); [reflexivity | lia]. Defined.
