(* ===== verification/Fields.v ===== *)
(** * Reading the candidate address back from a support form

    [extractInfo] takes the candidate e-mail from the body with the three
    [emailPatterns] of [src/extractor.js] (lines 89-101), the first that
    matches winning.  This file computes the backtracking matcher of
    [Regex.v] on a body holding the field [Candidate Email ID: ] followed
    by an address: the greedy quantifiers of the pattern try their counts
    from the largest down, and the theorem is that the capture is the
    whole address, its domain included, and nothing after it.  The last
    section composes this with [processMessage]: the reply to a form
    Gmail delivers goes to the address written in the form. *)

From Stdlib Require Import Ascii String.
From stdpp Require Import base list strings gmap.
From Stdlib Require Import Lia.
From S2P Require Import Prelude Regex Base64 Extractor Classifier Gmail Reply Pipeline.

Open Scope string_scope.

(** ** The matcher on literals and greedy quantifiers *)

Lemma char_eq_refl ic c : char_eq ic c c = true.
Proof. unfold char_eq. destruct ic; apply Ascii.eqb_refl. Qed.

(** A literal consumes itself. *)
Lemma mt_lit_self ic k x cap kk : mt ic (lit k) (k ++ x) cap kk = kk x cap.
Proof.
  revert cap kk. induction k as [| c k IH]; intros cap kk; [done |].
  cbn [lit mt append]. rewrite char_eq_refl. apply IH.
Qed.

Lemma first_some_app {A B} (f : A -> option B) l1 l2 :
  first_some f (app l1 l2) = match first_some f l1 with Some y => Some y | None => first_some f l2 end.
Proof. induction l1 as [| x l1 IH]; [done |]. cbn. rewrite IH. by destruct (f x). Qed.

Lemma first_some_none {A B} (f : A -> option B) l : (forall x, In x l -> f x = None) -> first_some f l = None.
Proof. induction l as [| x l IH]; intros H; [done |]. cbn. rewrite H by (by left). apply IH. intros y Hy. apply H. by right. Qed.

(** A greedy quantifier yields the result of the largest count that
    succeeds. *)
Lemma first_some_greedy {B} (f : nat -> option B) lo n m y :
  lo <= m <= n -> (forall j, m < j <= n -> f j = None) -> f m = Some y ->
  first_some f (rep_counts lo n true) = Some y.
Proof.
  intros Hm Hn Hf. unfold rep_counts.
  replace (S n - lo) with ((m - lo) + (1 + (n - m))) by lia.
  rewrite !seq_app, !rev_app_distr, !first_some_app.
  rewrite first_some_none; [| intros j Hj%in_rev%in_seq; apply Hn; lia].
  replace (lo + (m - lo)) with m by lia. cbn. by rewrite Hf.
Qed.

Lemma mt_rep_greedy ic k lo s cap kk :
  mt ic (Rep k lo None true) s cap kk = first_some (fun j => kk (sdrop j s) cap) (rep_counts lo (run_len ic k s) true).
Proof. reflexivity. Qed.

(** The first character of [s], if any, is outside the class. *)
Definition stops (ic : bool) (k : cset) (s : string) : bool :=
  match s with EmptyString => true | String c _ => negb (cls_match ic k c) end.

Lemma run_len_app ic k u v :
  all_chars (cls_match ic k) u = true -> stops ic k v = true -> run_len ic k (u ++ v) = String.length u.
Proof.
  induction u as [| c u IH]; intros Hu Hv; cbn in *.
  - destruct v as [| c v]; [done |]. cbn in Hv |- *. by destruct (cls_match ic k c).
  - apply andb_prop in Hu as [Hc Hu]. rewrite Hc. f_equal. by apply IH.
Qed.

(** [trim] keeps a string without blanks. *)
Lemma trim_no_space s : all_chars (fun c => negb (is_space c)) s = true -> trim s = s.
Proof.
  intros H. unfold trim. assert (Hs : trim_start s = s) by (destruct s as [| c s]; [done |];
    cbn in H |- *; apply andb_prop in H as [Hc _]; by destruct (is_space c)).
  rewrite Hs. clear Hs. induction s as [| c s IH]; [done |]. cbn in H |- *.
  apply andb_prop in H as [Hc H]. rewrite IH by done. by destruct (is_space c).
Qed.

(** A position inside [u] starts with a character of [u]. *)
Lemma sdrop_inside P u v i :
  all_chars P u = true -> i < String.length u -> exists c w, sdrop i (u ++ v) = String c w /\ P c = true.
Proof.
  revert i. induction u as [| c u IH]; intros i Hu Hi; cbn in Hi; [lia |].
  cbn in Hu. apply andb_prop in Hu as [Hc Hu]. destruct i as [| i]; [by exists c, (u ++ v) |].
  apply IH; [done | lia].
Qed.

(** ** The characters of an address *)

Definition addr_char (c : ascii) : bool := cls_match true c_addr c.
Definition alpha_char (c : ascii) : bool := cls_match true c_alpha c.

Lemma alpha_addr c : alpha_char c = true -> addr_char c = true.
Proof. revert c. apply forall_ascii_impl. by vm_compute. Qed.

Lemma dot_addr c : char_eq true "." c = true -> addr_char c = true.
Proof. revert c. apply (forall_ascii_impl (char_eq true ".")). by vm_compute. Qed.

Lemma alpha_not_dot c : alpha_char c = true -> char_eq true "." c = false.
Proof.
  intros H. apply negb_true_iff. revert c H. apply (forall_ascii_impl _ (fun c => negb (char_eq true "." c))).
  by vm_compute.
Qed.

Lemma addr_not_colon_space c : addr_char c = true -> cls_match true c_colon_space c = false.
Proof.
  intros H. apply negb_true_iff. revert c H.
  apply (forall_ascii_impl _ (fun c => negb (cls_match true c_colon_space c))). by vm_compute.
Qed.

Lemma addr_no_space c : addr_char c = true -> negb (is_space c) = true.
Proof. revert c. apply (forall_ascii_impl _ (fun c => negb (is_space c))). by vm_compute. Qed.

Lemma stops_alpha s : stops true c_addr s = true -> stops true c_alpha s = true.
Proof.
  destruct s as [| c s]; [done |]. cbn [stops]. fold (addr_char c) (alpha_char c).
  destruct (alpha_char c) eqn:E; [by rewrite (alpha_addr c E) |]. done.
Qed.

Lemma stops_not_dot s : stops true c_addr s = true ->
  match s with EmptyString => True | String c _ => char_eq true "." c = false end.
Proof.
  destruct s as [| c s]; [done |]. cbn [stops]. fold (addr_char c).
  destruct (char_eq true "." c) eqn:E; [by rewrite (dot_addr c E) | done].
Qed.

(** [[a-zA-Z0-9._-]+@[a-zA-Z0-9._-]+\.[a-zA-Z]{2,}] on an address followed
    by a character outside the class: the domain's greedy quantifier gives
    back characters until the last dot, and the whole address is
    consumed. *)
Lemma mt_addr local dom tld post cap kk y :
  local <> "" -> all_chars addr_char local = true ->
  dom <> "" -> all_chars addr_char dom = true ->
  2 <= String.length tld -> all_chars alpha_char tld = true ->
  stops true c_addr post = true -> kk post cap = Some y ->
  mt true re_addr (local ++ String "@" (dom ++ String "." (tld ++ post))) cap kk = Some y.
Proof.
  intros Hl Hla Hd Hda Ht Hta Hp Hk. unfold re_addr. cbn [cats mt]. unfold plus. rewrite mt_rep_greedy.
  rewrite run_len_app by done.
  apply (first_some_greedy _ 1 _ (String.length local)); [destruct local; cbn in *; [done | lia] | lia |].
  rewrite sdrop_app. cbv beta iota. rewrite char_eq_refl. cbv iota. rewrite mt_rep_greedy.
  replace (dom ++ String "." (tld ++ post)) with ((dom ++ String "." tld) ++ post)
    by (rewrite <- string_app_assoc; reflexivity).
  assert (Hall : all_chars addr_char (dom ++ String "." tld) = true).
  { rewrite all_chars_app, Hda. cbn [andb all_chars]. change (addr_char ".") with true. cbn [andb].
    clear -Hta. induction tld as [| c tld IH]; [done |]. cbn [all_chars] in *. apply andb_prop in Hta as [Hc Hta].
    rewrite alpha_addr by done. by apply IH. }
  rewrite run_len_app by done.
  apply (first_some_greedy _ 1 _ (String.length dom)).
  - split; [destruct dom; cbn in *; [done | lia] |]. rewrite string_length_app. cbn. lia.
  - intros j [Hj1 Hj2]. rewrite string_length_app in Hj2. cbn in Hj2.
    replace j with (String.length dom + (1 + (j - String.length dom - 1))) by lia.
    rewrite <- string_app_assoc, sdrop_app_add, Nat.add_1_l. cbn [append sdrop].
    destruct (decide (j - String.length dom - 1 < String.length tld)) as [Hi | Hi].
    + destruct (sdrop_inside alpha_char tld post _ Hta Hi) as (c & w & -> & Hc).
      cbv beta iota. by rewrite alpha_not_dot.
    + replace (j - String.length dom - 1) with (String.length tld) by lia. rewrite sdrop_app.
      pose proof (stops_not_dot post Hp) as Hn. destruct post as [| c w]; [done |]. cbv beta iota. by rewrite Hn.
  - rewrite <- string_app_assoc, sdrop_app. cbn [append]. cbv beta iota. rewrite char_eq_refl. cbv iota.
    rewrite run_len_app by (done || by apply stops_alpha).
    cbn [cap_hi]. apply (first_some_greedy _ 2 _ (String.length tld)); [lia | intros; lia |]. by rewrite sdrop_app.
Qed.

(** [k+] on a run of [k] characters that stops. *)
Lemma mt_plus_exact ic k u v cap kk y :
  u <> "" -> all_chars (cls_match ic k) u = true -> stops ic k v = true -> kk v cap = Some y ->
  mt ic (plus k) (u ++ v) cap kk = Some y.
Proof.
  intros Hu Hall Hv Hk. unfold plus. rewrite mt_rep_greedy, run_len_app by done.
  apply (first_some_greedy _ 1 _ (String.length u)); [destruct u; cbn in *; [done | lia] | intros; lia |].
  by rewrite sdrop_app.
Qed.

(** ** The first pattern on the labelled field *)

Definition email_label : string := "Candidate Email ID: ".

Definition re_email_id : regex := Eval cbv [emailPatterns head default from_option id] in
  default (Regex Eps false false) (head emailPatterns).

Lemma email_label_run local dom tld post :
  local <> "" -> all_chars addr_char local = true ->
  dom <> "" -> all_chars addr_char dom = true ->
  2 <= String.length tld -> all_chars alpha_char tld = true -> stops true c_addr post = true ->
  run true (rx re_email_id) (email_label ++ (local ++ String "@" (dom ++ String "." (tld ++ post)))) =
    Some (post, Some (local ++ String "@" (dom ++ String "." tld))).
Proof.
  intros Hl Hla Hd Hda Ht Hta Hp. set (x := local ++ String "@" (dom ++ String "." (tld ++ post))).
  unfold run, re_email_id. cbn [rx cats].
  change (email_label ++ x) with ("Candidate" ++ (" " ++ ("Email" ++ (" " ++ ("ID" ++ (": " ++ x)))))).
  cbn [mt]. rewrite mt_lit_self. apply mt_plus_exact; [done | done | done |]. cbn [mt].
  rewrite mt_lit_self. apply mt_plus_exact; [done | done | done |]. cbn [mt].
  rewrite mt_lit_self. apply mt_plus_exact; [done | done | |].
  { destruct local as [| c l]; [done |]. cbn [x append stops]. cbn in Hla. apply andb_prop in Hla as [Hc _].
    by rewrite addr_not_colon_space. }
  cbn [mt]. apply mt_addr; [done .. |]. cbv beta. do 3 f_equal.
  assert (Hx : x = (local ++ String "@" (dom ++ String "." tld)) ++ post).
  { subst x. rewrite <- string_app_assoc. cbn [append]. rewrite <- string_app_assoc. reflexivity. }
  rewrite Hx, string_length_app, Nat.add_sub. apply stake_app_sdrop.
Qed.

(** [exec] moves past positions where the pattern does not match. *)
Lemma exec_from_skip p i pre s :
  rx_anchored p = false -> (forall j, j < String.length pre -> run (rx_icase p) (rx p) (sdrop j (pre ++ s)) = None) ->
  exec_from p i (pre ++ s) = exec_from p (i + String.length pre) s.
Proof.
  intros Han. revert i. induction pre as [| c pre IH]; intros i H; cbn [append String.length].
  - by rewrite Nat.add_0_r.
  - pose proof (H 0 ltac:(cbn; lia)) as H0. cbn [sdrop append] in H0.
    cbn [exec_from]. rewrite H0, Han, IH; [f_equal; lia |].
    intros j Hj. apply (H (S j)). cbn. lia.
Qed.

Lemma addr_trim local dom tld :
  all_chars addr_char local = true -> all_chars addr_char dom = true -> all_chars alpha_char tld = true ->
  trim (local ++ String "@" (dom ++ String "." tld)) = local ++ String "@" (dom ++ String "." tld).
Proof.
  intros Hl Hd Ht. apply trim_no_space.
  rewrite all_chars_app. cbn [all_chars]. rewrite all_chars_app. cbn [all_chars].
  rewrite (all_chars_impl _ _ local addr_no_space Hl), (all_chars_impl _ _ dom addr_no_space Hd).
  by rewrite (all_chars_impl _ _ tld (fun c H => addr_no_space c (alpha_addr c H)) Ht).
Qed.

Lemma exec_from_here p i s t c :
  run (rx_icase p) (rx p) s = Some (t, c) ->
  exec_from p i s = Some (RMatch i (stake (String.length s - String.length t) s) t c).
Proof. intros H. destruct s; cbn [exec_from]; by rewrite H. Qed.

(** The [emailPatterns] loop on a body whose first match of the first
    pattern is the labelled field: the candidate address, whole. *)
Lemma first_capture_label pre local dom tld post :
  local <> "" -> all_chars addr_char local = true ->
  dom <> "" -> all_chars addr_char dom = true ->
  2 <= String.length tld -> all_chars alpha_char tld = true -> stops true c_addr post = true ->
  let text := pre ++ email_label ++ (local ++ String "@" (dom ++ String "." (tld ++ post))) in
  (forall j, j < String.length pre -> run true (rx re_email_id) (sdrop j text) = None) ->
  first_capture emailPatterns text = local ++ String "@" (dom ++ String "." tld).
Proof.
  intros Hl Hla Hd Hda Ht Hta Hp text Hpre.
  change emailPatterns with (re_email_id :: tail emailPatterns). cbn [first_capture]. unfold exec, text.
  rewrite exec_from_skip by done. rewrite (exec_from_here re_email_id _ _ _ _ (email_label_run local dom tld post Hl Hla Hd Hda Ht Hta Hp)).
  cbn [capv m_cap default]. by apply addr_trim.
Qed.

(** ** No earlier match *)

Lemma matches_lit_inv ic k s u :
  matches ic (lit k) s u -> prefix_ci ic k s = true /\ u = sdrop (String.length k) s.
Proof.
  revert s. induction k as [| c k IH]; intros s H; cbn [lit] in H.
  - inversion H; subst. done.
  - inversion H as [| | | ? ? ? u1 ? H1 H2 | | | | | |]; subst.
    inversion H1 as [| ? x s1 Hc | | | | | | | |]; subst.
    destruct (IH _ H2) as [Hp ->]. cbn. by rewrite Hc, Hp.
Qed.

Lemma matches_rep_inv ic k lo hi g s u :
  matches ic (Rep k lo hi g) s u ->
  exists n, lo <= n /\ n <= String.length s /\ all_cls ic k (stake n s) = true /\ u = sdrop n s.
Proof. inversion 1; subst. eauto. Qed.

Lemma sdrop_sdrop a b s : sdrop a (sdrop b s) = sdrop (b + a) s.
Proof.
  revert b. induction s as [| c s IH]; intros [| b]; cbn; [by destruct a .. | apply IH].
Qed.

(** A character inside a run of class characters is in the class. *)
Lemma all_cls_at ic k n u i c w :
  all_cls ic k (stake n u) = true -> i < n -> sdrop i u = String c w -> cls_match ic k c = true.
Proof.
  revert n i. induction u as [| x u IH]; intros n i Hall Hi Hd; [by destruct i |].
  destruct n as [| n]; [lia |]. cbn in Hall. apply andb_prop in Hall as [Hx Hall].
  destruct i as [| i]; cbn in Hd; [by injection Hd as <- _ |]. apply (IH n i); [done | lia | done].
Qed.

Lemma prefix_ci_sdrop ic k s q : prefix_ci ic k s = true -> prefix_ci ic (sdrop q k) (sdrop q s) = true.
Proof.
  revert s q. induction k as [| c k IH]; intros s q H; [by destruct q |].
  destruct q as [| q]; [exact H |]. destruct s as [| x s]; [done |].
  cbn [prefix_ci] in H. apply andb_prop in H as [_ H]. cbn [sdrop]. by apply IH.
Qed.

(** What a match of the first pattern begins with: [Candidate], blanks,
    [Email]. *)
Lemma run_email_id_inv s t c :
  run true (rx re_email_id) s = Some (t, c) ->
  exists n, 1 <= n /\ prefix_ci true "Candidate" s = true /\ all_cls true c_space (stake n (sdrop 9 s)) = true /\
    prefix_ci true "Email" (sdrop (9 + n) s) = true.
Proof.
  intros H%run_sound. unfold re_email_id in H. cbn [rx cats] in H.
  inversion H as [| | | ? ? ? u1 ? H1 H2 | | | | | |]; subst.
  inversion H2 as [| | | ? ? ? u2 ? H3 H4 | | | | | |]; subst.
  inversion H4 as [| | | ? ? ? u3 ? H5 _ | | | | | |]; subst.
  apply (matches_lit_inv true "Candidate") in H1 as [Hc ->]. apply matches_rep_inv in H3 as (n & Hn & _ & Hsp & ->).
  apply (matches_lit_inv true "Email") in H5 as [He _]. exists n. rewrite sdrop_sdrop in He. auto.
Qed.

(** A check over the positions below [n], by evaluation. *)
Lemma forall_below (f : nat -> bool) n : forallb f (seq 0 n) = true -> forall p, p < n -> f p = true.
Proof. intros H p Hp. rewrite forallb_forall in H. apply H, in_seq. lia. Qed.

(** When no [Email] (in any case) begins before the label, the first
    pattern has no match before it: a match beginning earlier would need
    its [Candidate] or its blanks to cover the label's first letter. *)
Lemma no_email_before pre rest j :
  (forall p, p < String.length pre -> prefix_ci true "Email" (sdrop p (pre ++ email_label ++ rest)) = false) ->
  j < String.length pre -> run true (rx re_email_id) (sdrop j (pre ++ email_label ++ rest)) = None.
Proof.
  intros Hno Hj. destruct (run true (rx re_email_id) _) as [[t c] |] eqn:E; [exfalso | done].
  destruct (run_email_id_inv _ _ _ E) as (n & Hn & Hc & Hsp & He). rewrite sdrop_sdrop in He.
  assert (Hl : sdrop (String.length pre) (pre ++ email_label ++ rest) = email_label ++ rest) by apply sdrop_app.
  destruct (decide (j + (9 + n) < String.length pre)) as [Hlt | Hge]; [by rewrite Hno in He |].
  destruct (decide (j + (9 + n) = String.length pre)) as [Heq | Hgt].
  { rewrite Heq, Hl in He. by vm_compute in He. }
  destruct (decide (String.length pre - j < 9)) as [Hq | Hq].
  - pose proof (prefix_ci_sdrop _ _ _ (String.length pre - j) Hc) as Hp. rewrite sdrop_sdrop in Hp.
    replace (j + (String.length pre - j)) with (String.length pre) in Hp by lia. rewrite Hl in Hp.
    assert (Hr : String.length pre - j = 1 \/ String.length pre - j = 2 \/ String.length pre - j = 3 \/
                 String.length pre - j = 4 \/ String.length pre - j = 5 \/ String.length pre - j = 6 \/
                 String.length pre - j = 7 \/ String.length pre - j = 8) by lia.
    destruct Hr as [Hr | [Hr | [Hr | [Hr | [Hr | [Hr | [Hr | Hr]]]]]]]; rewrite Hr in Hp; by vm_compute in Hp.
  - assert (Hat : sdrop (String.length pre - j - 9) (sdrop 9 (sdrop j (pre ++ email_label ++ rest))) =
                  String "C" (sdrop 1 (email_label ++ rest))).
    { rewrite !sdrop_sdrop. replace (j + (9 + (String.length pre - j - 9))) with (String.length pre) by lia.
      by rewrite Hl. }
    assert (Hsc : cls_match true c_space "C" = true) by (eapply (all_cls_at _ _ _ _ (String.length pre - j - 9) _ _ Hsp); [lia | exact Hat]).
    by vm_compute in Hsc.
Qed.

(** ** The address of the form, read back by [extractInfo] *)

(** [local@dom.tld] with the characters the pattern accepts. *)
Definition addr_of (local dom tld : string) : string := local ++ String "@" (dom ++ String "." tld).

Definition address_ok (local dom tld : string) : bool :=
  truthy local && all_chars addr_char local && truthy dom && all_chars addr_char dom &&
  Nat.leb 2 (String.length tld) && all_chars alpha_char tld.

(** No [w], in any case, begins in [pre] (in the text [pre ++ rest]). *)
Definition word_free (w pre rest : string) : bool :=
  forallb (fun p => negb (prefix_ci true w (sdrop p (pre ++ rest)))) (seq 0 (String.length pre)).

Definition email_free : string -> string -> bool := word_free "Email".

Lemma word_free_at w pre rest p :
  word_free w pre rest = true -> p < String.length pre -> prefix_ci true w (sdrop p (pre ++ rest)) = false.
Proof. intros H Hp. apply negb_true_iff. exact (forall_below _ _ H p Hp). Qed.

Lemma addr_of_app local dom tld post :
  addr_of local dom tld ++ post = local ++ String "@" (dom ++ String "." (tld ++ post)).
Proof. unfold addr_of. rewrite <- string_app_assoc. cbn [append]. by rewrite <- string_app_assoc. Qed.

Lemma first_capture_form pre local dom tld post :
  address_ok local dom tld = true -> stops true c_addr post = true ->
  email_free pre (email_label ++ addr_of local dom tld ++ post) = true ->
  first_capture emailPatterns (pre ++ email_label ++ addr_of local dom tld ++ post) = addr_of local dom tld.
Proof.
  unfold address_ok. intros Hok Hp Hfree. repeat (apply andb_prop in Hok as [Hok ?]).
  rewrite addr_of_app in *. apply first_capture_label; try done.
  - by destruct local.
  - by destruct dom.
  - by apply Nat.leb_le.
  - intros j Hj. apply no_email_before; [| done]. intros p Hp'. by apply word_free_at.
Qed.

(** C29: the candidate address of a support form is read back whole:
    when the body of a message (whose headers all carry a name) is, once
    trimmed, some text without the word [Email], the label
    [Candidate Email ID: ], an address [local@dom.tld] of the characters
    the pattern accepts (letters, digits, [.], [_], [-]; a top-level
    domain of at least two letters) and then anything that does not
    continue the address, [extractInfo] succeeds and its candidate e-mail
    is that address: the greedy domain part keeps the dots inside the
    domain, and the field is found although [Candidate] may come before
    it. *)
Theorem extractInfo_reads_email_field m pl pre local dom tld post :
  msg_payload m = Some pl -> Forall (fun h => is_Some (h_name h)) (default [] (pl_headers pl)) ->
  trim (resolveBody pl) = pre ++ email_label ++ addr_of local dom tld ++ post ->
  address_ok local dom tld = true -> stops true c_addr post = true ->
  email_free pre (email_label ++ addr_of local dom tld ++ post) = true ->
  exists t, extractInfo m = inr t /\ candidateEmail t = addr_of local dom tld.
Proof.
  intros Hm Hh Hb Hok Hp Hfree. destruct (extractInfo_fields m pl Hm Hh) as (t & E & Ht & He & _).
  exists t. split; [done |]. rewrite He, Ht, Hb, first_capture_form by done. apply js_or_truthy_l.
  unfold address_ok in Hok. repeat (apply andb_prop in Hok as [Hok ?]). unfold addr_of. by destruct local.
Qed.

(** A form whose address has dots in its local part and its domain. *)
Definition form_body : string :=
  "Candidate Full Name: Jane Doe" ++ nl ++ "Candidate Email ID: jane.doe@mail.example.com" ++ nl ++
  "Issue: the start button does not work" ++ nl ++ "Thank you".

Definition form_message : message := {|
  msg_id := "m7"; msg_threadId := Some "t7";
  msg_payload := Some {|
    pl_headers := Some [Header (Some "From") (Some "Support Form <forms@x.com>");
                        Header (Some "Subject") (Some "Assessment issue")];
    pl_data := Some (b64_encode (utf8_encode form_body));
    pl_parts := None |} |}.

Lemma extractInfo_reads_email_field_witness :
  exists t, extractInfo form_message = inr t /\ candidateEmail t = addr_of "jane.doe" "mail.example" "com".
Proof.
  apply (extractInfo_reads_email_field form_message (default (Payload None None None) (msg_payload form_message))
           ("Candidate Full Name: Jane Doe" ++ nl) "jane.doe" "mail.example" "com"
           (nl ++ "Issue: the start button does not work" ++ nl ++ "Thank you")).
  - reflexivity.
  - cbn. repeat constructor; by eexists.
  - vm_compute. reflexivity.
  - vm_compute. reflexivity.
  - vm_compute. reflexivity.
  - vm_compute. reflexivity.
Defined.

(** ** The reply to a form

    The composition of the extractor on a Gmail message (the base64url
    body of [Reply.v], the address field above), the classifier and the
    composer ([processMessage] of [Pipeline.v]) and the dispatcher
    against the faultless account of [Gmail.v]. *)

(** The extractor on a support form delivered as Gmail delivers it. *)
Lemma extractInfo_form m pl s pre local dom tld post :
  msg_payload m = Some pl -> Forall (fun h => is_Some (h_name h)) (default [] (pl_headers pl)) ->
  pl_data pl = Some (base64url s) -> trim s = pre ++ email_label ++ addr_of local dom tld ++ post ->
  address_ok local dom tld = true -> stops true c_addr post = true ->
  email_free pre (email_label ++ addr_of local dom tld ++ post) = true ->
  exists t, extractInfo m = inr t /\ candidateEmail t = addr_of local dom tld /\ threadId t = msg_threadId m.
Proof.
  intros Hm Hh Hd Hb Hok Hp Hfree.
  assert (Hs : s <> "") by (intros ->; apply (f_equal String.length) in Hb; rewrite !string_length_app in Hb; cbn in Hb; lia).
  destruct (extractInfo_fields m pl Hm Hh) as (t & E & Ht & He & _ & Hth & _). exists t.
  split; [done |]. split; [| done].
  rewrite He, Ht, (resolveBody_base64url pl s Hd Hs), Hb, first_capture_form by done. apply js_or_truthy_l.
  unfold address_ok in Hok. repeat (apply andb_prop in Hok as [Hok ?]). unfold addr_of. by destruct local.
Qed.

Section Form.
Context `{svc : ReasoningService} (cfg : config).

(** C13: a support form is answered at the address written in it: for a
    message whose body Gmail delivers as the base64url encoding of a form
    with the field [Candidate Email ID: local@dom.tld] (with the
    conditions of [extractInfo_reads_email_field]), processed against an
    account where no call fails, the message is marked read; classified
    [NO] it gets no reply, and classified [YES] it gets exactly one, in its
    own thread, whose header opens with [To: local@dom.tld]. *)
Theorem form_reply_to_field_address mb m pl s pre local dom tld post mb' o :
  msg_payload m = Some pl -> Forall (fun h => is_Some (h_name h)) (default [] (pl_headers pl)) ->
  pl_data pl = Some (base64url s) -> trim s = pre ++ email_label ++ addr_of local dom tld ++ post ->
  address_ok local dom tld = true -> stops true c_addr post = true ->
  email_free pre (email_label ++ addr_of local dom tld ++ post) = true ->
  processMessage (api := gmail_model no_faults) cfg mb m = (mb', o) ->
  mb_unread mb' = mb_unread mb ∖ {[msg_id m]} /\
  exists t, extractInfo m = inr t /\
    (classify_ticket cfg t = NO -> mb_sent mb' = mb_sent mb) /\
    (classify_ticket cfg t = YES -> exists r, mb_sent mb' = app (mb_sent mb) [r] /\
       sr_threadId r = thread_param (msg_threadId m) /\
       split_first "010"%char (decodeBase64 (sr_raw r)) = "To: " ++ addr_of local dom tld).
Proof.
  intros Hm Hh Hd Hb Hok Hp Hfree Hpm.
  destruct (extractInfo_form m pl s pre local dom tld post) as (t & Ex & He & Hth); [done .. |].
  destruct (processMessage_no_faults cfg mb m t mb' o Ex Hpm) as [Hu Hc]. split; [done |].
  exists t. split; [done |]. split.
  - intros Hno. destruct Hc as [(_ & _ & Hs) | (Hy & _)]; [done | congruence].
  - intros Hyes. destruct Hc as [(Hn & _) | (_ & _ & msg & _ & Hs & Hto)]; [congruence |].
    eexists. rewrite Hs, <- He, <- Hth. split; [done | split; [done | exact Hto]].
Qed.

End Form.

(** The form of [Fields.v] as Gmail delivers it, in an account holding
    it unread. *)
Definition gmail_form : message := {|
  msg_id := "m7"; msg_threadId := Some "t7";
  msg_payload := Some {|
    pl_headers := Some [Header (Some "From") (Some "Support Form <forms@x.com>");
                        Header (Some "Subject") (Some "Assessment issue")];
    pl_data := Some (base64url form_body);
    pl_parts := None |} |}.

Definition form_mailbox : mailbox := Mailbox [gmail_form] {["m7"]} [].

Lemma form_reply_to_field_address_witness :
  let res := processMessage (api := gmail_model no_faults) (svc := yes_service) demo_cfg form_mailbox gmail_form in
  mb_unread res.1 = mb_unread form_mailbox ∖ {[msg_id gmail_form]} /\
  exists t, extractInfo gmail_form = inr t /\
    (classify_ticket (svc := yes_service) demo_cfg t = NO -> mb_sent res.1 = mb_sent form_mailbox) /\
    (classify_ticket (svc := yes_service) demo_cfg t = YES -> exists r, mb_sent res.1 = app (mb_sent form_mailbox) [r] /\
       sr_threadId r = thread_param (msg_threadId gmail_form) /\
       split_first "010"%char (decodeBase64 (sr_raw r)) = "To: " ++ addr_of "jane.doe" "mail.example" "com").
Proof.
  cbv zeta.
  apply (form_reply_to_field_address demo_cfg form_mailbox gmail_form
           (default (Payload None None None) (msg_payload gmail_form)) form_body
           ("Candidate Full Name: Jane Doe" ++ nl) "jane.doe" "mail.example" "com"
           (nl ++ "Issue: the start button does not work" ++ nl ++ "Thank you")
           _ (processMessage (api := gmail_model no_faults) (svc := yes_service) demo_cfg form_mailbox gmail_form).2).
  - reflexivity.
  - cbn. repeat constructor; by eexists.
  - reflexivity.
  - vm_compute. reflexivity.
  - vm_compute. reflexivity.
  - vm_compute. reflexivity.
  - vm_compute. reflexivity.
  - apply surjective_pairing.
Defined.
