(* ===== verification/Issue.v ===== *)
(** * Reading the issue back from a support form

    [extractInfo] takes the issue description from the body with
    [/Issue[:\s]+(.+?)(?=\s*(?:Thank\s+you|$))/i] ([re_issue],
    [src/extractor.js] lines 113-118).  The capture is lazy: the matcher
    tries the shortest text first and stops at the first point where the
    look-ahead sees blanks and [Thank you], or the end of the body.  [.]
    does not match a line break, and [$] without the [m] flag is the end
    of the body only.  This file proves that a field closed by
    [Thank you] is read back whole, and that a field followed by a line
    break and any other text is lost: the issue is then empty. *)

From Stdlib Require Import Ascii String.
From stdpp Require Import base list strings.
From Stdlib Require Import Lia.
From S2P Require Import Prelude Regex Base64 Extractor Fields.

Open Scope string_scope.

(** ** The pieces of [re_issue] *)

Definition issue_label : string := "Issue: ".

(** The look-ahead [(?=\s*(?:Thank\s+you|$))]. *)
Definition issue_ahead : re :=
  Cat (star c_space) (Alt (cats [lit "Thank"; plus c_space; lit "you"]) EOI).

Lemma re_issue_parts :
  rx re_issue = cats [lit "Issue"; plus c_colon_space; Grp (plus_lazy c_dot); Ahead issue_ahead].
Proof. reflexivity. Qed.

Lemma space_cls c : is_space c = true -> cls_match true c_space c = true.
Proof. revert c. apply forall_ascii_impl. by vm_compute. Qed.

Lemma cls_space c : cls_match true c_space c = true -> is_space c = true.
Proof. revert c. apply forall_ascii_impl. by vm_compute. Qed.

Lemma no_crlf_dot c : no_crlf c = true -> cls_match true c_dot c = true.
Proof. revert c. apply forall_ascii_impl. by vm_compute. Qed.

Lemma all_cls_chars_eq ic k s : all_cls ic k s = all_chars (cls_match ic k) s.
Proof. induction s as [| c s IH]; [done |]. cbn. by rewrite IH. Qed.

(** A lazy quantifier yields the result of the smallest count that
    succeeds. *)
Lemma first_some_lazy {B} (f : nat -> option B) lo n m y :
  lo <= m <= n -> (forall j, lo <= j < m -> f j = None) -> f m = Some y ->
  first_some f (rep_counts lo n false) = Some y.
Proof.
  intros Hm Hlt Hf. unfold rep_counts.
  replace (S n - lo) with ((m - lo) + (1 + (n - m))) by lia.
  rewrite !seq_app, !first_some_app.
  rewrite first_some_none; [| intros j Hj%in_seq; apply Hlt; lia].
  replace (lo + (m - lo)) with m by lia. cbn. by rewrite Hf.
Qed.

(** A pattern without a group passes the capture register on
    unchanged. *)
Fixpoint no_grp (r : re) : bool :=
  match r with
  | Grp _ => false
  | Cat r1 r2 | Alt r1 r2 => no_grp r1 && no_grp r2
  | Ahead r1 => no_grp r1
  | _ => true
  end.

Lemma mt_no_grp ic r :
  no_grp r = true -> forall s cap k res, mt ic r s cap k = Some res -> exists t, k t cap = Some res.
Proof.
  induction r as [| c | cl | r1 IH1 r2 IH2 | r1 IH1 r2 IH2 | cl lo hi g | r1 IH | r1 IH |];
    cbn [no_grp mt]; intros Hg s cap k res H; try done.
  - eauto.
  - destruct s as [| x s]; [done |]. destruct (char_eq ic c x); [eauto | done].
  - destruct s as [| x s]; [done |]. destruct (cls_match ic cl x); [eauto | done].
  - apply andb_prop in Hg as [G1 G2]. destruct (IH1 G1 _ _ _ _ H) as [u Hu]. exact (IH2 G2 _ _ _ _ Hu).
  - apply andb_prop in Hg as [G1 G2]. destruct (mt ic r1 s cap k) eqn:E1.
    + injection H as ->. exact (IH1 G1 _ _ _ _ E1).
    + exact (IH2 G2 _ _ _ _ H).
  - apply first_some_Some in H as (j & _ & Hk). eauto.
  - destruct (mt ic r1 s cap _) as [[t1 c1] |] eqn:E; [| done].
    destruct (IH Hg _ _ _ _ E) as (t & [= <- <-]). eauto.
  - destruct s; [eauto | done].
Qed.

(** ** The look-ahead *)

(** What a match of the look-ahead reads: blanks, then [Thank] or the
    end of the body. *)
Lemma ahead_inv u t :
  matches true issue_ahead u t ->
  exists n, all_cls true c_space (stake n u) = true /\
    (prefix_ci true "Thank" (sdrop n u) = true \/ sdrop n u = "").
Proof.
  unfold issue_ahead. intros H. inversion H as [| | | ? ? ? u1 ? H1 H2 | | | | | |]; subst.
  apply matches_rep_inv in H1 as (n & _ & _ & Hsp & ->). exists n. split; [done |].
  inversion H2 as [| | | | ? ? ? ? H3 | ? ? ? ? H3 | | | |]; subst.
  - left. inversion H3 as [| | | ? ? ? u2 ? H4 _ | | | | | |]; subst.
    by apply (matches_lit_inv true "Thank") in H4 as [? _].
  - right. by inversion H3.
Qed.

(** A point of a string before its end is not its end. *)
Lemma sdrop_nonempty s p : p < String.length s -> String.eqb (sdrop p s) "" = false.
Proof.
  intros Hp. apply String.eqb_neq. intros He. apply (f_equal String.length) in He.
  rewrite sdrop_length in He. cbn in He. lia.
Qed.

(** Blanks read from a point [j] of a text whose last character is not
    blank end inside the text: when what follows them satisfies [P], so
    does a point of the text from [j] on. *)
Lemma blank_run_word (P : string -> bool) text rest j n :
  (forall p, j <= p < String.length text -> P (sdrop p (text ++ rest)) = false) ->
  trim text = text -> j < String.length text ->
  all_cls true c_space (stake n (sdrop j (text ++ rest))) = true ->
  P (sdrop n (sdrop j (text ++ rest))) = true -> False.
Proof.
  intros Hno Htr Hj Hsp Hp. rewrite sdrop_sdrop in Hp.
  destruct (trim_fixed_last text Htr ltac:(intros ->; cbn in Hj; lia)) as (s0 & c & Ht & Hc).
  destruct (decide (j + n < String.length text)) as [Hlt | Hge]; [rewrite Hno in Hp; [done | lia] |].
  assert (Hl : String.length text = S (String.length s0)) by (rewrite Ht, string_length_app; cbn; lia).
  assert (Hat : sdrop (String.length s0 - j) (sdrop j (text ++ rest)) = String c rest).
  { rewrite sdrop_sdrop, Ht. replace (j + (String.length s0 - j)) with (String.length s0) by lia.
    rewrite <- string_app_assoc. apply sdrop_app. }
  pose proof (all_cls_at _ _ _ _ (String.length s0 - j) c rest Hsp ltac:(lia) Hat) as Hsc.
  apply cls_space in Hsc. congruence.
Qed.

(** Inside a text whose last character is not blank and in which no
    [Thank] begins from [j] on, the look-ahead fails at [j]. *)
Lemma ahead_fails text rest j t :
  (forall p, j <= p < String.length text -> prefix_ci true "Thank" (sdrop p (text ++ rest)) = false) ->
  trim text = text -> j < String.length text -> ~ matches true issue_ahead (sdrop j (text ++ rest)) t.
Proof.
  intros Hno Htr Hj Hm. apply ahead_inv in Hm as (n & Hsp & Hend).
  apply (blank_run_word (fun s => prefix_ci true "Thank" s || String.eqb s "") text rest j n); try done.
  - intros p Hp. rewrite Hno, sdrop_nonempty by (rewrite ?string_length_app; lia). done.
  - destruct Hend as [-> | ->]; [done | apply orb_true_r].
Qed.

(** Blanks read from a line break followed by a word end at the word:
    when what follows them satisfies [P], the line break or the word
    does. *)
Lemma blank_run_nl (P : string -> bool) rest n :
  stops true c_space rest = true -> P (nl ++ rest) = false -> P rest = false ->
  all_cls true c_space (stake n (nl ++ rest)) = true -> P (sdrop n (nl ++ rest)) = true -> False.
Proof.
  intros Hs H0 H1 Hsp Hp. change (nl ++ rest) with (String "010" rest) in *.
  destruct n as [| [| n]]; cbn [sdrop] in Hp; [congruence | congruence |].
  destruct rest as [| c r]; [cbn [sdrop] in Hp; congruence |]. cbn [stops] in Hs. cbn [stake all_cls] in Hsp.
  apply andb_prop in Hsp as [_ Hsp]. apply andb_prop in Hsp as [Hc _]. by rewrite Hc in Hs.
Qed.

(** At a line break followed by a word other than [Thank], the
    look-ahead fails. *)
Lemma ahead_fails_nl rest t :
  stops true c_space rest = true -> rest <> "" -> prefix_ci true "Thank" rest = false ->
  ~ matches true issue_ahead (nl ++ rest) t.
Proof.
  intros Hs Hne Hp Hm. apply ahead_inv in Hm as (n & Hsp & Hend).
  apply (blank_run_nl (fun s => prefix_ci true "Thank" s || String.eqb s "") rest n); try done.
  - by rewrite Hp; destruct rest.
  - destruct Hend as [-> | ->]; [done | apply orb_true_r].
Qed.

(** [(?=\s*(?:Thank\s+you|$))] on blanks and [Thank you]. *)
Lemma ahead_thank ws post cap kk y :
  all_chars is_space ws = true -> kk post cap = Some y ->
  mt true issue_ahead (ws ++ "Thank you" ++ post) cap kk = Some y.
Proof.
  intros Hws Hk. unfold issue_ahead. cbn [mt]. unfold star. rewrite mt_rep_greedy.
  rewrite run_len_app; [| exact (all_chars_impl _ _ ws space_cls Hws) | reflexivity].
  apply (first_some_greedy _ 0 _ (String.length ws)); [lia | intros; lia |]. cbv beta.
  rewrite sdrop_app. change ("Thank you" ++ post) with ("Thank" ++ (" " ++ ("you" ++ post))).
  cbn [cats mt]. rewrite mt_lit_self, (mt_plus_exact _ _ " " ("you" ++ post) _ _ y); [done .. |].
  cbn [mt]. by rewrite mt_lit_self.
Qed.

(** ** A field closed by [Thank you] *)

Lemma issue_run text ws post :
  text <> "" -> trim text = text -> stops true c_colon_space text = true -> all_chars no_crlf text = true ->
  all_chars is_space ws = true -> word_free "Thank" text (ws ++ "Thank you" ++ post) = true ->
  run true (rx re_issue) (issue_label ++ text ++ ws ++ "Thank you" ++ post) =
    Some (ws ++ "Thank you" ++ post, Some text).
Proof.
  intros Hne Htr Hst Hcr Hws Hth. set (R := ws ++ "Thank you" ++ post).
  unfold run. rewrite re_issue_parts. cbn [cats].
  change (issue_label ++ text ++ R) with ("Issue" ++ (": " ++ (text ++ R))).
  cbn [mt]. rewrite mt_lit_self. apply mt_plus_exact; [done | done | by destruct text |].
  cbn [mt plus_lazy cap_hi]. apply (first_some_lazy _ 1 _ (String.length text)).
  - split; [destruct text; [done | cbn; lia] |]. apply run_len_spec. rewrite string_length_app.
    split; [lia |]. rewrite stake_app_sdrop, all_cls_chars_eq. exact (all_chars_impl _ _ _ no_crlf_dot Hcr).
  - intros j Hj. cbn [mt]. destruct (mt _ issue_ahead _ _ _) as [r |] eqn:E; [exfalso | done].
    apply mt_sound in E as (t & c & Hm & _). revert Hm. apply ahead_fails; [| done | lia].
    intros p Hp. by apply word_free_at; [| lia].
  - cbn [mt]. rewrite sdrop_app. subst R. rewrite (ahead_thank ws post _ _ (post, _) Hws eq_refl).
    do 3 f_equal. rewrite string_length_app, Nat.add_sub. apply stake_app_sdrop.
Qed.

(** A pattern that begins with a literal fails where the literal does
    not begin. *)
Lemma run_lit_first ic w r s : prefix_ci ic w s = false -> run ic (Cat (lit w) r) s = None.
Proof.
  intros Hp. destruct (run ic (Cat (lit w) r) s) as [[t c] |] eqn:E; [exfalso | done].
  apply run_sound in E. inversion E as [| | | ? ? ? u1 ? H1 _ | | | | | |]; subst.
  apply matches_lit_inv in H1 as [H1 _]. congruence.
Qed.

(** Positions where no [Issue] begins are skipped. *)
Lemma issue_free_run s : prefix_ci true "Issue" s = false -> run true (rx re_issue) s = None.
Proof. intros Hp. rewrite re_issue_parts. cbn [cats]. by apply run_lit_first. Qed.

(** [exec] fails when no position admits a match. *)
Lemma exec_from_none p i s :
  rx_anchored p = false -> (forall j, j <= String.length s -> run (rx_icase p) (rx p) (sdrop j s) = None) ->
  exec_from p i s = None.
Proof.
  intros Han. revert i. induction s as [| x s IH]; intros i H; cbn [exec_from].
  - pose proof (H 0 ltac:(cbn; lia)) as H0. cbn [sdrop] in H0. by rewrite H0, Han.
  - pose proof (H 0 ltac:(cbn; lia)) as H0. cbn [sdrop] in H0. rewrite H0, Han.
    apply IH. intros j Hj. apply (H (S j)). cbn. lia.
Qed.

(** C30: the issue of a support form closed by [Thank you] is read back
    whole: when the trimmed body is some text without the word [Issue],
    the label [Issue: ], a one-line description (not blank at either end,
    not beginning with a colon, without the word [Thank]), blanks and
    [Thank you], [extractInfo] succeeds and its issue is the description:
    the lazy capture stops at the first [Thank you] and not before. *)
Theorem extractInfo_reads_issue_field m pl pre text ws post :
  msg_payload m = Some pl -> Forall (fun h => is_Some (h_name h)) (default [] (pl_headers pl)) ->
  trim (resolveBody pl) = pre ++ issue_label ++ text ++ ws ++ "Thank you" ++ post ->
  text <> "" -> trim text = text -> stops true c_colon_space text = true -> all_chars no_crlf text = true ->
  all_chars is_space ws = true ->
  word_free "Issue" pre (issue_label ++ text ++ ws ++ "Thank you" ++ post) = true ->
  word_free "Thank" text (ws ++ "Thank you" ++ post) = true ->
  exists t, extractInfo m = inr t /\ issue t = text.
Proof.
  intros Hm Hh Hb Hne Htr Hst Hcr Hws Hi Hth.
  destruct (extractInfo_fields m pl Hm Hh) as (t & E & Ht & _ & Hiss & _). exists t. split; [done |].
  rewrite Hiss, Ht, Hb. unfold exec. rewrite exec_from_skip; [| done |].
  - rewrite (exec_from_here re_issue _ _ _ _ (issue_run text ws post Hne Htr Hst Hcr Hws Hth)). exact Htr.
  - intros j Hj. apply issue_free_run. by apply word_free_at.
Qed.

(** ** A field followed by a line break *)

(** Where a match of [[:\s]+(.+?)(?=...)] must end on a field followed
    by a line break: the capture [(.+?)] cannot pass the line break, so
    the look-ahead is tried at a point of the field or at the line
    break. *)
Lemma field_tail_inv (ahead : re) text rest t :
  text <> "" -> stops true c_colon_space text = true ->
  matches true (Cat (plus c_colon_space) (Cat (Grp (plus_lazy c_dot)) (Ahead ahead))) (": " ++ text ++ nl ++ rest) t ->
  exists q t', q <= String.length text /\ matches true ahead (sdrop q (text ++ nl ++ rest)) t'.
Proof.
  intros Hne Hst Hm.
  inversion Hm as [| | | ? ? ? u2 ? H3 H4 | | | | | |]; subst.
  apply matches_rep_inv in H3 as (n1 & Hn1 & _ & Hc1 & ->).
  inversion H4 as [| | | ? ? ? u3 ? H5 H6 | | | | | |]; subst.
  inversion H5 as [| | | | | | | ? ? ? H7 | |]; subst.
  apply matches_rep_inv in H7 as (n2 & Hn2 & _ & Hc2 & ->).
  inversion H6 as [| | | | | | | | ? ? t' H8 |]; subst.
  assert (Hn1' : n1 <= 2).
  { destruct (decide (n1 <= 2)) as [| Hgt]; [done | exfalso]. destruct text as [| c0 tx]; [done |].
    pose proof (all_cls_at _ _ _ _ 2 c0 (tx ++ nl ++ rest) Hc1 ltac:(lia) eq_refl) as Hc.
    cbn [stops] in Hst. by rewrite Hc in Hst. }
  rewrite sdrop_sdrop in H8. exists (n1 + n2 - 2), t'.
  replace (n1 + n2) with (String.length ": " + (n1 + n2 - 2)) in H8 by (cbn; lia).
  rewrite sdrop_app_add in H8. split; [| done].
  destruct (decide (n1 + n2 - 2 <= String.length text)) as [| Hgt]; [done | exfalso].
  assert (Hat : sdrop (2 + String.length text - n1) (sdrop n1 (": " ++ text ++ nl ++ rest)) = String "010" rest).
  { rewrite sdrop_sdrop. replace (n1 + (2 + String.length text - n1)) with (String.length ": " + String.length text) by (cbn; lia).
    rewrite sdrop_app_add. apply sdrop_app. }
  pose proof (all_cls_at _ _ _ _ (2 + String.length text - n1) _ _ Hc2 ltac:(lia) Hat) as Hc.
  by vm_compute in Hc.
Qed.

Lemma issue_label_inv text rest t :
  text <> "" -> stops true c_colon_space text = true ->
  matches true (rx re_issue) (issue_label ++ text ++ nl ++ rest) t ->
  exists q t', q <= String.length text /\ matches true issue_ahead (sdrop q (text ++ nl ++ rest)) t'.
Proof.
  intros Hne Hst Hm. rewrite re_issue_parts in Hm. cbn [cats] in Hm.
  inversion Hm as [| | | ? ? ? u1 ? H1 H2 | | | | | |]; subst.
  apply (matches_lit_inv true "Issue") in H1 as [_ ->]. by apply (field_tail_inv issue_ahead text rest t).
Qed.

Lemma issue_lost_run text rest t :
  text <> "" -> trim text = text -> stops true c_colon_space text = true ->
  stops true c_space rest = true -> rest <> "" -> word_free "Thank" (text ++ nl ++ rest) "" = true ->
  ~ matches true (rx re_issue) (issue_label ++ text ++ nl ++ rest) t.
Proof.
  intros Hne Htr Hst Hsp Hre Hth Hm.
  destruct (issue_label_inv text rest t Hne Hst Hm) as (q & t' & Hq & Ha).
  assert (Hno : forall p, p < String.length (text ++ nl ++ rest) ->
                 prefix_ci true "Thank" (sdrop p (text ++ nl ++ rest)) = false).
  { intros p Hp. rewrite <- (string_app_nil_r (text ++ nl ++ rest)). by apply word_free_at. }
  destruct (decide (q < String.length text)) as [Hlt | Hge].
  - revert Ha. apply ahead_fails; [| done | done]. intros p Hp. apply Hno. rewrite string_length_app. lia.
  - replace q with (String.length text) in Ha by lia. rewrite sdrop_app in Ha. revert Ha.
    apply ahead_fails_nl; [done | done |].
    assert (Hr : sdrop (String.length text + 1) (text ++ nl ++ rest) = rest) by (rewrite sdrop_app_add; done).
    rewrite <- Hr. apply Hno.
    rewrite !string_length_app. destruct rest; [done | cbn; lia].
Qed.

(** Between the label and the description no other [Issue] can begin. *)
(** Inside a label none of whose later characters is the first letter
    of [w], no [w] begins (checked by evaluation over the label). *)
Definition starts_free (c0 : ascii) (label : string) : bool :=
  forallb (fun k => match sdrop k label with String c _ => negb (char_eq true c0 c) | EmptyString => false end)
          (seq 1 (String.length label - 1)).

Lemma label_no_word c0 w label x k :
  starts_free c0 label = true -> 1 <= k < String.length label ->
  prefix_ci true (String c0 w) (sdrop k (label ++ x)) = false.
Proof.
  intros H Hk. rewrite sdrop_app_le by lia. unfold starts_free in H. rewrite forallb_forall in H.
  specialize (H k ltac:(apply in_seq; lia)).
  destruct (sdrop k label) as [| c w']; [done |]. apply negb_true_iff in H. cbn [append prefix_ci]. by rewrite H.
Qed.

Lemma label_no_issue k x : 1 <= k < String.length issue_label -> prefix_ci true "Issue" (sdrop k (issue_label ++ x)) = false.
Proof. by apply label_no_word. Qed.

Lemma exec_issue_lost pre text rest :
  text <> "" -> trim text = text -> stops true c_colon_space text = true ->
  stops true c_space rest = true -> rest <> "" ->
  word_free "Issue" pre (issue_label ++ text ++ nl ++ rest) = true ->
  word_free "Issue" (text ++ nl ++ rest) "" = true -> word_free "Thank" (text ++ nl ++ rest) "" = true ->
  exec re_issue (pre ++ issue_label ++ text ++ nl ++ rest) = None.
Proof.
  intros Hne Htr Hst Hsp Hre Hpre Hiss Hth. set (x := text ++ nl ++ rest) in *.
  unfold exec. apply exec_from_none; [done |]. intros j Hj. rewrite string_length_app in Hj.
  destruct (decide (j < String.length pre)) as [Hlt | Hge]; [apply issue_free_run; by apply word_free_at |].
  replace j with (String.length pre + (j - String.length pre)) by lia. rewrite sdrop_app_add.
  destruct (decide (j = String.length pre)) as [-> | Hne'].
  - rewrite Nat.sub_diag. cbn [sdrop]. destruct (run _ _ _) as [[t c] |] eqn:E; [exfalso | done].
    apply run_sound in E. revert E. by apply issue_lost_run.
  - apply issue_free_run. assert (H7 : String.length issue_label = 7) by reflexivity.
    destruct (decide (j - String.length pre < String.length issue_label)).
    + apply label_no_issue. lia.
    + replace (j - String.length pre) with (String.length issue_label + (j - String.length pre - 7)) by lia.
      rewrite sdrop_app_add. destruct (decide (j - String.length pre - 7 < String.length x)).
      * rewrite <- (string_app_nil_r x). by apply word_free_at.
      * rewrite sdrop_ge; [done |]. rewrite string_length_app in Hj. cbn in Hj |- *. lia.
Qed.


(** ** Scenarios *)

Lemma extractInfo_reads_issue_field_witness :
  exists t, extractInfo spec_message = inr t /\ issue t = "start button disable condition".
Proof.
  apply (extractInfo_reads_issue_field spec_message (default (Payload None None None) (msg_payload spec_message))
           "Candidate Full Name: Jane Doe Candidate Email ID: jane@x.com " "start button disable condition" " " "").
  - reflexivity.
  - cbn. repeat constructor; by eexists.
  - vm_compute. reflexivity.
  - discriminate.
  - vm_compute. reflexivity.
  - vm_compute. reflexivity.
  - vm_compute. reflexivity.
  - vm_compute. reflexivity.
  - vm_compute. reflexivity.
  - vm_compute. reflexivity.
Defined.

(** A form whose issue line is followed by a signature. *)
Definition signed_body : string :=
  "Candidate Full Name: Jane Doe" ++ nl ++ "Candidate Email ID: jane@x.com" ++ nl ++
  "Issue: the start button is greyed out" ++ nl ++ "Regards, Jane".

Definition signed_message : message := {|
  msg_id := "m8"; msg_threadId := Some "t8";
  msg_payload := Some {|
    pl_headers := Some [Header (Some "From") (Some "Jane Doe <jane@x.com>");
                        Header (Some "Subject") (Some "Start button")];
    pl_data := Some (b64_encode (utf8_encode signed_body));
    pl_parts := None |} |}.

