(* ===== verification/Name.v ===== *)
(** * Reading the candidate name back from a support form

    [extractInfo] takes the candidate name from the body with
    [/Candidate\s+Full\s+Name[:\s]+(.+?)(?=\s*(?:Candidate\s+(?:Email\s+ID|Phone|Assessment\s+Key)|Subject|Issue)|$)/i]
    ([re_full_name], [src/extractor.js] lines 104-111).  The capture is
    lazy: it ends at the first point where blanks and one of the stop
    words follow, or at the end of the body.  The stop words are looked
    for anywhere, without a word boundary.  This file proves that a name
    field is read back up to the stop word that follows it, which also
    shows that a name with [issue] or [subject] inside is cut there. *)

From Stdlib Require Import Ascii String.
From stdpp Require Import base list strings.
From Stdlib Require Import Lia.
From S2P Require Import Prelude Regex Base64 Extractor Fields Issue.

Open Scope string_scope.

Definition name_label : string := "Candidate Full Name: ".

(** The look-ahead
    [(?=\s*(?:Candidate\s+(?:Email\s+ID|Phone|Assessment\s+Key)|Subject|Issue)|$)]. *)
Definition name_ahead : re :=
  Alt (Cat (star c_space)
           (alts [cats [lit "Candidate"; plus c_space;
                        alts [cats [lit "Email"; plus c_space; lit "ID"]; lit "Phone";
                              cats [lit "Assessment"; plus c_space; lit "Key"]]];
                  lit "Subject"; lit "Issue"]))
      EOI.

Lemma re_full_name_parts :
  rx re_full_name = cats [lit "Candidate"; plus c_space; lit "Full"; plus c_space; lit "Name";
                          plus c_colon_space; Grp (plus_lazy c_dot); Ahead name_ahead].
Proof. reflexivity. Qed.

(** The phrases the look-ahead stops at, written with single blanks. *)
Definition name_stop_words : list string :=
  ["Candidate Email ID"; "Candidate Phone"; "Candidate Assessment Key"; "Subject"; "Issue"].

(** Where a name may end: blanks and a stop phrase (in any case), or the
    end of the body. *)
Definition name_end (ws rest : string) : bool :=
  (all_chars is_space ws && existsb (fun w => prefix_ci true w rest) name_stop_words) ||
  (String.eqb ws "" && String.eqb rest "").

(** ** Matching literals and blanks *)

Lemma lit_matches ic k s : prefix_ci ic k s = true -> matches ic (lit k) s (sdrop (String.length k) s).
Proof.
  intros H. apply matches_lit in H as [t Ht]. pose proof Ht as Ht'.
  apply matches_lit_inv in Ht' as [_ ->]. exact Ht.
Qed.

Lemma prefix_ci_app ic a b s :
  prefix_ci ic (a ++ b) s = true -> prefix_ci ic a s = true /\ prefix_ci ic b (sdrop (String.length a) s) = true.
Proof.
  revert s. induction a as [| c a IH]; intros s H; [done |]. destruct s as [| x s]; [done |].
  cbn [append prefix_ci] in H. apply andb_prop in H as [Hc H]. cbn. rewrite Hc. by apply IH.
Qed.

Lemma blank_ci c : char_eq true " " c = true -> cls_match true c_space c = true.
Proof. revert c. apply (forall_ascii_impl (char_eq true " ")). by vm_compute. Qed.

Lemma blank_matches s b :
  prefix_ci true (String " " b) s = true ->
  matches true (plus c_space) s (sdrop 1 s) /\ prefix_ci true b (sdrop 1 s) = true.
Proof.
  destruct s as [| c s]; [done |]. cbn [prefix_ci]. intros [Hc Hb]%andb_prop. split; [| done].
  apply (m_rep true c_space 1 None true (String c s) 1); [lia | done | cbn; lia |].
  cbn [stake all_cls]. by rewrite blank_ci.
Qed.

(** A word, one blank, then what [r] matches, when the text begins with
    the word, a blank and [b]. *)
Lemma lit_blank_cat a b s r t :
  prefix_ci true (a ++ String " " b) s = true ->
  (prefix_ci true b (sdrop 1 (sdrop (String.length a) s)) = true ->
   matches true r (sdrop 1 (sdrop (String.length a) s)) t) ->
  matches true (Cat (lit a) (Cat (plus c_space) r)) s t.
Proof.
  intros H Hr. apply prefix_ci_app in H as [H1 H]. apply blank_matches in H as [M2 H].
  eapply m_cat; [apply lit_matches, H1 |]. eapply m_cat; [exact M2 | by apply Hr].
Qed.

(** ** The look-ahead *)

Lemma name_ahead_matches ws rest : name_end ws rest = true -> exists t, matches true name_ahead (ws ++ rest) t.
Proof.
  unfold name_end. intros [[Hws Hw]%andb_prop | [He1 He2]%andb_prop]%orb_prop.
  2: { apply String.eqb_eq in He1, He2. subst. exists "". apply m_alt_r. constructor. }
  assert (Hsp : matches true (star c_space) (ws ++ rest) rest).
  { rewrite <- (sdrop_app ws rest) at 2. apply m_rep; [lia | done | rewrite string_length_app; lia |].
    rewrite stake_app_sdrop, all_cls_chars_eq. exact (all_chars_impl _ _ _ space_cls Hws). }
  cut (exists t, matches true (alts [cats [lit "Candidate"; plus c_space;
                        alts [cats [lit "Email"; plus c_space; lit "ID"]; lit "Phone";
                              cats [lit "Assessment"; plus c_space; lit "Key"]]];
                  lit "Subject"; lit "Issue"]) rest t).
  { intros [t Ht]. exists t. apply m_alt_l. by eapply m_cat. }
  unfold name_stop_words in Hw. cbn [existsb] in Hw. setoid_rewrite matches_alts; [| done ..].
  repeat (apply orb_prop in Hw as [Hw | Hw]); try done; eexists.
  - apply Exists_cons_hd, (lit_blank_cat "Candidate" ("Email" ++ String " " "ID")); [exact Hw |].
    intros H. apply matches_alts; [done |]. apply Exists_cons_hd, (lit_blank_cat "Email" "ID"); [exact H |].
    apply lit_matches.
  - apply Exists_cons_hd, (lit_blank_cat "Candidate" "Phone"); [exact Hw |].
    intros H. apply matches_alts; [done |]. by apply Exists_cons_tl, Exists_cons_hd, lit_matches.
  - apply Exists_cons_hd, (lit_blank_cat "Candidate" ("Assessment" ++ String " " "Key")); [exact Hw |].
    intros H. apply matches_alts; [done |]. apply Exists_cons_tl, Exists_cons_tl, Exists_cons_hd.
    apply (lit_blank_cat "Assessment" "Key"); [exact H | apply lit_matches].
  - apply Exists_cons_tl, Exists_cons_hd, lit_matches, Hw.
  - apply Exists_cons_tl, Exists_cons_tl, Exists_cons_hd, lit_matches, Hw.
Qed.

(** What a match of the look-ahead reads: the end of the body, or blanks
    and then [Candidate], [Subject] or [Issue]. *)
Definition name_word (s : string) : bool :=
  prefix_ci true "Candidate" s || prefix_ci true "Subject" s || prefix_ci true "Issue" s.

Lemma name_ahead_inv u t :
  matches true name_ahead u t ->
  u = "" \/ exists n, all_cls true c_space (stake n u) = true /\ name_word (sdrop n u) = true.
Proof.
  unfold name_ahead. inversion 1 as [| | | | ? ? ? ? H1 | ? ? ? ? H1 | | | |]; subst; [right | by inversion H1; left].
  inversion H1 as [| | | ? ? ? u1 ? H2 H3 | | | | | |]; subst.
  apply matches_rep_inv in H2 as (n & _ & _ & Hsp & ->). exists n. split; [done |].
  unfold name_word. inversion H3 as [| | | | ? ? ? ? H4 | ? ? ? ? H4 | | | |]; subst.
  - inversion H4 as [| | | ? ? ? u2 ? H5 _ | | | | | |]; subst.
    by apply (matches_lit_inv true "Candidate") in H5 as [-> _].
  - inversion H4 as [| | | | ? ? ? ? H5 | ? ? ? ? H5 | | | |]; subst.
    + apply (matches_lit_inv true "Subject") in H5 as [-> _]. by rewrite orb_true_r.
    + apply (matches_lit_inv true "Issue") in H5 as [-> _]. apply orb_true_r.
Qed.

(** Inside a name whose last character is not blank and in which no
    stop word begins, the look-ahead fails. *)
Lemma name_ahead_fails name stop j t :
  (forall p, p < String.length name -> name_word (sdrop p (name ++ stop)) = false) ->
  trim name = name -> j < String.length name -> ~ matches true name_ahead (sdrop j (name ++ stop)) t.
Proof.
  intros Hno Htr Hj [He | (n & Hsp & Hw)]%name_ahead_inv.
  - pose proof (sdrop_nonempty (name ++ stop) j ltac:(rewrite string_length_app; lia)) as Hn.
    by rewrite He in Hn.
  - apply (blank_run_word name_word name stop j n); try done. intros p Hp. apply Hno. lia.
Qed.

(** ** A name field *)

Lemma name_run name ws rest :
  name <> "" -> trim name = name -> stops true c_colon_space name = true -> all_chars no_crlf name = true ->
  name_end ws rest = true ->
  (forall p, p < String.length name -> name_word (sdrop p (name ++ ws ++ rest)) = false) ->
  run true (rx re_full_name) (name_label ++ name ++ ws ++ rest) = Some (ws ++ rest, Some name).
Proof.
  intros Hne Htr Hst Hcr Hend Hno. set (R := ws ++ rest) in *.
  assert (HA : mt true name_ahead R (Some name) (fun s1 c1 => Some (s1, c1)) <> None).
  { destruct (name_ahead_matches ws rest Hend) as [t0 Ht0]. by apply (mt_complete _ _ _ _ Ht0). }
  destruct (mt true name_ahead R (Some name) (fun s1 c1 => Some (s1, c1))) as [[t1 c1] |] eqn:EA; [| done].
  destruct (mt_no_grp true name_ahead eq_refl _ _ _ _ EA) as [t' Ht']. injection Ht' as _ <-.
  unfold run. rewrite re_full_name_parts. cbn [cats].
  change (name_label ++ name ++ R) with
    ("Candidate" ++ (" " ++ ("Full" ++ (" " ++ ("Name" ++ (": " ++ (name ++ R))))))).
  cbn [mt]. rewrite mt_lit_self. apply mt_plus_exact; [done .. |].
  cbn [mt]. rewrite mt_lit_self. apply mt_plus_exact; [done .. |].
  cbn [mt]. rewrite mt_lit_self. apply mt_plus_exact; [done | done | by destruct name |].
  cbn [mt plus_lazy cap_hi]. apply (first_some_lazy _ 1 _ (String.length name)).
  - split; [destruct name; [done | cbn; lia] |]. apply run_len_spec. rewrite string_length_app.
    split; [lia |]. rewrite stake_app_sdrop, all_cls_chars_eq. exact (all_chars_impl _ _ _ no_crlf_dot Hcr).
  - intros j Hj. cbn [mt]. destruct (mt true name_ahead (sdrop j (name ++ R)) _ _) as [r |] eqn:E; [exfalso | done].
    apply mt_sound in E as (t & c & Hm & _). revert Hm. apply name_ahead_fails; [done | done | lia].
  - cbn [mt]. rewrite sdrop_app, string_length_app, Nat.add_sub, stake_app_sdrop, EA. reflexivity.
Qed.

Lemma name_free_run s : prefix_ci true "Candidate" s = false -> run true (rx re_full_name) s = None.
Proof. intros Hp. rewrite re_full_name_parts. cbn [cats]. by apply run_lit_first. Qed.


(** The form of a candidate whose surname contains [issue]. *)
Definition tissue_message : message :=
  Message "m3" None (Some (Payload (Some []) (Some (b64_encode "Candidate Full Name: Jane Tissue")) None)).


(** ** A name followed by a line break *)

Lemma lit_cat_inv ic w r s t : matches ic (Cat (lit w) r) (w ++ s) t -> matches ic r s t.
Proof.
  inversion 1 as [| | | ? ? ? u1 ? H1 H2 | | | | | |]; subst.
  apply matches_lit_inv in H1 as [_ ->]. by rewrite sdrop_app in H2.
Qed.

(** [\s+] before a character that is not blank consumes one blank. *)
Lemma plus_cat_inv ic k c d w r t :
  matches ic (Cat (plus k) r) (String c (String d w)) t -> cls_match ic k d = false -> matches ic r (String d w) t.
Proof.
  inversion 1 as [| | | ? ? ? u1 ? H1 H2 | | | | | |]; subst. intros Hd. unfold plus in H1.
  apply matches_rep_inv in H1 as (n & Hn & _ & Hall & ->).
  destruct n as [| [| n]]; [lia | done |]. cbn [stake all_cls] in Hall.
  apply andb_prop in Hall as [_ Hall]. apply andb_prop in Hall as [Hd' _]. congruence.
Qed.

Lemma name_label_inv name rest t :
  name <> "" -> stops true c_colon_space name = true ->
  matches true (rx re_full_name) (name_label ++ name ++ nl ++ rest) t ->
  exists q t', q <= String.length name /\ matches true name_ahead (sdrop q (name ++ nl ++ rest)) t'.
Proof.
  intros Hne Hst Hm. rewrite re_full_name_parts in Hm. cbn [cats] in Hm.
  change (name_label ++ name ++ nl ++ rest) with
    ("Candidate" ++ (" " ++ ("Full" ++ (" " ++ ("Name" ++ (": " ++ (name ++ nl ++ rest))))))) in Hm.
  apply lit_cat_inv, plus_cat_inv in Hm; [| reflexivity].
  apply (lit_cat_inv true "Full"), plus_cat_inv in Hm; [| reflexivity].
  apply (lit_cat_inv true "Name") in Hm. by apply (field_tail_inv name_ahead name rest t).
Qed.

Lemma name_lost_run name rest t :
  name <> "" -> trim name = name -> stops true c_colon_space name = true ->
  stops true c_space rest = true -> rest <> "" -> name_word rest = false ->
  (forall p, p < String.length name -> name_word (sdrop p (name ++ nl ++ rest)) = false) ->
  ~ matches true (rx re_full_name) (name_label ++ name ++ nl ++ rest) t.
Proof.
  intros Hne Htr Hst Hsp Hre Hw Hno Hm. destruct (name_label_inv name rest t Hne Hst Hm) as (q & t' & Hq & Ha).
  destruct (decide (q < String.length name)) as [Hlt | Hge]; [revert Ha; by apply name_ahead_fails |].
  replace q with (String.length name) in Ha by lia. rewrite sdrop_app in Ha.
  apply name_ahead_inv in Ha as [He | (n & Hs & Hn)]; [by destruct rest |].
  by apply (blank_run_nl name_word rest n).
Qed.

(** What a match of [re_full_name] begins with: [Candidate], blanks,
    [Full]. *)
Lemma run_full_name_inv s t c :
  run true (rx re_full_name) s = Some (t, c) -> exists n, prefix_ci true "Full" (sdrop (9 + n) s) = true.
Proof.
  intros H%run_sound. rewrite re_full_name_parts in H. cbn [cats] in H.
  inversion H as [| | | ? ? ? u1 ? H1 H2 | | | | | |]; subst.
  inversion H2 as [| | | ? ? ? u2 ? H3 H4 | | | | | |]; subst.
  inversion H4 as [| | | ? ? ? u3 ? H5 _ | | | | | |]; subst.
  apply (matches_lit_inv true "Candidate") in H1 as [_ ->]. unfold plus in H3.
  apply matches_rep_inv in H3 as (n & _ & _ & _ & ->). apply (matches_lit_inv true "Full") in H5 as [Hf _].
  exists n. by rewrite sdrop_sdrop in Hf.
Qed.

(** Inside the label no other [Candidate] begins. *)
Lemma label_no_candidate k x :
  1 <= k < String.length name_label -> prefix_ci true "Candidate" (sdrop k (name_label ++ x)) = false.
Proof. by apply label_no_word. Qed.

Lemma exec_name_lost pre name rest :
  name <> "" -> trim name = name -> stops true c_colon_space name = true ->
  stops true c_space rest = true -> rest <> "" -> name_word rest = false ->
  (forall p, p < String.length name -> name_word (sdrop p (name ++ nl ++ rest)) = false) ->
  word_free "Candidate" pre (name_label ++ name ++ nl ++ rest) = true ->
  word_free "Full" (name ++ nl ++ rest) "" = true ->
  exec re_full_name (pre ++ name_label ++ name ++ nl ++ rest) = None.
Proof.
  intros Hne Htr Hst Hsp Hre Hw Hno Hpre Hfull. set (x := name ++ nl ++ rest) in *.
  unfold exec. apply exec_from_none; [done |]. intros j Hj. rewrite string_length_app in Hj.
  destruct (decide (j < String.length pre)) as [Hlt | Hge]; [apply name_free_run; by apply word_free_at |].
  replace j with (String.length pre + (j - String.length pre)) by lia. rewrite sdrop_app_add.
  destruct (decide (j = String.length pre)) as [-> | Hne'].
  - rewrite Nat.sub_diag. cbn [sdrop]. destruct (run _ _ _) as [[t c] |] eqn:E; [exfalso | done].
    apply run_sound in E. revert E. by apply name_lost_run.
  - assert (H21 : String.length name_label = 21) by reflexivity.
    destruct (decide (j - String.length pre < String.length name_label)).
    { apply name_free_run, label_no_candidate. lia. }
    replace (j - String.length pre) with (String.length name_label + (j - String.length pre - 21)) by lia.
    rewrite sdrop_app_add. set (k := j - String.length pre - 21).
    destruct (run _ _ _) as [[t c] |] eqn:E; [exfalso | done].
    apply run_full_name_inv in E as [nb Hf]. rewrite sdrop_sdrop in Hf.
    destruct (decide (k + (9 + nb) < String.length x)).
    + rewrite <- (string_app_nil_r x) in Hf. by rewrite word_free_at in Hf.
    + by rewrite sdrop_ge in Hf by lia.
Qed.


(** A web form whose name line is followed by a phone line: the reply
    would greet the form service. *)
Definition phone_body : string :=
  "Candidate Full Name: Jane Doe" ++ nl ++ "Phone: 9876543210" ++ nl ++ "Candidate Email ID: jane@x.com" ++ nl ++
  "Issue: the start button is greyed out" ++ nl ++ "Thank you".

Definition phone_message : message := {|
  msg_id := "m10"; msg_threadId := Some "t10";
  msg_payload := Some {|
    pl_headers := Some [Header (Some "From") (Some "Support Form <forms@x.com>");
                        Header (Some "Subject") (Some "Assessment issue")];
    pl_data := Some (b64_encode (utf8_encode phone_body));
    pl_parts := None |} |}.

